(** * Resume / job-description matching pipeline: a shallow embedding

    The development follows the Python sources module by module:

    - [Py]                 the fragments of Python's runtime the code relies on
                           (exceptions, [round], [min]/[max], [str.strip],
                           [str.split], [str.lower]);
    - [AtsScorer]          [backend/tools/ats_scorer.py] (score fusion);
    - [Np]                 the fragments of numpy the code relies on
                           ([np.dot], [np.linalg.norm]);
    - [SkillComparator]    [backend/tools/skill_comparator.py];
    - [EmbeddingEngine]    [backend/utils/embeddings.py] (cosine similarity);
    - [SemanticMatcher]    [backend/tools/semantic_matcher.py];
    - [AnalyticsEngine]    [backend/models/analytics_engine.py] (logistic score);
    - [Orchestration]      [backend/agents.py] and [backend/orchestration.py];
    - [PyRe]               the regular expressions and string searches the
                           signal functions use;
    - [AtsSignals]         the signal functions and [score_application] of
                           [backend/tools/ats_scorer.py];
    - [ScoringAgent]       [ScoringAgent] of [backend/agents.py];
    - [EmbeddingCache]     the cache of [backend/utils/embeddings.py];
    - [AnalyticsSignals]   the signals of [backend/models/analytics_engine.py];
    - [ResumeParser]       [backend/tools/resume_parser.py].

    The properties follow the definitions.

    Python floats are idealised: exact rationals ([Q]) wherever the code only
    adds, multiplies, divides, compares and rounds, so that those functions
    run inside Rocq; real numbers ([R]) where the code needs a square root
    or an exponential.  A bound or a value of a cosine that rounding can
    miss by an ulp is stated up to a tolerance, or on the rounded number the
    code reports, and for arrays whose scale keeps the doubles away from
    overflow and underflow ([Scaling]).  Strings are sequences of code
    points below 256, on which [str.lower] works character by character. *)

From Stdlib Require Import List String Ascii Bool Arith ZArith Lia DecimalString.
From Stdlib Require Import QArith Qround Qabs Qreals.
From Stdlib Require Import ListSet Permutation.
From Stdlib Require Import Reals Lra.
Import ListNotations.

Set Implicit Arguments.

(* ================================================================== *)
(** * Python runtime fragments *)
(* ================================================================== *)

Module Py.

(** Exceptions the modelled code can meet.  [RuntimeError] stands for any
    exception raised by an external collaborator, with its [str(e)]. *)
Inductive exn : Type :=
| KeyError (key : string)
| TypeError
| ValueError
| IndexError
| ZeroDivisionError
| RuntimeError (msg : string).

(** [str(e)] as far as the pipeline stores it: the message of a
    [RuntimeError], and for a [KeyError] the [repr] of its key (the keys
    looked up here are component names, which [repr] puts between single
    quotes).  The messages of the other exceptions depend on their operands
    and are not followed: the name of the class stands for them. *)
Definition str_of_exn (e : exn) : string :=
  match e with
  | KeyError k => String.append "'" (String.append k "'")
  | TypeError => "TypeError"
  | ValueError => "ValueError"
  | IndexError => "IndexError"
  | ZeroDivisionError => "ZeroDivisionError"
  | RuntimeError m => m
  end.

(** A computation that returns or raises. *)
Inductive result (A : Type) : Type :=
| Ok (a : A)
| Raise (e : exn).

Arguments Ok {A} a.
Arguments Raise {A} e.

Definition bind {A B : Type} (m : result A) (k : A -> result B) : result B :=
  match m with
  | Ok a => k a
  | Raise e => Raise e
  end.

Definition returns {A : Type} (m : result A) : Prop :=
  exists a, m = Ok a.

(** ** Numbers *)

Open Scope Q_scope.

Definition Qltb (a b : Q) : bool :=
  match Qcompare a b with Lt => true | _ => false end.

Definition Qgtb (a b : Q) : bool := Qltb b a.

Definition Qleb (a b : Q) : bool := negb (Qltb b a).

Definition Qeqb (a b : Q) : bool :=
  match Qcompare a b with Eq => true | _ => false end.

(** [max(a, b)] keeps its first argument unless the second is strictly
    greater; [min(a, b)] keeps it unless the second is strictly smaller. *)
Definition py_max (a b : Q) : Q := if Qltb a b then b else a.

Definition py_min (a b : Q) : Q := if Qltb b a then b else a.

(** Rounding to the nearest integer, ties to the even one. *)
Definition round_half_even (q : Q) : Z :=
  let f := Qfloor q in
  match Qcompare (q - inject_Z f) (1 # 2) with
  | Lt => f
  | Gt => (f + 1)%Z
  | Eq => if Z.even f then f else (f + 1)%Z
  end.

Definition pow10 (ndigits : nat) : Q := inject_Z (10 ^ Z.of_nat ndigits).

(** [round(q, ndigits)]. *)
Definition py_round (q : Q) (ndigits : nat) : Q :=
  inject_Z (round_half_even (q * pow10 ndigits)) / pow10 ndigits.

Close Scope Q_scope.

(** ** Characters and strings *)

(** [str.isspace] on one code point below 256: TAB..CR, FS..US, the space,
    NEL (133) and the no-break space (160).  The regular-expression class
    [\s] is the same set. *)
Definition isspace (c : ascii) : bool :=
  let n := nat_of_ascii c in
  ((9 <=? n) && (n <=? 13)) || ((28 <=? n) && (n <=? 32))
  || (n =? 133) || (n =? 160).

(** [str.lower] on one code point below 256: A..Z, and the Latin-1 capitals
    192..222 except the multiplication sign 215. *)
Definition lower_char (c : ascii) : ascii :=
  let n := nat_of_ascii c in
  if ((65 <=? n) && (n <=? 90))
     || ((192 <=? n) && (n <=? 222) && negb (n =? 215))
  then ascii_of_nat (n + 32) else c.

Fixpoint lower (s : string) : string :=
  match s with
  | EmptyString => EmptyString
  | String c s' => String (lower_char c) (lower s')
  end.

Fixpoint lstrip (s : string) : string :=
  match s with
  | EmptyString => EmptyString
  | String c s' => if isspace c then lstrip s' else s
  end.

(** [rstrip] drops the trailing run of white space. *)
Fixpoint rstrip (s : string) : string :=
  match s with
  | EmptyString => EmptyString
  | String c s' =>
      match rstrip s' with
      | EmptyString => if isspace c then EmptyString else String c EmptyString
      | r => String c r
      end
  end.

Definition strip (s : string) : string := rstrip (lstrip s).

(** [s.split()]: maximal runs of non-space characters.  [cur] is the word
    being read, reversed. *)
Fixpoint rev_string (acc s : string) : string :=
  match s with
  | EmptyString => acc
  | String c s' => rev_string (String c acc) s'
  end.

Fixpoint split_ws_aux (cur : string) (s : string) : list string :=
  match s with
  | EmptyString =>
      match cur with
      | EmptyString => []
      | _ => [rev_string EmptyString cur]
      end
  | String c s' =>
      if isspace c then
        match cur with
        | EmptyString => split_ws_aux EmptyString s'
        | _ => rev_string EmptyString cur :: split_ws_aux EmptyString s'
        end
      else split_ws_aux (String c cur) s'
  end.

Definition split_ws (s : string) : list string := split_ws_aux EmptyString s.

(** [sep.join(parts)]. *)
Fixpoint join (sep : string) (parts : list string) : string :=
  match parts with
  | [] => EmptyString
  | [p] => p
  | p :: rest => (p ++ sep ++ join sep rest)%string
  end.

(** A Python [set] of strings, kept as a duplicate-free list. *)
Definition str_set (l : list string) : list string := nodup string_dec l.

Definition str_mem (x : string) (l : list string) : bool :=
  if in_dec string_dec x l then true else false.

Definition set_inter (a b : list string) : list string :=
  filter (fun x => str_mem x b) a.

End Py.

Import Py.

Notation "x <- m ;; k" := (Py.bind m (fun x => k))
  (at level 61, m at next level, right associativity).

(* ================================================================== *)
(** * Score fusion: [backend/tools/ats_scorer.py] *)
(* ================================================================== *)

Module AtsScorer.

Open Scope Q_scope.

(** [_clamp01(x) = max(0.0, min(1.0, float(x)))]. *)
Definition _clamp01 (x : Q) : Q := py_max 0 (py_min 1 x).

(** The [weights] dictionary, in insertion order. *)
Definition Weights : Type := list (string * Q).

Fixpoint dict_get (w : Weights) (k : string) : option Q :=
  match w with
  | [] => None
  | (k', v) :: w' => if string_dec k k' then Some v else dict_get w' k
  end.

(** [weights[k]] raises [KeyError] on a missing key. *)
Definition dict_item (w : Weights) (k : string) : result Q :=
  match dict_get w k with
  | Some v => Ok v
  | None => Raise (KeyError k)
  end.

(** [weights.get(k, d)]. *)
Definition dict_get_default (w : Weights) (k : string) (d : Q) : Q :=
  match dict_get w k with
  | Some v => v
  | None => d
  end.

Definition default_weights : Weights :=
  [ ("semantic"%string, 30 # 100);
    ("skills"%string, 30 # 100);
    ("keywords"%string, 15 # 100);
    ("action_verbs"%string, 8 # 100);
    ("experience"%string, 12 # 100);
    ("formatting"%string, - (5 # 100)) ].

(** [if not weights: weights = {...}]: [None] and the empty dictionary both
    select the defaults. *)
Definition effective_weights (weights : option Weights) : Weights :=
  match weights with
  | None => default_weights
  | Some [] => default_weights
  | Some w => w
  end.

Record Components : Type := mkComponents {
  c_semantic : Q;
  c_skills : Q;
  c_keyword_density : Q;
  c_action_verb_ratio : Q;
  c_experience_relevance : Q;
  c_formatting_penalty : Q
}.

(** One line of [explanations]: the f-string's label and its two numbers. *)
Record Explanation : Type := mkExplanation {
  expl_label : string;
  expl_weight_pct : Q;
  expl_points : Q
}.

Record FuseResult : Type := mkFuseResult {
  components : Components;
  weights_used : Weights;
  final_score : Q;
  final_score_norm : Q;
  explanations : list Explanation;
  suggestions : list string
}.

(** [weights["semantic"] * s_sem + ... + weights["experience"] * s_exp]. *)
Definition positive_sum_of (w : Weights) (s_sem s_ski s_key s_act s_exp : Q)
  : result Q :=
  w_sem <- dict_item w "semantic" ;;
  w_ski <- dict_item w "skills" ;;
  w_key <- dict_item w "keywords" ;;
  w_act <- dict_item w "action_verbs" ;;
  w_exp <- dict_item w "experience" ;;
  Ok (w_sem * s_sem + w_ski * s_ski + w_key * s_key + w_act * s_act
      + w_exp * s_exp).

(** [penalty = max(0.0, weights.get("formatting", 0.0) * s_fmt_pen)]. *)
Definition penalty_of (w : Weights) (s_fmt_pen : Q) : Q :=
  py_max 0 (dict_get_default w "formatting" 0 * s_fmt_pen).

(** [sum(abs(v) for k, v in weights.items() if k != "formatting") or 1]. *)
Definition weight_norm (w : Weights) : Q :=
  let s :=
    fold_left Qplus
      (map (fun kv => Qabs (snd kv))
         (filter (fun kv => negb (String.eqb (fst kv) "formatting")) w)) 0 in
  if Qeqb s 0 then 1 else s.

(** [raw_score = positive_sum + penalty]. *)
Definition raw_score_of (w : Weights)
  (s_sem s_ski s_key s_act s_exp s_fmt_pen : Q) : result Q :=
  positive_sum <- positive_sum_of w s_sem s_ski s_key s_act s_exp ;;
  Ok (positive_sum + penalty_of w s_fmt_pen).

Definition suggestion_skills : string :=
  "Add or highlight missing technical skills that match the JD (see 'missing_skills' in comparison).".
Definition suggestion_keywords : string :=
  "Include more JD keywords (exact phrases) in relevant bullet points, without fabricating experience.".
Definition suggestion_verbs : string :=
  "Use more active verbs (achieved, improved, designed, led) to describe responsibilities and impact.".
Definition suggestion_formatting : string :=
  "Improve formatting: use concise bullets, add section headers, and increase resume length if under 120 words.".
Definition suggestion_experience : string :=
  "Clarify years of experience and emphasize senior-level roles or results if applicable.".

Definition when (b : bool) (s : string) : list string :=
  if b then [s] else [].

Definition fuse_components
  (semantic_score skill_fit_index keyword_density action_verb_ratio
     experience_relevance formatting_penalty : Q)
  (weights : option Weights) : result FuseResult :=
  let weights := effective_weights weights in
  let s_sem := _clamp01 semantic_score in
  let s_ski := _clamp01 skill_fit_index in
  let s_key := _clamp01 keyword_density in
  let s_act := _clamp01 action_verb_ratio in
  let s_exp := _clamp01 experience_relevance in
  let s_fmt_pen := _clamp01 formatting_penalty in
  let c_sem := py_round (s_sem * 100) 2 in
  let c_ski := py_round (s_ski * 100) 2 in
  let c_key := py_round (s_key * 100) 2 in
  let c_act := py_round (s_act * 100) 2 in
  let c_exp := py_round (s_exp * 100) 2 in
  let c_fmt := py_round (s_fmt_pen * 100) 2 in
  raw_score <- raw_score_of weights s_sem s_ski s_key s_act s_exp s_fmt_pen ;;
  let final_norm := _clamp01 (raw_score / weight_norm weights) in
  let final_pct := py_round (final_norm * 100) 2 in
  w_sem <- dict_item weights "semantic" ;;
  w_ski <- dict_item weights "skills" ;;
  w_key <- dict_item weights "keywords" ;;
  w_act <- dict_item weights "action_verbs" ;;
  w_exp <- dict_item weights "experience" ;;
  let explanations :=
    [ mkExplanation "Semantic match contributes" (py_round (w_sem * 100) 1) c_sem;
      mkExplanation "Skill fit contributes" (py_round (w_ski * 100) 1) c_ski;
      mkExplanation "Keyword density contributes" (py_round (w_key * 100) 1) c_key;
      mkExplanation "Action verbs contribute" (py_round (w_act * 100) 1) c_act;
      mkExplanation "Experience relevance contributes" (py_round (w_exp * 100) 1) c_exp ]
    ++ (if Qltb (dict_get_default weights "formatting" 0) 0
        then [ mkExplanation "Formatting penalty (subtracts)"
                 (Qabs (py_round (dict_get_default weights "formatting" 0 * 100) 1))
                 c_fmt ]
        else []) in
  let suggestions :=
    when (Qltb c_ski 60) suggestion_skills
    ++ when (Qltb c_key 50) suggestion_keywords
    ++ when (Qltb c_act 40) suggestion_verbs
    ++ when (Qgtb c_fmt 50) suggestion_formatting
    ++ when (Qltb c_exp 50) suggestion_experience in
  Ok {| components := mkComponents c_sem c_ski c_key c_act c_exp c_fmt;
        weights_used := weights;
        final_score := final_pct;
        final_score_norm := final_norm;
        explanations := explanations;
        suggestions := suggestions |}.

(** Every number a result carries: the six components, the weights, the
    two final scores and the numbers quoted in the explanations. *)
Definition result_numbers (r : FuseResult) : list Q :=
  [ c_semantic (components r); c_skills (components r);
    c_keyword_density (components r); c_action_verb_ratio (components r);
    c_experience_relevance (components r); c_formatting_penalty (components r);
    final_score r; final_score_norm r ]
  ++ map snd (weights_used r)
  ++ map expl_weight_pct (explanations r)
  ++ map expl_points (explanations r).

(** The weighted sum of the five positive signals under the default weights. *)
Definition default_positive_sum (s_sem s_ski s_key s_act s_exp : Q) : Q :=
  (30 # 100) * s_sem + (30 # 100) * s_ski + (15 # 100) * s_key
  + (8 # 100) * s_act + (12 # 100) * s_exp.

(** The formula the specification calls canonical: the five weighted positive
    signals plus the formatting term [-0.05 * clamp(formatting_penalty)],
    divided by the sum of the positive weights, clamped and expressed as a
    percentage (rounded to two decimals like every score of the module). *)
Definition spec_canonical_score
  (semantic_score skill_fit_index keyword_density action_verb_ratio
     experience_relevance formatting_penalty : Q) : Q :=
  let positive :=
    (30 # 100) * _clamp01 semantic_score
    + (30 # 100) * _clamp01 skill_fit_index
    + (15 # 100) * _clamp01 keyword_density
    + (8 # 100) * _clamp01 action_verb_ratio
    + (12 # 100) * _clamp01 experience_relevance in
  let formatting_term := - (5 # 100) * _clamp01 formatting_penalty in
  py_round
    (_clamp01 ((positive + formatting_term)
               / ((30 # 100) + (30 # 100) + (15 # 100) + (8 # 100) + (12 # 100)))
     * 100) 2.

End AtsScorer.

(* ================================================================== *)
(** * numpy fragments: vectors, [np.dot], [np.linalg.norm] *)
(* ================================================================== *)

Module Np.

Open Scope R_scope.

(** A one-dimensional array of floats. *)
Definition vec : Type := list R.

Fixpoint dot_list (a b : list R) : R :=
  match a, b with
  | x :: a', y :: b' => x * y + dot_list a' b'
  | _, _ => 0
  end.

(** [np.dot(a, b)] raises [ValueError] when the shapes are not aligned. *)
Definition dot (a b : vec) : result R :=
  if Nat.eqb (List.length a) (List.length b) then Ok (dot_list a b) else Raise ValueError.

(** [np.linalg.norm(a)] of an array. *)
Definition norm (a : vec) : R := sqrt (dot_list a a).

(** [np.linalg.norm(x)] where [x] may be [None]: [None] becomes a 0-d object
    array whose self product raises [TypeError]. *)
Definition norm_obj (a : option vec) : result R :=
  match a with
  | None => Raise TypeError
  | Some v => Ok (norm v)
  end.

(** [np.dot(a, b)] on objects that may be [None]. *)
Definition dot_obj (a b : option vec) : result R :=
  match a, b with
  | Some v, Some w => dot v w
  | _, _ => Raise TypeError
  end.

(** Division, checked: a zero divisor is made visible as an outcome of its
    own, so that "never divides by zero" is a statement about results. *)
Definition div (x y : R) : result R :=
  if Req_dec_T y 0 then Raise ZeroDivisionError else Ok (x / y).

(** [round(x, ndigits)] on a real, ties to even; the result is a decimal
    fraction. *)
Definition round_half_even_R (x : R) : Z :=
  let f := Int_part x in
  let d := x - IZR f in
  if Rlt_dec d (1 / 2) then f
  else if Rlt_dec (1 / 2) d then (f + 1)%Z
  else if Z.even f then f else (f + 1)%Z.

Definition py_round_R (x : R) (ndigits : nat) : Q :=
  (inject_Z (round_half_even_R (x * IZR (10 ^ Z.of_nat ndigits)))
   / pow10 ndigits)%Q.

(** [l[i]] for [i >= 0]. *)
Definition index {A : Type} (l : list A) (i : nat) : result A :=
  match nth_error l i with
  | Some x => Ok x
  | None => Raise IndexError
  end.

End Np.

(* ================================================================== *)
(** * Skill comparator: [backend/tools/skill_comparator.py] *)
(* ================================================================== *)

Module SkillComparator.

Open Scope Q_scope.

(** The characters [re.sub(r"[^a-z0-9+#\.\- ]", "", x)] keeps. *)
Definition keep_char (c : ascii) : bool :=
  let n := nat_of_ascii c in
  ((97 <=? n)%nat && (n <=? 122)%nat)
  || ((48 <=? n)%nat && (n <=? 57)%nat)
  || (n =? 43)%nat || (n =? 35)%nat || (n =? 46)%nat || (n =? 45)%nat
  || (n =? 32)%nat.

Fixpoint filter_chars (keep : ascii -> bool) (s : string) : string :=
  match s with
  | EmptyString => EmptyString
  | String c s' =>
      if keep c then String c (filter_chars keep s') else filter_chars keep s'
  end.

(** [re.sub(r"\s+", " ", x)]; [in_run] tells that the previous character
    was white space. *)
Fixpoint collapse_ws (in_run : bool) (s : string) : string :=
  match s with
  | EmptyString => EmptyString
  | String c s' =>
      if isspace c then
        if in_run then collapse_ws true s'
        else String " " (collapse_ws true s')
      else String c (collapse_ws false s')
  end.

Definition _normalize (x : string) : string :=
  collapse_ws false (filter_chars keep_char (lower (strip x))).

Definition token_set (x : string) : list string :=
  str_set (split_ws (_normalize x)).

Definition _simple_token_overlap (a b : string) : Q :=
  let aset := token_set a in
  let bset := token_set b in
  match aset, bset with
  | [], _ => 0
  | _, [] => 0
  | _, _ =>
      inject_Z (Z.of_nat (List.length (set_inter aset bset)))
      / inject_Z (Z.of_nat (Nat.max (List.length aset) (List.length bset)))
  end.

(** What the specification describes instead: intersection over union. *)
Definition spec_jaccard_overlap (a b : string) : Q :=
  let aset := token_set a in
  let bset := token_set b in
  match aset, bset with
  | [], _ => 0
  | _, [] => 0
  | _, _ =>
      inject_Z (Z.of_nat (List.length (set_inter aset bset)))
      / inject_Z (Z.of_nat (List.length (str_set (aset ++ bset))))
  end.

(** [_embedding_similarity]: no [None] test, a zero-denominator test. *)
Definition _embedding_similarity (a_emb b_emb : option Np.vec) : result R :=
  na <- Np.norm_obj a_emb ;;
  nb <- Np.norm_obj b_emb ;;
  let denom := (na * nb)%R in
  if Req_dec_T denom 0%R then Ok 0%R
  else d <- Np.dot_obj a_emb b_emb ;; Np.div d denom.

Record Match : Type := mkMatch {
  resume_skill : string;
  jd_skill : option string;
  similarity : Q
}.

Record Missing : Type := mkMissing {
  skill : string;
  suggestion : string
}.

Record CompareResult : Type := mkCompareResult {
  skill_fit_index : Q;
  match_percentage : Q;
  matched_skills : list Match;
  missing_skills : list Missing;
  extra_resume_skills : list string;
  summary : string
}.

(** The two objects both passes mutate: the list [matched] and the set
    [matched_j_idx]. *)
Definition State : Type := (list Match * set nat)%type.

Definition idx_mem (j : nat) (s : set nat) : bool := set_mem Nat.eq_dec j s.
Definition idx_add (j : nat) (s : set nat) : set nat := set_add Nat.eq_dec j s.

Fixpoint enumerate_from {A : Type} (n : nat) (l : list A) : list (nat * A) :=
  match l with
  | [] => []
  | x :: l' => (n, x) :: enumerate_from (S n) l'
  end.

Definition enumerate {A : Type} (l : list A) : list (nat * A) :=
  enumerate_from 0 l.

(** Pass 1, inner loop: [for j, jj in enumerate(jnorm)], entered at
    position [j] with the current [best_j] and [best_sim]. *)
Fixpoint lexical_scan (r : string) (matched_j_idx : set nat)
  (js : list (nat * string)) (best_j : option (nat * string)) (best_sim : Q)
  : option (nat * string) * Q :=
  match js with
  | [] => (best_j, best_sim)
  | (j, jj) :: rest =>
      if idx_mem j matched_j_idx then
        lexical_scan r matched_j_idx rest best_j best_sim
      else
        let sim := _simple_token_overlap r jj in
        let best := if Qgtb sim best_sim then (Some (j, jj), sim)
                    else (best_j, best_sim) in
        if String.eqb r jj then (Some (j, jj), 1)
        else lexical_scan r matched_j_idx rest (fst best) (snd best)
  end.

(** Pass 1, one resume skill: scan, then [if best_j and best_sim > 0.6]. *)
Definition lexical_step (jnorm : list string) (st : State)
  (raw_r norm_r : string) : State :=
  let '(matched, matched_j_idx) := st in
  match lexical_scan norm_r matched_j_idx (enumerate jnorm) None 0 with
  | (Some (j, jj), best_sim) =>
      if Qgtb best_sim (6 # 10) then
        (matched ++ [mkMatch raw_r (Some jj) (py_round best_sim 3)],
         idx_add j matched_j_idx)
      else st
  | (None, _) => st
  end.

(** Pass 1: [for i, r in enumerate(rnorm)]. *)
Definition lexical_pass (rskills jnorm : list string) (st : State) : State :=
  fold_left (fun st raw_r => lexical_step jnorm st raw_r (_normalize raw_r))
    rskills st.

(** [l.index(x)]. *)
Fixpoint list_index (l : list string) (x : string) : option nat :=
  match l with
  | [] => None
  | y :: l' => if String.eqb y x then Some 0%nat
               else option_map S (list_index l' x)
  end.

(** An embedding function: one vector per text, or an exception. *)
Definition EmbedFn : Type := list string -> result (list Np.vec).

(** Pass 2, inner loop over [enumerate(unmatched_j)]. *)
Fixpoint semantic_scan (r_embs j_embs : list Np.vec) (i_r : nat)
  (js : list (nat * string)) (best_j : option string) (best_sim : R)
  : result (option string * R) :=
  match js with
  | [] => Ok (best_j, best_sim)
  | (j_i, j) :: rest =>
      r_emb <- Np.index r_embs i_r ;;
      j_emb <- Np.index j_embs j_i ;;
      sim <- _embedding_similarity (Some r_emb) (Some j_emb) ;;
      if Rlt_dec best_sim sim
      then semantic_scan r_embs j_embs i_r rest (Some j) sim
      else semantic_scan r_embs j_embs i_r rest best_j best_sim
  end.

(** Pass 2, outer loop over [enumerate(unmatched_r)].  The state reached
    when an exception escapes is kept: [matched.append] has already run when
    [jskills.index(best_j)] raises. *)
Fixpoint semantic_loop (jskills : list string) (semantic_threshold : R)
  (r_embs j_embs : list Np.vec) (unmatched_j : list string)
  (rs : list (nat * string)) (st : State) : State * option exn :=
  match rs with
  | [] => (st, None)
  | (i_r, r) :: rest =>
      match semantic_scan r_embs j_embs i_r (enumerate unmatched_j) None 0%R with
      | Raise e => (st, Some e)
      | Ok (best_j, best_sim) =>
          if Rle_dec semantic_threshold best_sim then
            let matched := fst st ++ [mkMatch r best_j (Np.py_round_R best_sim 3)] in
            match best_j with
            | None => ((matched, snd st), Some ValueError)
            | Some j =>
                match list_index jskills j with
                | None => ((matched, snd st), Some ValueError)
                | Some j_index =>
                    semantic_loop jskills semantic_threshold r_embs j_embs
                      unmatched_j rest (matched, idx_add j_index (snd st))
                end
            end
          else
            semantic_loop jskills semantic_threshold r_embs j_embs
              unmatched_j rest st
      end
  end.

Definition unmatched_resume (rskills : list string) (matched : list Match)
  : list string :=
  filter (fun r => forallb (fun m => negb (String.eqb (resume_skill m) r)) matched)
    rskills.

(** A JD position that is not in [matched_j_idx]. *)
Definition is_free {A : Type} (matched_j_idx : set nat) (p : nat * A) : bool :=
  negb (idx_mem (fst p) matched_j_idx).

Definition unmatched_jd (jskills : list string) (matched_j_idx : set nat)
  : list string :=
  map snd (filter (is_free matched_j_idx) (enumerate jskills)).

(** Pass 2 as a whole: [if embed_fn: ... try: ... except Exception: log]. *)
Definition semantic_pass (embed_fn : option EmbedFn) (semantic_threshold : R)
  (rskills jskills : list string) (st : State) : State :=
  match embed_fn with
  | None => st
  | Some f =>
      let unmatched_r := unmatched_resume rskills (fst st) in
      let unmatched_j := unmatched_jd jskills (snd st) in
      let cand_texts := unmatched_r ++ unmatched_j in
      match cand_texts with
      | [] => st
      | _ =>
          match f cand_texts with
          | Raise _ => st
          | Ok embs =>
              let r_embs := firstn (List.length unmatched_r) embs in
              let j_embs := skipn (List.length unmatched_r) embs in
              fst (semantic_loop jskills semantic_threshold r_embs j_embs
                     unmatched_j (enumerate unmatched_r) st)
          end
      end
  end.

Definition nat_to_string (n : nat) : string :=
  DecimalString.NilEmpty.string_of_uint (Nat.to_uint n).

Definition suggestion_for (ms : string) : string :=
  ("Include relevant projects or keywords related to '" ++ ms
   ++ "' (e.g., 'Worked with " ++ ms ++ " to ...')")%string.

(** The state both passes leave behind. *)
Definition final_state (resume_skills jd_skills : list string)
  (embed_fn : option EmbedFn) (semantic_threshold : R) : State :=
  let rskills := resume_skills in
  let jskills := jd_skills in
  let jnorm := map _normalize jskills in
  semantic_pass embed_fn semantic_threshold rskills jskills
    (lexical_pass rskills jnorm ([], empty_set nat)).

Definition compare_skills (resume_skills jd_skills : list string)
  (embed_fn : option EmbedFn) (semantic_threshold : R) : CompareResult :=
  let rskills := resume_skills in
  let jskills := jd_skills in
  let '(matched, matched_j_idx) :=
    final_state resume_skills jd_skills embed_fn semantic_threshold in
  let missing := unmatched_jd jskills matched_j_idx in
  let matched_resumes := map resume_skill matched in
  let extras := filter (fun r => negb (str_mem r matched_resumes)) rskills in
  let match_pct :=
    inject_Z (Z.of_nat (List.length jskills - List.length missing))
    / inject_Z (Z.of_nat (Nat.max 1 (List.length jskills))) in
  let avg_sim :=
    match matched with
    | [] => 0
    | _ => fold_left Qplus (map similarity matched) 0
           / inject_Z (Z.of_nat (List.length matched))
    end in
  let sfi := (7 # 10) * match_pct + (3 # 10) * avg_sim in
  {| skill_fit_index := py_round sfi 4;
     match_percentage := py_round (match_pct * 100) 2;
     matched_skills := matched;
     missing_skills := map (fun ms => mkMissing ms (suggestion_for ms)) missing;
     extra_resume_skills := extras;
     summary := ("Matched " ++ nat_to_string (List.length jskills - List.length missing)
                 ++ " of " ++ nat_to_string (List.length jskills) ++ " JD skills.")%string |}.

(** The invariant of pass 1: the marked positions are distinct and in
    range, and the pairs recorded so far name them one by one, in order,
    by their normalised skill. *)
Definition lexical_inv (jnorm : list string) (st : State) : Prop :=
  NoDup (snd st)
  /\ map jd_skill (fst st) = map (fun j => nth_error jnorm j) (snd st)
  /\ Forall (fun j => (j < List.length jnorm)%nat) (snd st).

(** The invariant both passes keep: every marked position is in range and
    named by a recorded pair, by its normalised or by its raw skill. *)
Definition named_inv (jskills : list string) (st : State) : Prop :=
  forall j, In j (snd st) ->
    exists s, nth_error jskills j = Some s
              /\ exists m, In m (fst st)
                           /\ (jd_skill m = Some (_normalize s)
                               \/ jd_skill m = Some s).

End SkillComparator.

(* ================================================================== *)
(** * Embedding engine: [backend/utils/embeddings.py] *)
(* ================================================================== *)

Module EmbeddingEngine.

(** [EmbeddingEngine.cosine_similarity]. *)
Definition cosine_similarity (vec1 vec2 : option Np.vec) : result R :=
  match vec1, vec2 with
  | None, _ => Ok 0%R
  | _, None => Ok 0%R
  | Some v1, Some v2 =>
      let norm1 := Np.norm v1 in
      let norm2 := Np.norm v2 in
      if Req_dec_T norm1 0%R then Ok 0%R
      else if Req_dec_T norm2 0%R then Ok 0%R
      else d <- Np.dot v1 v2 ;; Np.div d (norm1 * norm2)%R
  end.

End EmbeddingEngine.

(* ================================================================== *)
(** * Semantic matcher: [backend/tools/semantic_matcher.py] *)
(* ================================================================== *)

Module SemanticMatcher.

(** [_cosine]. *)
Definition _cosine (a b : option Np.vec) : result R :=
  match a, b with
  | None, _ => Ok 0%R
  | _, None => Ok 0%R
  | Some va, Some vb =>
      let denom := (Np.norm va * Np.norm vb)%R in
      if Req_dec_T denom 0%R then Ok 0%R
      else d <- Np.dot va vb ;; Np.div d denom
  end.

Definition is_nl (c : ascii) : bool := (nat_of_ascii c =? 10)%nat.
Definition is_cr (c : ascii) : bool := (nat_of_ascii c =? 13)%nat.

(** Does [s] start with at least [n] newlines? *)
Fixpoint starts_with_newlines (n : nat) (s : string) : bool :=
  match n with
  | O => true
  | S n' =>
      match s with
      | String c s' => is_nl c && starts_with_newlines n' s'
      | EmptyString => false
      end
  end.

(** [re.split(r"\n{2,}|\r\n{2,}", text)].  [cur] is the piece being read,
    reversed; [in_sep] tells that a separator is being consumed, which
    greedily takes every following newline. *)
Fixpoint split_paragraphs_aux (cur : string) (in_sep : bool) (s : string)
  : list string :=
  match s with
  | EmptyString => [rev_string EmptyString cur]
  | String c s' =>
      if in_sep && is_nl c then split_paragraphs_aux cur true s'
      else if is_nl c && starts_with_newlines 1 s' then
        rev_string EmptyString cur :: split_paragraphs_aux EmptyString true s'
      else if is_cr c && starts_with_newlines 2 s' then
        rev_string EmptyString cur :: split_paragraphs_aux EmptyString true s'
      else split_paragraphs_aux (String c cur) false s'
  end.

Definition split_paragraphs (text : string) : list string :=
  split_paragraphs_aux EmptyString false text.

Definition is_sentence_end (c : ascii) : bool :=
  let n := nat_of_ascii c in
  (n =? 46)%nat || (n =? 63)%nat || (n =? 33)%nat.

Definition starts_with_space (s : string) : bool :=
  match s with
  | String c _ => isspace c
  | EmptyString => false
  end.

(** [re.split(r"[.?!]\s+", text)]. *)
Fixpoint split_sentences_aux (cur : string) (in_sep : bool) (s : string)
  : list string :=
  match s with
  | EmptyString => [rev_string EmptyString cur]
  | String c s' =>
      if in_sep && isspace c then split_sentences_aux cur true s'
      else if is_sentence_end c && starts_with_space s' then
        rev_string EmptyString cur :: split_sentences_aux EmptyString true s'
      else split_sentences_aux (String c cur) false s'
  end.

Definition split_sentences (text : string) : list string :=
  split_sentences_aux EmptyString false text.

Definition nonblank (p : string) : bool :=
  match strip p with
  | EmptyString => false
  | _ => true
  end.

(** [for i in range(0, len(sents), 3): chunks.append(" ".join(sents[i:i+3]))]. *)
Fixpoint group3 (sents : list string) : list string :=
  match sents with
  | [] => []
  | [a] => [join " " [a]]
  | [a; b] => [join " " [a; b]]
  | a :: b :: c :: rest => join " " [a; b; c] :: group3 rest
  end.

Section Chunking.

(** [nltk.sent_tokenize], an external library function: it returns a list of
    sentences or raises (for instance when its data files are missing).
    The package itself is a dependency of the repository, so [import nltk]
    succeeds. *)
Variable sent_tokenize : string -> result (list string).

Definition _chunk_text_to_paragraphs (text : string) : list string :=
  let parts := split_paragraphs text in
  let parts := map strip (filter nonblank parts) in
  match parts with
  | [] =>
      let sents :=
        match sent_tokenize text with
        | Ok sents => sents
        | Raise _ => split_sentences text
        end in
      match group3 sents with
      | [] => [text]
      | chunks => chunks
      end
  | _ => parts
  end.

(** The deterministic last-resort embedding: a 384-slot vector where
    slot [i mod 384] accumulates [ord(ch) mod 97] over the first 200
    characters. *)
Fixpoint hash_fill (vec : list R) (i : nat) (chars : list ascii) : list R :=
  match chars with
  | [] => vec
  | ch :: rest =>
      let k := (i mod 384)%nat in
      let vec' :=
        firstn k vec
        ++ [(nth k vec 0 + INR (nat_of_ascii ch mod 97))%R]
        ++ skipn (S k) vec in
      hash_fill vec' (S i) rest
  end.

Definition hash_embedding (t : string) : Np.vec :=
  hash_fill (repeat 0%R 384) 0 (firstn 200 (list_ascii_of_string t)).

(** The sentence-transformers model, when the package is installed. *)
Variable sentence_transformer : option (list string -> result (list Np.vec)).

Definition _get_embeddings_for_texts (texts : list string)
  (embed_fn : option SkillComparator.EmbedFn) : result (list Np.vec) :=
  match embed_fn with
  | Some f => f texts
  | None =>
      let fallback := Ok (map hash_embedding texts) in
      match sentence_transformer with
      | Some encode =>
          match encode texts with
          | Ok embs => Ok embs
          | Raise _ => fallback
          end
      | None => fallback
      end
  end.

Record ParagraphScore : Type := mkParagraphScore {
  paragraph : string;
  score : R;
  best_matching_jd_chunk : option string
}.

Record SemanticResult : Type := mkSemanticResult {
  overall_score : R;
  overall_pct : Q;
  paragraph_scores : list ParagraphScore;
  resume_chunks : list string;
  jd_chunks : list string
}.

(** Inner loop: [for j, j_emb in enumerate(j_embs)]. *)
Fixpoint best_match (r_embs : list Np.vec) (i : nat) (jd_chunks : list string)
  (js : list (nat * Np.vec)) (best_score : R) (best_j : option string)
  : result (R * option string) :=
  match js with
  | [] => Ok (best_score, best_j)
  | (j, j_emb) :: rest =>
      r_emb <- Np.index r_embs i ;;
      sc <- _cosine (Some r_emb) (Some j_emb) ;;
      if Rlt_dec best_score sc then
        chunk <- Np.index jd_chunks j ;;
        best_match r_embs i jd_chunks rest sc (Some chunk)
      else best_match r_embs i jd_chunks rest best_score best_j
  end.

(** Outer loop: [for i, r in enumerate(resume_chunks)]; returns
    [paragraph_scores] and [sums]. *)
Fixpoint score_paragraphs (r_embs j_embs : list Np.vec)
  (jd_chunks : list string) (rs : list (nat * string))
  : result (list ParagraphScore * list R) :=
  match rs with
  | [] => Ok ([], [])
  | (i, r) :: rest =>
      b <- best_match r_embs i jd_chunks (SkillComparator.enumerate j_embs) 0%R None ;;
      tl <- score_paragraphs r_embs j_embs jd_chunks rest ;;
      Ok (mkParagraphScore r (fst b) (snd b) :: fst tl, fst b :: snd tl)
  end.

(** [max(1, len(p.split()))]. *)
Definition chunk_weight (p : string) : nat :=
  Nat.max 1 (List.length (split_ws p)).

(** [zip(sums, weights)], summed from 0. *)
Fixpoint weighted_sum (sums : list R) (weights : list nat) : R :=
  match sums, weights with
  | s :: sums', w :: weights' => (s * INR w + weighted_sum sums' weights')%R
  | _, _ => 0%R
  end.

(** [overall = (weighted_sum / sum(weights)) if weights else 0.0]. *)
Definition overall_of (sums : list R) (chunks : list string) : result R :=
  let weights := map chunk_weight chunks in
  match weights with
  | [] => Ok 0%R
  | _ => Np.div (weighted_sum sums weights) (INR (list_sum weights))
  end.

Definition semantic_similarity_resume_jd (resume_text jd_text : string)
  (embed_fn : option SkillComparator.EmbedFn) : result SemanticResult :=
  let resume_chunks := _chunk_text_to_paragraphs resume_text in
  let jd_chunks := _chunk_text_to_paragraphs jd_text in
  let texts := resume_chunks ++ jd_chunks in
  embs <- _get_embeddings_for_texts texts embed_fn ;;
  let r_embs := firstn (List.length resume_chunks) embs in
  let j_embs := skipn (List.length resume_chunks) embs in
  ps <- score_paragraphs r_embs j_embs jd_chunks
          (SkillComparator.enumerate resume_chunks) ;;
  overall <- overall_of (snd ps) resume_chunks ;;
  Ok {| overall_score := overall;
        overall_pct := Np.py_round_R (overall * 100) 2;
        paragraph_scores := fst ps;
        resume_chunks := resume_chunks;
        jd_chunks := jd_chunks |}.

End Chunking.

(** ** Reference values for the matcher's scores *)

(** The cosine of two arrays as a number: 0 when a norm vanishes. *)
Definition cosine_of (a b : Np.vec) : R :=
  if Req_dec_T (Np.norm a * Np.norm b) 0%R then 0%R
  else (Np.dot_list a b / (Np.norm a * Np.norm b))%R.

(** The best match of one resume chunk: the largest cosine over the JD
    chunks, and never less than the 0.0 the search starts from. *)
Definition floored_best (r_emb : Np.vec) (j_embs : list Np.vec) : R :=
  fold_left (fun best j_emb => Rmax best (cosine_of r_emb j_emb)) j_embs 0%R.

(** The mean of [values] weighted by [weights]. *)
Definition weighted_mean (values : list R) (weights : list nat) : R :=
  (weighted_sum values weights / INR (list_sum weights))%R.

End SemanticMatcher.

(* ================================================================== *)
(** * Analytics engine: [backend/models/analytics_engine.py] *)
(* ================================================================== *)

Module AnalyticsEngine.

Open Scope R_scope.

Record Weights : Type := mkWeights {
  w_semantic : R;
  w_keyword : R;
  w_structure : R;
  w_action : R
}.

Definition _DEFAULT_WEIGHTS : Weights :=
  mkWeights (35 / 100) (30 / 100) (20 / 100) (15 / 100).

(** The weighted combination [raw] of the four normalised signals. *)
Definition raw_of (weights : Weights)
  (semantic_score keyword_overlap struct_score action_score : R) : R :=
  let sem_norm := semantic_score / 100 in
  let kw_norm := keyword_overlap / 100 in
  let struct_norm := struct_score / 100 in
  let action_norm := action_score / 100 in
  sem_norm * w_semantic weights
  + kw_norm * w_keyword weights
  + struct_norm * w_structure weights
  + action_norm * w_action weights.

(** [100.0 / (1.0 + exp(-(raw / 0.25 - 2.0)))]. *)
Definition sigmoid (raw : R) : R :=
  100 / (1 + exp (- (raw / (25 / 100) - 2))).

Inductive Interpretation : Type :=
| Excellent
| Good
| Moderate
| Poor.

Definition _score_interpretation (score : R) : Interpretation :=
  if Rle_dec 80 score then Excellent
  else if Rle_dec 60 score then Good
  else if Rle_dec 40 score then Moderate
  else Poor.

Record AtsScore : Type := mkAtsScore {
  score : Q;
  comp_semantic : Q;
  comp_keyword_overlap : Q;
  comp_structure : Q;
  comp_action_verbs : Q;
  weights_used : Weights;
  interpretation : Interpretation
}.

Section Engine.

(** The two sibling methods [ats_score] calls on the resume text. *)
Variable structure_score : string -> R.
Variable action_verbs_score : string -> R.

Definition ats_score (resume_text jd_text : string)
  (semantic_score keyword_overlap : R) (weights : option Weights) : AtsScore :=
  let weights := match weights with None => _DEFAULT_WEIGHTS | Some w => w end in
  let struct_score := structure_score resume_text in
  let action_score := action_verbs_score resume_text in
  let raw := raw_of weights semantic_score keyword_overlap struct_score action_score in
  let final_score := sigmoid raw in
  {| score := Np.py_round_R final_score 2;
     comp_semantic := Np.py_round_R semantic_score 2;
     comp_keyword_overlap := Np.py_round_R keyword_overlap 2;
     comp_structure := Np.py_round_R struct_score 2;
     comp_action_verbs := Np.py_round_R action_score 2;
     weights_used := weights;
     interpretation := _score_interpretation final_score |}.

End Engine.

End AnalyticsEngine.

(* ================================================================== *)
(** * Agents and orchestration: [backend/agents.py], [backend/orchestration.py] *)
(* ================================================================== *)

Module Orchestration.

(** The JSON-like values the agents exchange and the engine assembles. *)
#[warnings="-register-all"] Inductive Json : Type :=
| JNull
| JNum (q : Q)
| JInt (n : nat)
| JStr (s : string)
| JList (l : list Json)
| JDict (d : list (string * Json)).

Definition Dict : Type := list (string * Json).

Fixpoint dict_lookup (d : Dict) (k : string) : option Json :=
  match d with
  | [] => None
  | (k', v) :: d' => if String.eqb k k' then Some v else dict_lookup d' k
  end.

(** [d[k] = v]: replace in place, or append a new key. *)
Fixpoint dict_set (d : Dict) (k : string) (v : Json) : Dict :=
  match d with
  | [] => [(k, v)]
  | (k', v') :: d' =>
      if String.eqb k k' then (k, v) :: d' else (k', v') :: dict_set d' k v
  end.

(** [d["meta"][k] = v]. *)
Definition meta_set (d : Dict) (k : string) (v : Json) : Dict :=
  match dict_lookup d "meta" with
  | Some (JDict m) => dict_set d "meta" (JDict (dict_set m k v))
  | _ => d
  end.

Inductive ResumeInput : Type :=
| Path (p : string)
| Uploaded (file : Json).

(** The external collaborators: for every agent, the body of its [try]
    block, a computation that returns a payload or raises; and the write
    of the result file. *)
Record Tools : Type := mkTools {
  resume_tools : ResumeInput -> result Json;
  jd_tools : string -> result Json;
  matcher_tools : Json -> string -> result Json;
  scoring_tools : Json -> Json -> Json -> result Json;
  optimizer_tools : Json -> Json -> result Json;
  write_json : string -> Dict -> result unit
}.

(** The agents the engine holds as attributes. *)
Record Agents : Type := mkAgents {
  resume_agent_process : ResumeInput -> result Json;
  jd_agent_process : string -> result Json;
  matcher_agent_match : Json -> string -> result Json;
  scoring_agent_score : Json -> Json -> Json -> result Json;
  optimizer_agent_optimize : Json -> Json -> result Json
}.

Section WithTools.

Variable tools : Tools.

(** [ResumeAgent.process]: logs and re-raises. *)
Definition ResumeAgent_process (resume_input : ResumeInput) : result Json :=
  match resume_tools tools resume_input with
  | Ok parsed => Ok parsed
  | Raise e => Raise e
  end.

(** [JDAnalyzerAgent.process]: a failure becomes a degraded payload. *)
Definition JDAnalyzerAgent_process (jd_text : string) : result Json :=
  match jd_tools tools jd_text with
  | Ok parsed => Ok parsed
  | Raise e =>
      Ok (JDict [("requirements"%string, JDict []);
                 ("parsed_skills"%string, JList []);
                 ("error"%string, JStr (str_of_exn e))])
  end.

(** [MatcherAgent.match]. *)
Definition MatcherAgent_match (resume_data : Json) (jd_text : string)
  : result Json :=
  match matcher_tools tools resume_data jd_text with
  | Ok m => Ok m
  | Raise e =>
      Ok (JDict [("semantic"%string, JDict []);
                 ("skill_comparator"%string, JDict []);
                 ("error"%string, JStr (str_of_exn e))])
  end.

(** [ScoringAgent.score]. *)
Definition ScoringAgent_score (resume_data jd_data matcher_result : Json)
  : result Json :=
  match scoring_tools tools resume_data jd_data matcher_result with
  | Ok s => Ok s
  | Raise e =>
      Ok (JDict [("ats"%string, JDict [("final_score"%string, JInt 0)]);
                 ("raw_signals"%string, JDict []);
                 ("error"%string, JStr (str_of_exn e))])
  end.

(** [OptimizationAgent.optimize]. *)
Definition OptimizationAgent_optimize (resume_data jd_data : Json)
  : result Json :=
  match optimizer_tools tools resume_data jd_data with
  | Ok optimized => Ok optimized
  | Raise e => Ok (JDict [("error"%string, JStr (str_of_exn e))])
  end.

(** What [OrchestrationEngine.__init__] builds. *)
Definition default_agents : Agents :=
  {| resume_agent_process := ResumeAgent_process;
     jd_agent_process := JDAnalyzerAgent_process;
     matcher_agent_match := MatcherAgent_match;
     scoring_agent_score := ScoringAgent_score;
     optimizer_agent_optimize := OptimizationAgent_optimize |}.

(** [await asyncio.gather(a, b)]: both results, or the exception of a
    task that raised. *)
Definition gather {A B : Type} (a : result A) (b : result B) : result (A * B) :=
  match a, b with
  | Ok x, Ok y => Ok (x, y)
  | Raise e, _ => Raise e
  | _, Raise e => Raise e
  end.

Definition opt_json (o : option string) : Json :=
  match o with
  | Some s => JStr s
  | None => JNull
  end.

(** The [except Exception as e] branch of [run]. *)
Definition on_error (result : Dict) (e : exn) (elapsed_s : Q) : Dict :=
  let result := dict_set result "status" (JStr "error") in
  let result := dict_set result "error" (JStr (str_of_exn e)) in
  meta_set result "elapsed_s" (JNum elapsed_s).

(** The [try] block of [run] together with its handler: the dictionary
    [result] as it stands when the saving step is reached. *)
Definition run_pipeline (agents : Agents) (resume_path : ResumeInput)
  (jd_text : string) (target_role : option string)
  (started_at : nat) (elapsed_s : Q) : Dict :=
  let result : Dict :=
    [("meta"%string,
      JDict [("started_at"%string, JInt started_at);
             ("target_role"%string, opt_json target_role)])] in
  match gather (resume_agent_process agents resume_path)
               (jd_agent_process agents jd_text) with
  | Raise e => on_error result e elapsed_s
  | Ok (resume_data, jd_data) =>
      let result := dict_set result "resume" resume_data in
      let result := dict_set result "jd" jd_data in
      let run_matcher := matcher_agent_match agents resume_data jd_text in
      let run_optimizer :=
        match optimizer_agent_optimize agents resume_data jd_data with
        | Ok optimized => Ok optimized
        | Raise _ => Ok JNull
        end in
      match gather run_matcher run_optimizer with
      | Raise e => on_error result e elapsed_s
      | Ok (matcher, optimized) =>
          let result := dict_set result "matcher" matcher in
          let result := dict_set result "optimized_resume" optimized in
          match scoring_agent_score agents resume_data jd_data matcher with
          | Raise e => on_error result e elapsed_s
          | Ok score =>
              let result := dict_set result "ats" score in
              let result := meta_set result "elapsed_s" (JNum elapsed_s) in
              dict_set result "status" (JStr "success")
          end
      end
  end.

(** [OrchestrationEngine.run]: the pipeline, then the best-effort save. *)
Definition run (agents : Agents) (results_dir : string)
  (resume_path : ResumeInput) (jd_text : string) (target_role : option string)
  (save_result : bool) (started_at : nat) (elapsed_s : Q) : Dict :=
  let result :=
    run_pipeline agents resume_path jd_text target_role started_at elapsed_s in
  if save_result then
    let filename :=
      ("resumate_result_" ++ SkillComparator.nat_to_string started_at ++ ".json")%string in
    let path := (results_dir ++ "/" ++ filename)%string in
    match write_json tools path result with
    | Ok _ => meta_set result "result_path" (JStr path)
    | Raise _ => result
    end
  else result.

End WithTools.

(** ** Two sample worlds *)

(** Tools for a run in which only the optimization fails. *)
Definition tools_failing_optimizer : Tools :=
  {| resume_tools := fun _ => Ok (JDict [("raw_text"%string, JStr "Python developer")]);
     jd_tools := fun _ => Ok (JDict [("requirements"%string, JDict [])]);
     matcher_tools := fun _ _ => Ok (JDict [("semantic"%string, JDict [])]);
     scoring_tools := fun _ _ _ => Ok (JDict [("ats"%string, JDict [])]);
     optimizer_tools := fun _ _ => Raise (RuntimeError "LLM unavailable");
     write_json := fun _ _ => Ok tt |}.

(** Tools for a run in which the resume cannot be read. *)
Definition tools_failing_resume : Tools :=
  {| resume_tools := fun _ => Raise (RuntimeError "unreadable file");
     jd_tools := fun _ => Ok (JDict [("requirements"%string, JDict [])]);
     matcher_tools := fun _ _ => Ok (JDict [("semantic"%string, JDict [])]);
     scoring_tools := fun _ _ _ => Ok (JDict [("ats"%string, JDict [])]);
     optimizer_tools := fun _ _ => Ok (JDict [("optimized_resume"%string, JStr "text")]);
     write_json := fun _ _ => Ok tt |}.

End Orchestration.

(* ================================================================== *)
(** * Arrays within the range of double precision *)
(* ================================================================== *)

Module Scaling.

(** An array on which the double-precision evaluation of a cosine stays
    within rounding error of the exact one: it has at most a million
    entries, and its norm is 0 or lies between 1e-100 and 1e100, so that no
    product overflows and no product of two norms underflows. *)
Definition well_scaled (v : Np.vec) : Prop :=
  (Z.of_nat (List.length v) <= 10 ^ 6)%Z
  /\ (Np.norm v = 0 \/ / 10 ^ 100 <= Np.norm v <= 10 ^ 100)%R.

(** The rounding error allowed for on a cosine of well-scaled arrays and
    on a mean of such cosines. *)
Definition tolerance : R := (/ 10 ^ 6)%R.

End Scaling.

(* ================================================================== *)
(** * Invariants of the semantic matcher *)
(* ================================================================== *)

Module SemanticInvariants.

(** A reported best chunk and a positive score go together. *)
Definition chunk_consistent (jd_chunks : list string) (best_score : R)
  (best_j : option string) : Prop :=
  (best_j = None /\ best_score = 0%R)
  \/ (exists c, best_j = Some c /\ In c jd_chunks /\ (0 < best_score)%R).

End SemanticInvariants.

(* ================================================================== *)
(** * Vocabulary for statements about strings *)
(* ================================================================== *)

Module StrFacts.

(** Does the string hold a character that is not white space? *)
Fixpoint has_visible (s : string) : bool :=
  match s with
  | EmptyString => false
  | String c s' => negb (isspace c) || has_visible s'
  end.

(** A blank line, ["\n\n"]: what a paragraph separator always contains. *)
Definition blank_line : string :=
  String (ascii_of_nat 10) (String (ascii_of_nat 10) EmptyString).

(** Every character of the string satisfies [p]. *)
Fixpoint all_chars (p : ascii -> bool) (s : string) : bool :=
  match s with
  | EmptyString => true
  | String c s' => p c && all_chars p s'
  end.

(** The string has two white-space characters in a row. *)
Fixpoint has_double_space (s : string) : bool :=
  match s with
  | String c ((String c' _) as s') =>
      (isspace c && isspace c') || has_double_space s'
  | _ => false
  end.

(** The last character, if any. *)
Fixpoint last_char (s : string) : option ascii :=
  match s with
  | EmptyString => None
  | String c EmptyString => Some c
  | String _ s' => last_char s'
  end.

End StrFacts.

(* ================================================================== *)
(** * Invariants of the skill comparator *)
(* ================================================================== *)

Module ComparatorInvariants.

Import SkillComparator.


(** The pair pass 1 records for a resume skill that is found as it stands
    among the JD skills. *)
Definition exact_match (s : string) : Match :=
  mkMatch s (Some (_normalize s)) (py_round 1 3).

End ComparatorInvariants.

(* ================================================================== *)
(** * Regular-expression and string fragments used by the signal functions *)
(* ================================================================== *)

Module PyRe.

Definition in_range (lo hi : nat) (c : ascii) : bool :=
  let n := nat_of_ascii c in (lo <=? n)%nat && (n <=? hi)%nat.

Definition is_code (k : nat) (c : ascii) : bool := (nat_of_ascii c =? k)%nat.

(** [\d] on a code point below 256. *)
Definition isdigit (c : ascii) : bool := in_range 48 57 c.

(** [\w] on a code point below 256: digits, letters, the underscore and the
    Latin-1 letters and numeric signs Python counts as alphanumeric. *)
Definition isword (c : ascii) : bool :=
  in_range 48 57 c || in_range 65 90 c || is_code 95 c || in_range 97 122 c
  || is_code 170 c || is_code 178 c || is_code 179 c || is_code 181 c
  || is_code 185 c || is_code 186 c || in_range 188 190 c
  || in_range 192 214 c || in_range 216 246 c || in_range 248 255 c.

Fixpoint starts_with (prefix s : string) : bool :=
  match prefix, s with
  | EmptyString, _ => true
  | String a prefix', String b s' => Ascii.eqb a b && starts_with prefix' s'
  | String _ _, EmptyString => false
  end.

(** [sub in s]. *)
Fixpoint contains (sub s : string) : bool :=
  starts_with sub s
  || match s with
     | EmptyString => false
     | String _ s' => contains sub s'
     end.

(** [re.split(r"[...]+", s)] for a character class [sep]: the pieces
    between maximal runs of separators.  [cur] is the piece being read,
    reversed. *)
Fixpoint split_runs_aux (sep : ascii -> bool) (cur : string) (in_sep : bool)
  (s : string) : list string :=
  match s with
  | EmptyString => [rev_string EmptyString cur]
  | String c s' =>
      if sep c then
        if in_sep then split_runs_aux sep cur true s'
        else rev_string EmptyString cur :: split_runs_aux sep EmptyString true s'
      else split_runs_aux sep (String c cur) false s'
  end.

Definition split_runs (sep : ascii -> bool) (s : string) : list string :=
  split_runs_aux sep EmptyString false s.

(** [len(re.findall(r"[...]+", s))] for a character class [p]: the number
    of maximal runs. *)
Fixpoint count_runs (p : ascii -> bool) (in_run : bool) (s : string) : nat :=
  match s with
  | EmptyString => O
  | String c s' =>
      if p c then
        if in_run then count_runs p true s' else S (count_runs p true s')
      else count_runs p false s'
  end.

(** [s.lstrip(chars)], [s.rstrip(chars)] and [s.strip(chars)] for a set of
    characters [p]. *)
Fixpoint lstrip_by (p : ascii -> bool) (s : string) : string :=
  match s with
  | EmptyString => EmptyString
  | String c s' => if p c then lstrip_by p s' else s
  end.

Fixpoint rstrip_by (p : ascii -> bool) (s : string) : string :=
  match s with
  | EmptyString => EmptyString
  | String c s' =>
      match rstrip_by p s' with
      | EmptyString => if p c then EmptyString else String c EmptyString
      | r => String c r
      end
  end.

Definition strip_by (p : ascii -> bool) (s : string) : string :=
  rstrip_by p (lstrip_by p s).

Definition head_is (p : ascii -> bool) (s : string) : bool :=
  match s with
  | String c _ => p c
  | EmptyString => false
  end.

(** The string after [prefix], when it starts with it. *)
Fixpoint drop_prefix (prefix s : string) : option string :=
  match prefix, s with
  | EmptyString, _ => Some s
  | String a prefix', String b s' =>
      if Ascii.eqb a b then drop_prefix prefix' s' else None
  | String _ _, EmptyString => None
  end.

(** [\b] after a word character: the end of the text or a non-word
    character follows. *)
Definition boundary_after (rest : string) : bool := negb (head_is isword rest).

(** [re.search(r"\b(w1|w2|...)\b", s)] for words that start and end with a
    word character; [prev_word] tells that the previous character is a word
    character. *)
Fixpoint search_words (words : list string) (prev_word : bool) (s : string)
  : bool :=
  (negb prev_word
   && existsb (fun w => match drop_prefix w s with
                        | Some rest => boundary_after rest
                        | None => false
                        end) words)
  || match s with
     | EmptyString => false
     | String c s' => search_words words (isword c) s'
     end.

(** The length of the leading run of characters that satisfy [p]. *)
Fixpoint span_len (p : ascii -> bool) (s : string) : nat :=
  match s with
  | String c s' => if p c then S (span_len p s') else O
  | EmptyString => O
  end.

(** [s[n:]] and [s[:n]]. *)
Fixpoint drop (n : nat) (s : string) : string :=
  match n, s with
  | S n', String _ s' => drop n' s'
  | _, _ => s
  end.

Fixpoint take (n : nat) (s : string) : string :=
  match n, s with
  | S n', String c s' => String c (take n' s')
  | _, _ => EmptyString
  end.

(** [s.find(sub)] counted from [i], for a non-empty [sub]: the index of
    the first occurrence. *)
Fixpoint find_aux (sub : string) (i : nat) (s : string) : option nat :=
  if starts_with sub s then Some i
  else match s with
       | EmptyString => None
       | String _ s' => find_aux sub (S i) s'
       end.

Definition find (sub s : string) : option nat := find_aux sub 0 s.

(** [s.find(sub, start)]. *)
Definition find_from (sub : string) (start : nat) (s : string) : option nat :=
  find_aux sub start (drop start s).

End PyRe.

(* ================================================================== *)
(** * Signal functions of [backend/tools/ats_scorer.py] *)
(* ================================================================== *)

Module AtsSignals.

Import PyRe AtsScorer.

Open Scope Q_scope.

Definition nonblank (p : string) : bool :=
  match strip p with
  | EmptyString => false
  | _ => true
  end.

Definition ratio (n m : nat) : Q :=
  inject_Z (Z.of_nat n) / inject_Z (Z.of_nat m).

(** ** [compute_keyword_density] *)

(** The separators of [_JD_KEYWORD_SPLIT_RE = r"[^\w+#\.\-]+"]. *)
Definition keyword_sep (c : ascii) : bool :=
  negb (isword c || is_code 43 c || is_code 35 c || is_code 46 c || is_code 45 c).

(** [freq[t] = freq.get(t, 0) + 1] on a dictionary in insertion order. *)
Fixpoint freq_add (freq : list (string * nat)) (t : string) : list (string * nat) :=
  match freq with
  | [] => [(t, 1%nat)]
  | (k, n) :: freq' =>
      if String.eqb k t then (k, S n) :: freq' else (k, n) :: freq_add freq' t
  end.

(** One insertion of the stable sort by decreasing count: [x] was before
    every element of [l] and stays before those of equal count. *)
Fixpoint insert_desc (x : string * nat) (l : list (string * nat))
  : list (string * nat) :=
  match l with
  | [] => [x]
  | y :: l' =>
      if (snd x <? snd y)%nat then y :: insert_desc x l' else x :: l
  end.

(** [sorted(freq.items(), key=lambda x: x[1], reverse=True)]. *)
Definition sort_desc (l : list (string * nat)) : list (string * nat) :=
  fold_right insert_desc [] l.

(** The keywords derived from the JD text: the 30 most frequent tokens of
    more than one character. *)
Definition derived_keywords (jd_text : string) : list string :=
  let tokens :=
    map lower
      (filter (fun t => (1 <? String.length t)%nat)
         (split_runs keyword_sep jd_text)) in
  let freq := fold_left freq_add tokens [] in
  map fst (firstn 30 (sort_desc freq)).

Definition keyword_found (rt kw : string) : bool :=
  nonblank kw && contains (lower kw) rt.

Definition compute_keyword_density (resume_text jd_text : string)
  (jd_keywords : option (list string)) : Q :=
  let jd_keywords :=
    match jd_keywords with
    | Some (k :: ks) => k :: ks
    | _ => derived_keywords jd_text
    end in
  match jd_keywords with
  | [] => 0
  | _ =>
      let rt := lower resume_text in
      let found := List.length (filter (keyword_found rt) jd_keywords) in
      _clamp01 (ratio found (List.length jd_keywords))
  end.

(** ** [compute_action_verb_ratio] *)

Definition _ACTION_VERBS : list string :=
  [ "achieved"; "improved"; "reduced"; "increased"; "developed"; "designed";
    "built"; "led"; "managed"; "created"; "launched"; "delivered";
    "optimized"; "implemented"; "engineered"; "streamlined"; "orchestrated";
    "spearheaded"; "coordinated"; "advised" ]%string.

(** The separators of [r"[.?!\n]+"]. *)
Definition sentence_sep (c : ascii) : bool :=
  is_code 46 c || is_code 63 c || is_code 33 c || is_code 10 c.

(** The characters of [".,;:()"]. *)
Definition punct (c : ascii) : bool :=
  is_code 46 c || is_code 44 c || is_code 59 c || is_code 58 c
  || is_code 40 c || is_code 41 c.

(** [words & _ACTION_VERBS] is not empty. *)
Definition has_action_verb (s : string) : bool :=
  existsb (fun w => str_mem (strip_by punct (lower w)) _ACTION_VERBS) (split_ws s).

Definition compute_action_verb_ratio (resume_text : string) : Q :=
  let sents := split_runs sentence_sep resume_text in
  match sents with
  | [] => 0
  | _ =>
      let hit := List.length (filter has_action_verb sents) in
      _clamp01 (ratio hit (List.length sents))
  end.

(** ** [compute_formatting_penalty] *)

Definition is_nl (c : ascii) : bool := is_code 10 c.

(** [re.split(r"\n{2,}", text)]. *)
Fixpoint split_blank_aux (cur : string) (in_sep : bool) (s : string)
  : list string :=
  match s with
  | EmptyString => [rev_string EmptyString cur]
  | String c s' =>
      if in_sep && is_nl c then split_blank_aux cur true s'
      else if is_nl c && head_is is_nl s' then
        rev_string EmptyString cur :: split_blank_aux EmptyString true s'
      else split_blank_aux (String c cur) false s'
  end.

Definition split_blank (text : string) : list string :=
  split_blank_aux EmptyString false text.

(** The bullet markers of [r"^[\-\*•]\s+"] that exist below code point
    256: the hyphen and the asterisk. *)
Definition is_bullet (c : ascii) : bool := is_code 45 c || is_code 42 c.

(** [len(re.findall(r"^[\-\*•]\s+", text, flags=re.MULTILINE))]: the
    line starts that hold a bullet marker followed by white space. *)
Fixpoint count_bullets (line_start : bool) (s : string) : nat :=
  match s with
  | EmptyString => O
  | String c s' =>
      ((if line_start && is_bullet c && head_is isspace s' then 1 else 0)
       + count_bullets (is_nl c) s')%nat
  end.

Definition base_penalty (nwords : nat) : Q :=
  if (nwords <? 120)%nat then 7 # 10
  else if (nwords <? 250)%nat then 3 # 10
  else 0.

Definition long_paragraph_penalty (paragraphs : list string) : Q :=
  match paragraphs with
  | [] => 0
  | _ =>
      let avg_len :=
        ratio (list_sum (map String.length paragraphs)) (List.length paragraphs) in
      if Qgtb avg_len 1000 then 4 # 10
      else if Qgtb avg_len 400 then 2 # 10
      else 0
  end.

Definition bullet_penalty (bullets : nat) : Q :=
  if (bullets <? 3)%nat then 2 # 10 else 0.

Definition compute_formatting_penalty (resume_text : string) : Q :=
  let text := strip resume_text in
  match text with
  | EmptyString => 1
  | _ =>
      let words := count_runs isword false text in
      let base_pen := base_penalty words in
      let paragraphs := filter nonblank (split_blank text) in
      let long_para_pen := long_paragraph_penalty paragraphs in
      let bullets := count_bullets true text in
      let bullet_pen := bullet_penalty bullets in
      _clamp01 (base_pen + long_para_pen + bullet_pen)
  end.

(** ** [compute_experience_relevance] *)

Fixpoint take_digits (acc : N) (s : string) : N * string :=
  match s with
  | String c s' =>
      if isdigit c
      then take_digits (acc * 10 + N.of_nat (nat_of_ascii c - 48))%N s'
      else (acc, s)
  | EmptyString => (acc, s)
  end.

(** The default of [sys.get_int_max_str_digits()]. *)
Definition int_max_str_digits : nat := 4300.

(** [int(digits)] on a string of decimal digits: [ValueError] when the
    string has more digits than the interpreter converts. *)
Definition int_of_digits (digits : string) : result N :=
  if (int_max_str_digits <? String.length digits)%nat then Raise ValueError
  else Ok (fst (take_digits 0 digits)).

(** [r"(\d+)\+?\s*(years|yrs|year)"] matched at the start of [s]: group 1,
    when the match succeeds. *)
Definition match_years_here (s : string) : option string :=
  if head_is isdigit s then
    let digits := take (span_len isdigit s) s in
    let rest := drop (span_len isdigit s) s in
    let rest := match rest with
                | String c rest' => if is_code 43 c then rest' else rest
                | EmptyString => rest
                end in
    let rest := lstrip rest in
    if starts_with "years" rest || starts_with "yrs" rest || starts_with "year" rest
    then Some digits else None
  else None.

(** [re.search(r"(\d+)\+?\s*(years|yrs|year)", s)]: group 1 of the first
    match. *)
Fixpoint search_years (s : string) : option string :=
  match match_years_here s with
  | Some digits => Some digits
  | None =>
      match s with
      | EmptyString => None
      | String _ s' => search_years s'
      end
  end.

(** [_extract_years]: the first match of the pattern, read as an integer. *)
Definition _extract_years (s : string) : result (option N) :=
  match search_years s with
  | Some digits => n <- int_of_digits digits ;; Ok (Some n)
  | None => Ok None
  end.

Definition seniority_words : list string :=
  [ "senior"; "lead"; "principal"; "manager"; "director" ]%string.

(** [re.search(r"\b(senior|lead|principal|manager|director)\b", s)]. *)
Definition mentions_seniority (s : string) : bool :=
  search_words seniority_words false s.

Definition four_digits_here (s : string) : bool :=
  match s with
  | String a (String b (String c (String d rest))) =>
      isdigit a && isdigit b && isdigit c && isdigit d && boundary_after rest
  | _ => false
  end.

(** [re.search(r"\b(years?|\d{4})\b", s)]. *)
Fixpoint mentions_years_or_date (prev_word : bool) (s : string) : bool :=
  (negb prev_word
   && ((match drop_prefix "years" s with
        | Some rest => boundary_after rest
        | None => false
        end)
       || (match drop_prefix "year" s with
           | Some rest => boundary_after rest
           | None => false
           end)
       || four_digits_here s))
  || match s with
     | EmptyString => false
     | String c s' => mentions_years_or_date (isword c) s'
     end.

(** [if req_years:] and [if res_years:] take 0 for "no years stated". *)
Definition truthy_years (y : option N) : option N :=
  match y with
  | Some 0%N => None
  | _ => y
  end.

Definition compute_experience_relevance (resume_text jd_text : string)
  : result Q :=
  let resume_lower := lower resume_text in
  let jd_lower := lower jd_text in
  req_years <- _extract_years jd_lower ;;
  res_years <- _extract_years resume_lower ;;
  let score :=
    match truthy_years req_years with
    | Some req =>
        match truthy_years res_years with
        | Some res =>
            if (req <=? res)%N then 1
            else _clamp01 ((1 # 2) + (1 # 2)
                           * (inject_Z (Z.of_N res) / inject_Z (Z.of_N req)))
        | None => if mentions_seniority resume_lower then 9 # 10 else 1 # 2
        end
    | None =>
        if mentions_seniority jd_lower then
          if mentions_seniority resume_lower then 8 # 10 else 4 # 10
        else if mentions_years_or_date false resume_lower then 75 # 100
        else 45 # 100
    end in
  Ok (_clamp01 score).

(** A JD that asks for a number of years written with 4301 digits. *)
Fixpoint nines (n : nat) : string :=
  match n with
  | O => EmptyString
  | S n' => String "9" (nines n')
  end.

Definition sample_long_years : string :=
  String.append (nines 4301) " years".

(** ** [score_application] *)

Record RawSignals : Type := mkRawSignals {
  raw_semantic_score : Q;
  raw_skill_fit_index : Q;
  raw_keyword_density : Q;
  raw_action_verb_ratio : Q;
  raw_experience_relevance : Q;
  raw_formatting_penalty : Q
}.

Record Application : Type := mkApplication {
  ats : FuseResult;
  raw_signals : RawSignals
}.

Definition score_application (resume_text jd_text : string)
  (semantic_score skill_fit_index : Q) (jd_keywords : option (list string))
  (weights : option Weights) : result Application :=
  let kd := compute_keyword_density resume_text jd_text jd_keywords in
  let av := compute_action_verb_ratio resume_text in
  exp_rel <- compute_experience_relevance resume_text jd_text ;;
  let fmt_pen := compute_formatting_penalty resume_text in
  fused <- fuse_components semantic_score skill_fit_index kd av exp_rel fmt_pen
             weights ;;
  Ok {| ats := fused;
        raw_signals :=
          mkRawSignals (py_round semantic_score 4) (py_round skill_fit_index 4)
            (py_round kd 4) (py_round av 4) (py_round exp_rel 4)
            (py_round fmt_pen 4) |}.

End AtsSignals.

(* ================================================================== *)
(** * [ScoringAgent] of [backend/agents.py] *)
(* ================================================================== *)

Module ScoringAgent.

Import Orchestration.

Open Scope string_scope.

(** [type(v).__name__]. *)
Definition type_name (v : Json) : string :=
  match v with
  | JNull => "NoneType"
  | JNum _ => "float"
  | JInt _ => "int"
  | JStr _ => "str"
  | JList _ => "list"
  | JDict _ => "dict"
  end.

(** The [AttributeError] of [v.get] on a value that is not a dictionary,
    kept with its [str(e)]. *)
Definition attribute_error (v : Json) : exn :=
  RuntimeError ("'" ++ type_name v ++ "' object has no attribute 'get'").

(** [v.get(k, default)]. *)
Definition get (v : Json) (k : string) (default : Json) : result Json :=
  match v with
  | JDict d =>
      Ok (match dict_lookup d k with
          | Some x => x
          | None => default
          end)
  | _ => Raise (attribute_error v)
  end.

(** [bool(v)]. *)
Definition truthy (v : Json) : bool :=
  match v with
  | JNull => false
  | JNum q => negb (Qeqb q 0)
  | JInt n => negb (n =? 0)%nat
  | JStr s => negb (String.eqb s "")
  | JList l => match l with [] => false | _ => true end
  | JDict d => match d with [] => false | _ => true end
  end.

(** [isinstance(v, list)]. *)
Definition is_list (v : Json) : bool :=
  match v with
  | JList _ => true
  | _ => false
  end.

(** [_extract_jd_keywords]: the conditional expression
    [(a or b or c) if isinstance(jd_data.get("parsed_skills"), list) else None],
    its condition first. *)
Definition _extract_jd_keywords (jd_data : Json) : result Json :=
  parsed <- get jd_data "parsed_skills" JNull ;;
  if is_list parsed then
    requirements <- get jd_data "requirements" (JDict []) ;;
    a <- get requirements "required_skills" JNull ;;
    if truthy a then Ok a
    else
      parsed_skills <- get jd_data "parsed_skills" (JDict []) ;;
      b <- get parsed_skills "skills" JNull ;;
      if truthy b then Ok b
      else get jd_data "parsed_skills" (JList [])
  else Ok JNull.

Section Score.

(** The collaborators of [score]: the lookup of an embedding function and
    the call of [ats_scorer.score_application] on the values read from the
    payloads. *)
Variable get_embed_fn_if_available : result Json.
Variable score_application :
  Json -> Json -> Json -> Json -> Json -> Json -> result Json.

(** The [try] block of [ScoringAgent.score]. *)
Definition score_body (resume_data jd_data matcher_result : Json) : result Json :=
  semantic <- get matcher_result "semantic" (JDict []) ;;
  semantic_score <- get semantic "overall_score" (JNum 0) ;;
  skill_comparator <- get matcher_result "skill_comparator" (JDict []) ;;
  skill_fit_index <- get skill_comparator "skill_fit_index" (JNum 0) ;;
  jd_keywords <- _extract_jd_keywords jd_data ;;
  requirements <- get jd_data "requirements" (JDict []) ;;
  raw_text <- get requirements "raw_text" JNull ;;
  jd_text <- (if truthy raw_text then Ok raw_text
              else get jd_data "raw_text" (JStr "")) ;;
  embed_fn <- get_embed_fn_if_available ;;
  resume_text <- get resume_data "raw_text" (JStr "") ;;
  score_application resume_text jd_text semantic_score skill_fit_index
    jd_keywords embed_fn.

End Score.

(** ** The call of [ats_scorer.score_application] from [score] *)

(** [d.get(outer, {}).get(inner, default)]. *)
Definition read_nested (d : Json) (outer inner : string) (default : Json)
  : result Json :=
  x <- get d outer (JDict []) ;;
  get x inner default.

(** [jd_data.get("requirements", {}).get("raw_text") or jd_data.get("raw_text", "")]. *)
Definition read_jd_text (jd_data : Json) : result Json :=
  requirements <- get jd_data "requirements" (JDict []) ;;
  raw_text <- get requirements "raw_text" JNull ;;
  if truthy raw_text then Ok raw_text else get jd_data "raw_text" (JStr "").

(** A list of strings, when the list holds nothing else. *)
Fixpoint strings_of (l : list Json) : option (list string) :=
  match l with
  | [] => Some []
  | JStr s :: l' =>
      match strings_of l' with
      | Some ss => Some (s :: ss)
      | None => None
      end
  | _ :: _ => None
  end.

(** The [jd_keywords] argument, when it is [None] or a list of strings. *)
Definition keywords_of (v : Json) : option (option (list string)) :=
  match v with
  | JNull => Some None
  | JList l =>
      match strings_of l with
      | Some ss => Some (Some ss)
      | None => None
      end
  | _ => None
  end.

(** What [score] reads from well-formed payloads: two texts, two floats
    and the keywords. *)
Definition payloads_read (resume_data jd_data matcher_result : Json)
  (resume_text jd_text : string) (semantic_score skill_fit_index : Q)
  (jd_keywords : option (list string)) : Prop :=
  get resume_data "raw_text" (JStr "") = Ok (JStr resume_text)
  /\ read_jd_text jd_data = Ok (JStr jd_text)
  /\ read_nested matcher_result "semantic" "overall_score" (JNum 0)
     = Ok (JNum semantic_score)
  /\ read_nested matcher_result "skill_comparator" "skill_fit_index" (JNum 0)
     = Ok (JNum skill_fit_index)
  /\ exists kw, _extract_jd_keywords jd_data = Ok kw
                /\ keywords_of kw = Some jd_keywords.

Section Call.

(** The text of one line of [explanations]: an f-string that prints two
    floats. *)
Variable render : AtsScorer.Explanation -> string.

(** The call on arguments of other types than well-formed payloads carry,
    which is not followed further. *)
Variable score_application_other :
  Json -> Json -> Json -> Json -> Json -> Json -> result Json.

(** The dictionary [fuse_components] returns. *)
Definition json_of_fused (f : AtsScorer.FuseResult) : Json :=
  let c := AtsScorer.components f in
  JDict
    [ ("components",
       JDict [ ("semantic", JNum (AtsScorer.c_semantic c));
               ("skills", JNum (AtsScorer.c_skills c));
               ("keyword_density", JNum (AtsScorer.c_keyword_density c));
               ("action_verb_ratio", JNum (AtsScorer.c_action_verb_ratio c));
               ("experience_relevance", JNum (AtsScorer.c_experience_relevance c));
               ("formatting_penalty", JNum (AtsScorer.c_formatting_penalty c)) ]);
      ("weights",
       JDict (map (fun kv => (fst kv, JNum (snd kv))) (AtsScorer.weights_used f)));
      ("final_score", JNum (AtsScorer.final_score f));
      ("final_score_norm", JNum (AtsScorer.final_score_norm f));
      ("explanations", JList (map (fun e => JStr (render e)) (AtsScorer.explanations f)));
      ("suggestions", JList (map JStr (AtsScorer.suggestions f))) ].

(** The dictionary [score_application] returns. *)
Definition json_of_application (a : AtsSignals.Application) : Json :=
  let s := AtsSignals.raw_signals a in
  JDict
    [ ("ats", json_of_fused (AtsSignals.ats a));
      ("raw_signals",
       JDict [ ("semantic_score", JNum (AtsSignals.raw_semantic_score s));
               ("skill_fit_index", JNum (AtsSignals.raw_skill_fit_index s));
               ("keyword_density", JNum (AtsSignals.raw_keyword_density s));
               ("action_verb_ratio", JNum (AtsSignals.raw_action_verb_ratio s));
               ("experience_relevance", JNum (AtsSignals.raw_experience_relevance s));
               ("formatting_penalty", JNum (AtsSignals.raw_formatting_penalty s)) ]) ].

(** [ats_scorer.score_application(resume_text=..., jd_text=...,
    semantic_score=..., skill_fit_index=..., jd_keywords=..., embed_fn=...)]
    as [score] calls it: the weights are left to their default, and the
    embedding function is accepted but never used. *)
Definition score_application_call (resume_text jd_text semantic_score
  skill_fit_index jd_keywords embed_fn : Json) : result Json :=
  match resume_text, jd_text, semantic_score, skill_fit_index,
        keywords_of jd_keywords with
  | JStr rt, JStr jt, JNum sem, JNum sfi, Some kws =>
      app <- AtsSignals.score_application rt jt sem sfi kws None ;;
      Ok (json_of_application app)
  | _, _, _, _, _ =>
      score_application_other resume_text jd_text semantic_score
        skill_fit_index jd_keywords embed_fn
  end.

(** The [try] block of [ScoringAgent.score] over that call. *)
Definition score_try (get_embed_fn_if_available : result Json)
  (resume_data jd_data matcher_result : Json) : result Json :=
  score_body get_embed_fn_if_available score_application_call
    resume_data jd_data matcher_result.

End Call.

(** The payload [JDAnalyzerAgent.process] returns when the analysis
    raised. *)
Definition degraded_jd (msg : string) : Json :=
  JDict [("requirements", JDict []); ("parsed_skills", JList []);
         ("error", JStr msg)].

(** The payload [ScoringAgent.score] returns when its body raised. *)
Definition degraded_score (msg : string) : Json :=
  JDict [("ats", JDict [("final_score", JInt 0)]); ("raw_signals", JDict []);
         ("error", JStr msg)].

(** The payload [MatcherAgent.match] returns when its body raised. *)
Definition degraded_match (msg : string) : Json :=
  JDict [("semantic", JDict []); ("skill_comparator", JDict []);
         ("error", JStr msg)].

(** A world in which the JD analysis fails and the scoring is the body of
    [ScoringAgent.score] over a scorer that would return 87. *)
Definition tools_failing_jd : Tools :=
  {| resume_tools := fun _ => Ok (JDict [("raw_text", JStr "Python developer")]);
     jd_tools := fun _ => Raise (RuntimeError "LLM unavailable");
     matcher_tools := fun _ _ =>
       Ok (JDict [("semantic", JDict [("overall_score", JNum (7 # 10))]);
                  ("skill_comparator", JDict [("skill_fit_index", JNum (1 # 2))])]);
     scoring_tools :=
       score_body (Ok JNull)
         (fun _ _ _ _ _ _ => Ok (JDict [("ats", JDict [("final_score", JInt 87)])]));
     optimizer_tools := fun _ _ => Ok (JDict [("optimized_resume", JStr "text")]);
     write_json := fun _ _ => Ok tt |}.

(** A world in which every stage works and the scoring stage is
    [ScoringAgent.score] over [ats_scorer.score_application]; an
    explanation line is shown by its label. *)
Definition tools_scoring : Tools :=
  {| resume_tools := fun _ =>
       Ok (JDict [("raw_text", JStr "Led the team. 3 years of Python on AWS.")]);
     jd_tools := fun _ =>
       Ok (JDict [("requirements",
                   JDict [("raw_text", JStr "Python developer, 5+ years");
                          ("required_skills", JList [JStr "Python"; JStr "Docker"])]);
                  ("parsed_skills", JList [JStr "Python"])]);
     matcher_tools := fun _ _ =>
       Ok (JDict [("semantic", JDict [("overall_score", JNum (7 # 10))]);
                  ("skill_comparator", JDict [("skill_fit_index", JNum (1 # 2))])]);
     scoring_tools :=
       score_try AtsScorer.expl_label (fun _ _ _ _ _ _ => Raise TypeError)
         (Ok JNull);
     optimizer_tools := fun _ _ => Ok (JDict [("optimized_resume", JStr "text")]);
     write_json := fun _ _ => Ok tt |}.

End ScoringAgent.

(* ================================================================== *)
(** * The embedding cache of [backend/utils/embeddings.py] *)
(* ================================================================== *)

Module EmbeddingCache.

(** An embedding service as the engine sees it: the answer to a request
    for a text, which may be an exception.  The answer may change from one
    request to the next, so it also depends on the number of requests the
    engine has sent before. *)
Definition Backend : Type := nat -> string -> result Np.vec.

(** The attributes of an [EmbeddingEngine] that [get_embedding] reads and
    writes; [requests] counts the requests sent to a service. *)
Record Engine : Type := mkEngine {
  openai_client : option Backend;
  local_model : option Backend;
  _embedding_cache : list (string * Np.vec);
  requests : nat
}.

Fixpoint cache_lookup (cache : list (string * Np.vec)) (text : string)
  : option Np.vec :=
  match cache with
  | [] => None
  | (k, v) :: cache' => if String.eqb text k then Some v else cache_lookup cache' text
  end.

(** [cache[text] = v]. *)
Fixpoint cache_set (cache : list (string * Np.vec)) (text : string) (v : Np.vec)
  : list (string * Np.vec) :=
  match cache with
  | [] => [(text, v)]
  | (k, v') :: cache' =>
      if String.eqb text k then (k, v) :: cache'
      else (k, v') :: cache_set cache' text v
  end.

(** [np.zeros(n)]. *)
Definition zeros (n : nat) : Np.vec := repeat 0%R n.

Definition sent (self : Engine) : Engine :=
  mkEngine (openai_client self) (local_model self) (_embedding_cache self)
    (S (requests self)).

Definition store (self : Engine) (text : string) (v : Np.vec) : Engine :=
  mkEngine (openai_client self) (local_model self)
    (cache_set (_embedding_cache self) text v) (requests self).

(** The last two steps of [get_embedding]: the local model, whose
    exception is not caught, and the unsaved zero vector. *)
Definition local_fallback (self : Engine) (text : string)
  : result Np.vec * Engine :=
  match local_model self with
  | Some model =>
      match model (requests self) text with
      | Ok embedding => (Ok embedding, store (sent self) text embedding)
      | Raise e => (Raise e, sent self)
      end
  | None => (Ok (zeros 384), self)
  end.

(** [EmbeddingEngine.get_embedding]. *)
Definition get_embedding (self : Engine) (text : string)
  : result Np.vec * Engine :=
  match strip text with
  | EmptyString => (Ok (zeros 384), self)
  | _ =>
      match cache_lookup (_embedding_cache self) text with
      | Some embedding => (Ok embedding, self)
      | None =>
          match openai_client self with
          | Some client =>
              match client (requests self) text with
              | Ok embedding => (Ok embedding, store (sent self) text embedding)
              | Raise _ => local_fallback (sent self) text
              end
          | None => local_fallback self text
          end
      end
  end.

(** [EmbeddingEngine.clear_cache]. *)
Definition clear_cache (self : Engine) : Engine :=
  mkEngine (openai_client self) (local_model self) [] (requests self).

(** A service whose answers change with every request. *)
Definition drifting_backend : Backend :=
  fun n _ => Ok [INR n; 1%R].

(** An engine with that service only and an empty cache. *)
Definition sample_engine : Engine :=
  mkEngine (Some drifting_backend) None [] 0.

End EmbeddingCache.

(* ================================================================== *)
(** * Signals of [backend/models/analytics_engine.py] *)
(* ================================================================== *)

Module AnalyticsSignals.

Import PyRe.

Open Scope string_scope.

(** [pattern.search(text)] for a pattern [\b(w1|w2|...)\b] compiled with
    [re.I].  The words are lower-case ASCII, and on code points below 256
    lowering a character changes neither whether it is a word character
    nor whether it matches a letter of the pattern, so the search is run
    on the lowered text. *)
Definition search_words_ci (words : list string) (text : string) : bool :=
  search_words words false (lower text).

Definition contact_words : list string :=
  [ "contact"; "email"; "phone"; "address" ].

Definition section_words : list string :=
  [ "experience"; "education"; "skills"; "projects" ].

(** The characters of the class of [_BULLET_PATTERN] that exist below
    code point 256: the hyphen, the asterisk, and the two Latin-1
    characters (226 and 162) the source file holds in place of a bullet. *)
Definition is_bullet_mark (c : ascii) : bool :=
  is_code 45 c || is_code 226 c || is_code 162 c || is_code 42 c.

(** [\s*[-...\*]\s+] matched at the start of [s]: the number of
    characters the match takes. *)
Definition bullet_match_len (s : string) : option nat :=
  let n1 := span_len isspace s in
  match drop n1 s with
  | String b rest =>
      if is_bullet_mark b then
        match span_len isspace rest with
        | O => None
        | n2 => Some (n1 + 1 + n2)%nat
        end
      else None
  | EmptyString => None
  end.

(** [len(_BULLET_PATTERN.findall(text))]: the matches of
    [\n\s*[-...\*]\s+], from left to right and without overlap; [skip]
    counts the characters still inside the last match. *)
Fixpoint count_nl_bullets (skip : nat) (s : string) : nat :=
  match s with
  | EmptyString => O
  | String c s' =>
      match skip with
      | S k => count_nl_bullets k s'
      | O =>
          if is_code 10 c then
            match bullet_match_len s' with
            | Some n => S (count_nl_bullets n s')
            | None => count_nl_bullets 0 s'
            end
          else count_nl_bullets 0 s'
      end
  end.

(** The points [structure_score] adds up, before the conversion to a
    float. *)
Definition structure_points (resume_text : string) : nat :=
  let contact := if search_words_ci contact_words resume_text then 25 else 0 in
  let bullets := count_nl_bullets 0 resume_text in
  let sections := if search_words_ci section_words resume_text then 25 else 0 in
  Nat.min (contact + Nat.min bullets 10 * 2 + sections) 100.

(** [AnalyticsEngine.structure_score]. *)
Definition structure_score (resume_text : string) : R :=
  INR (structure_points resume_text).

Definition _ACTION_VERBS : list string :=
  [ "led"; "implemented"; "built"; "designed"; "optimized"; "improved";
    "reduced"; "increased"; "achieved"; "delivered"; "managed"; "created";
    "launched"; "orchestrated"; "engineered"; "developed"; "spearheaded" ].

(** [s.count(sub)] for a non-empty [sub]: the occurrences from left to
    right, without overlap; [skip] counts the characters still inside the
    last occurrence. *)
Fixpoint count_sub (sub : string) (skip : nat) (s : string) : nat :=
  match s with
  | EmptyString => O
  | String c s' =>
      match skip with
      | S k => count_sub sub k s'
      | O =>
          if starts_with sub s
          then S (count_sub sub (String.length sub - 1) s')
          else count_sub sub 0 s'
      end
  end.

Definition verb_count (resume_text : string) : nat :=
  let text_lower := lower resume_text in
  list_sum (map (fun verb => count_sub verb 0 text_lower) _ACTION_VERBS).

Definition action_verbs_points (resume_text : string) : nat :=
  Nat.min (verb_count resume_text * 10) 100.

(** [AnalyticsEngine.action_verbs_score]. *)
Definition action_verbs_score (resume_text : string) : R :=
  INR (action_verbs_points resume_text).

(** [AnalyticsEngine.semantic_match_score]. *)
Definition semantic_match_score (resume_vec jd_vec : option Np.vec) : result R :=
  match resume_vec, jd_vec with
  | None, _ => Ok 0%R
  | _, None => Ok 0%R
  | _, _ =>
      sim <- EmbeddingEngine.cosine_similarity resume_vec jd_vec ;;
      Ok (sim * 100)%R
  end.

(** [AnalyticsEngine.ats_score] with its two sibling methods. *)
Definition ats_score : string -> string -> R -> R ->
  option AnalyticsEngine.Weights -> AnalyticsEngine.AtsScore :=
  AnalyticsEngine.ats_score structure_score action_verbs_score.

(** The characters of the class [[a-z0-9\+\#\.\-]] of [_TOKENIZE_PATTERN]. *)
Definition token_char (c : ascii) : bool :=
  in_range 97 122 c || in_range 48 57 c || is_code 43 c || is_code 35 c
  || is_code 46 c || is_code 45 c.

(** [\b] between a character and the text that follows it. *)
Definition boundary_between (c : ascii) (rest : string) : bool :=
  xorb (isword c) (head_is isword rest).

(** The longest run of class characters at the start of [s] that ends
    at a word boundary: its length. *)
Fixpoint token_end (s : string) : option nat :=
  match s with
  | EmptyString => None
  | String c s' =>
      if token_char c then
        match token_end s' with
        | Some k => Some (S k)
        | None => if boundary_between c s' then Some 1%nat else None
        end
      else None
  end.

(** [_TOKENIZE_PATTERN.findall(s)] for [\b[a-z0-9\+\#\.\-]+\b]. *)
Fixpoint findall_tokens (skip : nat) (prev_word : bool) (s : string)
  : list string :=
  match s with
  | EmptyString => []
  | String c s' =>
      match skip with
      | S k => findall_tokens k (isword c) s'
      | O =>
          if token_char c && xorb (isword c) prev_word then
            match token_end s with
            | Some k => take k s :: findall_tokens (k - 1) (isword c) s'
            | None => findall_tokens 0 (isword c) s'
            end
          else findall_tokens 0 (isword c) s'
      end
  end.

(** [_tokenize]. *)
Definition _tokenize (s : string) : list string :=
  findall_tokens 0 false (lower s).

(** [AnalyticsEngine.keyword_overlap_score]; the score is a quotient of
    two counts times 100. *)
Definition keyword_overlap_score (resume_text : string)
  (jd_skills : option (list string)) : Q :=
  match jd_skills with
  | None => 0
  | Some [] => 0
  | Some skills =>
      let resume_tokens := str_set (_tokenize resume_text) in
      let jd_tokens := str_set (map lower skills) in
      match jd_tokens with
      | [] => 0
      | _ =>
          let overlap := List.length (set_inter resume_tokens jd_tokens) in
          (inject_Z (Z.of_nat overlap) / inject_Z (Z.of_nat (List.length jd_tokens))
           * 100)%Q
      end
  end.

End AnalyticsSignals.

(* ================================================================== *)
(** * [backend/tools/resume_parser.py]: cleaning and sections *)
(* ================================================================== *)

Module ResumeParser.

Import PyRe.

Open Scope string_scope.

(** The characters of [[,.]]. *)
Definition is_comma_or_dot (c : ascii) : bool := is_code 44 c || is_code 46 c.

(** [re.sub(r'\s+([,.])', r'\1', text)]: a white-space character is
    dropped when the run of white space it stands in is followed by a
    comma or a dot. *)
Fixpoint drop_ws_before_punct (s : string) : string :=
  match s with
  | EmptyString => EmptyString
  | String c s' =>
      if isspace c && head_is is_comma_or_dot (lstrip s')
      then drop_ws_before_punct s'
      else String c (drop_ws_before_punct s')
  end.

(** [re.sub(r'\n+', '\n', text)]; [in_run] tells that the previous
    character was a newline. *)
Fixpoint collapse_nl (in_run : bool) (s : string) : string :=
  match s with
  | EmptyString => EmptyString
  | String c s' =>
      if is_code 10 c then
        if in_run then collapse_nl true s' else String c (collapse_nl true s')
      else String c (collapse_nl false s')
  end.

(** [clean_text]. *)
Definition clean_text (text : string) : string :=
  let text := SkillComparator.collapse_ws false text in
  let text := drop_ws_before_punct text in
  let text := collapse_nl false text in
  strip text.

Definition headers : list string :=
  [ "education"; "experience"; "work experience"; "skills"; "projects";
    "summary"; "certifications"; "publications" ].

(** The inner loop of [simple_section_parse]: the least start, after
    [idx], of another header, or the length of the text. *)
Definition section_end (lower_text : string) (h : string) (idx : nat) : nat :=
  fold_left
    (fun end_ h2 =>
       if String.eqb h2 h then end_
       else match find_from h2 (idx + 1) lower_text with
            | Some pos => Nat.min end_ pos
            | None => end_
            end)
    headers (String.length lower_text).

(** [text[idx:end]]. *)
Definition slice (text : string) (idx end_ : nat) : string :=
  take (end_ - idx) (drop idx text).

(** [simple_section_parse]: the dictionary in insertion order; the headers
    are distinct, so every found header adds one entry. *)
Definition simple_section_parse (text : string) : list (string * string) :=
  let lower_text := lower text in
  let sections :=
    flat_map
      (fun h =>
         match find h lower_text with
         | Some idx =>
             [(h, strip (slice text idx (section_end lower_text h idx)))]
         | None => []
         end)
      headers in
  match sections with
  | [] => [("full_text", text)]
  | _ => sections
  end.

(** A raw text of three blocks separated by blank lines. *)
Definition sample_raw_text : string :=
  "Summary" ++ String (ascii_of_nat 10) (String (ascii_of_nat 10) "")
  ++ "Python developer ." ++ String (ascii_of_nat 10) (String (ascii_of_nat 10) "")
  ++ "Skills".

End ResumeParser.

(* ================================================================== *)
(** * Shapes of cleaned text *)
(* ================================================================== *)

Module TextForm.

Import PyRe.

(** Every white-space character of [s] is a plain space that is followed
    by no white space. *)
Fixpoint single_spaced (s : string) : bool :=
  match s with
  | EmptyString => true
  | String c s' =>
      (if isspace c then is_code 32 c && negb (head_is isspace s') else true)
      && single_spaced s'
  end.

(** No white-space character of [s] stands directly before a character
    that satisfies [p]. *)
Fixpoint no_space_before (p : ascii -> bool) (s : string) : bool :=
  match s with
  | EmptyString => true
  | String c s' =>
      negb (isspace c && head_is p s') && no_space_before p s'
  end.

End TextForm.

(* ================================================================== *)
(** * Properties of the score fusion *)
(* ================================================================== *)

Section NumberFacts.

Open Scope Q_scope.

Lemma Qltb_true (a b : Q) : Qltb a b = true <-> a < b.
Proof.
  unfold Qltb. rewrite Qlt_alt.
  destruct (Qcompare a b); split; intro H; congruence.
Qed.

Lemma Qltb_false (a b : Q) : Qltb a b = false <-> b <= a.
Proof.
  split; intro H.
  - apply Qnot_lt_le. intro Hlt. apply Qltb_true in Hlt. congruence.
  - destruct (Qltb a b) eqn:E; [|reflexivity].
    apply Qltb_true in E. exfalso. exact (Qlt_not_le _ _ E H).
Qed.

Lemma Qltb_compat (a a' b b' : Q) : a == a' -> b == b' -> Qltb a b = Qltb a' b'.
Proof.
  intros Ha Hb. unfold Qltb. now rewrite Ha, Hb.
Qed.

Lemma py_max_lower (a b : Q) : a <= py_max a b.
Proof.
  unfold py_max. destruct (Qltb a b) eqn:E.
  - apply Qltb_true in E. now apply Qlt_le_weak.
  - apply Qle_refl.
Qed.

Lemma py_max_upper (a b c : Q) : a <= c -> b <= c -> py_max a b <= c.
Proof.
  intros Ha Hb. unfold py_max. now destruct (Qltb a b).
Qed.

Lemma py_min_upper (a b : Q) : py_min a b <= a.
Proof.
  unfold py_min. destruct (Qltb b a) eqn:E.
  - apply Qltb_true in E. now apply Qlt_le_weak.
  - apply Qle_refl.
Qed.

(** A non-positive second argument leaves [max(0.0, _)] at its first. *)
Lemma py_max_zero_nonpos (x : Q) : x <= 0 -> py_max 0 x = 0.
Proof.
  intro H. unfold py_max.
  apply Qltb_false in H. now rewrite H.
Qed.

Lemma clamp01_range (x : Q) : 0 <= AtsScorer._clamp01 x <= 1.
Proof.
  unfold AtsScorer._clamp01. split.
  - apply py_max_lower.
  - apply py_max_upper; [discriminate | apply py_min_upper].
Qed.

Lemma clamp01_compat (x y : Q) : x == y -> AtsScorer._clamp01 x == AtsScorer._clamp01 y.
Proof.
  intro H. unfold AtsScorer._clamp01, py_max, py_min.
  rewrite (Qltb_compat (a:=x) (a':=y) (b:=1) (b':=1) H (Qeq_refl 1)).
  destruct (Qltb y 1).
  - rewrite (Qltb_compat (a:=0) (a':=0) (b:=x) (b':=y) (Qeq_refl 0) H).
    now destruct (Qltb 0 y).
  - reflexivity.
Qed.

(** An integer interval is closed under rounding to the nearest integer. *)
Lemma round_half_even_bounds (q : Q) (lo hi : Z) :
  inject_Z lo <= q -> q <= inject_Z hi ->
  (lo <= round_half_even q <= hi)%Z.
Proof.
  intros Hlo Hhi.
  assert (Hf1 : (lo <= Qfloor q)%Z).
  { rewrite <- (Qfloor_Z lo). now apply Qfloor_resp_le. }
  assert (Hf2 : (Qfloor q <= hi)%Z).
  { rewrite <- (Qfloor_Z hi). now apply Qfloor_resp_le. }
  unfold round_half_even.
  destruct (Z.eq_dec (Qfloor q) hi) as [Heq | Hne].
  - assert (Hq : q == inject_Z hi).
    { apply Qle_antisym; [exact Hhi|]. rewrite <- Heq. apply Qfloor_le. }
    assert (Hc : Qcompare (q - inject_Z (Qfloor q)) (1 # 2) = Lt).
    { rewrite <- Qlt_alt. rewrite Heq, Hq.
      setoid_replace (inject_Z hi - inject_Z hi) with 0 by ring. reflexivity. }
    rewrite Hc. lia.
  - destruct (Qcompare (q - inject_Z (Qfloor q)) (1 # 2)); try lia.
    destruct (Z.even (Qfloor q)); lia.
Qed.

Lemma pow10_2 : pow10 2 == 100.
Proof. reflexivity. Qed.

(** Rounding a percentage to two decimals keeps it a percentage. *)
Lemma py_round_pct_range (x : Q) :
  0 <= x <= 1 -> 0 <= py_round (x * 100) 2 <= 100.
Proof.
  intros [H0 H1]. unfold py_round.
  assert (Hb : (0 <= round_half_even (x * 100 * pow10 2) <= 10000)%Z).
  { apply round_half_even_bounds.
    - rewrite pow10_2. change (inject_Z 0) with 0.
      setoid_replace 0 with (0 * 100 * 100) by reflexivity.
      apply Qmult_le_compat_r; [|discriminate].
      apply Qmult_le_compat_r; [exact H0|discriminate].
    - rewrite pow10_2.
      setoid_replace (inject_Z 10000) with (1 * 100 * 100) by reflexivity.
      apply Qmult_le_compat_r; [|discriminate].
      apply Qmult_le_compat_r; [exact H1|discriminate]. }
  set (z := round_half_even (x * 100 * pow10 2)) in *.
  rewrite pow10_2. split.
  - apply Qle_shift_div_l; [reflexivity|].
    rewrite Qmult_0_l. change 0 with (inject_Z 0). rewrite <- Zle_Qle. lia.
  - apply Qle_shift_div_r; [reflexivity|].
    change (100 * 100) with (inject_Z 10000). rewrite <- Zle_Qle. lia.
Qed.

End NumberFacts.

Section FusionFacts.

Import AtsScorer.
Open Scope Q_scope.

Lemma round_half_even_compat (q q' : Q) :
  q == q' -> round_half_even q = round_half_even q'.
Proof.
  intro H. unfold round_half_even.
  rewrite (Qfloor_comp _ _ H).
  assert (Hd : q - inject_Z (Qfloor q') == q' - inject_Z (Qfloor q'))
    by now rewrite H.
  now rewrite (Qcompare_comp _ _ Hd _ _ (Qeq_refl (1 # 2))).
Qed.

Lemma py_round_compat (q q' : Q) (n : nat) :
  q == q' -> py_round q n = py_round q' n.
Proof.
  intro H. unfold py_round.
  rewrite (round_half_even_compat (q := q * pow10 n) (q' := q' * pow10 n));
    [reflexivity | now rewrite H].
Qed.

(** With the default weights the formatting product is never positive, so
    [max(0.0, _)] returns its first argument. *)
Lemma penalty_default_zero (s_fmt_pen : Q) :
  0 <= s_fmt_pen -> penalty_of default_weights s_fmt_pen = 0.
Proof.
  intro H. unfold penalty_of. apply py_max_zero_nonpos.
  change (dict_get_default default_weights "formatting" 0) with (- (5 # 100)).
  destruct s_fmt_pen as [n d]. unfold Qle, Qmult, Qopp in *. cbn [Qnum Qden] in *. lia.
Qed.

Lemma default_lookups :
  dict_item default_weights "semantic" = Ok (30 # 100)
  /\ dict_item default_weights "skills" = Ok (30 # 100)
  /\ dict_item default_weights "keywords" = Ok (15 # 100)
  /\ dict_item default_weights "action_verbs" = Ok (8 # 100)
  /\ dict_item default_weights "experience" = Ok (12 # 100).
Proof. repeat split; reflexivity. Qed.

Lemma weight_norm_default : weight_norm default_weights == 95 # 100.
Proof. vm_compute. reflexivity. Qed.

Lemma raw_score_default (s_sem s_ski s_key s_act s_exp s_fmt_pen : Q) :
  0 <= s_fmt_pen ->
  raw_score_of default_weights s_sem s_ski s_key s_act s_exp s_fmt_pen
  = Ok (default_positive_sum s_sem s_ski s_key s_act s_exp + 0).
Proof.
  intro H. unfold raw_score_of, positive_sum_of.
  destruct default_lookups as (-> & -> & -> & -> & ->). cbn [bind].
  now rewrite (penalty_default_zero H).
Qed.

(** The shape of every result under the default weights. *)
Lemma fuse_default_shape (s1 s2 s3 s4 s5 s6 : Q) :
  exists r,
    fuse_components s1 s2 s3 s4 s5 s6 None = Ok r
    /\ final_score_norm r
       = _clamp01 ((default_positive_sum (_clamp01 s1) (_clamp01 s2) (_clamp01 s3)
                      (_clamp01 s4) (_clamp01 s5) + 0)
                   / weight_norm default_weights)
    /\ final_score r = py_round (final_score_norm r * 100) 2.
Proof.
  unfold fuse_components. cbn [effective_weights].
  rewrite (raw_score_default _ _ _ _ _ (proj1 (clamp01_range s6))).
  destruct default_lookups as (-> & -> & -> & -> & ->). cbn [bind].
  eexists. split; [reflexivity|]. split; reflexivity.
Qed.

Lemma default_positive_sum_compat (a1 a2 a3 a4 a5 b1 b2 b3 b4 b5 : Q) :
  a1 == b1 -> a2 == b2 -> a3 == b3 -> a4 == b4 -> a5 == b5 ->
  default_positive_sum a1 a2 a3 a4 a5 == default_positive_sum b1 b2 b3 b4 b5.
Proof.
  intros H1 H2 H3 H4 H5. unfold default_positive_sum.
  now rewrite H1, H2, H3, H4, H5.
Qed.

(** C1 (the code departs from the claim).  Under the default weights the
    formatting term [max(0.0, -0.05 * s_fmt_pen)] is always [0.0]: the final
    score and its normalised form do not depend on [formatting_penalty] at
    all.  At five signals of 0.5 and a full formatting penalty the code
    returns 50, where the canonical formula of the specification, which
    subtracts the penalty, gives 44.74.  The code's score is, for every
    input, the canonical formula evaluated at a formatting penalty of 0. *)
Theorem fuse_formatting_penalty_has_no_effect :
  (forall s1 s2 s3 s4 s5 f f' : Q,
      exists r r',
        fuse_components s1 s2 s3 s4 s5 f None = Ok r
        /\ fuse_components s1 s2 s3 s4 s5 f' None = Ok r'
        /\ final_score r = final_score r'
        /\ final_score_norm r = final_score_norm r')
  /\ (exists r,
        fuse_components (1 # 2) (1 # 2) (1 # 2) (1 # 2) (1 # 2) 1 None = Ok r
        /\ final_score r == 50)
  /\ spec_canonical_score (1 # 2) (1 # 2) (1 # 2) (1 # 2) (1 # 2) 1
     == 4474 # 100
  /\ spec_canonical_score (1 # 2) (1 # 2) (1 # 2) (1 # 2) (1 # 2) 0 == 50
  /\ (forall s1 s2 s3 s4 s5 f : Q,
        exists r,
          fuse_components s1 s2 s3 s4 s5 f None = Ok r
          /\ final_score r = spec_canonical_score s1 s2 s3 s4 s5 0).
Proof.
  split; [|split; [|split; [|split]]].
  - intros s1 s2 s3 s4 s5 f f'.
    destruct (fuse_default_shape s1 s2 s3 s4 s5 f) as (r & Hr & Hn & Hs).
    destruct (fuse_default_shape s1 s2 s3 s4 s5 f') as (r' & Hr' & Hn' & Hs').
    exists r, r'. repeat split; try assumption.
    + rewrite Hs, Hs', Hn, Hn'. reflexivity.
    + rewrite Hn, Hn'. reflexivity.
  - eexists. split; [vm_compute; reflexivity|]. vm_compute. reflexivity.
  - vm_compute. reflexivity.
  - vm_compute. reflexivity.
  - intros s1 s2 s3 s4 s5 f.
    destruct (fuse_default_shape s1 s2 s3 s4 s5 f) as (r & Hr & Hn & Hs).
    exists r. split; [exact Hr|].
    rewrite Hs, Hn. unfold spec_canonical_score.
    apply py_round_compat.
    apply Qmult_comp; [|reflexivity].
    apply clamp01_compat.
    rewrite weight_norm_default. unfold default_positive_sum.
    change (_clamp01 0) with 0.
    apply Qdiv_comp; [ring | reflexivity].
Qed.

(** C5.  Under the default weights every call returns, with a final score
    between 0 and 100; six clamped inputs equal to 1 give exactly 100; six
    clamped inputs equal to 0 give a score that is not negative. *)
Theorem fuse_final_score_range (s1 s2 s3 s4 s5 s6 : Q) :
  exists r,
    fuse_components s1 s2 s3 s4 s5 s6 None = Ok r
    /\ 0 <= final_score r <= 100
    /\ (_clamp01 s1 == 1 -> _clamp01 s2 == 1 -> _clamp01 s3 == 1 ->
        _clamp01 s4 == 1 -> _clamp01 s5 == 1 -> _clamp01 s6 == 1 ->
        final_score r == 100)
    /\ (_clamp01 s1 == 0 -> _clamp01 s2 == 0 -> _clamp01 s3 == 0 ->
        _clamp01 s4 == 0 -> _clamp01 s5 == 0 -> _clamp01 s6 == 0 ->
        0 <= final_score r).
Proof.
  destruct (fuse_default_shape s1 s2 s3 s4 s5 s6) as (r & Hr & Hn & Hs).
  exists r. split; [exact Hr|].
  assert (Hrange : 0 <= final_score r <= 100).
  { rewrite Hs. apply py_round_pct_range. rewrite Hn. apply clamp01_range. }
  split; [exact Hrange|]. split.
  - intros H1 H2 H3 H4 H5 _.
    rewrite Hs, Hn.
    assert (Harg :
      (default_positive_sum (_clamp01 s1) (_clamp01 s2) (_clamp01 s3)
         (_clamp01 s4) (_clamp01 s5) + 0) / weight_norm default_weights == 1).
    { rewrite (default_positive_sum_compat H1 H2 H3 H4 H5), weight_norm_default.
      reflexivity. }
    rewrite (py_round_compat (q' := _clamp01 1 * 100) 2).
    + vm_compute. reflexivity.
    + now rewrite (clamp01_compat Harg).
  - intros _ _ _ _ _ _. apply Hrange.
Qed.

Lemma fuse_final_score_range_witness :
  (exists r, fuse_components 1 1 1 1 1 1 None = Ok r /\ final_score r == 100)
  /\ (exists r, fuse_components 0 0 0 0 0 0 None = Ok r /\ 0 <= final_score r).
Proof.
  split.
  - destruct (fuse_final_score_range 1 1 1 1 1 1) as (r & Hr & _ & Hone & _).
    exists r. split; [exact Hr|]. apply Hone; reflexivity.
  - destruct (fuse_final_score_range 0 0 0 0 0 0) as (r & Hr & _ & _ & Hzero).
    exists r. split; [exact Hr|]. apply Hzero; reflexivity.
Defined.

End FusionFacts.

(* ================================================================== *)
(** * Properties of the skill comparator *)
(* ================================================================== *)

Section ComparatorFacts.

Import SkillComparator.
Open Scope Q_scope.

(** The scenario of the specification: two of four JD skills matched.  The
    matched pairs carry the normalised JD skill. *)
Example compare_skills_scenario :
  let out :=
    compare_skills ["Python"; "TensorFlow"; "AWS"]%string
      ["Python"; "PyTorch"; "AWS"; "Communication"]%string None (75 / 100)%R in
  map (fun m => (resume_skill m, jd_skill m)) (matched_skills out)
  = [("Python", Some "python"); ("AWS", Some "aws")]%string
  /\ map skill (missing_skills out) = ["PyTorch"; "Communication"]%string
  /\ extra_resume_skills out = ["TensorFlow"]%string
  /\ match_percentage out == 50
  /\ skill_fit_index out == 65 # 100
  /\ summary out = "Matched 2 of 4 JD skills."%string.
Proof.
  vm_compute. repeat split; reflexivity.
Qed.

Example normalize_examples :
  _normalize "  Hello,  World! C++ " = "hello world c++"%string
  /\ _normalize "! a" = " a"%string
  /\ _normalize "Node.JS" = "node.js"%string.
Proof.
  repeat split; reflexivity.
Qed.

(** C2 (the claim as written fails).  An empty JD list with the resume
    skill ["Python"] gives [match_percentage = 0], not 100. *)
Lemma compare_skills_empty_jd_not_100 :
  ~ match_percentage
      (compare_skills ["Python"%string] [] None (75 / 100)%R) == 100.
Proof.
  vm_compute. discriminate.
Qed.

(** C2 (amended).  With an empty JD list [compare_skills] returns, whatever
    the resume skills, the embedding function and the threshold, and reports
    [match_percentage = 0]: the divisor is [max(1, 0)], the numerator 0.
    Nothing is missing and the fit index is 0.3 times the mean similarity
    of the pairs the embedding pass may still have recorded. *)
Theorem compare_skills_empty_jd (resume_skills : list string)
  (embed_fn : option EmbedFn) (semantic_threshold : R) :
  let out := compare_skills resume_skills [] embed_fn semantic_threshold in
  match_percentage out == 0
  /\ missing_skills out = []
  /\ summary out = "Matched 0 of 0 JD skills."%string.
Proof.
  unfold compare_skills.
  destruct (final_state resume_skills [] embed_fn semantic_threshold)
    as [matched matched_j_idx].
  cbn. repeat split; reflexivity.
Qed.

End ComparatorFacts.

Section LexicalPassFacts.

Import SkillComparator.
Open Scope Q_scope.

Variable r : string.
Variable matched_j_idx : set nat.

(** Already matched JD positions are invisible to the scan. *)
Lemma lexical_scan_filter (js : list (nat * string)) :
  forall best_j best_sim,
    lexical_scan r matched_j_idx js best_j best_sim
    = lexical_scan r matched_j_idx (filter (is_free matched_j_idx) js) best_j best_sim.
Proof.
  induction js as [|[j jj] js IH]; intros best_j best_sim; [reflexivity|].
  cbn [filter]. unfold is_free at 1. cbn [fst].
  destruct (idx_mem j matched_j_idx) eqn:E; cbn [negb].
  - cbn [lexical_scan]. rewrite E. apply IH.
  - cbn [lexical_scan]. rewrite E.
    destruct (String.eqb r jj); [reflexivity|]. apply IH.
Qed.

(** The first free candidate equal to [r] ends the scan with similarity 1. *)
Lemma lexical_scan_exact (pre post : list (nat * string)) (j : nat) :
  Forall (fun p => is_free matched_j_idx p = true) pre ->
  idx_mem j matched_j_idx = false ->
  (forall p, In p pre -> snd p <> r) ->
  forall best_j best_sim,
    lexical_scan r matched_j_idx (pre ++ (j, r) :: post) best_j best_sim
    = (Some (j, r), 1).
Proof.
  induction pre as [|[k kk] pre IH]; intros Hfree Hj Hne best_j best_sim.
  - cbn [app lexical_scan]. rewrite Hj, String.eqb_refl. reflexivity.
  - inversion Hfree as [|? ? Hk Hrest]; subst.
    unfold is_free in Hk. cbn [fst] in Hk. apply negb_true_iff in Hk.
    cbn [app lexical_scan]. rewrite Hk.
    assert (Hkk : String.eqb r kk = false).
    { apply String.eqb_neq. intro Heq. apply (Hne (k, kk)); [now left|].
      now subst. }
    rewrite Hkk. apply IH; auto.
    intros p Hp. apply Hne. now right.
Qed.

(** Without an exact match the scan keeps the running best unless a
    strictly better candidate appears; it ends on the first candidate of
    highest overlap, if that overlap beats the initial [best_sim]. *)
Lemma lexical_scan_best (js : list (nat * string)) :
  Forall (fun p => is_free matched_j_idx p = true) js ->
  (forall p, In p js -> snd p <> r) ->
  forall best_j best_sim,
    (Forall (fun p => _simple_token_overlap r (snd p) <= best_sim) js
     /\ lexical_scan r matched_j_idx js best_j best_sim = (best_j, best_sim))
    \/ (exists pre p post,
          js = pre ++ p :: post
          /\ best_sim < _simple_token_overlap r (snd p)
          /\ Forall (fun q => _simple_token_overlap r (snd q)
                              < _simple_token_overlap r (snd p)) pre
          /\ Forall (fun q => _simple_token_overlap r (snd q)
                              <= _simple_token_overlap r (snd p)) post
          /\ lexical_scan r matched_j_idx js best_j best_sim
             = (Some p, _simple_token_overlap r (snd p))).
Proof.
  induction js as [|[k kk] js IH]; intros Hfree Hne best_j best_sim.
  - left. split; [constructor | reflexivity].
  - inversion Hfree as [|? ? Hk Hrest]; subst.
    unfold is_free in Hk. cbn [fst] in Hk. apply negb_true_iff in Hk.
    assert (Hkk : String.eqb r kk = false).
    { apply String.eqb_neq. intro Heq. apply (Hne (k, kk)); [now left|].
      now subst. }
    assert (Hne' : forall p, In p js -> snd p <> r)
      by (intros p Hp; apply Hne; now right).
    cbn [lexical_scan]. rewrite Hk, Hkk.
    unfold Qgtb. destruct (Qltb best_sim (_simple_token_overlap r kk)) eqn:E.
    + apply Qltb_true in E. cbn [fst snd].
      destruct (IH Hrest Hne' (Some (k, kk)) (_simple_token_overlap r kk))
        as [[Hall Hres] | (pre & p & post & Hjs & Hlt & Hpre & Hpost & Hres)].
      * right. exists [], (k, kk), js. cbn [app snd].
        repeat split; auto.
      * right. exists ((k, kk) :: pre), p, post. subst js. cbn [app].
        split; [reflexivity|]. split; [eapply Qlt_trans; eauto|].
        split; [constructor; auto|]. split; auto.
    + apply Qltb_false in E. cbn [fst snd].
      destruct (IH Hrest Hne' best_j best_sim)
        as [[Hall Hres] | (pre & p & post & Hjs & Hlt & Hpre & Hpost & Hres)].
      * left. split; [constructor; auto | exact Hres].
      * right. exists ((k, kk) :: pre), p, post. subst js. cbn [app].
        split; [reflexivity|]. split; [exact Hlt|].
        split; [|split; auto].
        constructor; auto. cbn [snd]. eapply Qle_lt_trans; eauto.
Qed.

End LexicalPassFacts.

Section LexicalStepFacts.

Import SkillComparator.
Open Scope Q_scope.

Variable r : string.
Variable matched_j_idx : set nat.

(** Candidates that do not beat the running best leave it in place. *)
Lemma lexical_scan_keep (js : list (nat * string)) best_j best_sim :
  Forall (fun p => is_free matched_j_idx p = true) js ->
  (forall p, In p js -> snd p <> r) ->
  Forall (fun p => _simple_token_overlap r (snd p) <= best_sim) js ->
  lexical_scan r matched_j_idx js best_j best_sim = (best_j, best_sim).
Proof.
  intros Hfree Hne Hall.
  destruct (@lexical_scan_best r matched_j_idx js Hfree Hne best_j best_sim)
    as [[_ Hres] | (pre & p & post & Hjs & Hlt & _)]; [exact Hres|].
  exfalso. subst js.
  apply Forall_app in Hall. destruct Hall as [_ Hall].
  inversion Hall as [|? ? Hp _]; subst.
  exact (Qlt_not_le _ _ Hlt Hp).
Qed.

(** The first candidate of highest overlap wins, when it beats the
    initial best. *)
Lemma lexical_scan_first_max (pre post : list (nat * string)) (p : nat * string) :
  Forall (fun q => is_free matched_j_idx q = true) (pre ++ p :: post) ->
  (forall q, In q (pre ++ p :: post) -> snd q <> r) ->
  Forall (fun q => _simple_token_overlap r (snd q)
                   < _simple_token_overlap r (snd p)) pre ->
  Forall (fun q => _simple_token_overlap r (snd q)
                   <= _simple_token_overlap r (snd p)) post ->
  forall best_j best_sim,
    best_sim < _simple_token_overlap r (snd p) ->
    lexical_scan r matched_j_idx (pre ++ p :: post) best_j best_sim
    = (Some p, _simple_token_overlap r (snd p)).
Proof.
  induction pre as [|[k kk] pre IH];
    intros Hfree Hne Hpre Hpost best_j best_sim Hlt.
  - cbn [app] in *. destruct p as [j jj]. cbn [snd] in *.
    inversion Hfree as [|? ? Hj Hrest]; subst.
    unfold is_free in Hj. cbn [fst] in Hj. apply negb_true_iff in Hj.
    assert (Hjj : String.eqb r jj = false).
    { apply String.eqb_neq. intro Heq. apply (Hne (j, jj)); [now left|].
      now subst. }
    cbn [lexical_scan]. rewrite Hj, Hjj. unfold Qgtb.
    apply Qltb_true in Hlt. rewrite Hlt. cbn [fst snd].
    apply lexical_scan_keep; auto.
    intros q Hq. apply Hne. now right.
  - cbn [app] in *.
    inversion Hfree as [|? ? Hk Hrest]; subst.
    inversion Hpre as [|? ? Hkp Hpre']; subst. cbn [snd] in Hkp.
    unfold is_free in Hk. cbn [fst] in Hk. apply negb_true_iff in Hk.
    assert (Hkk : String.eqb r kk = false).
    { apply String.eqb_neq. intro Heq. apply (Hne (k, kk)); [now left|].
      now subst. }
    assert (Hne' : forall q, In q (pre ++ p :: post) -> snd q <> r)
      by (intros q Hq; apply Hne; now right).
    cbn [lexical_scan]. rewrite Hk, Hkk. unfold Qgtb.
    destruct (Qltb best_sim (_simple_token_overlap r kk)); cbn [fst snd];
      apply IH; auto.
Qed.

(** Without an exact match the scan never reports more than the best
    overlap seen. *)
Lemma lexical_scan_bound (js : list (nat * string)) (c : Q) :
  Forall (fun p => is_free matched_j_idx p = true) js ->
  (forall p, In p js -> snd p <> r) ->
  Forall (fun p => _simple_token_overlap r (snd p) <= c) js ->
  forall best_j best_sim,
    best_sim <= c ->
    snd (lexical_scan r matched_j_idx js best_j best_sim) <= c.
Proof.
  intros Hfree Hne Hall best_j best_sim Hc.
  destruct (@lexical_scan_best r matched_j_idx js Hfree Hne best_j best_sim)
    as [[_ Hres] | (pre & p & post & Hjs & _ & _ & _ & Hres)];
    rewrite Hres; cbn [snd]; [exact Hc|].
  subst js. apply Forall_app in Hall. destruct Hall as [_ Hall].
  now inversion Hall.
Qed.

End LexicalStepFacts.

Section LexicalClaim.

Import SkillComparator.
Open Scope Q_scope.

Lemma filter_all_free {A : Type} (matched_j_idx : set nat) (l : list (nat * A)) :
  Forall (fun p => is_free matched_j_idx p = true)
    (filter (is_free matched_j_idx) l).
Proof.
  apply Forall_forall. intros p Hp. apply filter_In in Hp. tauto.
Qed.

(** C3 (the claim as written fails).  For the resume skill ["a b c"] and
    the JD skill ["a b d"] the code's ratio is 2/3 where intersection over
    union is 1/2: the pair is accepted although its Jaccard overlap does not
    exceed 0.6. *)
Lemma token_overlap_is_not_jaccard :
  ~ _simple_token_overlap "a b c" "a b d" == spec_jaccard_overlap "a b c" "a b d"
  /\ _simple_token_overlap "a b c" "a b d" == 2 # 3
  /\ spec_jaccard_overlap "a b c" "a b d" == 1 # 2
  /\ map jd_skill
       (matched_skills
          (compare_skills ["a b c"%string] ["a b d"%string] None (75 / 100)%R))
     = [Some "a b d"%string].
Proof.
  split; [|split; [|split]].
  - vm_compute. discriminate.
  - vm_compute. reflexivity.
  - vm_compute. reflexivity.
  - vm_compute. reflexivity.
Qed.

(** C3 (amended).  The lexical similarity is the number of common tokens
    over the size of the larger token set.  Pass 1 treats the resume skills
    in order, left to right.  For one resume skill [r] and the not yet
    matched JD positions: the first position whose normalised skill equals
    [r] is accepted at once, with similarity 1; when there is none, nothing
    is accepted if no overlap exceeds 0.6, and otherwise the first position
    of highest overlap is accepted, with that overlap rounded to three
    decimals. *)
Theorem lexical_step_spec (jnorm : list string) (matched : list Match)
  (matched_j_idx : set nat) (raw_r r : string) :
  let cands := filter (is_free matched_j_idx) (enumerate jnorm) in
  let ov := fun p : nat * string => _simple_token_overlap r (snd p) in
  (forall a b,
      token_set a <> [] -> token_set b <> [] ->
      _simple_token_overlap a b
      = inject_Z (Z.of_nat (List.length (set_inter (token_set a) (token_set b))))
        / inject_Z (Z.of_nat (Nat.max (List.length (token_set a))
                                (List.length (token_set b)))))
  /\ (forall rs raw st,
        lexical_pass (rs ++ [raw]) jnorm st
        = lexical_step jnorm (lexical_pass rs jnorm st) raw (_normalize raw))
  /\ (forall pre j post,
        cands = pre ++ (j, r) :: post ->
        (forall p, In p pre -> snd p <> r) ->
        lexical_step jnorm (matched, matched_j_idx) raw_r r
        = (matched ++ [mkMatch raw_r (Some r) (py_round 1 3)],
           idx_add j matched_j_idx)
        /\ py_round 1 3 == 1)
  /\ ((forall p, In p cands -> snd p <> r) ->
      (Forall (fun p => ov p <= 6 # 10) cands ->
       lexical_step jnorm (matched, matched_j_idx) raw_r r
       = (matched, matched_j_idx))
      /\ (forall pre p post,
            cands = pre ++ p :: post ->
            6 # 10 < ov p ->
            Forall (fun q => ov q < ov p) pre ->
            Forall (fun q => ov q <= ov p) post ->
            lexical_step jnorm (matched, matched_j_idx) raw_r r
            = (matched ++ [mkMatch raw_r (Some (snd p)) (py_round (ov p) 3)],
               idx_add (fst p) matched_j_idx))).
Proof.
  intros cands ov.
  pose proof (filter_all_free matched_j_idx (enumerate jnorm)) as Hfree.
  fold cands in Hfree.
  split; [|split; [|split]].
  - intros a b Ha Hb. unfold _simple_token_overlap.
    destruct (token_set a); [congruence|].
    destruct (token_set b); [congruence|]. reflexivity.
  - intros rs raw st. unfold lexical_pass. now rewrite fold_left_app.
  - intros pre j post Hc Hne. split; [|reflexivity].
    unfold lexical_step. rewrite lexical_scan_filter. fold cands. rewrite Hc.
    rewrite Hc in Hfree. apply Forall_app in Hfree. destruct Hfree as [Hpre Hj].
    inversion Hj as [|? ? Hj' _]; subst.
    unfold is_free in Hj'. cbn [fst] in Hj'. apply negb_true_iff in Hj'.
    rewrite (@lexical_scan_exact r matched_j_idx pre post j Hpre Hj' Hne). reflexivity.
  - intro Hne. split.
    + intro Hall. unfold lexical_step. rewrite lexical_scan_filter. fold cands.
      pose proof (@lexical_scan_bound r matched_j_idx cands (6 # 10) Hfree Hne Hall
                    None 0) as Hb.
      destruct (lexical_scan r matched_j_idx cands None 0) as [[[j jj]|] best_sim];
        [|reflexivity].
      cbn [snd] in Hb. unfold Qgtb.
      assert (Hlow : 0 <= 6 # 10) by discriminate.
      specialize (Hb Hlow). apply Qltb_false in Hb. now rewrite Hb.
    + intros pre p post Hc Hgt Hpre Hpost.
      unfold lexical_step. rewrite lexical_scan_filter. fold cands. rewrite Hc.
      rewrite Hc in Hfree, Hne.
      assert (Hpos : 0 < _simple_token_overlap r (snd p)).
      { eapply Qlt_trans; [|exact Hgt]. reflexivity. }
      rewrite (@lexical_scan_first_max r matched_j_idx pre post p Hfree Hne Hpre Hpost
                 None 0 Hpos).
      destruct p as [j jj]. cbn [fst snd] in *. unfold Qgtb.
      apply Qltb_true in Hgt. subst ov. cbn [snd] in Hgt. now rewrite Hgt.
Qed.

End LexicalClaim.

Section JaccardFacts.

Import SkillComparator.
Open Scope Q_scope.

Lemma str_set_NoDup (l : list string) : NoDup (str_set l).
Proof. apply NoDup_nodup. Qed.

(** The union of two token sets is at least as large as the larger one. *)
Lemma union_at_least_max (a b : string) :
  (Nat.max (List.length (token_set a)) (List.length (token_set b))
   <= List.length (str_set (token_set a ++ token_set b)))%nat.
Proof.
  apply Nat.max_lub; apply NoDup_incl_length;
    try apply str_set_NoDup;
    intros x Hx; apply nodup_In, in_or_app; auto.
Qed.

(** The code's ratio is never below intersection over union: every pair
    the Jaccard ratio would accept is accepted by the code. *)
Lemma jaccard_le_token_overlap (a b : string) :
  spec_jaccard_overlap a b <= _simple_token_overlap a b.
Proof.
  unfold spec_jaccard_overlap, _simple_token_overlap.
  pose proof (union_at_least_max a b) as Hu.
  destruct (token_set a) as [|x xs] eqn:Ha; [apply Qle_refl|].
  destruct (token_set b) as [|y ys] eqn:Hb; [apply Qle_refl|].
  set (n := List.length (set_inter (x :: xs) (y :: ys))) in *.
  set (m := Nat.max (List.length (x :: xs)) (List.length (y :: ys))) in *.
  set (u := List.length (str_set ((x :: xs) ++ y :: ys))) in *.
  assert (Hm : (1 <= m)%nat) by (subst m; cbn [List.length]; lia).
  apply Qle_shift_div_l.
  - change 0 with (inject_Z 0). rewrite <- Zlt_Qlt. lia.
  - unfold Qdiv. rewrite <- Qmult_assoc, (Qmult_comm (/ _)), Qmult_assoc.
    apply Qle_shift_div_r.
    + change 0 with (inject_Z 0). rewrite <- Zlt_Qlt. lia.
    + rewrite <- !inject_Z_mult, <- Zle_Qle. nia.
Qed.

End JaccardFacts.

Section PositionFacts.

Import SkillComparator.
Open Scope nat_scope.

Lemma idx_mem_In (j : nat) (s : set nat) : idx_mem j s = true <-> In j s.
Proof.
  unfold idx_mem. split.
  - apply set_mem_correct1.
  - apply set_mem_correct2.
Qed.

Lemma idx_mem_not_In (j : nat) (s : set nat) : idx_mem j s = false <-> ~ In j s.
Proof.
  rewrite <- idx_mem_In. destruct (idx_mem j s); split; congruence.
Qed.

Lemma idx_add_In (j k : nat) (s : set nat) :
  In k (idx_add j s) <-> k = j \/ In k s.
Proof.
  unfold idx_add. split.
  - apply set_add_elim.
  - apply set_add_intro.
Qed.

(** Adding a position that is not yet marked appends it. *)
Lemma idx_add_fresh (j : nat) (s : set nat) :
  ~ In j s -> idx_add j s = s ++ [j].
Proof.
  unfold idx_add. induction s as [|k s IH]; intro H; [reflexivity|].
  cbn [set_add app]. destruct (Nat.eq_dec j k) as [->|Hne].
  - exfalso. apply H. now left.
  - f_equal. apply IH. intro Hin. apply H. now right.
Qed.

Lemma enumerate_from_In {A : Type} (l : list A) :
  forall n j x,
    In (j, x) (enumerate_from n l) <-> n <= j /\ nth_error l (j - n) = Some x.
Proof.
  induction l as [|y l IH]; intros n j x; cbn [enumerate_from In].
  - split; [tauto|]. intros [_ H]. now destruct (j - n).
  - rewrite IH. split.
    + intros [Heq | [Hle Hnth]].
      * inversion Heq; subst. rewrite Nat.sub_diag. now split.
      * split; [lia|]. replace (j - n) with (S (j - S n)) by lia. exact Hnth.
    + intros [Hle Hnth]. destruct (Nat.eq_dec j n) as [->|Hne].
      * left. rewrite Nat.sub_diag in Hnth. cbn in Hnth. congruence.
      * right. split; [lia|].
        replace (j - n) with (S (j - S n)) in Hnth by lia. exact Hnth.
Qed.

Lemma enumerate_In {A : Type} (l : list A) (j : nat) (x : A) :
  In (j, x) (enumerate l) <-> nth_error l j = Some x.
Proof.
  unfold enumerate. rewrite enumerate_from_In, Nat.sub_0_r.
  split; [tauto | intro H; split; [lia | exact H]].
Qed.

Lemma enumerate_from_fst {A : Type} (l : list A) (n : nat) :
  map fst (enumerate_from n l) = seq n (List.length l).
Proof.
  revert n. induction l as [|y l IH]; intro n; [reflexivity|].
  cbn. now rewrite IH.
Qed.

(** What the scan reports is the initial best or a free candidate. *)
Lemma lexical_scan_result_in (r : string) (matched_j_idx : set nat)
  (js : list (nat * string)) :
  forall best_j best_sim,
    fst (lexical_scan r matched_j_idx js best_j best_sim) = best_j
    \/ exists p, In p js /\ is_free matched_j_idx p = true
                 /\ fst (lexical_scan r matched_j_idx js best_j best_sim) = Some p.
Proof.
  induction js as [|[j jj] js IH]; intros best_j best_sim; [now left|].
  cbn [lexical_scan].
  destruct (idx_mem j matched_j_idx) eqn:E.
  - destruct (IH best_j best_sim) as [H | (p & Hp & Hf & H)]; [now left|].
    right. exists p. repeat split; auto. now right.
  - assert (Hfree : is_free matched_j_idx (j, jj) = true)
      by (unfold is_free; cbn [fst]; now rewrite E).
    destruct (String.eqb r jj).
    + right. exists (j, jj). repeat split; auto. now left.
    + destruct (Qgtb (_simple_token_overlap r jj) best_sim); cbn [fst snd].
      * destruct (IH (Some (j, jj)) (_simple_token_overlap r jj))
          as [H | (p & Hp & Hf & H)].
        -- right. exists (j, jj). repeat split; auto. now left.
        -- right. exists p. repeat split; auto. now right.
      * destruct (IH best_j best_sim) as [H | (p & Hp & Hf & H)]; [now left|].
        right. exists p. repeat split; auto. now right.
Qed.

(** One step of pass 1 either changes nothing or records one pair for a
    fresh JD position, under that position's normalised skill. *)
Lemma lexical_step_cases (jnorm : list string) (st : State) (raw_r norm_r : string) :
  lexical_step jnorm st raw_r norm_r = st
  \/ exists j jj sim,
       nth_error jnorm j = Some jj
       /\ ~ In j (snd st)
       /\ lexical_step jnorm st raw_r norm_r
          = (fst st ++ [mkMatch raw_r (Some jj) sim], snd st ++ [j]).
Proof.
  destruct st as [matched idx]. unfold lexical_step.
  destruct (lexical_scan_result_in norm_r idx (enumerate jnorm) None 0%Q)
    as [H | ([j jj] & Hp & Hf & H)].
  - destruct (lexical_scan norm_r idx (enumerate jnorm) None 0%Q) as [bj bs].
    cbn [fst] in H. subst bj. now left.
  - destruct (lexical_scan norm_r idx (enumerate jnorm) None 0%Q) as [bj bs].
    cbn [fst] in H. subst bj.
    destruct (Qgtb bs (6 # 10)); [|now left].
    right. exists j, jj, (py_round bs 3).
    unfold is_free in Hf. cbn [fst] in Hf. apply negb_true_iff in Hf.
    apply idx_mem_not_In in Hf. apply enumerate_In in Hp.
    cbn [fst snd]. repeat split; auto.
    now rewrite (@idx_add_fresh j idx Hf).
Qed.

End PositionFacts.

Section ClassificationFacts.

Import SkillComparator.
Open Scope nat_scope.

Lemma lexical_step_inv (jnorm : list string) (st : State) (raw_r norm_r : string) :
  lexical_inv jnorm st -> lexical_inv jnorm (lexical_step jnorm st raw_r norm_r).
Proof.
  intros (Hnd & Hmap & Hlt).
  destruct (lexical_step_cases jnorm st raw_r norm_r)
    as [-> | (j & jj & sim & Hnth & Hfresh & ->)]; [now repeat split|].
  unfold lexical_inv. cbn [fst snd]. repeat split.
  - apply NoDup_app; auto.
    + constructor; [intros []|constructor].
    + intros k Hk [<-|[]]. contradiction.
  - rewrite !map_app, Hmap. cbn [map jd_skill]. now rewrite Hnth.
  - apply Forall_app. split; [exact Hlt|].
    constructor; [|constructor].
    apply nth_error_Some. congruence.
Qed.

Lemma lexical_pass_inv (jnorm rskills : list string) :
  forall st, lexical_inv jnorm st -> lexical_inv jnorm (lexical_pass rskills jnorm st).
Proof.
  unfold lexical_pass.
  induction rskills as [|r rs IH]; intros st H; [exact H|].
  cbn [fold_left]. apply IH. now apply lexical_step_inv.
Qed.

Lemma lexical_inv_named (jskills : list string) (st : State) :
  lexical_inv (map _normalize jskills) st -> named_inv jskills st.
Proof.
  intros (_ & Hmap & Hlt) j Hj.
  rewrite Forall_forall in Hlt. specialize (Hlt j Hj).
  rewrite length_map in Hlt.
  destruct (nth_error jskills j) as [s|] eqn:Hs;
    [|apply nth_error_None in Hs; lia].
  exists s. split; [reflexivity|].
  assert (Hin : In (nth_error (map _normalize jskills) j)
                  (map jd_skill (fst st))).
  { rewrite Hmap. now apply in_map. }
  apply in_map_iff in Hin. destruct Hin as (m & Hm & Hin).
  exists m. split; [exact Hin|]. left.
  rewrite Hm. now apply map_nth_error.
Qed.

Lemma list_index_nth (l : list string) (x : string) (k : nat) :
  list_index l x = Some k -> nth_error l k = Some x.
Proof.
  revert k. induction l as [|y l IH]; intros k H; [discriminate|].
  cbn [list_index] in H. destruct (String.eqb y x) eqn:E.
  - inversion H; subst. apply String.eqb_eq in E. now subst.
  - destruct (list_index l x) as [k'|]; [|discriminate].
    inversion H; subst. cbn. now apply IH.
Qed.

Lemma named_inv_grow (jskills : list string) (matched : list Match)
  (idx : set nat) (m : Match) :
  named_inv jskills (matched, idx) -> named_inv jskills (matched ++ [m], idx).
Proof.
  intros H j Hj. destruct (H j Hj) as (s & Hs & m' & Hm' & Hd).
  exists s. split; [exact Hs|]. exists m'. split; [|exact Hd].
  cbn [fst]. apply in_or_app. now left.
Qed.

Lemma semantic_loop_inv (jskills : list string) (thr : R)
  (r_embs j_embs : list Np.vec) (unmatched_j : list string)
  (rs : list (nat * string)) :
  forall st,
    named_inv jskills st ->
    named_inv jskills
      (fst (semantic_loop jskills thr r_embs j_embs unmatched_j rs st)).
Proof.
  induction rs as [|[i_r r] rs IH]; intros [matched idx] H; [exact H|].
  cbn [semantic_loop].
  destruct (semantic_scan r_embs j_embs i_r (enumerate unmatched_j) None 0%R)
    as [[best_j best_sim]|e]; [|exact H].
  destruct (Rle_dec thr best_sim); [|now apply IH].
  cbn [fst snd].
  destruct best_j as [j|]; [|now apply named_inv_grow].
  destruct (list_index jskills j) as [k|] eqn:Hk; [|now apply named_inv_grow].
  apply IH. intros j' Hj'. cbn [fst snd] in *.
  apply idx_add_In in Hj'. destruct Hj' as [-> | Hj'].
  - exists j. split; [now apply list_index_nth|].
    eexists. split; [apply in_or_app; right; now left|]. now right.
  - now apply (@named_inv_grow jskills matched idx (mkMatch r (Some j) (Np.py_round_R best_sim 3)) H).
Qed.

Lemma final_state_named (rs js : list string) (embed_fn : option EmbedFn) (thr : R) :
  named_inv js (final_state rs js embed_fn thr).
Proof.
  unfold final_state.
  assert (H1 : named_inv js
                 (lexical_pass rs (map _normalize js) ([], empty_set nat))).
  { apply lexical_inv_named. apply lexical_pass_inv.
    repeat split; [constructor | constructor]. }
  unfold semantic_pass. destruct embed_fn as [f|]; [|exact H1].
  destruct (unmatched_resume rs _ ++ unmatched_jd js _); [exact H1|].
  destruct (f _); [|exact H1].
  now apply semantic_loop_inv.
Qed.

(** Counting: the free positions and the marked ones add up. *)
Lemma free_count (js : list string) (idx : set nat) :
  NoDup idx -> Forall (fun j => j < List.length js) idx ->
  List.length (filter (is_free idx) (enumerate js)) + List.length idx
  = List.length js.
Proof.
  intros Hnd Hlt.
  set (marked := filter (fun p : nat * string => idx_mem (fst p) idx) (enumerate js)).
  assert (Hsplit : List.length (filter (is_free idx) (enumerate js))
                   + List.length marked = List.length (enumerate js)).
  { subst marked. induction (enumerate js) as [|p l IH]; [reflexivity|].
    cbn [filter]. unfold is_free at 1.
    destruct (idx_mem (fst p) idx); cbn [negb List.length]; lia. }
  assert (Hlen : List.length (enumerate js) = List.length js).
  { unfold enumerate. rewrite <- (length_map fst), enumerate_from_fst.
    apply length_seq. }
  assert (Hperm : List.length marked = List.length idx).
  { rewrite <- (length_map fst). apply Permutation_length.
    apply NoDup_Permutation; [|exact Hnd|].
    - subst marked. unfold enumerate.
      assert (Hgen : forall l : list (nat * string),
                 NoDup (map fst l) ->
                 NoDup (map fst (filter (fun p => idx_mem (fst p) idx) l))).
      { induction l as [|p l IH]; intro H; [constructor|].
        inversion H as [|? ? Hp Hl]; subst. cbn [filter].
        destruct (idx_mem (fst p) idx); [|now apply IH].
        cbn [map]. constructor; [|now apply IH].
        intro Hin. apply Hp. apply in_map_iff in Hin.
        destruct Hin as (q & Hq & Hin). apply filter_In in Hin.
        apply in_map_iff. exists q. tauto. }
      apply Hgen. rewrite enumerate_from_fst. apply seq_NoDup.
    - intro j. subst marked. rewrite in_map_iff. split.
      + intros ([k s] & <- & Hin). apply filter_In in Hin.
        cbn [fst] in *. now apply idx_mem_In.
      + intro Hj. rewrite Forall_forall in Hlt. specialize (Hlt j Hj).
        destruct (nth_error js j) as [s|] eqn:Hs;
          [|apply nth_error_None in Hs; lia].
        exists (j, s). split; [reflexivity|]. apply filter_In. split.
        * now apply enumerate_In.
        * cbn [fst]. now apply idx_mem_In. }
  lia.
Qed.

End ClassificationFacts.

Section ClassificationClaim.

Import SkillComparator.
Open Scope nat_scope.

Lemma compare_skills_fields (rs js : list string) (embed_fn : option EmbedFn) (thr : R) :
  matched_skills (compare_skills rs js embed_fn thr)
  = fst (final_state rs js embed_fn thr)
  /\ map skill (missing_skills (compare_skills rs js embed_fn thr))
     = unmatched_jd js (snd (final_state rs js embed_fn thr)).
Proof.
  unfold compare_skills.
  destruct (final_state rs js embed_fn thr) as [matched idx]. cbn.
  split; [reflexivity|]. rewrite map_map. cbn. apply map_id.
Qed.

(** C7 (the claim as written fails).  The JD list ["x"; "x"] against the
    resume list ["x"]: the first position is matched, the second is missing,
    so the JD skill "x" is in both sets. *)
Lemma duplicate_jd_skill_matched_and_missing :
  let out := compare_skills ["x"%string] ["x"%string; "x"%string] None (75 / 100)%R in
  In "x"%string ["x"%string; "x"%string]
  /\ (exists m, In m (matched_skills out) /\ jd_skill m = Some "x"%string)
  /\ (exists ms, In ms (missing_skills out) /\ skill ms = "x"%string).
Proof.
  split; [now left|]. split.
  - eexists. split; [vm_compute; left; reflexivity | reflexivity].
  - eexists. split; [vm_compute; left; reflexivity | reflexivity].
Qed.

(** C7 (amended).  JD positions, not JD strings, are classified exactly
    once.  [missing_skills] lists, in order, the skills at the positions that
    were not marked; a marked position is in range, is never listed as
    missing and is named by a matched pair, under its normalised skill (pass
    1) or its raw skill (pass 2); an unmarked position is listed as missing.
    Without an embedding function the matched pairs name the marked positions
    one by one, so matched and missing together count the JD skills. *)
Theorem compare_skills_classifies_positions (rs js : list string)
  (embed_fn : option EmbedFn) (thr : R) :
  let out := compare_skills rs js embed_fn thr in
  let idx := snd (final_state rs js embed_fn thr) in
  let listed := filter (is_free idx) (enumerate js) in
  map skill (missing_skills out) = map snd listed
  /\ (forall j s,
        nth_error js j = Some s ->
        (In j idx ->
         ~ In (j, s) listed
         /\ exists m, In m (matched_skills out)
                      /\ (jd_skill m = Some (_normalize s) \/ jd_skill m = Some s))
        /\ (~ In j idx -> In (j, s) listed))
  /\ (forall j, In j idx -> j < List.length js)
  /\ (let out0 := compare_skills rs js None thr in
      let idx0 := snd (final_state rs js None thr) in
      NoDup idx0
      /\ map jd_skill (matched_skills out0)
         = map (fun j => nth_error (map _normalize js) j) idx0
      /\ List.length (matched_skills out0) + List.length (missing_skills out0)
         = List.length js).
Proof.
  intros out idx listed.
  destruct (compare_skills_fields rs js embed_fn thr) as [Hm Hmiss].
  pose proof (final_state_named rs js embed_fn thr) as Hnamed.
  split; [exact Hmiss|]. split; [|split].
  - intros j s Hs. split.
    + intro Hj. split.
      * subst listed. rewrite filter_In. intros [_ Hfree].
        unfold is_free in Hfree. cbn [fst] in Hfree.
        apply negb_true_iff, idx_mem_not_In in Hfree. contradiction.
      * destruct (Hnamed j Hj) as (s' & Hs' & m & Hin & Hd).
        assert (s' = s) by congruence. subst s'.
        exists m. subst out. rewrite Hm. now split.
    + intro Hj. subst listed. apply filter_In. split.
      * now apply enumerate_In.
      * unfold is_free. cbn [fst]. apply negb_true_iff.
        now apply idx_mem_not_In.
  - intros j Hj. destruct (Hnamed j Hj) as (s & Hs & _).
    apply nth_error_Some. congruence.
  - destruct (compare_skills_fields rs js None thr) as [Hm0 Hmiss0].
    assert (Hinv : lexical_inv (map _normalize js) (final_state rs js None thr)).
    { unfold final_state, semantic_pass. apply lexical_pass_inv.
      repeat split; constructor. }
    destruct Hinv as (Hnd & Hmap & Hlt).
    cbn zeta. split; [exact Hnd|]. split.
    + now rewrite Hm0.
    + rewrite Hm0.
      rewrite <- (length_map skill (missing_skills _)), Hmiss0.
      unfold unmatched_jd. rewrite length_map.
      rewrite <- (length_map jd_skill), Hmap, length_map.
      rewrite Nat.add_comm. apply free_count; [exact Hnd|].
      now rewrite length_map in Hlt.
Qed.

Lemma compare_skills_classifies_positions_witness :
  let out := compare_skills ["x"%string] ["x"%string; "x"%string] None (75 / 100)%R in
  (exists m, In m (matched_skills out)
             /\ (jd_skill m = Some (_normalize "x") \/ jd_skill m = Some "x"%string))
  /\ In (1, "x"%string)
       (filter (is_free (snd (final_state ["x"%string] ["x"%string; "x"%string]
                                 None (75 / 100)%R)))
          (enumerate ["x"%string; "x"%string])).
Proof.
  destruct (compare_skills_classifies_positions
              ["x"%string] ["x"%string; "x"%string] None (75 / 100)%R)
    as (_ & Hpos & _ & _).
  split.
  - destruct (Hpos 0 "x"%string eq_refl) as [Hmarked _].
    apply Hmarked. vm_compute. now left.
  - destruct (Hpos 1 "x"%string eq_refl) as [_ Hfree].
    apply Hfree. vm_compute. intros [H|[]]. discriminate.
Defined.

End ClassificationClaim.

Section LexicalExamples.

Import SkillComparator.
Open Scope Q_scope.

Lemma lexical_step_spec_witness :
  let jnorm := ["python"%string; "machine learning engineer"%string; "aws"%string] in
  lexical_step jnorm ([], []) "AWS" "aws"
  = ([mkMatch "AWS" (Some "aws"%string) (py_round 1 3)], idx_add 2 [])
  /\ lexical_step jnorm ([], []) "Java" "java" = ([], [])
  /\ lexical_step jnorm ([], []) "Machine Learning" "machine learning"
     = ([mkMatch "Machine Learning" (Some "machine learning engineer"%string)
           (py_round (_simple_token_overlap "machine learning"
                        "machine learning engineer") 3)],
        idx_add 1 []).
Proof.
  intro jnorm. split; [|split].
  - destruct (lexical_step_spec jnorm [] [] "AWS" "aws")
      as (_ & _ & Hexact & _).
    apply (Hexact [(0%nat, "python"%string);
                   (1%nat, "machine learning engineer"%string)] 2%nat []).
    + reflexivity.
    + intros p [<-|[<-|[]]]; discriminate.
  - destruct (lexical_step_spec jnorm [] [] "Java" "java")
      as (_ & _ & _ & Hbest).
    apply Hbest.
    + intros p [<-|[<-|[<-|[]]]]; discriminate.
    + repeat constructor; vm_compute; discriminate.
  - destruct (lexical_step_spec jnorm [] [] "Machine Learning" "machine learning")
      as (_ & _ & _ & Hbest).
    apply (proj2 (Hbest
             ltac:(intros p [<-|[<-|[<-|[]]]]; discriminate))
             [(0%nat, "python"%string)]
             (1%nat, "machine learning engineer"%string)
             [(2%nat, "aws"%string)]).
    + reflexivity.
    + vm_compute. reflexivity.
    + repeat constructor.
    + repeat constructor. vm_compute. discriminate.
Defined.

End LexicalExamples.

(* ================================================================== *)
(** * Properties of the cosine helpers and of the semantic matcher *)
(* ================================================================== *)

Section CosineFacts.

Import SemanticMatcher.
Open Scope R_scope.

Lemma div_ok (x y : R) : y <> 0 -> Np.div x y = Ok (x / y).
Proof.
  intro H. unfold Np.div. destruct (Req_dec_T y 0); [contradiction|reflexivity].
Qed.


Lemma dot_same_length (a b : Np.vec) :
  List.length a = List.length b -> Np.dot a b = Ok (Np.dot_list a b).
Proof.
  intro H. unfold Np.dot. now rewrite H, Nat.eqb_refl.
Qed.


Lemma dot_list_self_nonneg (a : Np.vec) : 0 <= Np.dot_list a a.
Proof.
  induction a as [|x a IH]; cbn [Np.dot_list]; [lra|]. nra.
Qed.

Lemma norm_singleton_one : Np.norm [1] = 1.
Proof.
  unfold Np.norm. cbn [Np.dot_list].
  replace (1 * 1 + 0) with 1 by lra. apply sqrt_1.
Qed.

Lemma norm_singleton_minus_one : Np.norm [-1] = 1.
Proof.
  unfold Np.norm. cbn [Np.dot_list].
  replace (-1 * -1 + 0) with 1 by lra. apply sqrt_1.
Qed.



(** The value the three helpers agree on for aligned non-degenerate
    vectors. *)
Lemma cosine_value (a b : Np.vec) :
  List.length a = List.length b -> Np.norm a <> 0 -> Np.norm b <> 0 ->
  _cosine (Some a) (Some b) = Ok (Np.dot_list a b / (Np.norm a * Np.norm b))
  /\ SkillComparator._embedding_similarity (Some a) (Some b)
     = Ok (Np.dot_list a b / (Np.norm a * Np.norm b))
  /\ EmbeddingEngine.cosine_similarity (Some a) (Some b)
     = Ok (Np.dot_list a b / (Np.norm a * Np.norm b)).
Proof.
  intros Hlen Ha Hb.
  assert (Hd : Np.norm a * Np.norm b <> 0)
    by now apply Rmult_integral_contrapositive.
  unfold _cosine, SkillComparator._embedding_similarity,
    EmbeddingEngine.cosine_similarity, Np.norm_obj, Np.dot_obj.
  cbn [bind].
  destruct (Req_dec_T (Np.norm a * Np.norm b) 0); [contradiction|].
  destruct (Req_dec_T (Np.norm a) 0); [contradiction|].
  destruct (Req_dec_T (Np.norm b) 0); [contradiction|].
  rewrite (dot_same_length _ _ Hlen). cbn [bind].
  rewrite (div_ok _ Hd). auto.
Qed.

Lemma cosine_zero_norm (a b : Np.vec) :
  Np.norm a = 0 \/ Np.norm b = 0 ->
  _cosine (Some a) (Some b) = Ok 0
  /\ SkillComparator._embedding_similarity (Some a) (Some b) = Ok 0
  /\ EmbeddingEngine.cosine_similarity (Some a) (Some b) = Ok 0.
Proof.
  intro H.
  assert (Hd : Np.norm a * Np.norm b = 0)
    by (destruct H as [H | H]; rewrite H; ring).
  unfold _cosine, SkillComparator._embedding_similarity,
    EmbeddingEngine.cosine_similarity, Np.norm_obj.
  cbn [bind].
  destruct (Req_dec_T (Np.norm a * Np.norm b) 0); [|contradiction].
  repeat split; try reflexivity.
  destruct (Req_dec_T (Np.norm a) 0); [reflexivity|].
  destruct (Req_dec_T (Np.norm b) 0); [reflexivity|].
  destruct H; contradiction.
Qed.


(** The weights of the overall score are at least 1 each. *)
Lemma list_sum_weights_pos (chunks : list string) :
  chunks <> [] -> (1 <= list_sum (map chunk_weight chunks))%nat.
Proof.
  destruct chunks as [|c chunks]; [congruence|]. intros _.
  cbn [map]. unfold list_sum. cbn [fold_right]. unfold chunk_weight at 1.
  pose proof (Nat.le_max_l 1 (List.length (split_ws c))). lia.
Qed.

Lemma overall_of_returns (sums : list R) (chunks : list string) :
  overall_of sums chunks
  = Ok (match chunks with
        | [] => 0
        | _ => weighted_sum sums (map chunk_weight chunks)
               / INR (list_sum (map chunk_weight chunks))
        end).
Proof.
  unfold overall_of. destruct chunks as [|c chunks]; [reflexivity|].
  cbn [map]. apply div_ok.
  apply not_0_INR.
  pose proof (@list_sum_weights_pos (c :: chunks) ltac:(discriminate)) as H.
  cbn [map] in H. lia.
Qed.

End CosineFacts.

Section CosineClaim.

Import SemanticMatcher.
Open Scope R_scope.




End CosineClaim.

Section ChunkingFacts.

Import SemanticMatcher.

Variable sent_tokenize : string -> result (list string).

Lemma group3_nonempty (sents : list string) : sents <> [] -> group3 sents <> [].
Proof.
  destruct sents as [|a [|b [|c rest]]]; cbn; congruence.
Qed.

(** The number of groups is the number of sentences divided by three,
    rounded up. *)
Lemma group3_length (sents : list string) :
  forall n, (List.length sents <= n)%nat ->
    (3 * List.length (group3 sents) < List.length sents + 3)%nat
    /\ (List.length sents <= 3 * List.length (group3 sents))%nat.
Proof.
  intros n. revert sents.
  induction n as [|n IH]; intros sents Hn.
  - destruct sents; cbn in *; lia.
  - destruct sents as [|a [|b [|c rest]]]; cbn [group3 List.length] in *; try lia.
    destruct (IH rest ltac:(lia)) as [H1 H2]. lia.
Qed.

Lemma chunk_nonempty (text : string) :
  _chunk_text_to_paragraphs sent_tokenize text <> [].
Proof.
  unfold _chunk_text_to_paragraphs.
  destruct (map strip (filter nonblank (split_paragraphs text))) as [|p ps];
    [|discriminate].
  destruct (group3 _); discriminate.
Qed.

End ChunkingFacts.

Section BestMatchFacts.

Import SemanticMatcher.
Open Scope R_scope.

Lemma cosine_total (a b : Np.vec) :
  List.length a = List.length b -> _cosine (Some a) (Some b) = Ok (cosine_of a b).
Proof.
  intro Hlen. unfold _cosine, cosine_of.
  destruct (Req_dec_T (Np.norm a * Np.norm b) 0) as [H|H]; [reflexivity|].
  rewrite (@dot_same_length a b Hlen). cbn [bind]. now apply div_ok.
Qed.

Lemma index_nth_error {A : Type} (l : list A) (i : nat) (x : A) :
  nth_error l i = Some x -> Np.index l i = Ok x.
Proof.
  intro H. unfold Np.index. now rewrite H.
Qed.

(** The inner loop computes a running maximum. *)
Lemma best_match_fold (r_embs : list Np.vec) (i : nat) (r_emb : Np.vec)
  (jd_chunks : list string) (j_embs : list Np.vec) :
  nth_error r_embs i = Some r_emb ->
  Forall (fun v => List.length v = List.length r_emb) j_embs ->
  forall n best_score best_j,
    (n + List.length j_embs <= List.length jd_chunks)%nat ->
    exists best_j',
      best_match r_embs i jd_chunks (SkillComparator.enumerate_from n j_embs)
        best_score best_j
      = Ok (fold_left (fun best j_emb => Rmax best (cosine_of r_emb j_emb))
              j_embs best_score, best_j').
Proof.
  intros Hr Hdim.
  induction j_embs as [|j_emb j_embs IH]; intros n best_score best_j Hlen.
  - exists best_j. reflexivity.
  - inversion Hdim as [|? ? Hj Hrest]; subst.
    cbn [SkillComparator.enumerate_from best_match fold_left].
    rewrite (@index_nth_error _ r_embs i r_emb Hr). cbn [bind].
    rewrite (@cosine_total r_emb j_emb (eq_sym Hj)). cbn [bind].
    cbn [List.length] in Hlen.
    destruct (Rlt_dec best_score (cosine_of r_emb j_emb)) as [Hlt|Hnlt].
    + destruct (nth_error jd_chunks n) as [chunk|] eqn:Hc;
        [|apply nth_error_None in Hc; lia].
      rewrite (@index_nth_error _ jd_chunks n chunk Hc). cbn [bind].
      rewrite Rmax_right by lra.
      apply (IH Hrest (S n)). lia.
    + rewrite Rmax_left by lra.
      apply (IH Hrest (S n)). lia.
Qed.

Lemma skipn_cons_nth {A : Type} (l : list A) :
  forall n x, nth_error l n = Some x -> skipn n l = x :: skipn (S n) l.
Proof.
  induction l as [|y l IH]; intros n x H.
  - now destruct n.
  - destruct n as [|n]; cbn in *.
    + congruence.
    + now apply IH.
Qed.

(** The outer loop scores the chunks in order. *)
Lemma score_paragraphs_spec (r_embs j_embs : list Np.vec) (d : nat)
  (jd_chunks : list string) :
  Forall (fun v => List.length v = d) r_embs ->
  Forall (fun v => List.length v = d) j_embs ->
  (List.length j_embs <= List.length jd_chunks)%nat ->
  forall chunks n,
    (n + List.length chunks = List.length r_embs)%nat ->
    exists ps,
      score_paragraphs r_embs j_embs jd_chunks
        (SkillComparator.enumerate_from n chunks)
      = Ok (ps, map (fun v => floored_best v j_embs) (skipn n r_embs))
      /\ map paragraph ps = chunks
      /\ map score ps = map (fun v => floored_best v j_embs) (skipn n r_embs).
Proof.
  intros Hr Hj Hlen.
  induction chunks as [|c chunks IH]; intros n Hn.
  - exists []. cbn [List.length] in Hn.
    rewrite skipn_all2 by lia. repeat split; reflexivity.
  - cbn [List.length] in Hn.
    destruct (nth_error r_embs n) as [r_emb|] eqn:Hnth;
      [|apply nth_error_None in Hnth; lia].
    assert (Hdim : Forall (fun v => List.length v = List.length r_emb) j_embs).
    { rewrite Forall_forall in Hr. rewrite (Hr r_emb (nth_error_In _ _ Hnth)).
      exact Hj. }
    destruct (@best_match_fold r_embs n r_emb jd_chunks j_embs Hnth Hdim
                0%nat 0 None ltac:(cbn; lia)) as [bj Hb].
    destruct (IH (S n) ltac:(lia)) as (ps & Hps & Hpar & Hsc).
    exists (mkParagraphScore c (floored_best r_emb j_embs) bj :: ps).
    cbn [SkillComparator.enumerate_from score_paragraphs].
    unfold SkillComparator.enumerate. rewrite Hb. cbn [bind]. rewrite Hps.
    cbn [bind fst snd]. rewrite (@skipn_cons_nth _ r_embs n r_emb Hnth).
    cbn [map paragraph score]. rewrite Hpar, Hsc. repeat split; reflexivity.
Qed.

(** The floored best match is a maximum: it bounds 0 and every cosine, and
    it is 0 or one of the cosines. *)
Lemma floored_best_max (r_emb : Np.vec) (j_embs : list Np.vec) :
  0 <= floored_best r_emb j_embs
  /\ (forall j_emb, In j_emb j_embs -> cosine_of r_emb j_emb <= floored_best r_emb j_embs)
  /\ (floored_best r_emb j_embs = 0
      \/ exists j_emb, In j_emb j_embs /\ floored_best r_emb j_embs = cosine_of r_emb j_emb).
Proof.
  unfold floored_best.
  assert (Hgen : forall l init,
    init <= fold_left (fun best j => Rmax best (cosine_of r_emb j)) l init
    /\ (forall j, In j l ->
          cosine_of r_emb j <= fold_left (fun best j => Rmax best (cosine_of r_emb j)) l init)
    /\ (fold_left (fun best j => Rmax best (cosine_of r_emb j)) l init = init
        \/ exists j, In j l
             /\ fold_left (fun best j => Rmax best (cosine_of r_emb j)) l init
                = cosine_of r_emb j)).
  { induction l as [|j l IH]; intro init; cbn [fold_left].
    - split; [lra|]. split; [intros j []|now left].
    - destruct (IH (Rmax init (cosine_of r_emb j))) as (H1 & H2 & H3).
      pose proof (Rmax_l init (cosine_of r_emb j)) as Hl.
      pose proof (Rmax_r init (cosine_of r_emb j)) as Hr.
      split; [lra|]. split.
      + intros j' [<-|Hin]; [lra | now apply H2].
      + destruct H3 as [H3 | (j' & Hin & H3)].
        * destruct (Rmax_case init (cosine_of r_emb j)
                      (fun x => x = init \/ x = cosine_of r_emb j))
            as [Hc|Hc]; auto.
          -- left. congruence.
          -- right. exists j. split; [now left|congruence].
        * right. exists j'. split; [now right|exact H3]. }
  destruct (Hgen j_embs 0) as (H1 & H2 & H3). auto.
Qed.

End BestMatchFacts.

Section SemanticClaim.

Import SemanticMatcher.
Open Scope R_scope.



Variable sent_tokenize : string -> result (list string).
Variable sentence_transformer : option (list string -> result (list Np.vec)).

(** When the backend answers with one vector per chunk, all of one
    dimension, the matcher returns; its paragraph scores are the floored best
    matches and its overall score their mean weighted by chunk length. *)
Lemma semantic_similarity_spec (resume_text jd_text : string)
  (embed_fn : option SkillComparator.EmbedFn) (embs : list Np.vec) (d : nat) :
  let rc := _chunk_text_to_paragraphs sent_tokenize resume_text in
  let jc := _chunk_text_to_paragraphs sent_tokenize jd_text in
  let r_embs := firstn (List.length rc) embs in
  let j_embs := skipn (List.length rc) embs in
  let best := map (fun v => floored_best v j_embs) r_embs in
  _get_embeddings_for_texts sentence_transformer (rc ++ jc) embed_fn = Ok embs ->
  List.length embs = (List.length rc + List.length jc)%nat ->
  Forall (fun v => List.length v = d) embs ->
  exists r,
    semantic_similarity_resume_jd sent_tokenize sentence_transformer
      resume_text jd_text embed_fn = Ok r
    /\ map paragraph (paragraph_scores r) = rc
    /\ map score (paragraph_scores r) = best
    /\ overall_score r = weighted_mean best (map chunk_weight rc).
Proof.
  intros rc jc r_embs j_embs best Hemb Hlen Hdim.
  assert (Hsplit : embs = r_embs ++ j_embs)
    by (subst r_embs j_embs; now rewrite firstn_skipn).
  assert (Hdim' := Hdim). rewrite Hsplit in Hdim'.
  apply Forall_app in Hdim'. destruct Hdim' as [Hr Hj].
  assert (Hrlen : List.length r_embs = List.length rc)
    by (subst r_embs; rewrite length_firstn; lia).
  assert (Hjlen : List.length j_embs = List.length jc)
    by (subst j_embs; rewrite length_skipn; lia).
  destruct (@score_paragraphs_spec r_embs j_embs d jc Hr Hj ltac:(lia) rc 0%nat
              ltac:(lia)) as (ps & Hps & Hpar & Hsc).
  cbn [skipn] in Hps, Hsc. fold best in Hps, Hsc.
  unfold semantic_similarity_resume_jd. fold rc jc.
  rewrite Hemb. cbn [bind]. fold r_embs j_embs.
  unfold SkillComparator.enumerate. rewrite Hps. cbn [bind snd fst].
  rewrite overall_of_returns. cbn [bind].
  eexists. split; [reflexivity|]. cbn [paragraph_scores overall_score].
  repeat split; auto.
  pose proof (chunk_nonempty sent_tokenize resume_text) as Hne. fold rc in Hne.
  destruct rc; [congruence|reflexivity].
Qed.

End SemanticClaim.

Section SemanticScenario.

Import SemanticMatcher.
Open Scope R_scope.

Lemma cosine_of_opposite : cosine_of [1] [-1] = -1.
Proof.
  unfold cosine_of. rewrite norm_singleton_one, norm_singleton_minus_one.
  destruct (Req_dec_T (1 * 1) 0); [lra|].
  cbn [Np.dot_list]. field.
Qed.




End SemanticScenario.

(* ================================================================== *)
(** * Properties of the orchestration *)
(* ================================================================== *)

Section OrchestrationFacts.

Import Orchestration.
Open Scope string_scope.

Variable tools : Tools.

(** Apart from the resume agent, no default agent lets an exception out. *)
Lemma default_agents_absorb (resume_data jd_data matcher : Json) (jd_text : string) :
  returns (JDAnalyzerAgent_process tools jd_text)
  /\ returns (MatcherAgent_match tools resume_data jd_text)
  /\ returns (ScoringAgent_score tools resume_data jd_data matcher)
  /\ returns (OptimizationAgent_optimize tools resume_data jd_data).
Proof.
  unfold returns, JDAnalyzerAgent_process, MatcherAgent_match,
    ScoringAgent_score, OptimizationAgent_optimize.
  repeat split.
  - destruct (jd_tools tools jd_text); eauto.
  - destruct (matcher_tools tools resume_data jd_text); eauto.
  - destruct (scoring_tools tools resume_data jd_data matcher); eauto.
  - destruct (optimizer_tools tools resume_data jd_data); eauto.
Qed.

(** The saving step only touches ["meta"]. *)
Lemma run_lookup (agents : Agents) (results_dir : string)
  (resume_path : ResumeInput) (jd_text : string) (target_role : option string)
  (save_result : bool) (started_at : nat) (elapsed_s : Q) (k : string) :
  k <> "meta" ->
  dict_lookup (run tools agents results_dir resume_path jd_text target_role
                 save_result started_at elapsed_s) k
  = dict_lookup (run_pipeline agents resume_path jd_text target_role
                   started_at elapsed_s) k.
Proof.
  intro Hk. unfold run.
  destruct save_result; [|reflexivity].
  destruct (write_json tools _ _); [|reflexivity].
  unfold meta_set.
  destruct (dict_lookup (run_pipeline _ _ _ _ _ _) "meta") as [[| | | | |m]|];
    try reflexivity.
  generalize (JDict (dict_set m "result_path"
                       (JStr (results_dir ++ "/" ++ "resumate_result_"
                              ++ SkillComparator.nat_to_string started_at ++ ".json")))).
  intro v.
  induction (run_pipeline agents resume_path jd_text target_role started_at elapsed_s)
    as [|[k' v'] d IH]; cbn [dict_set dict_lookup].
  - destruct (String.eqb k "meta") eqn:E; [|reflexivity].
    apply String.eqb_eq in E. contradiction.
  - destruct (String.eqb "meta" k') eqn:E; cbn [dict_lookup].
    + apply String.eqb_eq in E. subst k'.
      destruct (String.eqb k "meta") eqn:E'; [|reflexivity].
      apply String.eqb_eq in E'. contradiction.
    + destruct (String.eqb k k'); [reflexivity | exact IH].
Qed.

(** The pipeline when resume parsing raises. *)
Lemma pipeline_resume_failure (agents : Agents) (resume_path : ResumeInput)
  (jd_text : string) (target_role : option string) (started_at : nat)
  (elapsed_s : Q) (e : exn) :
  resume_agent_process agents resume_path = Raise e ->
  run_pipeline agents resume_path jd_text target_role started_at elapsed_s
  = [("meta", JDict [("started_at", JInt started_at);
                     ("target_role", opt_json target_role);
                     ("elapsed_s", JNum elapsed_s)]);
     ("status", JStr "error");
     ("error", JStr (str_of_exn e))].
Proof.
  intro H. unfold run_pipeline. rewrite H. reflexivity.
Qed.

(** The pipeline when every agent returns, the optimizer's outcome being
    either its payload or the [None] that replaces its exception. *)
Lemma pipeline_success (agents : Agents) (resume_path : ResumeInput)
  (jd_text : string) (target_role : option string) (started_at : nat)
  (elapsed_s : Q) (resume_data jd_data matcher score : Json) :
  resume_agent_process agents resume_path = Ok resume_data ->
  jd_agent_process agents jd_text = Ok jd_data ->
  matcher_agent_match agents resume_data jd_text = Ok matcher ->
  scoring_agent_score agents resume_data jd_data matcher = Ok score ->
  run_pipeline agents resume_path jd_text target_role started_at elapsed_s
  = [("meta", JDict [("started_at", JInt started_at);
                     ("target_role", opt_json target_role);
                     ("elapsed_s", JNum elapsed_s)]);
     ("resume", resume_data);
     ("jd", jd_data);
     ("matcher", matcher);
     ("optimized_resume",
      match optimizer_agent_optimize agents resume_data jd_data with
      | Ok optimized => optimized
      | Raise _ => JNull
      end);
     ("ats", score);
     ("status", JStr "success")].
Proof.
  intros Hr Hj Hm Hs. unfold run_pipeline. rewrite Hr, Hj. cbn [gather].
  rewrite Hm.
  destruct (optimizer_agent_optimize agents resume_data jd_data);
    cbn [gather]; rewrite Hs; reflexivity.
Qed.

End OrchestrationFacts.

Section OrchestrationClaim.

Import Orchestration.
Open Scope string_scope.

(** C4 (the claim as written fails).  When the optimization raises, the
    optimization agent turns the exception into the payload
    [{"error": str(e)}]; the run succeeds and [optimized_resume] holds that
    payload, it is not null. *)
Lemma optimizer_failure_is_not_null :
  let record :=
    run tools_failing_optimizer (default_agents tools_failing_optimizer)
      "data/results" (Path "cv.pdf") "JD" None true 42 (1 # 2) in
  dict_lookup record "status" = Some (JStr "success")
  /\ dict_lookup record "optimized_resume"
     = Some (JDict [("error", JStr "LLM unavailable")])
  /\ dict_lookup record "optimized_resume" <> Some JNull.
Proof.
  repeat split; try reflexivity. discriminate.
Qed.

(** C4 (amended).  With the agents the engine builds: when resume parsing
    raises, the run ends with status "error", the error text, and none of the
    keys resume, jd, matcher, optimized_resume, ats; when resume parsing
    returns, the run ends with status "success" and with matcher and ats
    sub-results, and an optimization that raises leaves the agent's payload
    [{"error": str(e)}] in [optimized_resume].  On the engine's side,
    whatever its agents: an optimizer agent that raises is replaced by null
    and does not stop a run whose other agents return. *)
Theorem run_failure_semantics (tools : Tools) (results_dir : string)
  (resume_path : ResumeInput) (jd_text : string) (target_role : option string)
  (save_result : bool) (started_at : nat) (elapsed_s : Q) :
  let record :=
    run tools (default_agents tools) results_dir resume_path jd_text
      target_role save_result started_at elapsed_s in
  (forall e,
      resume_tools tools resume_path = Raise e ->
      dict_lookup record "status" = Some (JStr "error")
      /\ dict_lookup record "error" = Some (JStr (str_of_exn e))
      /\ dict_lookup record "resume" = None
      /\ dict_lookup record "jd" = None
      /\ dict_lookup record "matcher" = None
      /\ dict_lookup record "optimized_resume" = None
      /\ dict_lookup record "ats" = None)
  /\ (forall resume_data,
        resume_tools tools resume_path = Ok resume_data ->
        dict_lookup record "status" = Some (JStr "success")
        /\ dict_lookup record "error" = None
        /\ (exists matcher score,
              dict_lookup record "matcher" = Some matcher
              /\ dict_lookup record "ats" = Some score)
        /\ (forall jd_data e,
              JDAnalyzerAgent_process tools jd_text = Ok jd_data ->
              optimizer_tools tools resume_data jd_data = Raise e ->
              dict_lookup record "optimized_resume"
              = Some (JDict [("error", JStr (str_of_exn e))])))
  /\ (forall agents resume_data jd_data matcher score e,
        resume_agent_process agents resume_path = Ok resume_data ->
        jd_agent_process agents jd_text = Ok jd_data ->
        matcher_agent_match agents resume_data jd_text = Ok matcher ->
        scoring_agent_score agents resume_data jd_data matcher = Ok score ->
        optimizer_agent_optimize agents resume_data jd_data = Raise e ->
        let record' :=
          run tools agents results_dir resume_path jd_text target_role
            save_result started_at elapsed_s in
        dict_lookup record' "status" = Some (JStr "success")
        /\ dict_lookup record' "optimized_resume" = Some JNull).
Proof.
  intro record. split; [|split].
  - intros e He. subst record.
    rewrite !run_lookup by discriminate.
    rewrite (@pipeline_resume_failure (default_agents tools) resume_path jd_text
               target_role started_at elapsed_s e)
      by (cbn; unfold ResumeAgent_process; now rewrite He).
    repeat split; reflexivity.
  - intros resume_data Hr. subst record.
    rewrite !run_lookup by discriminate.
    destruct (default_agents_absorb tools resume_data JNull JNull jd_text)
      as ([jd_data Hj] & [matcher Hm] & _).
    destruct (default_agents_absorb tools resume_data jd_data matcher jd_text)
      as (_ & _ & [score Hs] & _).
    rewrite (@pipeline_success (default_agents tools) resume_path jd_text
               target_role started_at elapsed_s resume_data jd_data matcher score)
      by (cbn; unfold ResumeAgent_process; try rewrite Hr; auto).
    split; [reflexivity|]. split; [reflexivity|]. split.
    + exists matcher, score. split; reflexivity.
    + intros jd_data' e Hj' He.
      assert (jd_data' = jd_data) by congruence. subst jd_data'.
      cbn [default_agents optimizer_agent_optimize].
      unfold OptimizationAgent_optimize. rewrite He. reflexivity.
  - intros agents resume_data jd_data matcher score e Hr Hj Hm Hs He record'.
    subst record'. rewrite !run_lookup by discriminate.
    rewrite (@pipeline_success agents resume_path jd_text target_role started_at
               elapsed_s resume_data jd_data matcher score Hr Hj Hm Hs).
    rewrite He. split; reflexivity.
Qed.

Lemma run_failure_semantics_witness :
  (let record :=
     run tools_failing_resume (default_agents tools_failing_resume)
       "data/results" (Path "cv.pdf") "JD" None true 42 (1 # 2) in
   dict_lookup record "status" = Some (JStr "error")
   /\ dict_lookup record "matcher" = None
   /\ dict_lookup record "ats" = None)
  /\ (let record :=
        run tools_failing_optimizer (default_agents tools_failing_optimizer)
          "data/results" (Path "cv.pdf") "JD" None true 42 (1 # 2) in
      dict_lookup record "status" = Some (JStr "success")
      /\ dict_lookup record "optimized_resume"
         = Some (JDict [("error", JStr "LLM unavailable")])).
Proof.
  split.
  - destruct (run_failure_semantics tools_failing_resume "data/results"
                (Path "cv.pdf") "JD" None true 42 (1 # 2))
      as (Herr & _).
    destruct (Herr (RuntimeError "unreadable file") eq_refl)
      as (Hst & _ & _ & _ & Hm & _ & Ha).
    repeat split; assumption.
  - destruct (run_failure_semantics tools_failing_optimizer "data/results"
                (Path "cv.pdf") "JD" None true 42 (1 # 2))
      as (_ & Hok & _).
    destruct (Hok (JDict [("raw_text", JStr "Python developer")]) eq_refl)
      as (Hst & _ & _ & Hopt).
    split; [exact Hst|].
    exact (Hopt (JDict [("requirements", JDict [])])
             (RuntimeError "LLM unavailable") eq_refl eq_refl).
Defined.

End OrchestrationClaim.

(* ================================================================== *)
(** * The two score formulas *)
(* ================================================================== *)

Section DisplayScoreFacts.

Import AtsScorer.
Open Scope R_scope.

(** The logistic score lies strictly between 0 and 100. *)
Lemma sigmoid_range (raw : R) :
  0 < AnalyticsEngine.sigmoid raw < 100.
Proof.
  unfold AnalyticsEngine.sigmoid.
  pose proof (exp_pos (- (raw / (25 / 100) - 2))) as Hpos.
  set (y := exp (- (raw / (25 / 100) - 2))) in *.
  split.
  - apply Rdiv_lt_0_compat; lra.
  - apply (Rmult_lt_reg_r (1 + y)); [lra|].
    unfold Rdiv. rewrite Rmult_assoc, Rinv_l by lra. lra.
Qed.

(** Above the midpoint [raw = 0.5] the logistic score exceeds 50. *)
Lemma sigmoid_upper_half (raw : R) :
  1 / 2 < raw -> 50 < AnalyticsEngine.sigmoid raw < 100.
Proof.
  intro H. split; [|apply sigmoid_range].
  unfold AnalyticsEngine.sigmoid.
  assert (Hlt : exp (- (raw / (25 / 100) - 2)) < 1).
  { rewrite <- exp_0. apply exp_increasing. lra. }
  pose proof (exp_pos (- (raw / (25 / 100) - 2))) as Hpos.
  set (y := exp (- (raw / (25 / 100) - 2))) in *.
  apply (Rmult_lt_reg_r (1 + y)); [lra|].
  unfold Rdiv. rewrite Rmult_assoc, Rinv_l by lra. lra.
Qed.

(** C8 (the claim as written fails).  [fuse_components] computes the
    weighted-linear score only.  At six inputs of 1 its raw value is 0.95,
    whose logistic transform lies strictly between 50 and 100, and no number
    of the result (components, weights, final scores, explanation figures)
    lies there. *)
Lemma fuse_result_has_no_logistic_score :
  exists r raw,
    fuse_components 1 1 1 1 1 1 None = Ok r
    /\ raw_score_of default_weights (_clamp01 1) (_clamp01 1) (_clamp01 1)
         (_clamp01 1) (_clamp01 1) (_clamp01 1) = Ok raw
    /\ forall q, In q (result_numbers r) ->
                 Q2R q <> AnalyticsEngine.sigmoid (Q2R raw).
Proof.
  eexists. eexists. split; [vm_compute; reflexivity|].
  split; [vm_compute; reflexivity|].
  intros q Hq.
  match goal with
  | |- _ <> AnalyticsEngine.sigmoid (Q2R ?raw) =>
      assert (Hraw : 1 / 2 < Q2R raw)
  end.
  { replace (1 / 2) with (Q2R (1 # 2)) by (unfold Q2R; cbn; lra).
    apply Qlt_Rlt. reflexivity. }
  pose proof (sigmoid_upper_half Hraw) as [Hlo Hhi].
  assert (Hout : (q <= 30)%Q \/ (100 <= q)%Q).
  { cbn in Hq.
    repeat (destruct Hq as [<- | Hq];
            [first [left; discriminate | right; discriminate]|]).
    destruct Hq. }
  assert (H30 : Q2R 30 = 30) by (unfold Q2R; cbn; lra).
  assert (H100 : Q2R 100 = 100) by (unfold Q2R; cbn; lra).
  destruct Hout as [Hle | Hge].
  - apply Qle_Rle in Hle. lra.
  - apply Qle_Rle in Hge. lra.
Qed.

End DisplayScoreFacts.

(* ================================================================== *)
(** * Further properties: rounding of reals *)
(* ================================================================== *)

Section RoundingReals.

Open Scope R_scope.

(** Rounding a real to the nearest integer stays inside an integer
    interval. *)
Lemma round_half_even_R_bounds (x : R) (lo hi : Z) :
  IZR lo <= x -> x <= IZR hi ->
  (lo <= Np.round_half_even_R x <= hi)%Z.
Proof.
  intros Hlo Hhi. unfold Np.round_half_even_R.
  destruct (base_Int_part x) as [Hf1 Hf2].
  set (f := Int_part x) in *.
  assert (Hlo' : (lo <= f)%Z).
  { assert (H : IZR lo < IZR (f + 1)) by (rewrite plus_IZR; lra).
    apply lt_IZR in H. lia. }
  assert (Hhi' : (f <= hi)%Z) by (apply le_IZR; lra).
  destruct (Rlt_dec (x - IZR f) (1 / 2)) as [H|H]; [lia|].
  assert (Hne : f <> hi).
  { intro E. rewrite E in *. lra. }
  destruct (Rlt_dec (1 / 2) (x - IZR f)); [lia|].
  destruct (Z.even f); lia.
Qed.


Lemma py_round_R_pct (x : R) :
  0 <= x <= 100 -> (0 <= Np.py_round_R x 2 <= 100)%Q.
Proof.
  intros [H0 H1]. unfold Np.py_round_R.
  assert (Hb : (0 <= Np.round_half_even_R (x * IZR (10 ^ Z.of_nat 2)) <= 10000)%Z).
  { apply round_half_even_R_bounds; cbn; lra. }
  set (z := Np.round_half_even_R (x * IZR (10 ^ Z.of_nat 2))) in *.
  rewrite pow10_2. split.
  - apply Qle_shift_div_l; [reflexivity|].
    rewrite Qmult_0_l. change 0%Q with (inject_Z 0). rewrite <- Zle_Qle. lia.
  - apply Qle_shift_div_r; [reflexivity|].
    change (100 * 100)%Q with (inject_Z 10000). rewrite <- Zle_Qle. lia.
Qed.

(** Rounding to three decimals keeps a number between -1 and 1 there. *)
Lemma py_round_R_signed_unit (x : R) :
  -1 <= x <= 1 -> (-1 <= Np.py_round_R x 3 <= 1)%Q.
Proof.
  intros [H0 H1]. unfold Np.py_round_R.
  assert (Hb : (-1000 <= Np.round_half_even_R (x * IZR (10 ^ Z.of_nat 3)) <= 1000)%Z).
  { apply round_half_even_R_bounds; cbn; lra. }
  set (z := Np.round_half_even_R (x * IZR (10 ^ Z.of_nat 3))) in *.
  change (pow10 3) with (1000 # 1)%Q. split.
  - apply Qle_shift_div_l; [reflexivity|].
    change (-1 * (1000 # 1))%Q with (inject_Z (-1000)). rewrite <- Zle_Qle. lia.
  - apply Qle_shift_div_r; [reflexivity|].
    change (1 * (1000 # 1))%Q with (inject_Z 1000). rewrite <- Zle_Qle. lia.
Qed.

(** A whole number of units of the last decimal is its own rounding. *)
Lemma py_round_R_exact (x : R) (n : nat) (z : Z) :
  x * IZR (10 ^ Z.of_nat n) = IZR z ->
  (Np.py_round_R x n == inject_Z z / pow10 n)%Q.
Proof.
  intro E. unfold Np.py_round_R. rewrite E.
  assert (H : (z <= Np.round_half_even_R (IZR z) <= z)%Z)
    by (apply round_half_even_R_bounds; lra).
  replace (Np.round_half_even_R (IZR z)) with z by lia. reflexivity.
Qed.

Lemma py_round_R_one : (Np.py_round_R 1 3 == 1)%Q.
Proof.
  rewrite (@py_round_R_exact 1 3 1000); [reflexivity|]. cbn. lra.
Qed.

Lemma py_round_R_hundred (x : R) : x = 100 -> (Np.py_round_R x 2 == 100)%Q.
Proof.
  intros ->. rewrite (@py_round_R_exact 100 2 10000); [reflexivity|]. cbn. lra.
Qed.

Lemma py_round_R_signed_pct (x : R) :
  -100 <= x <= 100 -> (-100 <= Np.py_round_R x 2 <= 100)%Q.
Proof.
  intros [H0 H1]. unfold Np.py_round_R.
  assert (Hb : (-10000 <= Np.round_half_even_R (x * IZR (10 ^ Z.of_nat 2)) <= 10000)%Z).
  { apply round_half_even_R_bounds; cbn; lra. }
  set (z := Np.round_half_even_R (x * IZR (10 ^ Z.of_nat 2))) in *.
  change (pow10 2) with (100 # 1)%Q. split.
  - apply Qle_shift_div_l; [reflexivity|].
    change (-100 * (100 # 1))%Q with (inject_Z (-10000)). rewrite <- Zle_Qle. lia.
  - apply Qle_shift_div_r; [reflexivity|].
    change (100 * (100 # 1))%Q with (inject_Z 10000). rewrite <- Zle_Qle. lia.
Qed.

(** ** Arrays within the range of double precision *)

Lemma tolerance_pos : 0 < Scaling.tolerance.
Proof.
  unfold Scaling.tolerance. apply Rinv_0_lt_compat. apply pow_lt. lra.
Qed.

Lemma well_scaled_unit_norm (v : Np.vec) :
  (Z.of_nat (List.length v) <= 10 ^ 6)%Z -> Np.norm v = 1 -> Scaling.well_scaled v.
Proof.
  intros Hlen Hn. split; [exact Hlen|]. right. rewrite Hn.
  assert (H : 1 <= 10 ^ 100) by (apply pow_R1_Rle; lra).
  split; [|exact H].
  apply Rle_trans with (/ 1); [apply Rinv_le_contravar; lra | rewrite Rinv_1; lra].
Qed.

Lemma well_scaled_zero_norm (v : Np.vec) :
  (Z.of_nat (List.length v) <= 10 ^ 6)%Z -> Np.norm v = 0 -> Scaling.well_scaled v.
Proof.
  intros Hlen Hn. split; [exact Hlen | now left].
Qed.

End RoundingReals.

(* ================================================================== *)
(** * Further properties: cosines *)
(* ================================================================== *)

Section CosineRange.

Import SemanticMatcher.
Open Scope R_scope.

(** Cauchy-Schwarz for the list dot product, in squared form. *)
Lemma dot_list_cauchy_schwarz (a b : Np.vec) :
  Np.dot_list a b * Np.dot_list a b <= Np.dot_list a a * Np.dot_list b b.
Proof.
  revert b. induction a as [|x a IH]; intro b.
  - cbn. lra.
  - destruct b as [|y b].
    + cbn. lra.
    + cbn [Np.dot_list].
      specialize (IH b).
      pose proof (dot_list_self_nonneg a) as Ha.
      pose proof (dot_list_self_nonneg b) as Hb.
      set (d := Np.dot_list a b) in *.
      set (A := Np.dot_list a a) in *.
      set (B := Np.dot_list b b) in *.
      (* 2 x y d <= x^2 B + y^2 A *)
      assert (Hmix : 2 * (x * y * d) <= x * x * B + y * y * A).
      { destruct (Rle_dec (2 * (x * y * d)) (x * x * B + y * y * A)) as [H|H];
          [exact H|]. exfalso.
        assert (Hxx : 0 <= x * x) by apply Rle_0_sqr.
        assert (Hyy : 0 <= y * y) by apply Rle_0_sqr.
        assert (Hp : 0 <= x * x * B + y * y * A).
        { apply Rplus_le_le_0_compat; apply Rmult_le_pos; assumption. }
        assert (Hsq : (x * x * B + y * y * A) * (x * x * B + y * y * A)
                      < (2 * (x * y * d)) * (2 * (x * y * d))).
        { apply Rmult_le_0_lt_compat; lra. }
        assert (Hid : (x * x * B + y * y * A) * (x * x * B + y * y * A)
                      - (2 * (x * y * d)) * (2 * (x * y * d))
                      = (x * x * B - y * y * A) * (x * x * B - y * y * A)
                        + 4 * ((x * x) * (y * y)) * (A * B - d * d)) by ring.
        assert (H1 : 0 <= (x * x * B - y * y * A) * (x * x * B - y * y * A))
          by apply Rle_0_sqr.
        assert (H2 : 0 <= 4 * ((x * x) * (y * y)) * (A * B - d * d)).
        { apply Rmult_le_pos; [|lra].
          apply Rmult_le_pos; [lra|]. now apply Rmult_le_pos. }
        lra. }
      nra.
Qed.

Lemma norm_sqr (a : Np.vec) : Np.norm a * Np.norm a = Np.dot_list a a.
Proof.
  unfold Np.norm. apply sqrt_sqrt. apply dot_list_self_nonneg.
Qed.

Lemma norm_nonneg (a : Np.vec) : 0 <= Np.norm a.
Proof.
  unfold Np.norm. apply sqrt_pos.
Qed.

Lemma dot_list_comm (a b : Np.vec) : Np.dot_list a b = Np.dot_list b a.
Proof.
  revert b. induction a as [|x a IH]; intros [|y b]; cbn; try reflexivity.
  rewrite IH. ring.
Qed.

(** The cosine as a number lies between -1 and 1. *)
Lemma cosine_of_range (a b : Np.vec) : -1 <= cosine_of a b <= 1.
Proof.
  unfold cosine_of.
  destruct (Req_dec_T (Np.norm a * Np.norm b) 0) as [H|H]; [lra|].
  pose proof (norm_nonneg a) as Ha. pose proof (norm_nonneg b) as Hb.
  assert (Hpos : 0 < Np.norm a * Np.norm b).
  { destruct (Rle_lt_or_eq_dec 0 (Np.norm a * Np.norm b)) as [Hlt|Heq];
      [nra | exact Hlt | congruence]. }
  set (n := Np.norm a * Np.norm b) in *.
  assert (Hcs : Np.dot_list a b * Np.dot_list a b <= n * n).
  { pose proof (dot_list_cauchy_schwarz a b) as Hcs.
    rewrite <- (norm_sqr a), <- (norm_sqr b) in Hcs. subst n. nra. }
  set (d := Np.dot_list a b) in *.
  assert (Hd : - n <= d <= n) by nra.
  split.
  - apply (Rmult_le_reg_r n); [exact Hpos|].
    unfold Rdiv. rewrite Rmult_assoc, Rinv_l by lra. lra.
  - apply (Rmult_le_reg_r n); [exact Hpos|].
    unfold Rdiv. rewrite Rmult_assoc, Rinv_l by lra. lra.
Qed.

Lemma cosine_of_self (a : Np.vec) : Np.norm a <> 0 -> cosine_of a a = 1.
Proof.
  intro H. unfold cosine_of.
  destruct (Req_dec_T (Np.norm a * Np.norm a) 0) as [H0|H0].
  - exfalso. apply Rmult_integral in H0. tauto.
  - rewrite <- norm_sqr. now field.
Qed.

Lemma cosine_of_comm (a b : Np.vec) : cosine_of a b = cosine_of b a.
Proof.
  unfold cosine_of. rewrite (Rmult_comm (Np.norm b)), (dot_list_comm b a).
  reflexivity.
Qed.

(** X1.  The three cosine helpers on two arrays of equal length that are
    well scaled (at most a million entries, norm 0 or between 1e-100 and
    1e100).  They return the same number, which does not depend on the
    order of the arguments.  That number lies between -1 and 1 up to the
    rounding error of its evaluation, for which one millionth is allowed
    here, and rounded to three decimals, as [compare_skills] records it, it
    lies between -1 and 1.  The cosine of an array of non-zero norm with
    itself is 1 up to that error, and exactly 1 once rounded. *)
Theorem cosine_helpers_range (a b : Np.vec) :
  List.length a = List.length b ->
  Scaling.well_scaled a -> Scaling.well_scaled b ->
  exists c,
    _cosine (Some a) (Some b) = Ok c
    /\ SkillComparator._embedding_similarity (Some a) (Some b) = Ok c
    /\ EmbeddingEngine.cosine_similarity (Some a) (Some b) = Ok c
    /\ _cosine (Some b) (Some a) = Ok c
    /\ -1 - Scaling.tolerance <= c <= 1 + Scaling.tolerance
    /\ (-1 <= Np.py_round_R c 3 <= 1)%Q
    /\ (a = b -> Np.norm a <> 0 ->
        1 - Scaling.tolerance <= c <= 1 + Scaling.tolerance
        /\ (Np.py_round_R c 3 == 1)%Q).
Proof.
  intros Hlen _ _. exists (cosine_of a b).
  pose proof tolerance_pos as Htol.
  assert (H1 : _cosine (Some a) (Some b) = Ok (cosine_of a b))
    by now apply cosine_total.
  split; [exact H1|].
  assert (Hothers :
    SkillComparator._embedding_similarity (Some a) (Some b) = Ok (cosine_of a b)
    /\ EmbeddingEngine.cosine_similarity (Some a) (Some b) = Ok (cosine_of a b)).
  { unfold cosine_of.
    destruct (Req_dec_T (Np.norm a * Np.norm b) 0) as [H0|H0].
    - apply Rmult_integral in H0.
      destruct (@cosine_zero_norm a b H0) as (_ & H2 & H3). now split.
    - assert (Ha : Np.norm a <> 0) by (intro E; apply H0; rewrite E; ring).
      assert (Hb : Np.norm b <> 0) by (intro E; apply H0; rewrite E; ring).
      destruct (@cosine_value a b Hlen Ha Hb) as (_ & H2 & H3). now split. }
  destruct Hothers as [H2 H3].
  pose proof (cosine_of_range a b) as Hr.
  split; [exact H2|]. split; [exact H3|]. split.
  - rewrite cosine_of_comm. apply cosine_total. now symmetry.
  - split; [lra|]. split; [now apply py_round_R_signed_unit|].
    intros <- Hn. rewrite (@cosine_of_self a Hn).
    split; [lra | exact py_round_R_one].
Qed.

Lemma cosine_helpers_range_witness :
  exists c,
    _cosine (Some [1]) (Some [-1]) = Ok c
    /\ (-1 <= Np.py_round_R c 3 <= 1)%Q.
Proof.
  destruct (@cosine_helpers_range [1] [-1] eq_refl
              (@well_scaled_unit_norm [1] ltac:(vm_compute; discriminate)
                 norm_singleton_one)
              (@well_scaled_unit_norm [-1] ltac:(vm_compute; discriminate)
                 norm_singleton_minus_one))
    as (c & H1 & _ & _ & _ & _ & Hr & _).
  exists c. split; assumption.
Defined.

End CosineRange.

Section SemanticRange.

Import SemanticMatcher.
Open Scope R_scope.

Lemma floored_best_unit (v : Np.vec) (j_embs : list Np.vec) :
  0 <= floored_best v j_embs <= 1.
Proof.
  destruct (floored_best_max v j_embs) as (H0 & _ & [Hz | (j & _ & Hj)]).
  - lra.
  - split; [exact H0|]. rewrite Hj. apply cosine_of_range.
Qed.

Lemma weighted_sum_bounds (sums : list R) :
  Forall (fun s => 0 <= s <= 1) sums ->
  forall weights : list nat,
    0 <= weighted_sum sums weights <= INR (list_sum weights).
Proof.
  induction 1 as [|s sums Hs _ IH]; intros weights.
  - cbn. split; [lra | apply pos_INR].
  - destruct weights as [|w weights].
    + cbn. lra.
    + cbn [weighted_sum]. specialize (IH weights).
      change (list_sum (w :: weights)) with (w + list_sum weights)%nat.
      rewrite plus_INR. pose proof (pos_INR w). nra.
Qed.

Lemma weighted_mean_unit (sums : list R) (weights : list nat) :
  Forall (fun s => 0 <= s <= 1) sums ->
  (1 <= list_sum weights)%nat ->
  0 <= weighted_mean sums weights <= 1.
Proof.
  intros Hs Hw. unfold weighted_mean.
  destruct (weighted_sum_bounds Hs weights) as [H0 H1].
  assert (Hpos : 0 < INR (list_sum weights)) by (apply lt_0_INR; lia).
  split.
  - apply Rmult_le_pos; [exact H0|]. left. now apply Rinv_0_lt_compat.
  - apply (Rmult_le_reg_r (INR (list_sum weights))); [exact Hpos|].
    unfold Rdiv. rewrite Rmult_assoc, Rinv_l by lra. lra.
Qed.

(** X2.  Whenever the backend answers with one vector per chunk, all of
    one dimension and well scaled (at most a million entries, norm 0 or
    between 1e-100 and 1e100), the matcher returns proper ratios: no
    paragraph score and no overall score is negative, none exceeds 1 by more
    than the rounding error of its evaluation, for which one millionth is
    allowed here, and the overall percentage, rounded to two decimals, lies
    between 0 and 100. *)
Theorem semantic_scores_are_ratios
  (sent_tokenize : string -> result (list string))
  (sentence_transformer : option (list string -> result (list Np.vec)))
  (resume_text jd_text : string) (embed_fn : option SkillComparator.EmbedFn)
  (embs : list Np.vec) (d : nat) :
  let rc := _chunk_text_to_paragraphs sent_tokenize resume_text in
  let jc := _chunk_text_to_paragraphs sent_tokenize jd_text in
  _get_embeddings_for_texts sentence_transformer (rc ++ jc) embed_fn = Ok embs ->
  List.length embs = (List.length rc + List.length jc)%nat ->
  Forall (fun v => List.length v = d) embs ->
  Forall Scaling.well_scaled embs ->
  exists r,
    semantic_similarity_resume_jd sent_tokenize sentence_transformer
      resume_text jd_text embed_fn = Ok r
    /\ 0 <= overall_score r <= 1 + Scaling.tolerance
    /\ (0 <= overall_pct r <= 100)%Q
    /\ Forall (fun p => 0 <= score p <= 1 + Scaling.tolerance) (paragraph_scores r).
Proof.
  intros rc jc Hemb Hlen Hdim _.
  pose proof tolerance_pos as Htol.
  destruct (@semantic_similarity_spec sent_tokenize sentence_transformer
              resume_text jd_text embed_fn embs d Hemb Hlen Hdim)
    as (r & Hr & Hpar & Hsc & Hov).
  fold rc in Hov, Hsc, Hpar.
  set (best := map (fun v => floored_best v (skipn (List.length rc) embs))
                 (firstn (List.length rc) embs)) in *.
  assert (Hbest : Forall (fun s => 0 <= s <= 1) best).
  { subst best. apply Forall_forall. intros s Hs.
    apply in_map_iff in Hs. destruct Hs as (v & <- & _).
    apply floored_best_unit. }
  assert (Hoverall : 0 <= overall_score r <= 1).
  { rewrite Hov. apply weighted_mean_unit; [exact Hbest|].
    apply list_sum_weights_pos. apply chunk_nonempty. }
  exists r. split; [exact Hr|]. split; [lra|]. split.
  - assert (Hpct : overall_pct r = Np.py_round_R (overall_score r * 100) 2).
    { unfold semantic_similarity_resume_jd in Hr.
      destruct (_get_embeddings_for_texts _ _ _); [|discriminate].
      cbn [bind] in Hr.
      destruct (score_paragraphs _ _ _ _); [|discriminate]. cbn [bind] in Hr.
      destruct (overall_of _ _); [|discriminate]. cbn [bind] in Hr.
      inversion Hr. reflexivity. }
    rewrite Hpct. apply py_round_R_pct. lra.
  - rewrite Forall_forall in *. intros p Hp.
    assert (H : 0 <= score p <= 1)
      by (apply Hbest; rewrite <- Hsc; now apply in_map).
    lra.
Qed.

Lemma semantic_scores_are_ratios_witness :
  let tok := fun _ : string => @Ok (list string) [] in
  let embed := fun _ : list string => @Ok (list Np.vec) [[1]; [-1]] in
  exists r,
    semantic_similarity_resume_jd tok None "a" "b" (Some embed) = Ok r
    /\ (0 <= overall_pct r <= 100)%Q.
Proof.
  intros tok embed.
  destruct (@semantic_scores_are_ratios tok None "a" "b" (Some embed)
              [[1]; [-1]] 1%nat eq_refl eq_refl ltac:(repeat constructor)
              (Forall_cons _
                 (@well_scaled_unit_norm [1] ltac:(vm_compute; discriminate)
                    norm_singleton_one)
                 (Forall_cons _
                    (@well_scaled_unit_norm [-1] ltac:(vm_compute; discriminate)
                       norm_singleton_minus_one)
                    (Forall_nil _))))
    as (r & Hr & _ & Hpct & _).
  exists r. split; assumption.
Defined.

End SemanticRange.

Section IdenticalTexts.

Import SemanticMatcher.
Open Scope R_scope.

Lemma weighted_sum_ones (weights : list nat) :
  weighted_sum (map (fun _ => 1) weights) weights = INR (list_sum weights).
Proof.
  induction weights as [|w weights IH]; [reflexivity|].
  cbn [map weighted_sum]. rewrite IH.
  change (list_sum (w :: weights)) with (w + list_sum weights)%nat.
  rewrite plus_INR. ring.
Qed.

Lemma floored_best_self (v : Np.vec) (j_embs : list Np.vec) :
  In v j_embs -> Np.norm v <> 0 -> floored_best v j_embs = 1.
Proof.
  intros Hin Hn.
  destruct (floored_best_max v j_embs) as (_ & Hall & _).
  specialize (Hall v Hin). rewrite (@cosine_of_self v Hn) in Hall.
  pose proof (floored_best_unit v j_embs). lra.
Qed.

(** X3.  The same text on both sides, embedded chunk by chunk by one
    function [f] whose vectors all have one dimension and are well scaled
    (at most a million entries, norm between 1e-100 and 1e100): the overall
    percentage, rounded to two decimals, is exactly 100, and the overall
    score and every paragraph score are 1 up to the rounding error of their
    evaluation, for which one millionth is allowed here.  With no backend at
    all [f] is the hash embedding. *)
Theorem identical_texts_score_one
  (sent_tokenize : string -> result (list string))
  (sentence_transformer : option (list string -> result (list Np.vec)))
  (text : string) (embed_fn : option SkillComparator.EmbedFn)
  (f : string -> Np.vec) (d : nat) :
  let chunks := _chunk_text_to_paragraphs sent_tokenize text in
  _get_embeddings_for_texts sentence_transformer (chunks ++ chunks) embed_fn
  = Ok (map f (chunks ++ chunks)) ->
  Forall (fun c => List.length (f c) = d) chunks ->
  Forall (fun c => Scaling.well_scaled (f c) /\ Np.norm (f c) <> 0) chunks ->
  exists r,
    semantic_similarity_resume_jd sent_tokenize sentence_transformer
      text text embed_fn = Ok r
    /\ (overall_pct r == 100)%Q
    /\ 1 - Scaling.tolerance <= overall_score r <= 1 + Scaling.tolerance
    /\ Forall (fun p => 1 - Scaling.tolerance <= score p <= 1 + Scaling.tolerance)
         (paragraph_scores r).
Proof.
  intros chunks Hemb Hdim Hnz.
  pose proof tolerance_pos as Htol.
  assert (Hdim' : Forall (fun v => List.length v = d) (map f (chunks ++ chunks))).
  { rewrite map_app. apply Forall_app.
    assert (H : Forall (fun v => List.length v = d) (map f chunks)).
    { apply Forall_forall. intros v Hv. apply in_map_iff in Hv.
      destruct Hv as (c & <- & Hc). rewrite Forall_forall in Hdim. auto. }
    now split. }
  destruct (@semantic_similarity_spec sent_tokenize sentence_transformer
              text text embed_fn (map f (chunks ++ chunks)) d Hemb
              ltac:(now rewrite length_map, length_app) Hdim')
    as (r & Hr & Hpar & Hsc & Hov).
  fold chunks in Hov, Hsc, Hpar.
  assert (Hfirst : firstn (List.length chunks) (map f (chunks ++ chunks))
                   = map f chunks).
  { rewrite map_app, <- (length_map f chunks), firstn_app, Nat.sub_diag.
    cbn [firstn]. now rewrite firstn_all, app_nil_r. }
  assert (Hskip : skipn (List.length chunks) (map f (chunks ++ chunks))
                  = map f chunks).
  { rewrite map_app, <- (length_map f chunks), skipn_app, Nat.sub_diag.
    cbn [skipn]. now rewrite skipn_all. }
  rewrite Hfirst, Hskip in Hov, Hsc.
  assert (Hones : map (fun v => floored_best v (map f chunks)) (map f chunks)
                  = map (fun _ => 1) (map chunk_weight chunks)).
  { rewrite !map_map. apply map_ext_in. intros c Hc.
    apply floored_best_self; [now apply in_map|].
    rewrite Forall_forall in Hnz. now apply Hnz. }
  assert (Hone : overall_score r = 1).
  { rewrite Hov, Hones. unfold weighted_mean. rewrite weighted_sum_ones.
    apply Rinv_r. apply not_0_INR.
    pose proof (@list_sum_weights_pos chunks (chunk_nonempty sent_tokenize text)).
    lia. }
  assert (Hpct : overall_pct r = Np.py_round_R (overall_score r * 100) 2).
  { unfold semantic_similarity_resume_jd in Hr.
    destruct (_get_embeddings_for_texts _ _ _); [|discriminate].
    cbn [bind] in Hr.
    destruct (score_paragraphs _ _ _ _); [|discriminate]. cbn [bind] in Hr.
    destruct (overall_of _ _); [|discriminate]. cbn [bind] in Hr.
    inversion Hr. reflexivity. }
  exists r. split; [exact Hr|]. split; [|split].
  - rewrite Hpct. apply py_round_R_hundred. rewrite Hone. lra.
  - rewrite Hone. lra.
  - apply Forall_forall. intros p Hp.
    assert (Hin : In (score p) (map score (paragraph_scores r)))
      by now apply in_map.
    rewrite Hsc, Hones in Hin. apply in_map_iff in Hin.
    destruct Hin as (w & <- & _). lra.
Qed.

Lemma identical_texts_score_one_witness :
  let tok := fun _ : string => @Ok (list string) [] in
  let embed := fun texts : list string => @Ok (list Np.vec) (map (fun _ => [1]) texts) in
  exists r,
    semantic_similarity_resume_jd tok None "Python developer" "Python developer"
      (Some embed) = Ok r
    /\ (overall_pct r == 100)%Q.
Proof.
  intros tok embed.
  destruct (@identical_texts_score_one tok None "Python developer" (Some embed)
              (fun _ => [1]) 1%nat eq_refl
              ltac:(repeat constructor)
              ltac:(constructor;
                    [split;
                     [exact (@well_scaled_unit_norm [1]
                               ltac:(vm_compute; discriminate) norm_singleton_one)
                     |cbv beta; rewrite norm_singleton_one; lra]
                    |constructor]))
    as (r & Hr & Hpct & _).
  exists r. split; assumption.
Defined.

End IdenticalTexts.

Section HashEmbedding.

Import SemanticMatcher.
Open Scope R_scope.

Lemma hash_fill_explicit (chars : list ascii) :
  forall (pre : list R) (m : nat),
    (List.length pre + m = 384)%nat ->
    (List.length chars <= m)%nat ->
    hash_fill (pre ++ repeat 0 m) (List.length pre) chars
    = pre ++ map (fun ch => INR (nat_of_ascii ch mod 97)) chars
      ++ repeat 0 (m - List.length chars).
Proof.
  induction chars as [|ch chars IH]; intros pre m Hlen Hm.
  - cbn. now rewrite Nat.sub_0_r.
  - cbn [List.length] in Hm. destruct m as [|m]; [lia|].
    cbn [hash_fill].
    rewrite (Nat.mod_small (List.length pre) 384) by lia.
    rewrite firstn_app, Nat.sub_diag, firstn_all. cbn [firstn].
    rewrite app_nth2, Nat.sub_diag by lia. cbn [repeat nth].
    replace (skipn (S (List.length pre)) (pre ++ 0 :: repeat 0 m))
      with (repeat 0 m).
    2:{ rewrite skipn_app, skipn_all2 by lia.
        replace (S (List.length pre) - List.length pre)%nat with 1%nat by lia.
        reflexivity. }
    rewrite app_nil_r, Rplus_0_l.
    replace (pre ++ [INR (nat_of_ascii ch mod 97)] ++ repeat 0 m)
      with ((pre ++ [INR (nat_of_ascii ch mod 97)]) ++ repeat 0 m)
      by now rewrite <- app_assoc.
    replace (S (List.length pre))
      with (List.length (pre ++ [INR (nat_of_ascii ch mod 97)]))
      by (rewrite length_app; cbn; lia).
    rewrite IH.
    + cbn [map List.length]. rewrite <- app_assoc. cbn [app].
      now replace (S m - S (List.length chars))%nat with (m - List.length chars)%nat by lia.
    + rewrite length_app. cbn. lia.
    + cbn [List.length]. lia.
Qed.

(** X4.  The last-resort embedding of a text is its first 200 characters,
    each reduced modulo 97, followed by zeros up to 384 entries.  So every
    entry lies between 0 and 96, and two texts that agree on their first 200
    characters get the same vector. *)
Theorem hash_embedding_explicit (t : string) :
  let chars := firstn 200 (list_ascii_of_string t) in
  hash_embedding t
  = map (fun ch => INR (nat_of_ascii ch mod 97)) chars
    ++ repeat 0 (384 - List.length chars)
  /\ Forall (fun x => 0 <= x <= 96) (hash_embedding t)
  /\ (forall t' : string,
        firstn 200 (list_ascii_of_string t') = chars ->
        hash_embedding t' = hash_embedding t).
Proof.
  intro chars.
  assert (Hlen : (List.length chars <= 200)%nat) by apply firstn_le_length.
  assert (Hexp : forall u,
    hash_embedding u
    = map (fun ch => INR (nat_of_ascii ch mod 97)) (firstn 200 (list_ascii_of_string u))
      ++ repeat 0 (384 - List.length (firstn 200 (list_ascii_of_string u)))).
  { intro u. unfold hash_embedding.
    pose proof (firstn_le_length 200 (list_ascii_of_string u)) as Hu.
    apply (@hash_fill_explicit (firstn 200 (list_ascii_of_string u)) [] 384);
      cbn [List.length]; lia. }
  split; [apply Hexp|]. split.
  - rewrite Hexp. apply Forall_app. split.
    + apply Forall_forall. intros x Hx. apply in_map_iff in Hx.
      destruct Hx as (ch & <- & _).
      assert (Hm : (nat_of_ascii ch mod 97 < 97)%nat)
        by (apply Nat.mod_upper_bound; lia).
      split; [apply pos_INR|].
      replace 96 with (INR 96) by (cbn; lra). apply le_INR. lia.
    + apply Forall_forall. intros x Hx. apply repeat_spec in Hx. lra.
  - intros t' Ht'. rewrite (Hexp t'), (Hexp t). fold chars. now rewrite Ht'.
Qed.

Lemma hash_embedding_explicit_witness :
  SemanticMatcher.hash_embedding
    "aaaaaaaaaaaaaaaaaaaaaaaaaaaaaaaaaaaaaaaaaaaaaaaaaaaaaaaaaaaaaaaaaaaaaaaaaaaaaaaaaaaaaaaaaaaaaaaaaaaaaaaaaaaaaaaaaaaaaaaaaaaaaaaaaaaaaaaaaaaaaaaaaaaaaaaaaaaaaaaaaaaaaaaaaaaaaaaaaaaaaaaaaaaaaaaaaaaaaaaa and then Python"
  = SemanticMatcher.hash_embedding
      "aaaaaaaaaaaaaaaaaaaaaaaaaaaaaaaaaaaaaaaaaaaaaaaaaaaaaaaaaaaaaaaaaaaaaaaaaaaaaaaaaaaaaaaaaaaaaaaaaaaaaaaaaaaaaaaaaaaaaaaaaaaaaaaaaaaaaaaaaaaaaaaaaaaaaaaaaaaaaaaaaaaaaaaaaaaaaaaaaaaaaaaaaaaaaaaaaaaaaaaa and then cooking".
Proof.
  destruct (hash_embedding_explicit
              "aaaaaaaaaaaaaaaaaaaaaaaaaaaaaaaaaaaaaaaaaaaaaaaaaaaaaaaaaaaaaaaaaaaaaaaaaaaaaaaaaaaaaaaaaaaaaaaaaaaaaaaaaaaaaaaaaaaaaaaaaaaaaaaaaaaaaaaaaaaaaaaaaaaaaaaaaaaaaaaaaaaaaaaaaaaaaaaaaaaaaaaaaaaaaaaaaaaaaaaa and then cooking")
    as (_ & _ & H).
  apply H. reflexivity.
Defined.

End HashEmbedding.

Section BestChunk.

Import SemanticMatcher.
Open Scope R_scope.

Lemma best_match_consistent (r_embs : list Np.vec) (i : nat)
  (jd_chunks : list string) (js : list (nat * Np.vec)) :
  forall best_score best_j b,
    SemanticInvariants.chunk_consistent jd_chunks best_score best_j ->
    best_match r_embs i jd_chunks js best_score best_j = Ok b ->
    SemanticInvariants.chunk_consistent jd_chunks (fst b) (snd b).
Proof.
  induction js as [|[j j_emb] js IH]; intros best_score best_j b Hinv Hres.
  - cbn in Hres. inversion Hres. exact Hinv.
  - cbn [best_match] in Hres.
    destruct (Np.index r_embs i) as [r_emb|]; [|discriminate]. cbn [bind] in Hres.
    destruct (_cosine (Some r_emb) (Some j_emb)) as [sc|]; [|discriminate].
    cbn [bind] in Hres.
    destruct (Rlt_dec best_score sc) as [Hlt|Hnlt].
    + unfold Np.index in Hres.
      destruct (nth_error jd_chunks j) as [chunk|] eqn:Hc; [|discriminate].
      cbn [bind] in Hres. apply (IH sc (Some chunk) b); [|exact Hres].
      right. exists chunk. split; [reflexivity|].
      split; [eapply nth_error_In; eauto|].
      destruct Hinv as [[_ H0] | (c & _ & _ & Hpos)]; lra.
    + now apply (IH best_score best_j b).
Qed.

Lemma score_paragraphs_consistent (r_embs j_embs : list Np.vec)
  (jd_chunks : list string) (rs : list (nat * string)) :
  forall out,
    score_paragraphs r_embs j_embs jd_chunks rs = Ok out ->
    Forall (fun p => SemanticInvariants.chunk_consistent jd_chunks (score p) (best_matching_jd_chunk p))
      (fst out).
Proof.
  induction rs as [|[i r] rs IH]; intros out Hres.
  - cbn in Hres. inversion Hres. constructor.
  - cbn [score_paragraphs] in Hres.
    destruct (best_match r_embs i jd_chunks (SkillComparator.enumerate j_embs) 0 None)
      as [b|] eqn:Hb; [|discriminate]. cbn [bind] in Hres.
    destruct (score_paragraphs r_embs j_embs jd_chunks rs) as [tl|] eqn:Htl;
      [|discriminate]. cbn [bind] in Hres. inversion Hres. cbn [fst].
    constructor; [|now apply IH].
    cbn [score best_matching_jd_chunk].
    apply (@best_match_consistent r_embs i jd_chunks
             (SkillComparator.enumerate j_embs) 0 None b); [|exact Hb].
    left. now split.
Qed.

(** A resume chunk all of whose cosines are at most 0 keeps the score 0
    and the missing chunk the search starts from. *)
Lemma best_match_nonpositive (r_embs : list Np.vec) (i : nat)
  (jd_chunks : list string) (js : list (nat * Np.vec)) (b : R * option string) :
  (forall r_emb j j_emb c,
      nth_error r_embs i = Some r_emb -> In (j, j_emb) js ->
      _cosine (Some r_emb) (Some j_emb) = Ok c -> c <= 0) ->
  best_match r_embs i jd_chunks js 0 None = Ok b -> b = (0, None).
Proof.
  induction js as [|[j j_emb] js IH]; intros Hcos Hres.
  - cbn in Hres. now inversion Hres.
  - cbn [best_match] in Hres. unfold Np.index in Hres.
    destruct (nth_error r_embs i) as [r_emb|] eqn:Er; [|discriminate].
    cbn [bind] in Hres.
    destruct (_cosine (Some r_emb) (Some j_emb)) as [sc|] eqn:Ec; [|discriminate].
    cbn [bind] in Hres.
    assert (Hsc : sc <= 0)
      by (apply (Hcos r_emb j j_emb sc); [reflexivity | now left | exact Ec]).
    destruct (Rlt_dec 0 sc) as [Hlt|_]; [lra|].
    apply IH; [|].
    + intros r_emb' j' j_emb' c Hr Hin. apply (Hcos r_emb' j' j_emb' c Hr).
      now right.
    + exact Hres.
Qed.

Lemma enumerate_from_nth {A : Type} (l : list A) :
  forall n k i (x : A),
    nth_error (SkillComparator.enumerate_from n l) k = Some (i, x) ->
    i = (n + k)%nat.
Proof.
  induction l as [|y l IH]; intros n k i x H.
  - destruct k; discriminate.
  - destruct k as [|k]; cbn in H.
    + injection H as <- _. lia.
    + apply IH in H. lia.
Qed.

Lemma score_paragraphs_nth (r_embs j_embs : list Np.vec)
  (jd_chunks : list string) (rs : list (nat * string)) :
  forall out k p,
    score_paragraphs r_embs j_embs jd_chunks rs = Ok out ->
    nth_error (fst out) k = Some p ->
    exists i r b,
      nth_error rs k = Some (i, r)
      /\ best_match r_embs i jd_chunks (SkillComparator.enumerate j_embs) 0 None = Ok b
      /\ p = mkParagraphScore r (fst b) (snd b).
Proof.
  induction rs as [|[i r] rs IH]; intros out k p Hres Hk.
  - cbn in Hres. inversion Hres. subst out. destruct k; discriminate.
  - cbn [score_paragraphs] in Hres.
    destruct (best_match r_embs i jd_chunks (SkillComparator.enumerate j_embs) 0 None)
      as [b|] eqn:Hb; [|discriminate]. cbn [bind] in Hres.
    destruct (score_paragraphs r_embs j_embs jd_chunks rs) as [tl|] eqn:Htl;
      [|discriminate]. cbn [bind] in Hres. inversion Hres. subst out.
    cbn [fst] in Hk. destruct k as [|k].
    + cbn in Hk. injection Hk as <-. exists i, r, b.
      split; [reflexivity|]. split; [exact Hb | reflexivity].
    + cbn [nth_error] in Hk. destruct (IH tl k p eq_refl Hk) as (i' & r' & b' & H1 & H2 & H3).
      exists i', r', b'. split; [exact H1|]. split; assumption.
Qed.

(** X5.  In every result the matcher returns, a paragraph names a best
    matching JD chunk exactly when its score is positive, and the chunk it
    names is one of the JD chunks; a paragraph whose cosines with the JD
    chunks are all at most 0 has score 0 and names none. *)
Theorem best_chunk_iff_positive_score
  (sent_tokenize : string -> result (list string))
  (sentence_transformer : option (list string -> result (list Np.vec)))
  (resume_text jd_text : string) (embed_fn : option SkillComparator.EmbedFn)
  (r : SemanticResult) :
  let rc := _chunk_text_to_paragraphs sent_tokenize resume_text in
  let jc := _chunk_text_to_paragraphs sent_tokenize jd_text in
  semantic_similarity_resume_jd sent_tokenize sentence_transformer
    resume_text jd_text embed_fn = Ok r ->
  jd_chunks r = jc
  /\ Forall (fun p =>
               (best_matching_jd_chunk p = None /\ score p = 0)
               \/ (exists c, best_matching_jd_chunk p = Some c
                             /\ In c (jd_chunks r) /\ 0 < score p))
       (paragraph_scores r)
  /\ (forall embs i p r_emb,
        _get_embeddings_for_texts sentence_transformer (rc ++ jc) embed_fn = Ok embs ->
        nth_error (paragraph_scores r) i = Some p ->
        nth_error (firstn (List.length rc) embs) i = Some r_emb ->
        (forall j_emb c,
            In j_emb (skipn (List.length rc) embs) ->
            _cosine (Some r_emb) (Some j_emb) = Ok c -> c <= 0) ->
        score p = 0 /\ best_matching_jd_chunk p = None).
Proof.
  intros rc jc Hr. unfold semantic_similarity_resume_jd in Hr.
  fold rc jc in Hr.
  destruct (_get_embeddings_for_texts sentence_transformer (rc ++ jc) embed_fn)
    as [embs|] eqn:Hemb; [|discriminate].
  cbn [bind] in Hr.
  destruct (score_paragraphs _ _ _ _) as [ps|] eqn:Hps; [|discriminate].
  cbn [bind] in Hr.
  destruct (overall_of _ _); [|discriminate]. cbn [bind] in Hr.
  inversion Hr. cbn [jd_chunks paragraph_scores]. split; [reflexivity|].
  split; [exact (score_paragraphs_consistent _ _ _ _ Hps)|].
  intros embs' i p r_emb Hemb' Hp Hi Hcos.
  injection Hemb' as <-.
  destruct (score_paragraphs_nth _ _ _ _ _ Hps Hp) as (i' & c & b & Hrs & Hb & ->).
  assert (Hi' : i' = i)
    by (apply (@enumerate_from_nth string rc 0%nat i i' c Hrs)).
  subst i'. cbn [score best_matching_jd_chunk].
  assert (Hb0 : b = (0, None)).
  { apply (@best_match_nonpositive (firstn (List.length rc) embs) i jc
             (SkillComparator.enumerate (skipn (List.length rc) embs)) b);
      [|exact Hb].
    intros r_emb' j j_emb sc Hr' Hin Hsc.
    rewrite Hi in Hr'. injection Hr' as <-.
    apply (Hcos j_emb sc); [|exact Hsc].
    apply (proj1 (@enumerate_In Np.vec _ j j_emb)) in Hin.
    eapply nth_error_In; eauto. }
  rewrite Hb0. split; reflexivity.
Qed.

Lemma best_chunk_iff_positive_score_witness :
  let tok := fun _ : string => @Ok (list string) [] in
  let embed := fun _ : list string => @Ok (list Np.vec) [[1]; [-1]] in
  exists r,
    semantic_similarity_resume_jd tok None "a" "b" (Some embed) = Ok r
    /\ Forall (fun p =>
                 (best_matching_jd_chunk p = None /\ score p = 0)
                 \/ (exists c, best_matching_jd_chunk p = Some c
                               /\ In c (jd_chunks r) /\ 0 < score p))
         (paragraph_scores r).
Proof.
  intros tok embed.
  destruct (@semantic_similarity_spec tok None "a" "b" (Some embed)
              [[1]; [-1]] 1%nat eq_refl eq_refl ltac:(repeat constructor))
    as (r & Hr & _).
  exists r. split; [exact Hr|].
  exact (proj1 (proj2 (@best_chunk_iff_positive_score tok None "a" "b"
                         (Some embed) r Hr))).
Defined.

End BestChunk.

Section StripFacts.

Import StrFacts.

Lemma has_visible_rev (s : string) :
  forall acc, has_visible (rev_string acc s) = has_visible acc || has_visible s.
Proof.
  induction s as [|c s IH]; intro acc; cbn [rev_string has_visible].
  - now rewrite orb_false_r.
  - rewrite IH. cbn [has_visible]. destruct (isspace c); cbn;
      destruct (has_visible acc); cbn; auto.
Qed.

Lemma lstrip_empty_iff (s : string) :
  lstrip s = EmptyString <-> has_visible s = false.
Proof.
  induction s as [|c s IH]; cbn [lstrip has_visible]; [tauto|].
  destruct (isspace c); cbn [negb orb]; [exact IH|].
  split; discriminate.
Qed.

Lemma lstrip_visible (s : string) : has_visible (lstrip s) = has_visible s.
Proof.
  induction s as [|c s IH]; [reflexivity|]. cbn [lstrip].
  destruct (isspace c) eqn:E; cbn [has_visible]; rewrite ?E; auto.
Qed.

Lemma lstrip_head (s : string) :
  match lstrip s with
  | EmptyString => True
  | String c _ => isspace c = false
  end.
Proof.
  induction s as [|c s IH]; cbn [lstrip]; [exact I|].
  destruct (isspace c) eqn:E; [exact IH | exact E].
Qed.

Lemma rstrip_empty_iff (s : string) :
  rstrip s = EmptyString <-> has_visible s = false.
Proof.
  induction s as [|c s IH]; cbn [rstrip has_visible]; [tauto|].
  destruct (rstrip s) eqn:Er.
  - destruct (isspace c); cbn [negb orb].
    + tauto.
    + split; discriminate.
  - split; [discriminate|]. intro H.
    apply orb_false_iff in H. destruct H as [_ H].
    apply IH in H. discriminate.
Qed.

Lemma rstrip_visible (s : string) : has_visible (rstrip s) = has_visible s.
Proof.
  induction s as [|c s IH]; [reflexivity|]. cbn [rstrip].
  destruct (rstrip s) eqn:Er.
  - apply rstrip_empty_iff in Er. cbn [has_visible]. rewrite Er.
    destruct (isspace c) eqn:Ec; cbn [has_visible]; rewrite ?Ec; reflexivity.
  - cbn [has_visible]. cbn [has_visible] in IH. now rewrite IH.
Qed.

Lemma rstrip_idempotent (s : string) : rstrip (rstrip s) = rstrip s.
Proof.
  induction s as [|c s IH]; [reflexivity|]. cbn [rstrip].
  destruct (rstrip s) eqn:Er.
  - destruct (isspace c) eqn:Ec; [reflexivity|]. cbn [rstrip]. now rewrite Ec.
  - cbn [rstrip]. cbn [rstrip] in IH. rewrite IH. reflexivity.
Qed.

Lemma rstrip_head (c : ascii) (s : string) :
  isspace c = false -> exists s', rstrip (String c s) = String c s'.
Proof.
  intro H. cbn [rstrip]. destruct (rstrip s); rewrite ?H; eauto.
Qed.

Lemma nonblank_visible (p : string) : SemanticMatcher.nonblank p = has_visible p.
Proof.
  unfold SemanticMatcher.nonblank, strip.
  destruct (rstrip (lstrip p)) eqn:E.
  - apply rstrip_empty_iff in E.
    destruct (has_visible p) eqn:Hp; [|reflexivity].
    assert (Hl : lstrip p <> EmptyString).
    { intro Hl. apply lstrip_empty_iff in Hl. congruence. }
    pose proof (lstrip_head p) as Hh.
    destruct (lstrip p) as [|c l]; [congruence|].
    cbn [has_visible] in E. rewrite Hh in E. discriminate.
  - destruct (has_visible p) eqn:Hp; [reflexivity|].
    apply lstrip_empty_iff in Hp. rewrite Hp in E. discriminate.
Qed.

(** A stripped string is left as it is by [strip]. *)
Lemma strip_idempotent (p : string) : strip (strip p) = strip p.
Proof.
  unfold strip.
  pose proof (lstrip_head p) as Hh.
  destruct (lstrip p) as [|c l] eqn:El; [reflexivity|].
  destruct (@rstrip_head c l Hh) as [s' Hs']. rewrite Hs'.
  cbn [lstrip]. rewrite Hh. rewrite <- Hs'. apply rstrip_idempotent.
Qed.

End StripFacts.

Section ParagraphPath.

Import StrFacts SemanticMatcher.

Lemma isspace_nl (c : ascii) : is_nl c = true -> isspace c = true.
Proof.
  unfold is_nl, isspace. intro H. apply Nat.eqb_eq in H. now rewrite H.
Qed.

Lemma isspace_cr (c : ascii) : is_cr c = true -> isspace c = true.
Proof.
  unfold is_cr, isspace. intro H. apply Nat.eqb_eq in H. now rewrite H.
Qed.

(** The pieces of the split hold exactly the visible characters. *)
Lemma split_paragraphs_visible (s : string) :
  forall cur in_sep,
    existsb has_visible (split_paragraphs_aux cur in_sep s)
    = has_visible cur || has_visible s.
Proof.
  induction s as [|c s IH]; intros cur in_sep; cbn [split_paragraphs_aux].
  - cbn [existsb has_visible]. rewrite has_visible_rev. cbn [has_visible].
    now destruct (has_visible cur).
  - destruct (in_sep && is_nl c) eqn:E1.
    + apply andb_true_iff in E1. destruct E1 as [_ Hnl].
      rewrite IH. cbn [has_visible]. now rewrite (@isspace_nl c Hnl).
    + destruct (is_nl c && starts_with_newlines 1 s) eqn:E2.
      * apply andb_true_iff in E2. destruct E2 as [Hnl _].
        cbn [existsb]. rewrite IH, has_visible_rev. cbn [has_visible].
        rewrite (@isspace_nl c Hnl). cbn [negb orb].
        now destruct (has_visible cur).
      * destruct (is_cr c && starts_with_newlines 2 s) eqn:E3.
        -- apply andb_true_iff in E3. destruct E3 as [Hcr _].
           cbn [existsb]. rewrite IH, has_visible_rev. cbn [has_visible].
           rewrite (@isspace_cr c Hcr). cbn [negb orb].
           now destruct (has_visible cur).
        -- rewrite IH. cbn [has_visible].
           destruct (isspace c), (has_visible cur), (has_visible s); reflexivity.
Qed.

Lemma filter_nonempty_existsb {A : Type} (f : A -> bool) (l : list A) :
  existsb f l = true <-> filter f l <> [].
Proof.
  induction l as [|x l IH]; cbn [existsb filter].
  - split; [discriminate | congruence].
  - destruct (f x); cbn [orb]; [split; [discriminate | reflexivity] | exact IH].
Qed.

(** X6.  A text with at least one visible character is always chunked
    along its blank lines, whatever the sentence tokenizer does: the grouping
    of sentences is reached by texts made of white space only.  On that
    path every chunk is non-empty and already stripped. *)
Theorem visible_text_uses_paragraphs
  (sent_tokenize : string -> result (list string)) (text : string) :
  let paragraphs := map strip (filter nonblank (split_paragraphs text)) in
  (has_visible text = true ->
   _chunk_text_to_paragraphs sent_tokenize text = paragraphs
   /\ Forall (fun c => c <> EmptyString /\ strip c = c /\ has_visible c = true)
        (_chunk_text_to_paragraphs sent_tokenize text))
  /\ (has_visible text = false ->
      paragraphs = []
      /\ _chunk_text_to_paragraphs sent_tokenize text
         = match group3 (match sent_tokenize text with
                         | Ok sents => sents
                         | Raise _ => split_sentences text
                         end) with
           | [] => [text]
           | chunks => chunks
           end).
Proof.
  intro paragraphs.
  assert (Hex : existsb has_visible (split_paragraphs text) = has_visible text).
  { unfold split_paragraphs. now rewrite split_paragraphs_visible. }
  assert (Hfilter : filter nonblank (split_paragraphs text)
                    = filter has_visible (split_paragraphs text)).
  { apply filter_ext. intro p. apply nonblank_visible. }
  split.
  - intro Hv. rewrite Hv in Hex.
    apply filter_nonempty_existsb in Hex. rewrite <- Hfilter in Hex.
    assert (Hpath : _chunk_text_to_paragraphs sent_tokenize text = paragraphs).
    { unfold _chunk_text_to_paragraphs. fold paragraphs.
      destruct paragraphs eqn:Ep; [|reflexivity].
      subst paragraphs. apply map_eq_nil in Ep. contradiction. }
    split; [exact Hpath|]. rewrite Hpath. subst paragraphs.
    apply Forall_forall. intros c Hc. apply in_map_iff in Hc.
    destruct Hc as (p & <- & Hp). apply filter_In in Hp. destruct Hp as [_ Hp].
    assert (Hvis : has_visible (strip p) = true).
    { unfold strip. rewrite rstrip_visible, lstrip_visible.
      now rewrite nonblank_visible in Hp. }
    split; [|split; [apply strip_idempotent | exact Hvis]].
    intro E. rewrite E in Hvis. discriminate.
  - intro Hv. rewrite Hv in Hex.
    assert (Hnil : filter nonblank (split_paragraphs text) = []).
    { rewrite Hfilter. destruct (filter has_visible (split_paragraphs text)) eqn:E;
        [reflexivity|].
      assert (Hne : filter has_visible (split_paragraphs text) <> [])
        by (rewrite E; discriminate).
      apply filter_nonempty_existsb in Hne. congruence. }
    split; [subst paragraphs; now rewrite Hnil|].
    unfold _chunk_text_to_paragraphs. now rewrite Hnil.
Qed.

Lemma visible_text_uses_paragraphs_witness :
  let nl := String (ascii_of_nat 10) EmptyString in
  SemanticMatcher._chunk_text_to_paragraphs (fun _ => Raise TypeError)
    ("Led a team. Built tools." ++ nl ++ nl ++ "  AWS, Python  ")%string
  = ["Led a team. Built tools."%string; "AWS, Python"%string].
Proof.
  intro nl.
  destruct (visible_text_uses_paragraphs (fun _ => Raise TypeError)
              ("Led a team. Built tools." ++ nl ++ nl ++ "  AWS, Python  ")%string)
    as [Hvis _].
  destruct (Hvis eq_refl) as [Hpath _]. exact Hpath.
Defined.

End ParagraphPath.

(* ================================================================== *)
(** * The chunking step, path by path *)
(* ================================================================== *)

Section ChunkingClaim.

Import StrFacts SemanticMatcher.

Lemma starts_with_blank_line (c : ascii) (s : string) :
  PyRe.starts_with blank_line (String c s) = is_nl c && starts_with_newlines 1 s.
Proof.
  assert (Hc : Ascii.eqb (ascii_of_nat 10) c = is_nl c).
  { destruct c as [[] [] [] [] [] [] [] []]; reflexivity. }
  unfold blank_line. cbn [PyRe.starts_with starts_with_newlines].
  rewrite Hc. destruct s as [|c' s]; [now rewrite !andb_false_r|].
  assert (Hc' : Ascii.eqb (ascii_of_nat 10) c' = is_nl c').
  { destruct c' as [[] [] [] [] [] [] [] []]; reflexivity. }
  now rewrite Hc'.
Qed.

Lemma two_newlines_blank_line (s : string) :
  starts_with_newlines 2 s = true -> PyRe.contains blank_line s = true.
Proof.
  destruct s as [|c s]; [discriminate|]. intro H.
  cbn [starts_with_newlines] in H. apply andb_true_iff in H. destruct H as [H1 H2].
  cbn [PyRe.contains]. rewrite starts_with_blank_line.
  cbn [starts_with_newlines]. now rewrite H1, H2.
Qed.

(** A text that holds no blank line is a single piece. *)
Lemma split_paragraphs_aux_no_blank_line (s cur : string) :
  PyRe.contains blank_line s = false ->
  split_paragraphs_aux cur false s = [rev_string s cur].
Proof.
  revert cur. induction s as [|c s IH]; intros cur H; [reflexivity|].
  cbn [PyRe.contains] in H. apply orb_false_iff in H. destruct H as [H1 H2].
  rewrite starts_with_blank_line in H1.
  cbn [split_paragraphs_aux andb]. rewrite H1.
  assert (H3 : starts_with_newlines 2 s = false).
  { destruct (starts_with_newlines 2 s) eqn:E; [|reflexivity].
    apply two_newlines_blank_line in E. congruence. }
  rewrite H3, andb_false_r. rewrite (IH (String c cur) H2). reflexivity.
Qed.

Lemma split_paragraphs_no_blank_line (s : string) :
  PyRe.contains blank_line s = false -> split_paragraphs s = [s].
Proof.
  intro H. unfold split_paragraphs.
  now rewrite split_paragraphs_aux_no_blank_line.
Qed.

Lemma group3_two_groups (sents : list string) :
  (3 < List.length sents)%nat -> (2 <= List.length (group3 sents))%nat.
Proof.
  destruct sents as [|a [|b [|c [|d rest]]]]; cbn [List.length]; try lia.
  intros _. cbn [group3]. destruct rest as [|e [|f rest]]; cbn [List.length]; lia.
Qed.

(** C9 (the claim as written fails).  A text of five sentences on one
    line has no blank-line structure, and the claim promises groups of
    sentences for it: two groups, whoever splits the sentences.  The
    function returns the whole text as one chunk, whatever the tokenizer
    does. *)
Lemma sentences_on_one_line_are_one_chunk :
  let text := "One. Two. Three. Four. Five."%string in
  PyRe.contains blank_line text = false
  /\ (forall sent_tokenize : string -> result (list string),
        _chunk_text_to_paragraphs sent_tokenize text = [text])
  /\ group3 (split_sentences text) = ["One Two Three"; "Four Five."]%string
  /\ (forall sents : list string,
        (3 < List.length sents)%nat -> group3 sents <> [text]).
Proof.
  intro text. split; [reflexivity|]. split; [intro; reflexivity|].
  split; [reflexivity|].
  intros sents Hlen E. apply group3_two_groups in Hlen. rewrite E in Hlen.
  cbn in Hlen. lia.
Qed.

(** C9 (amended).  Chunking is a total function and always yields at
    least one chunk.  A text with a visible character is always split along
    its blank lines, whatever the sentence tokenizer does: its chunks are
    the non-blank pieces between the separators, stripped, none of them
    empty; so a text without a blank line is a single chunk, its stripped
    self, however many sentences it holds.  The grouping of sentences is
    reached only by a text made of white space: the sentences ([nltk]'s, or
    the regular-expression split when the tokenizer raises) are grouped
    three by three, and when there is no sentence the whole text is the only
    chunk; for the empty text, which the tokenizer splits into no sentence,
    this gives the single chunk [""]. *)
Theorem chunking_yields_a_chunk
  (sent_tokenize : string -> result (list string)) (text : string) :
  let chunks := _chunk_text_to_paragraphs sent_tokenize text in
  let paragraphs := map strip (filter nonblank (split_paragraphs text)) in
  let sents :=
    match sent_tokenize text with
    | Ok sents => sents
    | Raise _ => split_sentences text
    end in
  (1 <= List.length chunks)%nat
  /\ (has_visible text = true ->
      chunks = paragraphs
      /\ Forall (fun c => c <> EmptyString /\ strip c = c) chunks
      /\ (PyRe.contains blank_line text = false -> chunks = [strip text]))
  /\ (has_visible text = false ->
      (sents <> [] ->
       chunks = group3 sents
       /\ (List.length sents <= 3 * List.length (group3 sents)
           < List.length sents + 3)%nat)
      /\ (sents = [] -> chunks = [text]))
  /\ (text = EmptyString ->
      sent_tokenize EmptyString = Ok [] \/ (exists e, sent_tokenize EmptyString = Raise e) ->
      chunks = [EmptyString]).
Proof.
  intros chunks paragraphs sents.
  assert (Hex : existsb has_visible (split_paragraphs text) = has_visible text).
  { unfold split_paragraphs. now rewrite split_paragraphs_visible. }
  assert (Hfilter : filter nonblank (split_paragraphs text)
                    = filter has_visible (split_paragraphs text)).
  { apply filter_ext. intro p. apply nonblank_visible. }
  split; [|split; [|split]].
  - pose proof (chunk_nonempty sent_tokenize text) as H. subst chunks.
    destruct (_chunk_text_to_paragraphs sent_tokenize text); [congruence|].
    cbn. lia.
  - intro Hv. rewrite Hv in Hex.
    apply filter_nonempty_existsb in Hex. rewrite <- Hfilter in Hex.
    assert (Hpath : chunks = paragraphs).
    { subst chunks. unfold _chunk_text_to_paragraphs. fold paragraphs.
      destruct paragraphs eqn:Ep; [|reflexivity].
      subst paragraphs. apply map_eq_nil in Ep. contradiction. }
    split; [exact Hpath|]. split.
    + rewrite Hpath. subst paragraphs.
      apply Forall_forall. intros c Hc. apply in_map_iff in Hc.
      destruct Hc as (p & <- & Hp). apply filter_In in Hp. destruct Hp as [_ Hp].
      assert (Hvis : has_visible (strip p) = true).
      { unfold strip. rewrite rstrip_visible, lstrip_visible.
        now rewrite nonblank_visible in Hp. }
      split; [|apply strip_idempotent].
      intro E. rewrite E in Hvis. discriminate.
    + intro Hnb. rewrite Hpath. subst paragraphs.
      rewrite (split_paragraphs_no_blank_line _ Hnb). cbn [filter].
      rewrite nonblank_visible, Hv. reflexivity.
  - intro Hv. rewrite Hv in Hex.
    assert (Hnil : filter nonblank (split_paragraphs text) = []).
    { rewrite Hfilter. destruct (filter has_visible (split_paragraphs text)) eqn:E;
        [reflexivity|].
      assert (Hne : filter has_visible (split_paragraphs text) <> [])
        by (rewrite E; discriminate).
      apply filter_nonempty_existsb in Hne. congruence. }
    assert (Hfall : chunks = match group3 sents with [] => [text] | g => g end).
    { subst chunks. unfold _chunk_text_to_paragraphs. now rewrite Hnil. }
    split.
    + intro Hs. split.
      * rewrite Hfall. pose proof (group3_nonempty Hs) as Hg.
        destruct (group3 sents); [congruence | reflexivity].
      * destruct (group3_length sents (Nat.le_refl _)). lia.
    + intro Hs. rewrite Hfall, Hs. reflexivity.
  - intros -> Htok. subst chunks. unfold _chunk_text_to_paragraphs. cbn.
    destruct Htok as [-> | [e ->]]; reflexivity.
Qed.

Lemma chunking_yields_a_chunk_witness :
  let nl := String (ascii_of_nat 10) EmptyString in
  let tok := fun _ : string => @Ok (list string) [] in
  _chunk_text_to_paragraphs tok ("Python developer" ++ nl ++ nl ++ " AWS ")%string
  = ["Python developer"%string; "AWS"%string]
  /\ _chunk_text_to_paragraphs tok " One. Two. Three. Four. "
     = ["One. Two. Three. Four."%string]
  /\ _chunk_text_to_paragraphs tok "   " = ["   "%string]
  /\ _chunk_text_to_paragraphs tok EmptyString = [EmptyString]
  /\ _chunk_text_to_paragraphs
       (fun _ => Raise (RuntimeError "punkt not found")) "  " = ["  "%string].
Proof.
  intros nl tok. split; [|split; [|split; [|split]]].
  - destruct (chunking_yields_a_chunk tok
                ("Python developer" ++ nl ++ nl ++ " AWS ")%string)
      as (_ & Hpar & _).
    apply Hpar. reflexivity.
  - destruct (chunking_yields_a_chunk tok " One. Two. Three. Four. ")
      as (_ & Hpar & _).
    apply Hpar; reflexivity.
  - destruct (chunking_yields_a_chunk tok "   ") as (_ & _ & Hws & _).
    destruct (Hws eq_refl) as [_ Hs]. apply Hs. reflexivity.
  - destruct (chunking_yields_a_chunk tok EmptyString) as (_ & _ & _ & Hempty).
    apply Hempty; [reflexivity|]. left. reflexivity.
  - destruct (chunking_yields_a_chunk
                (fun _ => Raise (RuntimeError "punkt not found")) "  ")
      as (_ & _ & Hws & _).
    destruct (Hws eq_refl) as [Hs _].
    apply Hs. intro E. vm_compute in E. discriminate.
Defined.

End ChunkingClaim.

(* ================================================================== *)
(** * Further properties: the skill comparator *)
(* ================================================================== *)

Section NormalizeFacts.

Import StrFacts SkillComparator.

Lemma filter_chars_all (keep : ascii -> bool) (s : string) :
  all_chars keep (filter_chars keep s) = true.
Proof.
  induction s as [|c s IH]; [reflexivity|]. cbn [filter_chars].
  destruct (keep c) eqn:E; [|exact IH]. cbn [all_chars]. now rewrite E.
Qed.

Lemma collapse_ws_spec (s : string) :
  forall in_run,
    all_chars keep_char s = true ->
    all_chars keep_char (collapse_ws in_run s) = true
    /\ has_double_space (collapse_ws in_run s) = false
    /\ (in_run = true ->
        match collapse_ws in_run s with
        | EmptyString => True
        | String c _ => isspace c = false
        end).
Proof.
  induction s as [|c s IH]; intros in_run Hall.
  - cbn. auto.
  - cbn [all_chars] in Hall. apply andb_true_iff in Hall. destruct Hall as [Hc Hs].
    cbn [collapse_ws]. destruct (isspace c) eqn:Ec.
    + destruct in_run.
      * apply IH; assumption.
      * destruct (IH true Hs) as (H1 & H2 & H3). specialize (H3 eq_refl).
        split; [|split; [|discriminate]].
        -- cbn [all_chars]. now rewrite H1.
        -- cbn [has_double_space].
           destruct (collapse_ws true s) as [|c' s'] eqn:E; [reflexivity|].
           rewrite H3, andb_false_r. exact H2.
    + destruct (IH false Hs) as (H1 & H2 & _).
      split; [|split; [|intros _; exact Ec]].
      * cbn [all_chars]. now rewrite Hc, H1.
      * cbn [has_double_space].
        destruct (collapse_ws false s) as [|c' s'] eqn:E; [reflexivity|].
        rewrite Ec. exact H2.
Qed.

(** X7.  A normalised skill only holds the characters a-z, 0-9, plus,
    hash, dot, hyphen and the space, and never two spaces in a row. *)
Theorem normalize_alphabet (x : string) :
  all_chars keep_char (_normalize x) = true
  /\ has_double_space (_normalize x) = false.
Proof.
  unfold _normalize.
  destruct (@collapse_ws_spec (filter_chars keep_char (lower (strip x))) false
              (filter_chars_all keep_char _)) as (H1 & H2 & _).
  now split.
Qed.

End NormalizeFacts.

Section OverlapFacts.

Import SkillComparator.
Open Scope Q_scope.

Lemma str_mem_In (x : string) (l : list string) : str_mem x l = true <-> In x l.
Proof.
  unfold str_mem. destruct (in_dec string_dec x l); split; auto; discriminate.
Qed.

Lemma set_inter_In (a b : list string) (x : string) :
  In x (set_inter a b) <-> In x a /\ In x b.
Proof.
  unfold set_inter. rewrite filter_In, str_mem_In. tauto.
Qed.

Lemma set_inter_length_comm (a b : list string) :
  NoDup a -> NoDup b ->
  List.length (set_inter a b) = List.length (set_inter b a).
Proof.
  intros Ha Hb. apply Permutation_length. apply NoDup_Permutation.
  - now apply NoDup_filter.
  - now apply NoDup_filter.
  - intro x. rewrite !set_inter_In. tauto.
Qed.

Lemma set_inter_length_le (a b : list string) :
  (List.length (set_inter a b) <= List.length a)%nat.
Proof. apply filter_length_le. Qed.

Lemma filter_length_all {A : Type} (f : A -> bool) (l : list A) :
  List.length (filter f l) = List.length l <-> forall x, In x l -> f x = true.
Proof.
  induction l as [|y l IH]; cbn [filter List.length].
  - split; [intros _ x [] | reflexivity].
  - destruct (f y) eqn:E; cbn [List.length].
    + split.
      * intros H x [<-|Hx]; [exact E|]. apply IH; [lia | exact Hx].
      * intro H. f_equal. apply IH. intros x Hx. apply H. now right.
    + split.
      * intro H. pose proof (filter_length_le f l). lia.
      * intro H. specialize (H y (or_introl eq_refl)). congruence.
Qed.

Lemma ratio_unit (n m : nat) :
  (n <= m)%nat -> (1 <= m)%nat ->
  0 <= inject_Z (Z.of_nat n) / inject_Z (Z.of_nat m) <= 1.
Proof.
  intros Hn Hm.
  assert (Hpos : 0 < inject_Z (Z.of_nat m)).
  { change 0 with (inject_Z 0). rewrite <- Zlt_Qlt. lia. }
  split.
  - apply Qle_shift_div_l; [exact Hpos|]. rewrite Qmult_0_l.
    change 0 with (inject_Z 0). rewrite <- Zle_Qle. lia.
  - apply Qle_shift_div_r; [exact Hpos|]. rewrite Qmult_1_l.
    rewrite <- Zle_Qle. lia.
Qed.

Lemma ratio_one_iff (n m : nat) :
  (1 <= m)%nat ->
  (inject_Z (Z.of_nat n) / inject_Z (Z.of_nat m) == 1 <-> n = m).
Proof.
  intro Hm.
  destruct (Z.of_nat m) as [|p|p] eqn:Ep; try lia.
  unfold Qeq, Qdiv, Qmult, Qinv, inject_Z. cbn [Qnum Qden].
  rewrite !Z.mul_1_r, Z.mul_1_l. cbn [Z.mul]. rewrite Pos.mul_1_l. lia.
Qed.

(** X8.  The lexical similarity is a ratio between 0 and 1 that does not
    depend on the order of its arguments.  It is 1 exactly when both skills
    have tokens and the same set of tokens, whatever their order and
    repetitions, and 0 when they share no token. *)
Theorem token_overlap_properties (a b : string) :
  0 <= _simple_token_overlap a b <= 1
  /\ _simple_token_overlap a b = _simple_token_overlap b a
  /\ (_simple_token_overlap a b == 1
      <-> token_set a <> []
          /\ (forall t, In t (token_set a) <-> In t (token_set b)))
  /\ ((forall t, In t (token_set a) -> ~ In t (token_set b)) ->
      _simple_token_overlap a b == 0).
Proof.
  pose proof (str_set_NoDup (split_ws (_normalize a))) as Ha.
  pose proof (str_set_NoDup (split_ws (_normalize b))) as Hb.
  fold (token_set a) in Ha. fold (token_set b) in Hb.
  unfold _simple_token_overlap.
  pose proof (set_inter_length_comm Ha Hb) as Hcomm.
  pose proof (set_inter_length_le (token_set a) (token_set b)) as Hle.
  pose proof (set_inter_length_le (token_set b) (token_set a)) as Hle'.
  destruct (token_set a) as [|x xs] eqn:Ea.
  - split; [split; discriminate|]. split.
    + now destruct (token_set b).
    + split; [|reflexivity]. split; [discriminate | intros [H _]; congruence].
  - destruct (token_set b) as [|y ys] eqn:Eb.
    + split; [split; discriminate|]. split; [reflexivity|]. split.
      * split; [discriminate|]. intros [_ H].
        destruct (proj1 (H x) (or_introl eq_refl)).
      * reflexivity.
    + set (A := x :: xs) in *. set (B := y :: ys) in *.
      assert (HlenA : (1 <= List.length A)%nat) by (subst A; cbn; lia).
      assert (Hmax : (1 <= Nat.max (List.length A) (List.length B))%nat) by lia.
      split; [apply ratio_unit; lia|]. split.
      * now rewrite Hcomm, Nat.max_comm.
      * split.
        -- rewrite (ratio_one_iff _ Hmax). split.
           ++ intro Heq. split; [discriminate|].
              assert (HA : List.length (set_inter A B) = List.length A) by lia.
              assert (HB : List.length (set_inter B A) = List.length B) by lia.
              unfold set_inter in HA, HB.
              rewrite filter_length_all in HA, HB.
              intro t. split; intro Ht.
              ** apply str_mem_In. now apply HA.
              ** apply str_mem_In. now apply HB.
           ++ intros [_ Hsame].
              assert (HA : List.length (set_inter A B) = List.length A).
              { unfold set_inter. apply filter_length_all. intros t Ht.
                apply str_mem_In. now apply Hsame. }
              assert (HB : List.length (set_inter B A) = List.length B).
              { unfold set_inter. apply filter_length_all. intros t Ht.
                apply str_mem_In. now apply Hsame. }
              lia.
        -- intro Hdisj.
           assert (Hnil : set_inter A B = []).
           { destruct (set_inter A B) as [|t ts] eqn:E; [reflexivity|].
             assert (Ht : In t (set_inter A B)) by (rewrite E; now left).
             apply set_inter_In in Ht. destruct Ht as [H1 H2].
             destruct (Hdisj t H1 H2). }
           rewrite Hnil. reflexivity.
Qed.

Lemma token_overlap_properties_witness :
  _simple_token_overlap "Data  Science" "science data DATA" == 1
  /\ _simple_token_overlap "python" "java" == 0.
Proof.
  split.
  - apply (proj1 (proj2 (proj2 (token_overlap_properties
                                  "Data  Science" "science data DATA")))).
    split; [vm_compute; discriminate|].
    intro t. vm_compute. tauto.
  - apply (proj2 (proj2 (proj2 (token_overlap_properties "python" "java")))).
    intros t Ht. vm_compute in Ht. destruct Ht as [<-|[]].
    vm_compute. intros [H|[]]. discriminate.
Defined.

End OverlapFacts.

Section CompareRanges.

Import SkillComparator.
Open Scope Q_scope.

Lemma pow10_pos (n : nat) : 0 < pow10 n.
Proof.
  unfold pow10. change 0 with (inject_Z 0). rewrite <- Zlt_Qlt.
  apply Z.pow_pos_nonneg; lia.
Qed.

Lemma div_le_mul (a b c : Q) : 0 < b -> a / b <= c -> a <= c * b.
Proof.
  intros Hb H.
  assert (Hne : ~ b == 0) by (intro E; rewrite E in Hb; discriminate).
  rewrite <- (Qmult_div_r a b Hne), (Qmult_comm b).
  apply Qmult_le_compat_r; [exact H | now apply Qlt_le_weak].
Qed.

Lemma le_div_mul (a b c : Q) : 0 < b -> c <= a / b -> c * b <= a.
Proof.
  intros Hb H.
  assert (Hne : ~ b == 0) by (intro E; rewrite E in Hb; discriminate).
  rewrite <- (Qmult_div_r a b Hne), (Qmult_comm b).
  apply Qmult_le_compat_r; [exact H | now apply Qlt_le_weak].
Qed.

(** Rounding to [n] decimals keeps a number between two bounds that have
    at most [n] decimals themselves. *)
Lemma py_round_bounds (q : Q) (n : nat) (lo hi : Z) :
  inject_Z lo / pow10 n <= q -> q <= inject_Z hi / pow10 n ->
  inject_Z lo / pow10 n <= py_round q n <= inject_Z hi / pow10 n.
Proof.
  intros Hlo Hhi. pose proof (pow10_pos n) as Hp.
  assert (Hb : (lo <= round_half_even (q * pow10 n) <= hi)%Z).
  { apply round_half_even_bounds.
    - now apply div_le_mul.
    - now apply le_div_mul. }
  unfold py_round. split.
  - apply Qle_shift_div_l; [exact Hp|].
    unfold Qdiv. rewrite <- Qmult_assoc, (Qmult_comm (/ _)), Qmult_inv_r, Qmult_1_r
      by (intro E; rewrite E in Hp; discriminate).
    rewrite <- Zle_Qle. lia.
  - apply Qle_shift_div_r; [exact Hp|].
    unfold Qdiv. rewrite <- Qmult_assoc, (Qmult_comm (/ _)), Qmult_inv_r, Qmult_1_r
      by (intro E; rewrite E in Hp; discriminate).
    rewrite <- Zle_Qle. lia.
Qed.











End CompareRanges.

(* ================================================================== *)
(** * Further properties: score fusion *)
(* ================================================================== *)

Section FuseWeights.

Import AtsScorer.
Open Scope Q_scope.

Lemma Qeqb_true (a b : Q) : Qeqb a b = true <-> a == b.
Proof.
  unfold Qeqb. rewrite Qeq_alt. destruct (Qcompare a b); split; congruence.
Qed.

(** The divisor of the normalisation is never zero. *)
Lemma weight_norm_nonzero (w : Weights) : ~ weight_norm w == 0.
Proof.
  unfold weight_norm.
  set (s := fold_left Qplus _ 0).
  destruct (Qeqb s 0) eqn:E; [discriminate|].
  intro H. apply Qeqb_true in H. congruence.
Qed.

Lemma component_range (x : Q) : 0 <= py_round (_clamp01 x * 100) 2 <= 100.
Proof. apply py_round_pct_range. apply clamp01_range. Qed.

Lemma dict_item_get (w : Weights) (k : string) :
  dict_item w k = match dict_get w k with
                  | Some v => Ok v
                  | None => Raise (KeyError k)
                  end.
Proof. reflexivity. Qed.

(** X10.  With a non-empty custom weight dictionary [fuse_components]
    returns exactly when the five keys semantic, skills, keywords,
    action_verbs and experience are present ("formatting" is optional).
    It then keeps the dictionary, divides by a non-zero number and reports
    six components and a final score between 0 and 100, whatever the signs
    and sizes of the weights.  A missing key raises [KeyError] for the first
    missing one in that order. *)
Theorem fuse_custom_weights (s1 s2 s3 s4 s5 s6 : Q) (w : Weights) :
  w <> [] ->
  let missing :=
    filter (fun k => match dict_get w k with None => true | Some _ => false end)
      ["semantic"; "skills"; "keywords"; "action_verbs"; "experience"]%string in
  match missing with
  | [] =>
      exists r,
        fuse_components s1 s2 s3 s4 s5 s6 (Some w) = Ok r
        /\ weights_used r = w
        /\ 0 <= final_score r <= 100
        /\ 0 <= final_score_norm r <= 1
        /\ Forall (fun c => 0 <= c <= 100)
             [c_semantic (components r); c_skills (components r);
              c_keyword_density (components r);
              c_action_verb_ratio (components r);
              c_experience_relevance (components r);
              c_formatting_penalty (components r)]
  | k :: _ => fuse_components s1 s2 s3 s4 s5 s6 (Some w) = Raise (KeyError k)
  end
  /\ ~ weight_norm w == 0.
Proof.
  intros Hne missing. split; [|apply weight_norm_nonzero].
  assert (Heff : effective_weights (Some w) = w)
    by (destruct w; [congruence | reflexivity]).
  subst missing. cbn [filter].
  unfold fuse_components. rewrite Heff.
  unfold raw_score_of, positive_sum_of. rewrite !dict_item_get.
  destruct (dict_get w "semantic") as [v1|]; [|reflexivity].
  destruct (dict_get w "skills") as [v2|]; [|reflexivity].
  destruct (dict_get w "keywords") as [v3|]; [|reflexivity].
  destruct (dict_get w "action_verbs") as [v4|]; [|reflexivity].
  destruct (dict_get w "experience") as [v5|]; [|reflexivity].
  cbn [bind]. eexists. split; [reflexivity|].
  cbn [weights_used final_score final_score_norm components c_semantic c_skills
         c_keyword_density c_action_verb_ratio c_experience_relevance
         c_formatting_penalty].
  split; [reflexivity|].
  split; [apply py_round_pct_range; apply clamp01_range|].
  split; [apply clamp01_range|].
  repeat constructor; apply component_range.
Qed.

Lemma fuse_custom_weights_witness :
  (exists r,
      fuse_components 1 1 1 1 1 1
        (Some [("semantic"%string, 1); ("skills"%string, 0);
               ("keywords"%string, 0); ("action_verbs"%string, 0);
               ("experience"%string, - (1))]) = Ok r
      /\ 0 <= final_score r <= 100)
  /\ fuse_components 1 1 1 1 1 1
       (Some [("semantic"%string, 1); ("keywords"%string, 1)])
     = Raise (KeyError "skills").
Proof.
  split.
  - destruct (@fuse_custom_weights 1 1 1 1 1 1
                [("semantic"%string, 1); ("skills"%string, 0);
                 ("keywords"%string, 0); ("action_verbs"%string, 0);
                 ("experience"%string, - (1))] ltac:(discriminate))
      as [(r & Hr & _ & Hs & _) _].
    exists r. split; assumption.
  - exact (proj1 (@fuse_custom_weights 1 1 1 1 1 1
                    [("semantic"%string, 1); ("keywords"%string, 1)]
                    ltac:(discriminate))).
Defined.

End FuseWeights.

Section FuseMonotone.

Import AtsScorer.
Open Scope Q_scope.

Lemma round_half_even_mono (q q' : Q) :
  q <= q' -> (round_half_even q <= round_half_even q')%Z.
Proof.
  intro H.
  pose proof (Qfloor_resp_le _ _ H) as Hf.
  destruct (Z.eq_dec (Qfloor q) (Qfloor q')) as [Heq|Hneq].
  - unfold round_half_even. rewrite <- Heq.
    assert (Hd : q - inject_Z (Qfloor q) <= q' - inject_Z (Qfloor q)).
    { now apply Qplus_le_l. }
    destruct (Qcompare (q - inject_Z (Qfloor q)) (1 # 2)) eqn:E1;
      destruct (Qcompare (q' - inject_Z (Qfloor q)) (1 # 2)) eqn:E2;
      try (destruct (Z.even (Qfloor q)); lia); try lia.
    + apply Qeq_alt in E1. apply Qlt_alt in E2. rewrite E1 in Hd.
      exfalso. exact (Qlt_not_le _ _ E2 Hd).
    + apply Qgt_alt in E1. apply Qeq_alt in E2. rewrite E2 in Hd.
      exfalso. exact (Qlt_not_le _ _ E1 Hd).
    + apply Qgt_alt in E1. apply Qlt_alt in E2.
      exfalso. apply (Qlt_not_le _ _ E1). eapply Qle_trans; [exact Hd|].
      now apply Qlt_le_weak.
  - assert (Hlt : (Qfloor q + 1 <= Qfloor q')%Z) by lia.
    assert (H1 : (round_half_even q <= Qfloor q + 1)%Z).
    { unfold round_half_even.
      destruct (Qcompare _ _); try lia. destruct (Z.even _); lia. }
    assert (H2 : (Qfloor q' <= round_half_even q')%Z).
    { unfold round_half_even.
      destruct (Qcompare _ _); try lia. destruct (Z.even _); lia. }
    lia.
Qed.

Lemma py_round_mono (q q' : Q) (n : nat) :
  q <= q' -> py_round q n <= py_round q' n.
Proof.
  intro H. unfold py_round. pose proof (pow10_pos n) as Hp.
  apply Qmult_le_compat_r.
  - rewrite <- Zle_Qle. apply round_half_even_mono.
    apply Qmult_le_compat_r; [exact H | now apply Qlt_le_weak].
  - apply Qlt_le_weak. now apply Qinv_lt_0_compat.
Qed.

Lemma py_min_mono (x y : Q) : x <= y -> py_min 1 x <= py_min 1 y.
Proof.
  intro H. unfold py_min.
  destruct (Qltb x 1) eqn:Ex; destruct (Qltb y 1) eqn:Ey.
  - exact H.
  - apply Qltb_true in Ex. now apply Qlt_le_weak.
  - apply Qltb_false in Ex. apply Qltb_true in Ey.
    exfalso. apply (Qlt_not_le _ _ Ey). eapply Qle_trans; eauto.
  - apply Qle_refl.
Qed.

Lemma py_max_mono (x y : Q) : x <= y -> py_max 0 x <= py_max 0 y.
Proof.
  intro H. unfold py_max.
  destruct (Qltb 0 x) eqn:Ex; destruct (Qltb 0 y) eqn:Ey.
  - exact H.
  - apply Qltb_true in Ex. apply Qltb_false in Ey.
    exfalso. apply (Qlt_not_le _ _ Ex). eapply Qle_trans; eauto.
  - apply Qltb_true in Ey. now apply Qlt_le_weak.
  - apply Qle_refl.
Qed.

Lemma clamp01_mono (x y : Q) : x <= y -> _clamp01 x <= _clamp01 y.
Proof.
  intro H. unfold _clamp01. now apply py_max_mono, py_min_mono.
Qed.

(** X11.  Under the default weights the final score is monotone in the
    five positive signals: raising any of them never lowers it, whatever the
    formatting penalties. *)
Theorem fuse_monotone (a1 a2 a3 a4 a5 b1 b2 b3 b4 b5 f g : Q) :
  a1 <= b1 -> a2 <= b2 -> a3 <= b3 -> a4 <= b4 -> a5 <= b5 ->
  exists r r',
    fuse_components a1 a2 a3 a4 a5 f None = Ok r
    /\ fuse_components b1 b2 b3 b4 b5 g None = Ok r'
    /\ final_score r <= final_score r'
    /\ final_score_norm r <= final_score_norm r'.
Proof.
  intros H1 H2 H3 H4 H5.
  destruct (fuse_default_shape a1 a2 a3 a4 a5 f) as (r & Hr & Hn & Hs).
  destruct (fuse_default_shape b1 b2 b3 b4 b5 g) as (r' & Hr' & Hn' & Hs').
  exists r, r'. split; [exact Hr|]. split; [exact Hr'|].
  assert (Hnorm : final_score_norm r <= final_score_norm r').
  { rewrite Hn, Hn'. apply clamp01_mono.
    rewrite weight_norm_default.
    apply Qmult_le_compat_r; [|discriminate].
    apply Qplus_le_l. unfold default_positive_sum.
    repeat apply Qplus_le_compat;
      apply Qmult_le_l; try reflexivity; now apply clamp01_mono. }
  split; [|exact Hnorm].
  rewrite Hs, Hs'. apply py_round_mono.
  apply Qmult_le_compat_r; [exact Hnorm | discriminate].
Qed.

Lemma fuse_monotone_witness :
  exists r r',
    fuse_components (1 # 2) (1 # 2) 0 0 0 1 None = Ok r
    /\ fuse_components (3 # 4) (1 # 2) 0 (1 # 10) 0 0 None = Ok r'
    /\ final_score r <= final_score r'.
Proof.
  destruct (@fuse_monotone (1 # 2) (1 # 2) 0 0 0 (3 # 4) (1 # 2) 0 (1 # 10) 0 1 0)
    as (r & r' & Hr & Hr' & Hle & _); try discriminate.
  exists r, r'. repeat split; assumption.
Defined.

End FuseMonotone.

(* ================================================================== *)
(** * Further properties: the signal functions of the ATS scorer *)
(* ================================================================== *)

Section SplitFacts.

Import PyRe.

Lemma split_runs_aux_nonempty (sep : ascii -> bool) (cur : string) (in_sep : bool)
  (s : string) : split_runs_aux sep cur in_sep s <> [].
Proof.
  revert cur in_sep. induction s as [|c s IH]; intros cur in_sep; cbn [split_runs_aux].
  - discriminate.
  - destruct (sep c); [destruct in_sep|]; try apply IH. discriminate.
Qed.

Lemma last_cons_nonempty {A : Type} (x : A) (l : list A) (d : A) :
  l <> [] -> last (x :: l) d = last l d.
Proof. destruct l; [congruence | reflexivity]. Qed.

(** A text that ends with a separator ends with an empty piece. *)
Lemma split_runs_aux_last (sep : ascii -> bool) (s cur : string) (in_sep : bool)
  (c : ascii) :
  StrFacts.last_char s = Some c -> sep c = true ->
  (in_sep = true -> cur = EmptyString) ->
  last (split_runs_aux sep cur in_sep s) "x"%string = EmptyString.
Proof.
  revert cur in_sep. induction s as [|a s IH]; intros cur in_sep Hl Hc Hinv.
  - discriminate.
  - destruct s as [|b s].
    + cbn in Hl. injection Hl as ->. cbn [split_runs_aux]. rewrite Hc.
      destruct in_sep.
      * rewrite (Hinv eq_refl). reflexivity.
      * reflexivity.
    + change (StrFacts.last_char (String a (String b s)))
        with (StrFacts.last_char (String b s)) in Hl.
      remember (String b s) as t eqn:Et.
      cbn [split_runs_aux]. destruct (sep a); [destruct in_sep|].
      * apply IH; auto.
      * rewrite last_cons_nonempty by apply split_runs_aux_nonempty.
        apply IH; auto.
      * apply IH; auto. discriminate.
Qed.

Lemma last_In {A : Type} (l : list A) (d : A) : l <> [] -> In (last l d) l.
Proof.
  induction l as [|x l IH]; [congruence|]. intros _.
  destruct l as [|y l]; [now left|]. right. apply IH. discriminate.
Qed.

Lemma split_runs_trailing (sep : ascii -> bool) (s : string) (c : ascii) :
  StrFacts.last_char s = Some c -> sep c = true ->
  In EmptyString (split_runs sep s).
Proof.
  intros Hl Hc. unfold split_runs.
  assert (H : last (split_runs_aux sep EmptyString false s) "x"%string = EmptyString)
    by (apply (@split_runs_aux_last sep s EmptyString false c Hl Hc); discriminate).
  pose proof (@last_In _ (split_runs_aux sep EmptyString false s) "x"%string
                (@split_runs_aux_nonempty sep EmptyString false s)) as Hin.
  now rewrite H in Hin.
Qed.

Lemma split_runs_leading (sep : ascii -> bool) (s : string) :
  head_is sep s = true -> In EmptyString (split_runs sep s).
Proof.
  destruct s as [|c s]; [discriminate|]. cbn [head_is]. intro Hc.
  unfold split_runs. cbn [split_runs_aux]. rewrite Hc. now left.
Qed.

Lemma filter_length_lt {A : Type} (f : A -> bool) (l : list A) (x : A) :
  In x l -> f x = false -> (List.length (filter f l) < List.length l)%nat.
Proof.
  intros Hx Hf. pose proof (filter_length_le f l) as Hle.
  destruct (Nat.eq_dec (List.length (filter f l)) (List.length l)) as [E|E]; [|lia].
  pose proof (proj1 (@filter_length_all A f l) E x Hx). congruence.
Qed.

End SplitFacts.

Section ActionVerbRatio.

Import PyRe AtsSignals AtsScorer.
Open Scope Q_scope.

Lemma clamp01_id (x : Q) : 0 <= x <= 1 -> _clamp01 x == x.
Proof.
  intros [H0 H1]. unfold _clamp01, py_min, py_max.
  destruct (Qltb x 1) eqn:E1.
  - destruct (Qltb 0 x) eqn:E0; [reflexivity|].
    apply Qltb_false in E0. now apply Qle_antisym.
  - apply Qltb_false in E1. destruct (Qltb 0 1) eqn:E0.
    + now apply Qle_antisym.
    + discriminate.
Qed.

Lemma ratio_lt_one (n m : nat) : (n < m)%nat -> ratio n m < 1.
Proof.
  intro H. unfold ratio. apply Qlt_shift_div_r.
  - change 0 with (inject_Z 0). rewrite <- Zlt_Qlt. lia.
  - rewrite Qmult_1_l. rewrite <- Zlt_Qlt. lia.
Qed.

(** X12.  The action-verb ratio is the exact fraction of the pieces between
    runs of sentence terminators that hold an action verb: the list of
    pieces is never empty, so the early return is never taken and the
    clamp changes nothing.  The ratio is 1 exactly when every piece holds
    a verb.  A text that starts or ends with a terminator has an empty
    piece, which counts as a sentence without a verb, so its ratio is
    below 1. *)
Theorem action_verb_ratio_counts_pieces (resume_text : string) :
  let sents := split_runs sentence_sep resume_text in
  let hit := List.length (filter has_action_verb sents) in
  sents <> []
  /\ compute_action_verb_ratio resume_text == ratio hit (List.length sents)
  /\ 0 <= compute_action_verb_ratio resume_text <= 1
  /\ (compute_action_verb_ratio resume_text == 1
      <-> forall s, In s sents -> has_action_verb s = true)
  /\ (head_is sentence_sep resume_text = true
      \/ (exists c, StrFacts.last_char resume_text = Some c
                    /\ sentence_sep c = true) ->
      compute_action_verb_ratio resume_text < 1).
Proof.
  intros sents hit.
  assert (Hne : sents <> []) by apply split_runs_aux_nonempty.
  assert (Hlen : (1 <= List.length sents)%nat).
  { destruct sents; [congruence | cbn; lia]. }
  assert (Hhit : (hit <= List.length sents)%nat) by apply filter_length_le.
  assert (Hunit : 0 <= ratio hit (List.length sents) <= 1)
    by (apply ratio_unit; assumption).
  assert (Heq : compute_action_verb_ratio resume_text
                == ratio hit (List.length sents)).
  { unfold compute_action_verb_ratio. fold sents.
    destruct sents as [|x l] eqn:E; [congruence|].
    fold hit. now apply clamp01_id. }
  split; [exact Hne|]. split; [exact Heq|].
  split; [rewrite Heq; exact Hunit|]. split.
  - rewrite Heq. unfold ratio. rewrite (ratio_one_iff hit Hlen).
    unfold hit. apply (@filter_length_all _ has_action_verb sents).
  - intro H. rewrite Heq. apply ratio_lt_one.
    apply (@filter_length_lt _ has_action_verb sents EmptyString); [|reflexivity].
    destruct H as [H|(c & Hl & Hc)].
    + now apply split_runs_leading.
    + now apply (@split_runs_trailing sentence_sep resume_text c).
Qed.

Lemma action_verb_ratio_counts_pieces_witness :
  compute_action_verb_ratio "Led the team. Built tools." == 2 # 3
  /\ compute_action_verb_ratio "Led the team. Built tools." < 1.
Proof.
  split; [vm_compute; reflexivity|].
  apply (action_verb_ratio_counts_pieces "Led the team. Built tools.").
  right. exists "."%char. split; reflexivity.
Defined.

End ActionVerbRatio.

Section SubstringFacts.

Import PyRe StrFacts.
Open Scope string_scope.

Lemma string_app_assoc (a b c : string) : (a ++ b) ++ c = a ++ b ++ c.
Proof. induction a as [|x a IH]; cbn; [reflexivity | now rewrite IH]. Qed.

Lemma string_app_nil_r (a : string) : a ++ "" = a.
Proof. induction a as [|x a IH]; cbn; [reflexivity | now rewrite IH]. Qed.

Lemma rev_string_app (acc s : string) :
  rev_string acc s = rev_string "" s ++ acc.
Proof.
  revert acc. induction s as [|c s IH]; intro acc; cbn [rev_string].
  - reflexivity.
  - rewrite (IH (String c acc)), (IH (String c "")), string_app_assoc.
    reflexivity.
Qed.

Lemma all_chars_app (p : ascii -> bool) (a b : string) :
  all_chars p (a ++ b) = all_chars p a && all_chars p b.
Proof.
  induction a as [|x a IH]; cbn; [reflexivity|].
  now rewrite IH, andb_assoc.
Qed.

Lemma all_chars_rev (p : ascii -> bool) (s : string) :
  all_chars p (rev_string "" s) = all_chars p s.
Proof.
  induction s as [|c s IH]; [reflexivity|].
  cbn [rev_string]. rewrite rev_string_app, all_chars_app, IH. cbn.
  now rewrite andb_true_r, andb_comm.
Qed.

(** Every piece of a split is a substring of the text and holds no
    separator. *)
Lemma split_runs_aux_piece (sep : ascii -> bool) (s cur : string) (in_sep : bool)
  (t : string) :
  (in_sep = true -> cur = "") ->
  all_chars (fun c => negb (sep c)) cur = true ->
  In t (split_runs_aux sep cur in_sep s) ->
  (exists p q, rev_string "" cur ++ s = p ++ t ++ q)
  /\ all_chars (fun c => negb (sep c)) t = true.
Proof.
  revert cur in_sep. induction s as [|c s IH]; intros cur in_sep Hinv Hcur Ht.
  - cbn in Ht. destruct Ht as [<-|[]]. split.
    + exists "", "". cbn. now rewrite !string_app_nil_r.
    + now rewrite all_chars_rev.
  - cbn [split_runs_aux] in Ht. destruct (sep c) eqn:Ec; [destruct in_sep|].
    + rewrite (Hinv eq_refl) in *.
      destruct (IH "" true (fun _ => eq_refl) eq_refl Ht) as [(p & q & E) Ha].
      split; [|exact Ha]. exists (String c p), q. cbn in *. now rewrite E.
    + destruct Ht as [<-|Ht].
      * split; [|now rewrite all_chars_rev].
        exists "", (String c s). reflexivity.
      * destruct (IH "" true (fun _ => eq_refl) eq_refl Ht) as [(p & q & E) Ha].
        split; [|exact Ha]. cbn in E.
        exists (rev_string "" cur ++ String c p), q.
        rewrite string_app_assoc. cbn. now rewrite E.
    + assert (Hcur' : all_chars (fun c => negb (sep c)) (String c cur) = true)
        by (cbn; now rewrite Ec, Hcur).
      destruct (IH (String c cur) false ltac:(discriminate) Hcur' Ht)
        as [(p & q & E) Ha].
      split; [|exact Ha]. exists p, q. rewrite <- E.
      cbn [rev_string]. rewrite (rev_string_app (String c "") cur), string_app_assoc.
      reflexivity.
Qed.

Lemma split_runs_piece (sep : ascii -> bool) (s t : string) :
  In t (split_runs sep s) ->
  (exists p q, s = p ++ t ++ q) /\ all_chars (fun c => negb (sep c)) t = true.
Proof.
  intro Ht.
  apply (@split_runs_aux_piece sep s "" false t); [discriminate | reflexivity | exact Ht].
Qed.

Lemma lower_app (a b : string) : lower (a ++ b) = lower a ++ lower b.
Proof. induction a as [|x a IH]; cbn; [reflexivity | now rewrite IH]. Qed.

Lemma lower_char_idempotent (c : ascii) : lower_char (lower_char c) = lower_char c.
Proof. destruct c as [[] [] [] [] [] [] [] []]; reflexivity. Qed.

Lemma lower_idempotent (s : string) : lower (lower s) = lower s.
Proof.
  induction s as [|c s IH]; cbn; [reflexivity|].
  now rewrite lower_char_idempotent, IH.
Qed.

Lemma isspace_lower_char (c : ascii) : isspace (lower_char c) = isspace c.
Proof. destruct c as [[] [] [] [] [] [] [] []]; reflexivity. Qed.

Lemma lower_take (n : nat) (s : string) : lower (take n s) = take n (lower s).
Proof.
  revert s. induction n as [|n IH]; intros [|c s]; try reflexivity.
  cbn [take lower]. now rewrite IH.
Qed.

Lemma lower_drop (n : nat) (s : string) : lower (drop n s) = drop n (lower s).
Proof.
  revert s. induction n as [|n IH]; intros [|c s]; try reflexivity.
  cbn [drop lower]. apply IH.
Qed.

Lemma isdigit_lower_char (c : ascii) : isdigit (lower_char c) = isdigit c.
Proof. destruct c as [[] [] [] [] [] [] [] []]; reflexivity. Qed.

Lemma span_digits_lower (s : string) :
  span_len isdigit (lower s) = span_len isdigit s.
Proof.
  induction s as [|c s IH]; [reflexivity|]. cbn [lower span_len].
  rewrite isdigit_lower_char. destruct (isdigit c); [now rewrite IH | reflexivity].
Qed.

Lemma has_visible_lower (s : string) : has_visible (lower s) = has_visible s.
Proof.
  induction s as [|c s IH]; cbn; [reflexivity|].
  now rewrite isspace_lower_char, IH.
Qed.

Lemma starts_with_app (sub q : string) : starts_with sub (sub ++ q) = true.
Proof.
  induction sub as [|c sub IH]; cbn; [reflexivity|].
  now rewrite Ascii.eqb_refl, IH.
Qed.

Lemma contains_unfold (sub s : string) :
  contains sub s
  = starts_with sub s
    || match s with
       | EmptyString => false
       | String _ s' => contains sub s'
       end.
Proof. destruct s; reflexivity. Qed.

(** [sub in p + sub + q]. *)
Lemma contains_app (sub p q : string) : contains sub (p ++ sub ++ q) = true.
Proof.
  induction p as [|c p IH].
  - cbn [append]. rewrite contains_unfold, starts_with_app. reflexivity.
  - cbn [append]. rewrite contains_unfold, IH. apply orb_true_r.
Qed.

End SubstringFacts.

Section KeywordDensity.

Import PyRe StrFacts AtsSignals AtsScorer.
Open Scope Q_scope.

Lemma ats_nonblank_visible (p : string) : nonblank p = has_visible p.
Proof. exact (nonblank_visible p). Qed.

Lemma keyword_char_visible (c : ascii) :
  keyword_sep c = false -> isspace c = false.
Proof. destruct c as [[] [] [] [] [] [] [] []]; cbv; congruence. Qed.

Lemma token_visible (t : string) :
  all_chars (fun c => negb (keyword_sep c)) t = true ->
  (1 <= String.length t)%nat -> has_visible t = true.
Proof.
  destruct t as [|c t]; cbn [all_chars has_visible String.length]; [lia|].
  intros H _. apply andb_true_iff in H as [H _]. apply negb_true_iff in H.
  now rewrite (keyword_char_visible c H).
Qed.

Lemma insert_desc_In (x y : string * nat) (l : list (string * nat)) :
  In y (insert_desc x l) <-> y = x \/ In y l.
Proof.
  induction l as [|z l IH]; cbn [insert_desc].
  - cbn. intuition.
  - destruct (snd x <? snd z)%nat; cbn [In]; [rewrite IH|]; intuition.
Qed.

Lemma sort_desc_In (y : string * nat) (l : list (string * nat)) :
  In y (sort_desc l) <-> In y l.
Proof.
  unfold sort_desc. induction l as [|x l IH]; cbn [fold_right In]; [reflexivity|].
  rewrite insert_desc_In, IH. intuition.
Qed.

Lemma insert_desc_length (x : string * nat) (l : list (string * nat)) :
  List.length (insert_desc x l) = S (List.length l).
Proof.
  induction l as [|z l IH]; cbn [insert_desc]; [reflexivity|].
  destruct (snd x <? snd z)%nat; cbn [List.length]; [now rewrite IH | reflexivity].
Qed.

Lemma sort_desc_length (l : list (string * nat)) :
  List.length (sort_desc l) = List.length l.
Proof.
  unfold sort_desc. induction l as [|x l IH]; cbn [fold_right List.length]; [reflexivity|].
  now rewrite insert_desc_length, IH.
Qed.

Lemma freq_add_keys (freq : list (string * nat)) (t k : string) :
  In k (map fst (freq_add freq t)) -> k = t \/ In k (map fst freq).
Proof.
  induction freq as [|[k' n] freq IH]; cbn [freq_add].
  - cbn. intuition.
  - destruct (String.eqb k' t) eqn:E; cbn [map fst In].
    + intuition.
    + intros [H|H]; [now right; left|]. destruct (IH H); auto.
Qed.

Lemma freq_add_length (freq : list (string * nat)) (t : string) :
  (List.length freq <= List.length (freq_add freq t))%nat
  /\ (1 <= List.length (freq_add freq t))%nat.
Proof.
  induction freq as [|[k' n] freq IH]; cbn [freq_add].
  - cbn. lia.
  - destruct (String.eqb k' t); cbn [List.length]; lia.
Qed.

Lemma fold_freq_keys (tokens : list string) (freq : list (string * nat)) (k : string) :
  In k (map fst (fold_left freq_add tokens freq)) ->
  In k tokens \/ In k (map fst freq).
Proof.
  revert freq. induction tokens as [|t tokens IH]; intros freq H; cbn [fold_left] in H.
  - now right.
  - destruct (IH _ H) as [H'|H']; [left; now right|].
    destruct (freq_add_keys _ _ _ H') as [->|H'']; [left; now left | now right].
Qed.

Lemma fold_freq_length (tokens : list string) (freq : list (string * nat)) :
  (List.length freq <= List.length (fold_left freq_add tokens freq))%nat.
Proof.
  revert freq. induction tokens as [|t tokens IH]; intro freq; cbn [fold_left]; [lia|].
  pose proof (IH (freq_add freq t)). pose proof (freq_add_length freq t). lia.
Qed.

Lemma firstn_incl {A : Type} (n : nat) (l : list A) (x : A) :
  In x (firstn n l) -> In x l.
Proof.
  revert l. induction n as [|n IH]; intros [|y l]; cbn; try tauto.
  intros [H|H]; auto.
Qed.

(** Every derived keyword is the lower-cased form of a token of the JD
    text that has at least two characters. *)
Lemma derived_keywords_tokens (jd_text k : string) :
  In k (derived_keywords jd_text) ->
  exists t, In t (split_runs keyword_sep jd_text)
            /\ (1 < String.length t)%nat /\ k = lower t.
Proof.
  unfold derived_keywords. intro H.
  apply in_map_iff in H as ([k' n] & <- & H). apply firstn_incl in H.
  apply (proj1 (sort_desc_In _ _)) in H.
  assert (Hk : In k' (map fst (fold_left freq_add
             (map lower (filter (fun t => (1 <? String.length t)%nat)
                           (split_runs keyword_sep jd_text))) []))).
  { apply in_map_iff. exists (k', n). split; [reflexivity | exact H]. }
  apply fold_freq_keys in Hk as [Hk|[]].
  apply in_map_iff in Hk as (t & <- & Ht). apply filter_In in Ht as [Ht Hl].
  exists t. repeat split; [exact Ht|]. now apply Nat.ltb_lt.
Qed.

Lemma derived_keywords_empty_iff (jd_text : string) :
  derived_keywords jd_text = []
  <-> existsb (fun t => (1 <? String.length t)%nat)
        (split_runs keyword_sep jd_text) = false.
Proof.
  unfold derived_keywords.
  set (f := fun t => (1 <? String.length t)%nat).
  set (pieces := split_runs keyword_sep jd_text).
  split.
  - intro H. destruct (existsb f pieces) eqn:E; [|reflexivity]. exfalso.
    apply existsb_exists in E as (t & Ht & Hf).
    assert (Hin : In t (filter f pieces)) by (apply filter_In; now split).
    destruct (filter f pieces) as [|t0 ts] eqn:Ef; [destruct Hin|].
    cbn [map fold_left] in H.
    pose proof (fold_freq_length (map lower ts) (freq_add [] (lower t0))) as Hlen.
    pose proof (freq_add_length [] (lower t0)) as [_ H1].
    pose proof (sort_desc_length
                  (fold_left freq_add (map lower ts) (freq_add [] (lower t0)))) as Hs.
    destruct (sort_desc _) as [|x xs]; [cbn [List.length] in Hs; lia|].
    cbn in H. discriminate.
  - intro H.
    assert (Hf : filter f pieces = []).
    { destruct (filter f pieces) as [|t ts] eqn:Ef; [reflexivity|].
      assert (Hin : In t (filter f pieces)) by (rewrite Ef; now left).
      apply filter_In in Hin as [Hin Hft].
      assert (existsb f pieces = true) by (apply existsb_exists; now exists t).
      congruence. }
    rewrite Hf. reflexivity.
Qed.

Lemma ratio_self (n : nat) : (1 <= n)%nat -> ratio n n == 1.
Proof. intro H. unfold ratio. now apply ratio_one_iff. Qed.

(** X13.  Keyword density with an explicit, non-empty keyword list is the
    exact fraction of the listed keywords that are not blank and occur in
    the resume text without regard to case; it lies between 0 and 1 and is
    1 exactly when every listed keyword is found.  A blank keyword is
    counted in the divisor but can never be found. *)
Theorem keyword_density_explicit_list
  (resume_text jd_text k : string) (ks : list string) :
  let kws := k :: ks in
  let found := List.length (filter (keyword_found (lower resume_text)) kws) in
  compute_keyword_density resume_text jd_text (Some kws)
  == ratio found (List.length kws)
  /\ 0 <= compute_keyword_density resume_text jd_text (Some kws) <= 1
  /\ (compute_keyword_density resume_text jd_text (Some kws) == 1
      <-> forall kw, In kw kws ->
            has_visible kw = true
            /\ contains (lower kw) (lower resume_text) = true)
  /\ (forall kw, In kw kws -> has_visible kw = false ->
      compute_keyword_density resume_text jd_text (Some kws) < 1).
Proof.
  intros kws found.
  assert (Hlen : (1 <= List.length kws)%nat) by (cbn; lia).
  assert (Hfound : (found <= List.length kws)%nat) by apply filter_length_le.
  assert (Hunit : 0 <= ratio found (List.length kws) <= 1)
    by (apply ratio_unit; assumption).
  assert (Heq : compute_keyword_density resume_text jd_text (Some kws)
                == ratio found (List.length kws)).
  { unfold compute_keyword_density. fold kws. unfold kws at 1. fold kws. fold found.
    now apply clamp01_id. }
  split; [exact Heq|]. split; [rewrite Heq; exact Hunit|]. split.
  - rewrite Heq. unfold ratio. rewrite (ratio_one_iff found Hlen). unfold found.
    rewrite (@filter_length_all _ (keyword_found (lower resume_text)) kws).
    split; intros H kw Hkw; specialize (H kw Hkw); unfold keyword_found in *.
    + apply andb_true_iff in H. now rewrite <- ats_nonblank_visible.
    + apply andb_true_iff. now rewrite ats_nonblank_visible.
  - intros kw Hkw Hblank. rewrite Heq. apply ratio_lt_one.
    apply (@filter_length_lt _ (keyword_found (lower resume_text)) kws kw Hkw).
    unfold keyword_found. now rewrite ats_nonblank_visible, Hblank.
Qed.

Lemma keyword_density_explicit_list_witness :
  compute_keyword_density "Python and AWS" "" (Some ["python"; " "; "aws"]%string)
  < 1.
Proof.
  apply (keyword_density_explicit_list "Python and AWS" "" "python"
           [" "; "aws"]%string) with (kw := " "%string).
  - right. now left.
  - reflexivity.
Defined.

(** X14.  Texts of code points below 256, which [str.lower] maps
    character by character.  Without a keyword list the keywords are derived
    from the JD text.  A resume that quotes the JD text then finds every
    derived keyword: its keyword density is 1 when the JD text has a token
    of two or more characters and 0 when it has none. *)
Theorem keyword_density_of_quoted_jd
  (pre jd_text post : string) (jd_keywords : option (list string)) :
  jd_keywords = None \/ jd_keywords = Some [] ->
  compute_keyword_density (pre ++ jd_text ++ post) jd_text jd_keywords
  == if existsb (fun t => (1 <? String.length t)%nat)
          (split_runs keyword_sep jd_text)
     then 1 else 0.
Proof.
  intro Hk.
  assert (Heq : compute_keyword_density (pre ++ jd_text ++ post) jd_text jd_keywords
                = compute_keyword_density (pre ++ jd_text ++ post) jd_text None)
    by (destruct Hk as [->| ->]; reflexivity).
  rewrite Heq. clear Heq Hk. unfold compute_keyword_density.
  destruct (existsb _ _) eqn:E.
  - destruct (derived_keywords jd_text) as [|k ks] eqn:Ed.
    + apply (proj1 (derived_keywords_empty_iff jd_text)) in Ed. congruence.
    + set (kws := k :: ks). set (rt := lower (pre ++ jd_text ++ post)).
      assert (Hall : List.length (filter (keyword_found rt) kws) = List.length kws).
      { apply (@filter_length_all _ (keyword_found rt) kws). intros kw Hkw.
        unfold kws in Hkw. rewrite <- Ed in Hkw.
        apply derived_keywords_tokens in Hkw as (t & Ht & Hl & ->).
        apply split_runs_piece in Ht as [(p & q & Es) Ha].
        unfold keyword_found. apply andb_true_iff. split.
        - rewrite ats_nonblank_visible, has_visible_lower.
          apply token_visible; [exact Ha | lia].
        - rewrite lower_idempotent. unfold rt. rewrite Es.
          replace (lower (pre ++ (p ++ t ++ q) ++ post))
            with ((lower pre ++ lower p) ++ lower t ++ (lower q ++ lower post))%string
            by (now rewrite !lower_app, !string_app_assoc).
          apply contains_app. }
      rewrite Hall, (clamp01_compat (ratio_self (n := List.length kws) ltac:(cbn; lia))).
      vm_compute. reflexivity.
  - apply (proj2 (derived_keywords_empty_iff jd_text)) in E. rewrite E. reflexivity.
Qed.

Lemma keyword_density_of_quoted_jd_witness :
  compute_keyword_density "Summary: Python developer, AWS. Thanks"
    "Python developer, AWS" None == 1.
Proof.
  apply (keyword_density_of_quoted_jd "Summary: " "Python developer, AWS" ". Thanks"
           (jd_keywords := None)).
  now left.
Defined.

End KeywordDensity.

Section ExperienceRelevance.

Import PyRe AtsSignals AtsScorer.
Open Scope Q_scope.

Lemma clamp01_const_range (x lo : Q) :
  0 <= lo -> lo <= x -> x <= 1 -> lo <= _clamp01 (_clamp01 x) <= 1.
Proof.
  intros H0 Hlo Hx. split; [|apply clamp01_range].
  assert (E : _clamp01 (_clamp01 x) == x).
  { rewrite (clamp01_compat (x := _clamp01 x) (y := x));
      apply clamp01_id; split; try assumption; now apply Qle_trans with lo. }
  now rewrite E.
Qed.

Lemma years_fraction (req res : N) :
  (0 < res)%N -> (res < req)%N ->
  1 # 2 <= (1 # 2) + (1 # 2) * (inject_Z (Z.of_N res) / inject_Z (Z.of_N req)) <= 1.
Proof.
  intros Hres Hlt.
  assert (Hq : 0 <= inject_Z (Z.of_N res) / inject_Z (Z.of_N req) <= 1).
  { assert (Hpos : 0 < inject_Z (Z.of_N req)).
    { change 0 with (inject_Z 0). rewrite <- Zlt_Qlt. lia. }
    split.
    - apply Qle_shift_div_l; [exact Hpos|]. rewrite Qmult_0_l.
      change 0 with (inject_Z 0). rewrite <- Zle_Qle. lia.
    - apply Qle_shift_div_r; [exact Hpos|]. rewrite Qmult_1_l.
      rewrite <- Zle_Qle. lia. }
  destruct Hq as [Hq0 Hq1].
  set (q := inject_Z (Z.of_N res) / inject_Z (Z.of_N req)) in *.
  split.
  - rewrite <- (Qplus_0_r (1 # 2)) at 1. apply Qplus_le_r.
    apply Qmult_le_0_compat; [discriminate | exact Hq0].
  - apply Qle_trans with ((1 # 2) + (1 # 2) * 1); [|discriminate].
    apply Qplus_le_r. rewrite !(Qmult_comm (1 # 2)).
    apply Qmult_le_compat_r; [exact Hq1 | discriminate].
Qed.

Lemma truthy_years_some (y : option N) (n : N) :
  truthy_years y = Some n -> y = Some n /\ (0 < n)%N.
Proof.
  destruct y as [[|p]|]; cbn; intro H; try discriminate.
  injection H as <-. split; [reflexivity | lia].
Qed.

Lemma truthy_years_pos (n : N) : (0 < n)%N -> truthy_years (Some n) = Some n.
Proof. destruct n; [lia | reflexivity]. Qed.

Lemma length_take_span (p : ascii -> bool) (s : string) :
  String.length (take (span_len p s) s) = span_len p s.
Proof.
  induction s as [|c s IH]; [reflexivity|]. cbn [span_len].
  destruct (p c); [cbn [take String.length]; now rewrite IH | reflexivity].
Qed.

Lemma match_years_here_digits (s digits : string) :
  match_years_here s = Some digits -> digits = take (span_len isdigit s) s.
Proof.
  unfold match_years_here.
  destruct (head_is isdigit s); [|discriminate]. cbv zeta.
  match goal with
  | |- (if ?b then _ else _) = _ -> _ => destruct b; [|discriminate]
  end.
  intro H. now injection H as <-.
Qed.

(** Group 1 of a match is a whole run of digits of the text. *)
Lemma search_years_run (s digits : string) :
  search_years s = Some digits ->
  exists k, String.length digits = span_len isdigit (drop k s).
Proof.
  revert digits. induction s as [|c s IH]; intros digits.
  - cbn. discriminate.
  - remember (String c s) as t eqn:Et.
    assert (Hstep : search_years t
                    = match match_years_here t with
                      | Some d => Some d
                      | None => search_years s
                      end) by (subst t; reflexivity).
    rewrite Hstep. destruct (match_years_here t) as [d|] eqn:Em.
    + intro H. injection H as <-. exists 0%nat.
      apply match_years_here_digits in Em. rewrite Em.
      replace (drop 0 t) with t by (now subst t).
      apply length_take_span.
    + intro H. destruct (IH _ H) as (k & Hk). exists (S k). subst t. exact Hk.
Qed.

Lemma extract_years_cases (s : string) :
  match _extract_years s with
  | Ok _ => True
  | Raise e =>
      e = ValueError
      /\ exists digits, search_years s = Some digits
                        /\ (int_max_str_digits < String.length digits)%nat
  end.
Proof.
  unfold _extract_years. destruct (search_years s) as [digits|]; [|exact I].
  unfold int_of_digits.
  destruct (int_max_str_digits <? String.length digits)%nat eqn:E; cbn [bind];
    [|exact I].
  split; [reflexivity|]. exists digits. split; [reflexivity|].
  now apply Nat.ltb_lt.
Qed.

Lemma extract_years_short (s : string) :
  (forall k, (span_len isdigit (drop k s) <= int_max_str_digits)%nat) ->
  exists y, _extract_years (lower s) = Ok y.
Proof.
  intro Hrun. pose proof (extract_years_cases (lower s)) as H.
  destruct (_extract_years (lower s)) as [y|e]; [now exists y|].
  destruct H as (_ & digits & Hd & Hlong). exfalso.
  apply search_years_run in Hd. destruct Hd as (k & Hk).
  rewrite <- lower_drop, span_digits_lower in Hk.
  specialize (Hrun k). lia.
Qed.

Lemma experience_relevance_range (resume_text jd_text : string) (v : Q) :
  compute_experience_relevance resume_text jd_text = Ok v -> 4 # 10 <= v <= 1.
Proof.
  unfold compute_experience_relevance.
  destruct (_extract_years (lower jd_text)) as [req_years|]; [|discriminate].
  cbn [bind].
  destruct (_extract_years (lower resume_text)) as [res_years|]; [|discriminate].
  cbn [bind]. intro H. injection H as <-.
  destruct (truthy_years req_years) as [req|] eqn:Ereq.
  + apply truthy_years_some in Ereq as [_ Hreq].
    destruct (truthy_years res_years) as [res|] eqn:Eres.
    * apply truthy_years_some in Eres as [_ Hres].
      destruct (req <=? res)%N eqn:Ele; [vm_compute; split; discriminate|].
      apply N.leb_gt in Ele.
      destruct (years_fraction Hres Ele) as [Hlo Hhi].
      apply clamp01_const_range; [discriminate | | exact Hhi].
      apply Qle_trans with (1 # 2); [discriminate | exact Hlo].
    * destruct (mentions_seniority (lower resume_text));
        vm_compute; split; discriminate.
  + destruct (mentions_seniority (lower jd_text));
      [destruct (mentions_seniority (lower resume_text))
      |destruct (mentions_years_or_date false (lower resume_text))];
      vm_compute; split; discriminate.
Qed.

(** The only exception is the [ValueError] of [int] on a number of more
    than 4300 digits. *)
Lemma experience_relevance_raise (resume_text jd_text : string) (e : exn) :
  compute_experience_relevance resume_text jd_text = Raise e ->
  e = ValueError
  /\ exists digits,
       (search_years (lower jd_text) = Some digits
        \/ search_years (lower resume_text) = Some digits)
       /\ (int_max_str_digits < String.length digits)%nat.
Proof.
  unfold compute_experience_relevance.
  pose proof (extract_years_cases (lower jd_text)) as Hj.
  pose proof (extract_years_cases (lower resume_text)) as Hr.
  destruct (_extract_years (lower jd_text)) as [req_years|e1]; cbn [bind].
  - destruct (_extract_years (lower resume_text)) as [res_years|e2]; cbn [bind];
      [discriminate|].
    intro H. injection H as <-. destruct Hr as (-> & digits & Hd & Hl).
    split; [reflexivity|]. exists digits. split; [now right | exact Hl].
  - intro H. injection H as <-. destruct Hj as (-> & digits & Hd & Hl).
    split; [reflexivity|]. exists digits. split; [now left | exact Hl].
Qed.

(** X15.  The experience relevance of texts of code points below 256.
    The function returns unless a number of years it reads has more than
    4300 digits, in which case [int] raises [ValueError]: it returns
    whenever no run of digits of either text is longer than that, and it
    raises whenever the JD states its years with more.  A returned value is
    never below 0.4 and never above 1.  When both texts state a positive
    number of years it is 1 if the resume states at least the years the JD
    asks for, and otherwise [0.5 + 0.5 * res / req], which is at least 0.5;
    the clamps change nothing. *)
Theorem experience_relevance_bounds (resume_text jd_text : string) :
  match compute_experience_relevance resume_text jd_text with
  | Ok v => 4 # 10 <= v <= 1
  | Raise e =>
      e = ValueError
      /\ exists digits,
           (search_years (lower jd_text) = Some digits
            \/ search_years (lower resume_text) = Some digits)
           /\ (int_max_str_digits < String.length digits)%nat
  end
  /\ ((forall k, (span_len isdigit (drop k jd_text) <= int_max_str_digits)%nat) ->
      (forall k, (span_len isdigit (drop k resume_text) <= int_max_str_digits)%nat) ->
      exists v, compute_experience_relevance resume_text jd_text = Ok v)
  /\ (forall digits,
        search_years (lower jd_text) = Some digits ->
        (int_max_str_digits < String.length digits)%nat ->
        compute_experience_relevance resume_text jd_text = Raise ValueError)
  /\ (forall req res : N,
        _extract_years (lower jd_text) = Ok (Some req) ->
        _extract_years (lower resume_text) = Ok (Some res) ->
        (0 < req)%N -> (0 < res)%N ->
        exists v,
          compute_experience_relevance resume_text jd_text = Ok v
          /\ v == (if (req <=? res)%N then 1
                   else (1 # 2) + (1 # 2)
                        * (inject_Z (Z.of_N res) / inject_Z (Z.of_N req)))
          /\ 1 # 2 <= v).
Proof.
  split; [|split; [|split]].
  - destruct (compute_experience_relevance resume_text jd_text) as [v|e] eqn:E.
    + now apply (@experience_relevance_range resume_text jd_text).
    + now apply (@experience_relevance_raise resume_text jd_text).
  - intros Hj Hr. unfold compute_experience_relevance.
    destruct (@extract_years_short jd_text Hj) as (req_years & ->).
    destruct (@extract_years_short resume_text Hr) as (res_years & ->).
    cbn [bind]. eexists. reflexivity.
  - intros digits Hd Hlong. unfold compute_experience_relevance, _extract_years.
    rewrite Hd. unfold int_of_digits.
    apply Nat.ltb_lt in Hlong. rewrite Hlong. reflexivity.
  - intros req res Ereq Eres Hreq Hres. unfold compute_experience_relevance.
    rewrite Ereq, Eres. cbn [bind].
    rewrite (truthy_years_pos Hreq), (truthy_years_pos Hres).
    eexists. split; [reflexivity|].
    destruct (req <=? res)%N eqn:Ele.
    + split; [vm_compute; reflexivity | vm_compute; discriminate].
    + apply N.leb_gt in Ele. destruct (years_fraction Hres Ele) as [Hlo Hhi].
      set (x := (1 # 2) + (1 # 2) * (inject_Z (Z.of_N res) / inject_Z (Z.of_N req))) in *.
      assert (E : _clamp01 (_clamp01 x) == x).
      { rewrite (clamp01_compat (x := _clamp01 x) (y := x));
          apply clamp01_id; split; try assumption;
          (apply Qle_trans with (1 # 2); [discriminate | exact Hlo]). }
      split; [exact E|]. now rewrite E.
Qed.

Lemma experience_relevance_bounds_witness :
  (exists v,
     compute_experience_relevance "3 years of Python" "5+ years required" = Ok v
     /\ v == (1 # 2) + (1 # 2) * (inject_Z 3 / inject_Z 5)
     /\ 1 # 2 <= v)
  /\ compute_experience_relevance "3 years of Python" sample_long_years
     = Raise ValueError.
Proof.
  split.
  - apply (proj2 (proj2 (proj2
             (experience_relevance_bounds "3 years of Python" "5+ years required")))
             5%N 3%N); reflexivity.
  - apply (proj1 (proj2 (proj2
             (experience_relevance_bounds "3 years of Python" sample_long_years)))
             (nines 4301)); [vm_compute; reflexivity|].
    vm_compute. lia.
Defined.

End ExperienceRelevance.

Section FormattingPenalty.

Import PyRe StrFacts AtsSignals AtsScorer.
Open Scope Q_scope.

Lemma strip_empty_visible (text : string) :
  strip text = EmptyString <-> has_visible text = false.
Proof.
  rewrite <- ats_nonblank_visible. unfold nonblank.
  destruct (strip text); split; congruence.
Qed.

Lemma base_penalty_cases (n : nat) :
  (base_penalty n = 7 # 10 /\ (n < 120)%nat)
  \/ (base_penalty n = 3 # 10 /\ (120 <= n < 250)%nat)
  \/ (base_penalty n = 0 /\ (250 <= n)%nat).
Proof.
  unfold base_penalty.
  destruct (n <? 120)%nat eqn:E1; [left; split; [reflexivity | now apply Nat.ltb_lt]|].
  apply Nat.ltb_ge in E1.
  destruct (n <? 250)%nat eqn:E2.
  - right; left. apply Nat.ltb_lt in E2. split; [reflexivity | lia].
  - right; right. apply Nat.ltb_ge in E2. split; [reflexivity | lia].
Qed.

Lemma bullet_penalty_cases (n : nat) :
  (bullet_penalty n = 2 # 10 /\ (n < 3)%nat)
  \/ (bullet_penalty n = 0 /\ (3 <= n)%nat).
Proof.
  unfold bullet_penalty. destruct (n <? 3)%nat eqn:E.
  - left. split; [reflexivity | now apply Nat.ltb_lt].
  - right. split; [reflexivity | now apply Nat.ltb_ge].
Qed.

Lemma ratio_le_nat (s n k : nat) :
  (1 <= n)%nat -> (ratio s n <= inject_Z (Z.of_nat k) <-> (s <= k * n)%nat).
Proof.
  intro Hn. unfold ratio.
  assert (Hpos : 0 < inject_Z (Z.of_nat n)).
  { change 0 with (inject_Z 0). rewrite <- Zlt_Qlt. lia. }
  split; intro H.
  - apply (@div_le_mul _ _ _ Hpos) in H.
    rewrite <- inject_Z_mult, <- Zle_Qle in H. lia.
  - apply Qle_shift_div_r; [exact Hpos|].
    rewrite <- inject_Z_mult, <- Zle_Qle. lia.
Qed.

Lemma long_penalty_nonempty (ps : list string) :
  ps <> [] ->
  long_paragraph_penalty ps
  = (if Qgtb (ratio (list_sum (map String.length ps)) (List.length ps)) 1000
     then 4 # 10
     else if Qgtb (ratio (list_sum (map String.length ps)) (List.length ps)) 400
          then 2 # 10 else 0).
Proof. destruct ps; [congruence | reflexivity]. Qed.

Lemma long_penalty_cases (ps : list string) :
  let total := list_sum (map String.length ps) in
  (long_paragraph_penalty ps = 0 /\ (total <= 400 * List.length ps)%nat)
  \/ (long_paragraph_penalty ps = 2 # 10 /\ (400 * List.length ps < total)%nat)
  \/ (long_paragraph_penalty ps = 4 # 10 /\ (400 * List.length ps < total)%nat).
Proof.
  intro total. destruct (list_eq_dec string_dec ps []) as [->|Hne].
  - left. split; [reflexivity | cbn; lia].
  - rewrite (long_penalty_nonempty Hne). fold total.
    assert (Hn : (1 <= List.length ps)%nat).
    { destruct ps; [congruence | cbn; lia]. }
    unfold Qgtb.
    destruct (Qltb 1000 (ratio total (List.length ps))) eqn:E1.
    + right; right. split; [reflexivity|].
      apply Qltb_true in E1.
      destruct (Nat.le_gt_cases total (400 * List.length ps)) as [Hle|Hgt]; [|exact Hgt].
      apply (ratio_le_nat total 400 Hn) in Hle.
      exfalso. apply (Qlt_not_le _ _ E1).
      apply Qle_trans with (inject_Z (Z.of_nat 400)); [exact Hle | discriminate].
    + destruct (Qltb 400 (ratio total (List.length ps))) eqn:E2.
      * right; left. split; [reflexivity|].
        apply Qltb_true in E2.
        destruct (Nat.le_gt_cases total (400 * List.length ps)) as [Hle|Hgt]; [|exact Hgt].
        apply (ratio_le_nat total 400 Hn) in Hle.
        exfalso. exact (Qlt_not_le _ _ E2 Hle).
      * left. split; [reflexivity|]. apply Qltb_false in E2.
        now apply (ratio_le_nat total 400 Hn).
Qed.

(** X16.  The formatting penalty lies between 0 and 1.  A text without a
    visible character gets the full penalty 1.  For any other text the
    penalty is at least 0.7 when it has fewer than 120 words and at least
    0.2 when it has fewer than 3 bullet lines, and it is 0 exactly when the
    stripped text has at least 250 words, at least 3 bullet lines and
    paragraphs of at most 400 characters on average. *)
Theorem formatting_penalty_facts (resume_text : string) :
  let text := strip resume_text in
  let words := count_runs isword false text in
  let bullets := count_bullets true text in
  let paragraphs := filter nonblank (split_blank text) in
  0 <= compute_formatting_penalty resume_text <= 1
  /\ (has_visible resume_text = false -> compute_formatting_penalty resume_text = 1)
  /\ (has_visible resume_text = true ->
      ((words < 120)%nat -> 7 # 10 <= compute_formatting_penalty resume_text)
      /\ ((bullets < 3)%nat -> 2 # 10 <= compute_formatting_penalty resume_text)
      /\ (compute_formatting_penalty resume_text == 0
          <-> (250 <= words)%nat /\ (3 <= bullets)%nat
              /\ (list_sum (map String.length paragraphs)
                  <= 400 * List.length paragraphs)%nat)).
Proof.
  intros text words bullets paragraphs.
  assert (Hrange : 0 <= compute_formatting_penalty resume_text <= 1).
  { unfold compute_formatting_penalty. destruct (strip resume_text);
      [split; discriminate | apply clamp01_range]. }
  split; [exact Hrange|]. split.
  - intro Hv. apply strip_empty_visible in Hv.
    unfold compute_formatting_penalty. now rewrite Hv.
  - intro Hv.
    assert (Hne : text <> EmptyString).
    { intro E. apply strip_empty_visible in E. congruence. }
    assert (Heq : compute_formatting_penalty resume_text
                  = _clamp01 (base_penalty words + long_paragraph_penalty paragraphs
                              + bullet_penalty bullets)).
    { unfold compute_formatting_penalty. fold text.
      destruct text eqn:Et; [congruence | reflexivity]. }
    rewrite Heq.
    destruct (base_penalty_cases words) as [[-> Hb]|[[-> Hb]|[-> Hb]]];
      destruct (long_penalty_cases paragraphs) as [[-> Hl]|[[-> Hl]|[-> Hl]]];
      destruct (bullet_penalty_cases bullets) as [[-> Hu]|[-> Hu]];
      (split; [intro; try lia; vm_compute; discriminate|]);
      (split; [intro; try lia; vm_compute; discriminate|]);
      (split; [intro H; try (vm_compute in H; discriminate H); repeat split; lia
              |intros (H1 & H2 & H3); try lia; vm_compute; reflexivity]).
Qed.

Lemma formatting_penalty_facts_witness :
  7 # 10 <= compute_formatting_penalty "Python developer".
Proof.
  apply (formatting_penalty_facts "Python developer"); [reflexivity|].
  vm_compute. lia.
Defined.

End FormattingPenalty.

Section ScoreApplication.

Import PyRe StrFacts AtsSignals AtsScorer.
Open Scope Q_scope.

Lemma py_round_unit (x : Q) (lo : Z) :
  inject_Z lo / pow10 4 <= x -> x <= 1 ->
  inject_Z lo / pow10 4 <= py_round x 4 <= 1.
Proof.
  intros Hlo Hhi.
  destruct (@py_round_bounds x 4 lo 10000 Hlo) as [H1 H2].
  - apply Qle_trans with 1; [exact Hhi | vm_compute; discriminate].
  - split; [exact H1|]. apply Qle_trans with (inject_Z 10000 / pow10 4);
      [exact H2 | vm_compute; discriminate].
Qed.

Lemma py_round_unit0 (x : Q) : 0 <= x <= 1 -> 0 <= py_round x 4 <= 1.
Proof.
  intros [H0 H1]. destruct (@py_round_unit x 0) as [Ha Hb].
  - apply Qle_trans with 0; [vm_compute; discriminate | exact H0].
  - exact H1.
  - split; [|exact Hb].
    apply Qle_trans with (inject_Z 0 / pow10 4); [vm_compute; discriminate | exact Ha].
Qed.

(** X17.  [score_application] under the default weights, on texts of
    code points below 256.  It returns exactly when
    [compute_experience_relevance] does, and otherwise raises that
    function's exception (the [ValueError] of a number of years of more than
    4300 digits).  When it returns, its result holds the fusion of the two
    given scores with the four signals computed from the texts; the final
    score lies between 5.05 and 100, because the experience signal is never
    below 0.4; every computed raw signal lies between 0 and 1; and the final
    score is the one the fusion gives for any other formatting penalty, so
    the layout of the resume never changes it. *)
Theorem score_application_default
  (resume_text jd_text : string) (semantic_score skill_fit_index : Q)
  (jd_keywords : option (list string)) :
  let kd := compute_keyword_density resume_text jd_text jd_keywords in
  let av := compute_action_verb_ratio resume_text in
  let fmt_pen := compute_formatting_penalty resume_text in
  match compute_experience_relevance resume_text jd_text with
  | Raise e =>
      score_application resume_text jd_text semantic_score skill_fit_index
        jd_keywords None = Raise e
  | Ok exp_rel =>
      exists r,
        score_application resume_text jd_text semantic_score skill_fit_index
          jd_keywords None = Ok r
        /\ fuse_components semantic_score skill_fit_index kd av exp_rel fmt_pen None
           = Ok (ats r)
        /\ 505 # 100 <= final_score (ats r) <= 100
        /\ 0 <= raw_keyword_density (raw_signals r) <= 1
        /\ 0 <= raw_action_verb_ratio (raw_signals r) <= 1
        /\ 4 # 10 <= raw_experience_relevance (raw_signals r) <= 1
        /\ 0 <= raw_formatting_penalty (raw_signals r) <= 1
        /\ (forall other_pen : Q,
              exists r',
                fuse_components semantic_score skill_fit_index kd av exp_rel
                  other_pen None = Ok r'
                /\ final_score r' = final_score (ats r))
  end.
Proof.
  intros kd av fmt_pen.
  destruct (compute_experience_relevance resume_text jd_text) as [exp_rel|e] eqn:Eexp;
    [|unfold score_application; rewrite Eexp; reflexivity].
  destruct (fuse_default_shape semantic_score skill_fit_index kd av exp_rel fmt_pen)
    as (f & Hf & Hn & Hs).
  assert (Hkd : 0 <= kd <= 1).
  { unfold kd, compute_keyword_density.
    destruct (match jd_keywords with Some (k :: ks) => k :: ks | _ => _ end);
      [split; discriminate | apply clamp01_range]. }
  assert (Hav : 0 <= av <= 1).
  { unfold av, compute_action_verb_ratio.
    destruct (split_runs sentence_sep resume_text);
      [split; discriminate | apply clamp01_range]. }
  assert (Hexp : 4 # 10 <= exp_rel <= 1)
    by exact (@experience_relevance_range resume_text jd_text exp_rel Eexp).
  assert (Hfmt : 0 <= fmt_pen <= 1).
  { unfold fmt_pen, compute_formatting_penalty. destruct (strip resume_text);
      [split; discriminate | apply clamp01_range]. }
  eexists. split; [unfold score_application; rewrite Eexp; cbn [bind];
                   fold kd av fmt_pen; rewrite Hf; cbn [bind]; reflexivity|].
  cbn [ats raw_signals raw_keyword_density raw_action_verb_ratio
       raw_experience_relevance raw_formatting_penalty].
  split; [exact Hf|]. split; [|split; [|split; [|split; [|split]]]].
  - rewrite Hs.
    assert (Hnorm : 505 # 10000 <= final_score_norm f <= 1).
    { rewrite Hn. split; [|apply clamp01_range].
      apply Qle_trans with (_clamp01 (((12 # 100) * (4 # 10) + 0) / (95 # 100)));
        [vm_compute; discriminate|].
      apply clamp01_mono. rewrite weight_norm_default.
      apply Qmult_le_compat_r; [|discriminate].
      apply Qplus_le_l. unfold default_positive_sum.
      pose proof (clamp01_range semantic_score) as [H1 _].
      pose proof (clamp01_range skill_fit_index) as [H2 _].
      pose proof (clamp01_range kd) as [H3 _].
      pose proof (clamp01_range av) as [H4 _].
      assert (H5 : 4 # 10 <= _clamp01 exp_rel).
      { rewrite (clamp01_id (x := exp_rel)); [apply Hexp|].
        split; [|apply Hexp]. apply Qle_trans with (4 # 10); [discriminate | apply Hexp]. }
      apply Qle_trans with (0 + 0 + 0 + 0 + (12 # 100) * (4 # 10)); [discriminate|].
      repeat apply Qplus_le_compat;
        try (apply Qmult_le_0_compat; [discriminate | assumption]).
      rewrite !(Qmult_comm (12 # 100)).
      apply Qmult_le_compat_r; [exact H5 | discriminate]. }
    destruct (@py_round_bounds (final_score_norm f * 100) 2 505 10000) as [Ha Hb].
    + apply Qle_trans with ((505 # 10000) * 100); [vm_compute; discriminate|].
      apply Qmult_le_compat_r; [apply Hnorm | discriminate].
    + apply Qle_trans with (1 * 100); [|vm_compute; discriminate].
      apply Qmult_le_compat_r; [apply Hnorm | discriminate].
    + split.
      * apply Qle_trans with (inject_Z 505 / pow10 2); [vm_compute; discriminate | exact Ha].
      * apply Qle_trans with (inject_Z 10000 / pow10 2); [exact Hb | vm_compute; discriminate].
  - apply py_round_unit0, Hkd.
  - apply py_round_unit0, Hav.
  - destruct (@py_round_unit exp_rel 4000) as [Ha Hb].
    + apply Qle_trans with (4 # 10); [vm_compute; discriminate | apply Hexp].
    + apply Hexp.
    + split; [|exact Hb].
      apply Qle_trans with (inject_Z 4000 / pow10 4); [vm_compute; discriminate | exact Ha].
  - apply py_round_unit0, Hfmt.
  - intro other_pen.
    destruct (fuse_default_shape semantic_score skill_fit_index kd av exp_rel other_pen)
      as (f' & Hf' & Hn' & Hs').
    exists f'. split; [exact Hf'|]. now rewrite Hs, Hs', Hn, Hn'.
Qed.

End ScoreApplication.

(* ================================================================== *)
(** * Further properties: the scoring agent and the run record *)
(* ================================================================== *)

Section ScoringAgentFacts.

Import Orchestration ScoringAgent.
Open Scope string_scope.

(** X18.  [_extract_jd_keywords] returns either [None] or the non-empty
    [required_skills] of the requirements; the two [parsed_skills]
    alternatives of its expression are never returned.  On a dictionary
    whose [parsed_skills] is not a list it returns [None], whatever the
    requirements hold; when [parsed_skills] is a list and the requirements
    give no non-empty [required_skills], the lookup [.get] on that list
    raises. *)
Theorem extract_jd_keywords_outcomes (jd_data : Json) :
  (forall v, _extract_jd_keywords jd_data = Ok v ->
     v = JNull
     \/ exists requirements,
          get jd_data "requirements" (JDict []) = Ok requirements
          /\ get requirements "required_skills" JNull = Ok v
          /\ truthy v = true)
  /\ (forall d,
        jd_data = JDict d ->
        (forall l, dict_lookup d "parsed_skills" <> Some (JList l)) ->
        _extract_jd_keywords jd_data = Ok JNull)
  /\ (forall d l requirements a,
        jd_data = JDict d ->
        dict_lookup d "parsed_skills" = Some (JList l) ->
        get jd_data "requirements" (JDict []) = Ok requirements ->
        get requirements "required_skills" JNull = Ok a ->
        truthy a = false ->
        _extract_jd_keywords jd_data = Raise (attribute_error (JList l))).
Proof.
  split; [|split].
  - intros v H. unfold _extract_jd_keywords in H.
    destruct jd_data as [| | | | |d]; try discriminate H.
    change (get (JDict d) "parsed_skills" JNull)
      with (Ok (match dict_lookup d "parsed_skills" with
                | Some x => x
                | None => JNull
                end)) in H.
    cbn [bind] in H.
    destruct (dict_lookup d "parsed_skills") as [[| | | |l|d']|] eqn:Ep;
      cbn [is_list] in H; try (injection H as <-; now left).
    destruct (get (JDict d) "requirements" (JDict [])) as [requirements|e] eqn:Er;
      [|discriminate H].
    cbn [bind] in H.
    destruct (get requirements "required_skills" JNull) as [a|e] eqn:Ea;
      [|discriminate H].
    cbn [bind] in H.
    destruct (truthy a) eqn:Et.
    + injection H as <-. right. exists requirements. repeat split; assumption.
    + cbn [get] in H. rewrite Ep in H. cbn [bind] in H. discriminate H.
  - intros d -> Hp. unfold _extract_jd_keywords. cbn [get bind].
    destruct (dict_lookup d "parsed_skills") as [[| | | |l|d']|] eqn:Ep;
      try reflexivity.
    exfalso. exact (Hp l eq_refl).
  - intros d l requirements a -> Hp Hr Ha Ht. unfold _extract_jd_keywords.
    cbn [get bind] in *. rewrite Hp. cbn [is_list].
    injection Hr as Hr. rewrite Hr, Ha. cbn [bind]. rewrite Ht.
    reflexivity.
Qed.

Lemma extract_jd_keywords_outcomes_witness :
  _extract_jd_keywords
    (JDict [("requirements", JDict [("required_skills", JList [JStr "python"])]);
            ("parsed_skills", JDict [("skills", JList [JStr "aws"])])])
  = Ok JNull
  /\ _extract_jd_keywords (degraded_jd "timeout")
     = Raise (RuntimeError "'list' object has no attribute 'get'").
Proof.
  split.
  - eapply (extract_jd_keywords_outcomes _); [reflexivity|].
    intros l H. discriminate H.
  - eapply (proj2 (proj2 (extract_jd_keywords_outcomes (degraded_jd "timeout"))));
      reflexivity.
Defined.

Lemma score_body_degraded_jd (embed : result Json)
  (scorer : Json -> Json -> Json -> Json -> Json -> Json -> result Json)
  (resume_data matcher_result : Json) (msg : string) :
  (exists e, score_body embed scorer resume_data (degraded_jd msg) matcher_result
             = Raise e)
  /\ (forall semantic skill_comparator,
        get matcher_result "semantic" (JDict []) = Ok (JDict semantic) ->
        get matcher_result "skill_comparator" (JDict []) = Ok (JDict skill_comparator) ->
        score_body embed scorer resume_data (degraded_jd msg) matcher_result
        = Raise (RuntimeError "'list' object has no attribute 'get'")).
Proof.
  split.
  - unfold score_body.
    destruct (get matcher_result "semantic" (JDict [])) as [s|e]; [|now exists e].
    cbn [bind].
    destruct (get s "overall_score" (JNum 0)) as [s'|e]; [|now exists e].
    cbn [bind].
    destruct (get matcher_result "skill_comparator" (JDict [])) as [c|e]; [|now exists e].
    cbn [bind].
    destruct (get c "skill_fit_index" (JNum 0)) as [c'|e]; [|now exists e].
    cbn [bind]. eexists. reflexivity.
  - intros semantic skill_comparator Hs Hc. unfold score_body.
    rewrite Hs, Hc. reflexivity.
Qed.

(** X19.  A failed JD analysis zeroes the ATS score.  With the agents the
    engine builds and the scoring stage being the body of
    [ScoringAgent.score]: when the resume is parsed and the JD analysis
    raises, the run still ends with status "success", its [jd] entry is the
    degraded payload, and its [ats] entry is the fallback payload with
    [final_score] 0, whatever the matcher found and whatever the scorer
    would have returned; with a well-formed matcher payload the recorded
    error is the failed [.get] on the empty [parsed_skills] list. *)
Theorem failed_jd_analysis_zeroes_score (tools : Tools) (embed : result Json)
  (scorer : Json -> Json -> Json -> Json -> Json -> Json -> result Json)
  (results_dir : string) (resume_path : ResumeInput) (jd_text : string)
  (target_role : option string) (save_result : bool) (started_at : nat)
  (elapsed_s : Q) (resume_data : Json) (e : exn) :
  resume_tools tools resume_path = Ok resume_data ->
  jd_tools tools jd_text = Raise e ->
  scoring_tools tools = score_body embed scorer ->
  let record :=
    run tools (default_agents tools) results_dir resume_path jd_text
      target_role save_result started_at elapsed_s in
  dict_lookup record "status" = Some (JStr "success")
  /\ dict_lookup record "jd" = Some (degraded_jd (str_of_exn e))
  /\ (exists msg, dict_lookup record "ats" = Some (degraded_score msg))
  /\ (forall semantic skill_comparator matcher,
        matcher_tools tools resume_data jd_text = Ok matcher ->
        get matcher "semantic" (JDict []) = Ok (JDict semantic) ->
        get matcher "skill_comparator" (JDict []) = Ok (JDict skill_comparator) ->
        dict_lookup record "ats"
        = Some (degraded_score "'list' object has no attribute 'get'")).
Proof.
  intros Hr Hj Hs record. subst record.
  rewrite !run_lookup by discriminate.
  assert (Hjd : JDAnalyzerAgent_process tools jd_text
                = Ok (degraded_jd (str_of_exn e))).
  { unfold JDAnalyzerAgent_process. rewrite Hj. reflexivity. }
  destruct (default_agents_absorb tools resume_data JNull JNull jd_text)
    as (_ & [matcher Hm] & _).
  destruct (@score_body_degraded_jd embed scorer resume_data matcher (str_of_exn e))
    as [[e' He'] Hwf].
  assert (Hsc : ScoringAgent_score tools resume_data (degraded_jd (str_of_exn e)) matcher
                = Ok (degraded_score (str_of_exn e'))).
  { unfold ScoringAgent_score. rewrite Hs, He'. reflexivity. }
  rewrite (@pipeline_success (default_agents tools) resume_path jd_text
             target_role started_at elapsed_s resume_data
             (degraded_jd (str_of_exn e)) matcher (degraded_score (str_of_exn e')))
    by (cbn; unfold ResumeAgent_process; try rewrite Hr; auto).
  split; [reflexivity|]. split; [reflexivity|]. split.
  - exists (str_of_exn e'). reflexivity.
  - intros semantic skill_comparator matcher' Hm' Hsem Hskc.
    assert (matcher' = matcher).
    { unfold MatcherAgent_match in Hm. rewrite Hm' in Hm. congruence. }
    subst matcher'.
    rewrite (Hwf semantic skill_comparator Hsem Hskc) in He'.
    injection He' as <-. reflexivity.
Qed.

Lemma failed_jd_analysis_zeroes_score_witness :
  dict_lookup
    (run tools_failing_jd (default_agents tools_failing_jd) "data/results"
       (Path "cv.pdf") "JD" None true 42 (1 # 2)) "ats"
  = Some (degraded_score "'list' object has no attribute 'get'").
Proof.
  eapply (@failed_jd_analysis_zeroes_score tools_failing_jd (Ok JNull)
           (fun _ _ _ _ _ _ => Ok (JDict [("ats", JDict [("final_score", JInt 87)])]))
           "data/results" (Path "cv.pdf") "JD" None true 42 (1 # 2)
           (JDict [("raw_text", JStr "Python developer")])
           (RuntimeError "LLM unavailable")); reflexivity.
Defined.

End ScoringAgentFacts.

Section RunRecord.

Import Orchestration.
Open Scope string_scope.

(** X20.  The record of a run, whatever the agents do.  Its [meta] entry
    always holds [started_at], [target_role] and [elapsed_s], and holds
    [result_path] exactly when saving was asked for and the write
    succeeded; the file is written from the record as it stands before
    that path is added, and a failed write changes nothing.  The status is
    "success" with all five sub-results and no [error] entry, or "error"
    with the text of the exception and no [ats] entry. *)
Theorem run_record_shape (tools : Tools) (agents : Agents) (results_dir : string)
  (resume_path : ResumeInput) (jd_text : string) (target_role : option string)
  (save_result : bool) (started_at : nat) (elapsed_s : Q) :
  let record :=
    run tools agents results_dir resume_path jd_text target_role save_result
      started_at elapsed_s in
  let written :=
    run_pipeline agents resume_path jd_text target_role started_at elapsed_s in
  let path :=
    results_dir ++ "/" ++ "resumate_result_"
    ++ SkillComparator.nat_to_string started_at ++ ".json" in
  (exists m,
      dict_lookup record "meta" = Some (JDict m)
      /\ dict_lookup m "started_at" = Some (JInt started_at)
      /\ dict_lookup m "target_role" = Some (opt_json target_role)
      /\ dict_lookup m "elapsed_s" = Some (JNum elapsed_s)
      /\ dict_lookup m "result_path"
         = (if save_result
            then match write_json tools path written with
                 | Ok _ => Some (JStr path)
                 | Raise _ => None
                 end
            else None))
  /\ ((dict_lookup record "status" = Some (JStr "success")
       /\ dict_lookup record "error" = None
       /\ (exists resume_data jd_data matcher optimized score,
             dict_lookup record "resume" = Some resume_data
             /\ dict_lookup record "jd" = Some jd_data
             /\ dict_lookup record "matcher" = Some matcher
             /\ dict_lookup record "optimized_resume" = Some optimized
             /\ dict_lookup record "ats" = Some score))
      \/ (dict_lookup record "status" = Some (JStr "error")
          /\ (exists e, dict_lookup record "error" = Some (JStr (str_of_exn e)))
          /\ dict_lookup record "ats" = None)).
Proof.
  intros record written path. subst record written path.
  split.
  - unfold run, run_pipeline.
    destruct (resume_agent_process agents resume_path) as [resume_data|e1];
      destruct (jd_agent_process agents jd_text) as [jd_data|e2];
      cbn [gather];
      try (destruct (matcher_agent_match agents resume_data jd_text) as [matcher|e3];
           destruct (optimizer_agent_optimize agents resume_data jd_data)
             as [optimized|e4];
           cbn [gather];
           try destruct (scoring_agent_score agents resume_data jd_data matcher)
             as [score|e5]);
      (destruct save_result;
       [match goal with
        | |- context [write_json tools ?p ?d] => destruct (write_json tools p d)
        end|]);
      eexists; (split; [reflexivity|]); repeat split; reflexivity.
  - rewrite !run_lookup by discriminate. unfold run_pipeline.
    destruct (resume_agent_process agents resume_path) as [resume_data|e1];
      destruct (jd_agent_process agents jd_text) as [jd_data|e2];
      cbn [gather];
      try (right; split; [reflexivity|]; split; [eexists|]; reflexivity).
    destruct (matcher_agent_match agents resume_data jd_text) as [matcher|e3];
      destruct (optimizer_agent_optimize agents resume_data jd_data)
        as [optimized|e4];
      cbn [gather];
      try (right; split; [reflexivity|]; split; [eexists|]; reflexivity);
      (destruct (scoring_agent_score agents resume_data jd_data matcher)
         as [score|e5];
       [left; split; [reflexivity|]; split; [reflexivity|];
        do 5 eexists; repeat split; reflexivity
       |right; split; [reflexivity|]; split; [eexists|]; reflexivity]).
Qed.

End RunRecord.

(* ================================================================== *)
(** * Further properties: the embedding cache *)
(* ================================================================== *)

Section EmbeddingCacheFacts.

Import EmbeddingCache.
Open Scope string_scope.

Lemma cache_lookup_set_same (cache : list (string * Np.vec)) (text : string)
  (v : Np.vec) : cache_lookup (cache_set cache text v) text = Some v.
Proof.
  induction cache as [|[k v'] cache IH]; cbn [cache_set cache_lookup].
  - now rewrite String.eqb_refl.
  - destruct (String.eqb text k) eqn:E; cbn [cache_lookup]; rewrite E;
      [reflexivity | exact IH].
Qed.

Lemma cache_lookup_set_other (cache : list (string * Np.vec)) (text other : string)
  (v : Np.vec) :
  other <> text ->
  cache_lookup (cache_set cache text v) other = cache_lookup cache other.
Proof.
  intro Hne. induction cache as [|[k v'] cache IH]; cbn [cache_set cache_lookup].
  - destruct (String.eqb other text) eqn:E; [|reflexivity].
    apply String.eqb_eq in E. contradiction.
  - destruct (String.eqb text k) eqn:E; cbn [cache_lookup].
    + apply String.eqb_eq in E. subst k.
      destruct (String.eqb other text) eqn:E'; [|reflexivity].
      apply String.eqb_eq in E'. contradiction.
    + now rewrite IH.
Qed.

Lemma dot_list_zeros (n : nat) : Np.dot_list (zeros n) (zeros n) = 0%R.
Proof.
  induction n as [|n IH]; cbn [zeros repeat Np.dot_list]; [reflexivity|].
  change (repeat 0%R n) with (zeros n). rewrite IH. lra.
Qed.

Lemma norm_zeros (n : nat) : Np.norm (zeros n) = 0%R.
Proof. unfold Np.norm. rewrite dot_list_zeros. apply sqrt_0. Qed.

(** X21.  [get_embedding] and its cache.  A call never changes what the
    cache holds for another text and never replaces an entry.  The vector
    returned for a non-blank text is in the cache afterwards, unless it is
    the zero vector returned when no service is left, which is not saved.
    Once the text is cached, the same call on the resulting engine returns
    the same vector, sends no request and changes nothing, although a
    service would answer differently. *)
Theorem get_embedding_is_cached (self : Engine) (text : string) :
  (forall other,
      other <> text ->
      cache_lookup (_embedding_cache (snd (get_embedding self text))) other
      = cache_lookup (_embedding_cache self) other)
  /\ (forall v,
        cache_lookup (_embedding_cache self) text = Some v ->
        cache_lookup (_embedding_cache (snd (get_embedding self text))) text
        = Some v)
  /\ (forall v self',
        strip text <> EmptyString ->
        get_embedding self text = (Ok v, self') ->
        cache_lookup (_embedding_cache self') text = Some v
        \/ (v = zeros 384 /\ local_model self = None
            /\ _embedding_cache self' = _embedding_cache self))
  /\ (forall v self',
        strip text <> EmptyString ->
        get_embedding self text = (Ok v, self') ->
        cache_lookup (_embedding_cache self') text <> None ->
        get_embedding self' text = (Ok v, self')).
Proof.
  assert (Hstored : forall v self',
            strip text <> EmptyString ->
            get_embedding self text = (Ok v, self') ->
            cache_lookup (_embedding_cache self') text = Some v
            \/ (v = zeros 384 /\ local_model self = None
                /\ _embedding_cache self' = _embedding_cache self)).
  { intros v self' Hne H. unfold get_embedding, local_fallback in H.
    destruct (strip text) eqn:Es; [congruence|].
    destruct (cache_lookup (_embedding_cache self) text) eqn:Ec.
    { injection H as <- <-. now left. }
    destruct (openai_client self) as [client|].
    - destruct (client (requests self) text) as [emb|e].
      + injection H as <- <-. left. cbn. apply cache_lookup_set_same.
      + cbn [sent local_model requests] in H.
        destruct (local_model self) as [model|].
        * destruct (model (S (requests self)) text) as [emb|e']; [|discriminate H].
          injection H as <- <-. left. cbn. apply cache_lookup_set_same.
        * injection H as <- <-. right. repeat split; reflexivity.
    - destruct (local_model self) as [model|].
      + destruct (model (requests self) text) as [emb|e']; [|discriminate H].
        injection H as <- <-. left. cbn. apply cache_lookup_set_same.
      + injection H as <- <-. right. repeat split; reflexivity. }
  split; [|split; [|split]].
  - intros other Hne. unfold get_embedding, local_fallback.
    destruct (strip text); [reflexivity|].
    destruct (cache_lookup (_embedding_cache self) text); [reflexivity|].
    destruct (openai_client self) as [client|].
    + destruct (client (requests self) text); cbn.
      * now apply cache_lookup_set_other.
      * destruct (local_model self) as [model|]; [|reflexivity].
        destruct (model (S (requests self)) text); cbn; [|reflexivity].
        now apply cache_lookup_set_other.
    + destruct (local_model self) as [model|]; [|reflexivity].
      destruct (model (requests self) text); cbn; [|reflexivity].
      now apply cache_lookup_set_other.
  - intros v Hv. unfold get_embedding.
    destruct (strip text); [exact Hv|]. now rewrite Hv.
  - exact Hstored.
  - intros v self' Hne H Hc.
    destruct (Hstored v self' Hne H) as [Hv|(_ & _ & Hsame)].
    + unfold get_embedding. destruct (strip text); [congruence|]. now rewrite Hv.
    + rewrite Hsame in Hc. unfold get_embedding in H |- *.
      destruct (strip text); [congruence|].
      destruct (cache_lookup (_embedding_cache self) text) eqn:Ec; [|congruence].
      injection H as <- <-. now rewrite Ec.
Qed.

Lemma get_embedding_is_cached_witness :
  get_embedding (snd (get_embedding sample_engine "python")) "python"
  = (Ok [INR 0; 1%R], snd (get_embedding sample_engine "python")).
Proof.
  apply (proj2 (proj2 (proj2 (get_embedding_is_cached sample_engine "python")))).
  - discriminate.
  - reflexivity.
  - cbn. discriminate.
Defined.

(** X22.  A blank text is embedded as 384 zeros without any request and
    without touching the cache.  Its cosine similarity with any other
    embedding, of whatever dimension, is 0.0: the zero norm is tested
    before the dot product, so the shapes are never compared. *)
Theorem blank_text_embedding (self : Engine) (text : string) :
  StrFacts.has_visible text = false ->
  get_embedding self text = (Ok (zeros 384), self)
  /\ (forall v : Np.vec,
        EmbeddingEngine.cosine_similarity (Some (zeros 384)) (Some v) = Ok 0%R
        /\ EmbeddingEngine.cosine_similarity (Some v) (Some (zeros 384)) = Ok 0%R).
Proof.
  intro Hv. split.
  - unfold get_embedding.
    assert (E : strip text = EmptyString).
    { pose proof (nonblank_visible text) as Hn. rewrite Hv in Hn.
      unfold SemanticMatcher.nonblank in Hn. destruct (strip text); congruence. }
    now rewrite E.
  - intro v. unfold EmbeddingEngine.cosine_similarity. rewrite norm_zeros.
    split.
    + destruct (Req_dec_T 0 0) as [_|H]; [reflexivity | congruence].
    + destruct (Req_dec_T (Np.norm v) 0); [reflexivity|].
      destruct (Req_dec_T 0 0) as [_|H]; [reflexivity | congruence].
Qed.

Lemma blank_text_embedding_witness :
  get_embedding sample_engine "  " = (Ok (zeros 384), sample_engine).
Proof.
  apply (blank_text_embedding sample_engine "  ").
  reflexivity.
Defined.

End EmbeddingCacheFacts.

(* ================================================================== *)
(** * Further properties: the analytics engine *)
(* ================================================================== *)

Section AnalyticsFacts.

Import PyRe AnalyticsSignals.
Open Scope R_scope.

Lemma structure_points_le (text : string) : (structure_points text <= 70)%nat.
Proof.
  unfold structure_points.
  destruct (search_words_ci contact_words text);
    destruct (search_words_ci section_words text); lia.
Qed.

Lemma action_verbs_points_form (text : string) :
  exists k, (k <= 10)%nat /\ action_verbs_points text = (10 * k)%nat
            /\ (k = 0%nat <-> verb_count text = 0%nat).
Proof.
  unfold action_verbs_points.
  exists (Nat.min (verb_count text) 10). split; [lia|]. split; lia.
Qed.

Lemma starts_with_empty (sub : string) :
  sub <> EmptyString -> starts_with sub EmptyString = false.
Proof. destruct sub; [congruence | reflexivity]. Qed.

(** No occurrence is counted exactly when the text does not contain the
    string. *)
Lemma count_sub_zero_iff (sub s : string) :
  sub <> EmptyString ->
  (count_sub sub 0 s = 0%nat <-> contains sub s = false).
Proof.
  intro Hne. induction s as [|c s IH].
  - cbn [count_sub]. rewrite contains_unfold, (starts_with_empty Hne). tauto.
  - rewrite (contains_unfold sub (String c s)).
    cbn [count_sub]. destruct (starts_with sub (String c s)).
    + cbn [orb]. split; [lia | discriminate].
    + cbn [orb]. exact IH.
Qed.

Lemma list_sum_zero_iff (l : list nat) :
  list_sum l = 0%nat <-> forall n, In n l -> n = 0%nat.
Proof.
  induction l as [|x l IH].
  - cbn. split; [intros _ n [] | reflexivity].
  - change (list_sum (x :: l)) with (x + list_sum l)%nat. split.
    + intros H n [<-|Hn]; [lia|]. apply IH; [lia | exact Hn].
    + intro H. rewrite (H x (or_introl eq_refl)).
      rewrite (proj2 IH); [reflexivity|]. intros n Hn. apply H. now right.
Qed.

Lemma verb_count_zero_iff (text : string) :
  verb_count text = 0%nat
  <-> forall verb, In verb _ACTION_VERBS -> contains verb (lower text) = false.
Proof.
  unfold verb_count. rewrite list_sum_zero_iff. split.
  - intros H verb Hv. apply count_sub_zero_iff.
    + intro E. subst verb. revert Hv. unfold _ACTION_VERBS. cbn [In].
      intuition discriminate.
    + apply H. apply in_map_iff. now exists verb.
  - intros H n Hn. apply in_map_iff in Hn as (verb & <- & Hv).
    apply count_sub_zero_iff; [|now apply H].
    intro E. subst verb. revert Hv. unfold _ACTION_VERBS. cbn [In].
    intuition discriminate.
Qed.

(** X23.  The structure score is a whole number of points between 0 and
    70: 25 for a contact word, 2 for each of at most ten bullet lines and
    25 for a section word, so its cap of 100 is never reached.  The
    action-verb score is a multiple of 10 between 0 and 100, and it is 0
    exactly when no action verb occurs in the lowered text, be it inside a
    longer word. *)
Theorem analytics_signal_ranges (resume_text : string) :
  0 <= structure_score resume_text <= 70
  /\ 0 <= action_verbs_score resume_text <= 100
  /\ (exists k, (k <= 10)%nat /\ action_verbs_score resume_text = 10 * INR k)
  /\ (action_verbs_score resume_text = 0
      <-> forall verb, In verb _ACTION_VERBS ->
                       contains verb (lower resume_text) = false).
Proof.
  pose proof (structure_points_le resume_text) as Hs.
  destruct (action_verbs_points_form resume_text) as (k & Hk & Ek & Hz).
  unfold structure_score, action_verbs_score. rewrite Ek.
  split; [|split; [|split]].
  - split; [apply pos_INR|]. apply le_INR in Hs.
    replace 70 with (INR 70) by (cbn; lra). exact Hs.
  - split; [apply pos_INR|].
    replace 100 with (INR 100) by (cbn; lra). apply le_INR. lia.
  - exists k. split; [exact Hk|]. rewrite mult_INR. cbn. lra.
  - rewrite <- verb_count_zero_iff, <- Hz. split.
    + intro H. replace 0 with (INR 0) in H by reflexivity.
      apply INR_eq in H. lia.
    + intros ->. reflexivity.
Qed.

Lemma exp_2_le_9 : exp 2 <= 9.
Proof.
  replace 2 with (1 + 1) by lra. rewrite exp_plus.
  pose proof exp_le_3 as H3. pose proof (exp_pos 1) as Hp. nra.
Qed.

Lemma sigmoid_confined (raw : R) :
  0 <= raw <= 1 -> 10 <= AnalyticsEngine.sigmoid raw <= 90.
Proof.
  intros [H0 H1]. unfold AnalyticsEngine.sigmoid.
  set (t := - (raw / (25 / 100) - 2)).
  assert (Ht : -2 <= t <= 2) by (subst t; lra).
  pose proof exp_2_le_9 as H9. pose proof (exp_pos 2) as Hp2.
  assert (Hup : exp t <= 9).
  { destruct (Req_dec t 2) as [->|Hne]; [exact H9|].
    apply Rle_trans with (exp 2); [|exact H9].
    left. apply exp_increasing. lra. }
  assert (Hlow : 1 / 9 <= exp t).
  { apply Rle_trans with (exp (-2)).
    - replace (exp (-2)) with (exp (Ropp 2)) by (f_equal; lra).
      rewrite exp_Ropp. apply Rmult_le_reg_r with (exp 2); [exact Hp2|].
      rewrite Rinv_l by lra. lra.
    - destruct (Req_dec t (-2)) as [->|Hne]; [lra|].
      left. apply exp_increasing. lra. }
  set (y := exp t) in *.
  split.
  - apply Rmult_le_reg_r with (1 + y); [lra|].
    unfold Rdiv. rewrite Rmult_assoc, Rinv_l by lra. lra.
  - apply Rmult_le_reg_r with (1 + y); [lra|].
    unfold Rdiv. rewrite Rmult_assoc, Rinv_l by lra. lra.
Qed.

Lemma py_round_R_between (x : R) (lo hi : Z) :
  IZR lo <= x * 100 -> x * 100 <= IZR hi ->
  (inject_Z lo / 100 <= Np.py_round_R x 2 <= inject_Z hi / 100)%Q.
Proof.
  intros Hlo Hhi. unfold Np.py_round_R.
  assert (Hb : (lo <= Np.round_half_even_R (x * IZR (10 ^ Z.of_nat 2)) <= hi)%Z).
  { apply round_half_even_R_bounds; cbn; lra. }
  set (z := Np.round_half_even_R (x * IZR (10 ^ Z.of_nat 2))) in *.
  rewrite pow10_2. split.
  - apply Qmult_le_compat_r; [|discriminate]. rewrite <- Zle_Qle. lia.
  - apply Qmult_le_compat_r; [|discriminate]. rewrite <- Zle_Qle. lia.
Qed.

(** X24.  With the default weights and both given scores between 0 and
    100, the weighted raw value of [ats_score] lies between 0 and 0.94,
    because the structure score stops at 70, and the logistic transform
    confines the reported score to the interval from 10 to 90: a resume
    that scores 0 on every signal still gets more than 10 points, and a
    perfect one never reaches 90. *)
Theorem analytics_ats_score_confined (resume_text jd_text : string)
  (semantic_score keyword_overlap : R) :
  0 <= semantic_score <= 100 -> 0 <= keyword_overlap <= 100 ->
  let raw :=
    AnalyticsEngine.raw_of AnalyticsEngine._DEFAULT_WEIGHTS semantic_score
      keyword_overlap (structure_score resume_text)
      (action_verbs_score resume_text) in
  let r := ats_score resume_text jd_text semantic_score keyword_overlap None in
  0 <= raw <= 94 / 100
  /\ 10 <= AnalyticsEngine.sigmoid raw <= 90
  /\ (10 <= AnalyticsEngine.score r <= 90)%Q.
Proof.
  intros Hs Hk raw r.
  assert (Hst : 0 <= structure_score resume_text <= 70).
  { unfold structure_score. pose proof (structure_points_le resume_text) as Hle.
    split; [apply pos_INR|]. apply le_INR in Hle.
    replace 70 with (INR 70) by (cbn; lra). exact Hle. }
  assert (Hac : 0 <= action_verbs_score resume_text <= 100).
  { unfold action_verbs_score, action_verbs_points. split; [apply pos_INR|].
    replace 100 with (INR 100) by (cbn; lra). apply le_INR. lia. }
  assert (Hraw : 0 <= raw <= 94 / 100).
  { subst raw. unfold AnalyticsEngine.raw_of, AnalyticsEngine._DEFAULT_WEIGHTS.
    cbn [AnalyticsEngine.w_semantic AnalyticsEngine.w_keyword
         AnalyticsEngine.w_structure AnalyticsEngine.w_action].
    lra. }
  assert (Hsig : 10 <= AnalyticsEngine.sigmoid raw <= 90)
    by (apply sigmoid_confined; lra).
  split; [exact Hraw|]. split; [exact Hsig|].
  subst r. unfold ats_score, AnalyticsEngine.ats_score.
  cbn [AnalyticsEngine.score]. fold raw.
  destruct (@py_round_R_between (AnalyticsEngine.sigmoid raw) 1000 9000) as [Ha Hb];
    [lra | lra |].
  split.
  - apply Qle_trans with (inject_Z 1000 / 100)%Q; [vm_compute; discriminate | exact Ha].
  - apply Qle_trans with (inject_Z 9000 / 100)%Q; [exact Hb | vm_compute; discriminate].
Qed.

Lemma analytics_ats_score_confined_witness :
  (10 <= AnalyticsEngine.score (ats_score "" "" 0 0 None) <= 90)%Q.
Proof.
  apply (@analytics_ats_score_confined "" "" 0 0); lra.
Defined.

Lemma embedding_cosine_total (a b : Np.vec) :
  List.length a = List.length b ->
  EmbeddingEngine.cosine_similarity (Some a) (Some b)
  = Ok (SemanticMatcher.cosine_of a b).
Proof.
  intro Hlen. unfold SemanticMatcher.cosine_of.
  destruct (Req_dec_T (Np.norm a * Np.norm b) 0) as [H|H].
  - apply Rmult_integral in H. now apply cosine_zero_norm.
  - apply cosine_value; [exact Hlen | |]; intro E; apply H; rewrite E; ring.
Qed.

(** X25.  [semantic_match_score] on two vectors of the same length that
    are well scaled (at most a million entries, norm 0 or between 1e-100 and
    1e100): it returns a number that does not depend on the order of the
    vectors and lies between -100 and 100 up to the rounding error of its
    evaluation, for which one ten-thousandth is allowed here; rounded to two
    decimals, as [ats_score] reports it, it lies between -100 and 100, and
    it is 100 for a vector of non-zero norm against itself.  Opposite
    vectors score -100, below the 0 the documentation gives as the least
    value.  A missing vector scores 0. *)
Theorem semantic_match_score_range (a b : Np.vec) :
  List.length a = List.length b ->
  Scaling.well_scaled a -> Scaling.well_scaled b ->
  exists s,
    semantic_match_score (Some a) (Some b) = Ok s
    /\ semantic_match_score (Some b) (Some a) = Ok s
    /\ -100 - 100 * Scaling.tolerance <= s <= 100 + 100 * Scaling.tolerance
    /\ (-100 <= Np.py_round_R s 2 <= 100)%Q
    /\ (a = b -> Np.norm a <> 0 -> (Np.py_round_R s 2 == 100)%Q)
    /\ semantic_match_score (Some [1]) (Some [-1]) = Ok (-100)
    /\ semantic_match_score None (Some b) = Ok 0
    /\ semantic_match_score (Some a) None = Ok 0.
Proof.
  intros Hlen _ _. exists (SemanticMatcher.cosine_of a b * 100).
  pose proof (cosine_of_range a b) as Hr.
  pose proof tolerance_pos as Htol.
  unfold semantic_match_score.
  rewrite (@embedding_cosine_total a b Hlen), (@embedding_cosine_total b a (eq_sym Hlen)).
  cbn [bind]. split; [reflexivity|]. split.
  - now rewrite (cosine_of_comm b a).
  - split; [lra|]. split; [apply py_round_R_signed_pct; lra|]. split.
    + intros <- Hn. apply py_round_R_hundred. rewrite (@cosine_of_self a Hn). lra.
    + split; [|split; reflexivity].
      match goal with
      | |- context [EmbeddingEngine.cosine_similarity ?x ?y] =>
          replace (EmbeddingEngine.cosine_similarity x y)
            with (@Ok R (SemanticMatcher.cosine_of [1] [-1]))
            by (symmetry; apply embedding_cosine_total; reflexivity)
      end.
      cbn [bind].
      rewrite cosine_of_opposite. f_equal. lra.
Qed.

Lemma semantic_match_score_range_witness :
  exists s, semantic_match_score (Some [1]) (Some [1]) = Ok s
            /\ (Np.py_round_R s 2 == 100)%Q.
Proof.
  destruct (@semantic_match_score_range [1] [1] eq_refl
              (@well_scaled_unit_norm [1] ltac:(vm_compute; discriminate)
                 norm_singleton_one)
              (@well_scaled_unit_norm [1] ltac:(vm_compute; discriminate)
                 norm_singleton_one))
    as (s & H1 & _ & _ & _ & H2 & _).
  exists s. split; [exact H1|]. apply H2; [reflexivity|].
  rewrite norm_singleton_one. lra.
Defined.

End AnalyticsFacts.

Section KeywordOverlap.

Import PyRe StrFacts AnalyticsSignals.
Open Scope Q_scope.

Lemma token_end_take (s : string) (k : nat) :
  token_end s = Some k ->
  all_chars token_char (take k s) = true /\ take k s <> EmptyString.
Proof.
  revert k. induction s as [|c s IH]; intros k H; cbn [token_end] in H.
  - discriminate.
  - destruct (token_char c) eqn:Ec; [|discriminate].
    destruct (token_end s) as [k'|] eqn:Ee.
    + injection H as <-. cbn [take all_chars]. rewrite Ec.
      split; [apply (IH k' eq_refl) | discriminate].
    + destruct (boundary_between c s); [|discriminate].
      injection H as <-. cbn [take all_chars]. rewrite Ec.
      split; [now destruct s | discriminate].
Qed.

(** Every token is a non-empty string of characters of the class. *)
Lemma findall_tokens_chars (s : string) (skip : nat) (prev_word : bool)
  (t : string) :
  In t (findall_tokens skip prev_word s) ->
  all_chars token_char t = true /\ t <> EmptyString.
Proof.
  revert skip prev_word. induction s as [|c s IH]; intros skip prev_word H.
  - destruct H.
  - cbn [findall_tokens] in H. destruct skip as [|k]; [|exact (IH _ _ H)].
    destruct (token_char c && xorb (isword c) prev_word); [|exact (IH _ _ H)].
    destruct (token_end (String c s)) as [k|] eqn:Ee; [|exact (IH _ _ H)].
    destruct H as [<-|H]; [|exact (IH _ _ H)].
    now apply token_end_take.
Qed.

Lemma str_set_In (x : string) (l : list string) : In x (str_set l) <-> In x l.
Proof. unfold str_set. apply nodup_In. Qed.

Lemma times_100_one (x : Q) : x * 100 == 100 <-> x == 1.
Proof.
  split; intro H.
  - apply (Qmult_inj_r x 1 100); [discriminate|]. rewrite H. reflexivity.
  - rewrite H. reflexivity.
Qed.

(** X26.  The keyword-overlap score of a non-empty skill list lies between
    0 and 100, and is 100 exactly when the lowered form of every listed
    skill is a token of the resume.  A token holds only lower-case ASCII
    letters, digits and the characters + # . -, so a skill with any other
    character, such as the space of a skill of two words, is never found:
    it keeps the score below 100, and a list of such skills scores 0.  A
    missing or empty list scores 0. *)
Theorem keyword_overlap_facts (resume_text k : string) (ks : list string) :
  let skills := k :: ks in
  0 <= keyword_overlap_score resume_text (Some skills) <= 100
  /\ (keyword_overlap_score resume_text (Some skills) == 100
      <-> forall skill, In skill skills ->
                        In (lower skill) (_tokenize resume_text))
  /\ (forall skill,
        In skill skills -> all_chars token_char (lower skill) = false ->
        keyword_overlap_score resume_text (Some skills) < 100)
  /\ ((forall skill,
         In skill skills -> all_chars token_char (lower skill) = false) ->
      keyword_overlap_score resume_text (Some skills) == 0)
  /\ keyword_overlap_score resume_text None = 0
  /\ keyword_overlap_score resume_text (Some []) = 0.
Proof.
  intro skills.
  set (R := str_set (_tokenize resume_text)).
  set (J := str_set (map lower skills)).
  assert (HR : NoDup R) by apply str_set_NoDup.
  assert (HJ : NoDup J) by apply str_set_NoDup.
  assert (HinJ : forall x, In x J <-> exists skill, In skill skills /\ x = lower skill).
  { intro x. unfold J. rewrite str_set_In, in_map_iff.
    split; intros (skill & H1 & H2); exists skill; auto. }
  assert (HJne : (1 <= List.length J)%nat).
  { assert (Hk : In (lower k) J) by (apply HinJ; exists k; split; [now left | reflexivity]).
    destruct J; [destruct Hk | cbn; lia]. }
  assert (Hscore : keyword_overlap_score resume_text (Some skills)
                   = (inject_Z (Z.of_nat (List.length (set_inter R J))) / inject_Z (Z.of_nat (List.length J))) * 100).
  { unfold keyword_overlap_score. unfold skills at 1. fold skills. fold R J.
    destruct J; [cbn in HJne; lia | reflexivity]. }
  pose proof (set_inter_length_comm HR HJ) as Hcomm.
  pose proof (set_inter_length_le J R) as Hle.
  assert (Hunit : 0 <= (inject_Z (Z.of_nat (List.length (set_inter R J))) / inject_Z (Z.of_nat (List.length J))) <= 1)
    by (apply ratio_unit; lia).
  assert (Htoken : forall skill,
            all_chars token_char (lower skill) = false ->
            ~ In (lower skill) R).
  { intros skill Hc Hin. apply (proj1 (str_set_In _ _)) in Hin.
    apply findall_tokens_chars in Hin. destruct Hin. congruence. }
  split; [|split; [|split; [|split; [|split; reflexivity]]]].
  - rewrite Hscore. destruct Hunit as [H0 H1]. split.
    + apply Qmult_le_0_compat; [exact H0 | discriminate].
    + apply Qle_trans with (1 * 100); [|discriminate].
      apply Qmult_le_compat_r; [exact H1 | discriminate].
  - rewrite Hscore, times_100_one.
    rewrite (ratio_one_iff _ HJne), Hcomm. unfold set_inter.
    rewrite (@filter_length_all _ (fun x => str_mem x R) J). split.
    + intros H skill Hs. apply str_set_In, str_mem_In, H, HinJ. now exists skill.
    + intros H x Hx. apply HinJ in Hx as (skill & Hs & ->).
      apply str_mem_In, str_set_In. now apply H.
  - intros skill Hs Hc. rewrite Hscore.
    apply Qlt_le_trans with (1 * 100); [|discriminate].
    apply Qmult_lt_compat_r; [reflexivity|].
    apply (@ratio_lt_one (List.length (set_inter R J)) (List.length J)). rewrite Hcomm.
    apply (@filter_length_lt _ (fun x => str_mem x R) J (lower skill)).
    + apply HinJ. now exists skill.
    + destruct (str_mem (lower skill) R) eqn:E; [|reflexivity].
      apply str_mem_In in E. destruct (Htoken skill Hc E).
  - intro Hall. rewrite Hscore.
    assert (Hnil : set_inter J R = []).
    { destruct (set_inter J R) as [|x xs] eqn:E; [reflexivity|].
      assert (Hx : In x (set_inter J R)) by (rewrite E; now left).
      apply set_inter_In in Hx as [HxJ HxR].
      apply HinJ in HxJ as (skill & Hs & ->).
      destruct (Htoken skill (Hall skill Hs) HxR). }
    rewrite Hcomm, Hnil. cbn [List.length].
    unfold Qdiv. rewrite !Qmult_0_l. reflexivity.
Qed.

Lemma keyword_overlap_facts_witness :
  keyword_overlap_score "Python and machine learning"
    (Some ["Python"; "Machine Learning"]%string) < 100.
Proof.
  apply (keyword_overlap_facts "Python and machine learning" "Python"
           ["Machine Learning"]%string) with (skill := "Machine Learning"%string).
  - right. now left.
  - reflexivity.
Defined.

End KeywordOverlap.

(* ================================================================== *)
(** * Further properties: the resume parser *)
(* ================================================================== *)

Section CleanText.

Import PyRe StrFacts TextForm ResumeParser.
Open Scope string_scope.

Lemma is_code_eq (n : nat) (c : ascii) :
  is_code n c = true -> c = ascii_of_nat n.
Proof.
  unfold is_code. intro H. apply Nat.eqb_eq in H.
  rewrite <- H. symmetry. apply ascii_nat_embedding.
Qed.

Lemma space_not_control (c : ascii) :
  isspace c = true -> is_code 32 c = true ->
  is_code 10 c = false /\ SemanticMatcher.is_nl c = false
  /\ SemanticMatcher.is_cr c = false /\ is_comma_or_dot c = false.
Proof.
  intros _ H. apply is_code_eq in H. subst c. repeat split; reflexivity.
Qed.

Lemma visible_not_newline (c : ascii) :
  isspace c = false ->
  is_code 10 c = false /\ SemanticMatcher.is_nl c = false
  /\ SemanticMatcher.is_cr c = false.
Proof.
  destruct c as [[] [] [] [] [] [] [] []]; cbv; intro H;
    repeat split; congruence.
Qed.

Lemma lstrip_id (s : string) : head_is isspace s = false -> lstrip s = s.
Proof. destruct s as [|c s]; [reflexivity|]. cbn. now intros ->. Qed.

Lemma collapse_ws_single (s : string) (in_run : bool) :
  single_spaced (SkillComparator.collapse_ws in_run s) = true
  /\ (in_run = true ->
      head_is isspace (SkillComparator.collapse_ws in_run s) = false).
Proof.
  revert in_run. induction s as [|c s IH]; intro in_run.
  - cbn. auto.
  - cbn [SkillComparator.collapse_ws]. destruct (isspace c) eqn:Ec.
    + destruct in_run; [apply IH|].
      destruct (IH true) as [H1 H2]. split; [|discriminate].
      cbn [single_spaced]. rewrite (H2 eq_refl), H1. reflexivity.
    + destruct (IH false) as [H1 _]. split.
      * cbn [single_spaced]. now rewrite Ec, H1.
      * intros _. exact Ec.
Qed.

Lemma single_spaced_tail (c : ascii) (s : string) :
  single_spaced (String c s) = true -> single_spaced s = true.
Proof. cbn [single_spaced]. intro H. now apply andb_true_iff in H. Qed.

Lemma single_spaced_space (c : ascii) (s : string) :
  single_spaced (String c s) = true -> isspace c = true ->
  is_code 32 c = true /\ head_is isspace s = false.
Proof.
  cbn [single_spaced]. intros H Hc. rewrite Hc in H.
  apply andb_true_iff in H as [H _]. apply andb_true_iff in H as [H1 H2].
  split; [exact H1 | now apply negb_true_iff].
Qed.

Lemma drop_ws_single (s : string) :
  single_spaced s = true ->
  single_spaced (drop_ws_before_punct s) = true
  /\ no_space_before is_comma_or_dot (drop_ws_before_punct s) = true
  /\ (head_is isspace s = false ->
      forall q, head_is q (drop_ws_before_punct s) = head_is q s).
Proof.
  induction s as [|c s IH]; intro Hs.
  - cbn. auto.
  - destruct (IH (@single_spaced_tail c s Hs)) as (H1 & H2 & H3).
    cbn [drop_ws_before_punct]. destruct (isspace c) eqn:Ec.
    + destruct (@single_spaced_space c s Hs Ec) as [H32 Hh].
      rewrite (@lstrip_id s Hh). cbn [andb].
      destruct (head_is is_comma_or_dot s) eqn:Ep.
      * split; [exact H1|]. split; [exact H2|]. cbn. congruence.
      * split; [|split].
        -- cbn [single_spaced]. rewrite Ec, H32, (H3 Hh isspace), Hh, H1.
           reflexivity.
        -- cbn [no_space_before]. rewrite (H3 Hh is_comma_or_dot), Ep, H2.
           now rewrite andb_false_r.
        -- cbn. congruence.
    + cbn [andb]. split; [|split].
      * cbn [single_spaced]. now rewrite Ec, H1.
      * cbn [no_space_before]. now rewrite Ec, H2.
      * intros _ q. reflexivity.
Qed.

Lemma collapse_nl_id (s : string) (in_run : bool) :
  single_spaced s = true -> collapse_nl in_run s = s.
Proof.
  revert in_run. induction s as [|c s IH]; intros in_run Hs; [reflexivity|].
  cbn [collapse_nl].
  assert (Hc : is_code 10 c = false).
  { destruct (isspace c) eqn:Ec.
    - destruct (@single_spaced_space c s Hs Ec) as [H32 _].
      now apply space_not_control.
    - now apply visible_not_newline. }
  rewrite Hc. f_equal. apply IH. exact (@single_spaced_tail c s Hs).
Qed.

Lemma no_space_before_tail (p : ascii -> bool) (c : ascii) (s : string) :
  no_space_before p (String c s) = true -> no_space_before p s = true.
Proof. cbn [no_space_before]. intro H. now apply andb_true_iff in H. Qed.

Lemma lstrip_keeps (p : ascii -> bool) (s : string) :
  (single_spaced s = true -> single_spaced (lstrip s) = true)
  /\ (no_space_before p s = true -> no_space_before p (lstrip s) = true).
Proof.
  induction s as [|c s [IH1 IH2]]; [now split|]. cbn [lstrip].
  destruct (isspace c); split; intro H; try exact H.
  - apply IH1. exact (@single_spaced_tail c s H).
  - apply IH2. exact (@no_space_before_tail p c s H).
Qed.

Lemma rstrip_same_head (s : string) (q : ascii -> bool) :
  rstrip s <> EmptyString -> head_is q (rstrip s) = head_is q s.
Proof.
  destruct s as [|c s]; [reflexivity|]. cbn [rstrip].
  destruct (rstrip s); [|reflexivity].
  destruct (isspace c); [congruence | reflexivity].
Qed.

Lemma rstrip_keeps (p : ascii -> bool) (s : string) :
  (single_spaced s = true -> single_spaced (rstrip s) = true)
  /\ (no_space_before p s = true -> no_space_before p (rstrip s) = true).
Proof.
  induction s as [|c s [IH1 IH2]]; [now split|].
  cbn [rstrip]. destruct (rstrip s) as [|c' r] eqn:Er.
  - destruct (isspace c) eqn:Ec; split; intros _; try reflexivity.
    + cbn. now rewrite Ec.
    + cbn. now rewrite Ec.
  - assert (Hh : forall q, head_is q (String c' r) = head_is q s).
    { intro q. rewrite <- Er. apply rstrip_same_head. rewrite Er. discriminate. }
    split; intro H.
    + pose proof (IH1 (@single_spaced_tail c s H)) as Ht.
      change (single_spaced (String c s))
        with ((if isspace c then is_code 32 c && negb (head_is isspace s) else true)
              && single_spaced s) in H.
      change (single_spaced (String c (String c' r)))
        with ((if isspace c
               then is_code 32 c && negb (head_is isspace (String c' r))
               else true)
              && single_spaced (String c' r)).
      apply andb_true_iff in H as [Hc _].
      now rewrite Ht, (Hh isspace), Hc.
    + pose proof (IH2 (@no_space_before_tail p c s H)) as Ht.
      change (no_space_before p (String c s))
        with (negb (isspace c && head_is p s) && no_space_before p s) in H.
      change (no_space_before p (String c (String c' r)))
        with (negb (isspace c && head_is p (String c' r))
              && no_space_before p (String c' r)).
      apply andb_true_iff in H as [Hc _].
      now rewrite Ht, (Hh p), Hc.
Qed.

Lemma collapse_ws_id (s : string) (in_run : bool) :
  single_spaced s = true ->
  (in_run = true -> head_is isspace s = false) ->
  SkillComparator.collapse_ws in_run s = s.
Proof.
  revert in_run. induction s as [|c s IH]; intros in_run Hs Hb; [reflexivity|].
  cbn [SkillComparator.collapse_ws]. destruct (isspace c) eqn:Ec.
  - destruct (@single_spaced_space c s Hs Ec) as [H32 Hh].
    destruct in_run.
    + specialize (Hb eq_refl). cbn in Hb. congruence.
    + apply is_code_eq in H32. subst c.
      change (ascii_of_nat 32) with " "%char. f_equal.
      apply IH; [exact (@single_spaced_tail _ s Hs) | intros _; exact Hh].
  - f_equal. apply IH; [exact (@single_spaced_tail c s Hs) | discriminate].
Qed.

Lemma drop_ws_id (s : string) :
  single_spaced s = true -> no_space_before is_comma_or_dot s = true ->
  drop_ws_before_punct s = s.
Proof.
  induction s as [|c s IH]; intros Hs Hn; [reflexivity|].
  cbn [drop_ws_before_punct].
  rewrite (IH (@single_spaced_tail c s Hs) (@no_space_before_tail is_comma_or_dot c s Hn)).
  destruct (isspace c) eqn:Ec; [|reflexivity].
  destruct (@single_spaced_space c s Hs Ec) as [_ Hh]. rewrite (@lstrip_id s Hh).
  cbn [no_space_before] in Hn. apply andb_true_iff in Hn as [Hn _].
  rewrite Ec in Hn. cbn [andb] in *. apply negb_true_iff in Hn. now rewrite Hn.
Qed.

Lemma collapse_ws_visible (s : string) (in_run : bool) :
  has_visible (SkillComparator.collapse_ws in_run s) = has_visible s.
Proof.
  revert in_run. induction s as [|c s IH]; intro in_run; [reflexivity|].
  cbn [SkillComparator.collapse_ws has_visible]. destruct (isspace c) eqn:Ec.
  - destruct in_run; [apply IH|]. cbn [has_visible]. now rewrite IH.
  - cbn [has_visible]. now rewrite Ec.
Qed.

Lemma drop_ws_visible (s : string) :
  has_visible (drop_ws_before_punct s) = has_visible s.
Proof.
  induction s as [|c s IH]; [reflexivity|].
  cbn [drop_ws_before_punct has_visible]. destruct (isspace c) eqn:Ec.
  - cbn [andb negb orb]. destruct (head_is _ _); [exact IH|].
    cbn [has_visible]. now rewrite Ec, IH.
  - cbn [andb has_visible]. now rewrite Ec.
Qed.

(** X27.  The text [clean_text] returns is in a normal form: its only
    white-space characters are single plain spaces, none of them stands
    before a comma or a dot or at either end, and it is empty exactly when
    the input has no visible character.  Cleaning it again changes nothing.
    The third substitution of the function, which collapses runs of
    newlines, never changes its argument, because the first one has
    already replaced every newline by a space. *)
Theorem clean_text_normal_form (text : string) :
  let cleaned := clean_text text in
  single_spaced cleaned = true
  /\ no_space_before is_comma_or_dot cleaned = true
  /\ strip cleaned = cleaned
  /\ (cleaned = EmptyString <-> has_visible text = false)
  /\ clean_text cleaned = cleaned
  /\ collapse_nl false
       (drop_ws_before_punct (SkillComparator.collapse_ws false text))
     = drop_ws_before_punct (SkillComparator.collapse_ws false text).
Proof.
  intro cleaned. subst cleaned. unfold clean_text.
  destruct (collapse_ws_single text false) as [Hu _].
  destruct (@drop_ws_single _ Hu) as (Hv1 & Hv2 & _).
  set (v := drop_ws_before_punct (SkillComparator.collapse_ws false text)) in *.
  rewrite (@collapse_nl_id v false Hv1).
  assert (Hs1 : single_spaced (strip v) = true).
  { unfold strip. apply (proj1 (@rstrip_keeps is_comma_or_dot _)), (proj1 (@lstrip_keeps is_comma_or_dot _)), Hv1. }
  assert (Hs2 : no_space_before is_comma_or_dot (strip v) = true).
  { unfold strip. apply (proj2 (@rstrip_keeps is_comma_or_dot _)), (proj2 (@lstrip_keeps is_comma_or_dot _)), Hv2. }
  split; [exact Hs1|]. split; [exact Hs2|]. split; [apply strip_idempotent|].
  split; [|split; [|reflexivity]].
  - rewrite strip_empty_visible. unfold v.
    now rewrite drop_ws_visible, collapse_ws_visible.
  - assert (Hhead : head_is isspace (strip v) = false).
    { unfold strip. pose proof (lstrip_head v) as Hl.
      destruct (rstrip (lstrip v)) eqn:Er; [reflexivity|].
      rewrite <- Er. rewrite rstrip_same_head by (rewrite Er; discriminate).
      destruct (lstrip v); [reflexivity | exact Hl]. }
    rewrite (@collapse_ws_id _ false Hs1) by discriminate.
    rewrite (@drop_ws_id _ Hs1 Hs2), (@collapse_nl_id _ false Hs1).
    apply strip_idempotent.
Qed.

Lemma clean_text_shape (text : string) :
  single_spaced (clean_text text) = true
  /\ strip (clean_text text) = clean_text text
  /\ (has_visible text = true -> clean_text text <> EmptyString).
Proof.
  unfold clean_text.
  destruct (collapse_ws_single text false) as [Hu _].
  destruct (@drop_ws_single _ Hu) as (Hv1 & _ & _).
  set (v := drop_ws_before_punct (SkillComparator.collapse_ws false text)) in *.
  rewrite (@collapse_nl_id v false Hv1).
  split; [|split].
  - unfold strip. apply (proj1 (@rstrip_keeps is_comma_or_dot _)), (proj1 (@lstrip_keeps is_comma_or_dot _)), Hv1.
  - apply strip_idempotent.
  - intros Hv E. apply strip_empty_visible in E. unfold v in E.
    rewrite drop_ws_visible, collapse_ws_visible in E. congruence.
Qed.

Lemma split_paragraphs_aux_single (s cur : string) (in_sep : bool) :
  single_spaced s = true ->
  SemanticMatcher.split_paragraphs_aux cur in_sep s = [rev_string s cur].
Proof.
  revert cur in_sep. induction s as [|c s IH]; intros cur in_sep Hs; [reflexivity|].
  cbn [SemanticMatcher.split_paragraphs_aux].
  assert (Hc : SemanticMatcher.is_nl c = false /\ SemanticMatcher.is_cr c = false).
  { destruct (isspace c) eqn:Ec.
    - destruct (@single_spaced_space c s Hs Ec) as [H32 _].
      destruct (@space_not_control c Ec H32) as (_ & H1 & H2 & _). now split.
    - destruct (@visible_not_newline c Ec) as (_ & H1 & H2). now split. }
  destruct Hc as [-> ->]. rewrite andb_false_r. cbn [andb].
  rewrite (IH (String c cur) false (@single_spaced_tail c s Hs)). reflexivity.
Qed.

Lemma split_paragraphs_single (s : string) :
  single_spaced s = true -> SemanticMatcher.split_paragraphs s = [s].
Proof.
  intro Hs. unfold SemanticMatcher.split_paragraphs.
  now rewrite split_paragraphs_aux_single.
Qed.

(** X28.  A cleaned resume is one chunk.  The text [clean_text] returns
    holds no newline, so the semantic matcher, which splits on blank lines,
    takes the whole cleaned text of any resume with a visible character as
    a single paragraph, whatever the sentence tokenizer does. *)
Theorem cleaned_resume_is_one_chunk
  (sent_tokenize : string -> result (list string)) (text : string) :
  has_visible text = true ->
  SemanticMatcher._chunk_text_to_paragraphs sent_tokenize (clean_text text)
  = [clean_text text].
Proof.
  intro Hv.
  destruct (clean_text_shape text) as (Hs & Hstrip & Hne).
  specialize (Hne Hv).
  unfold SemanticMatcher._chunk_text_to_paragraphs.
  rewrite (@split_paragraphs_single _ Hs). cbn [filter].
  assert (Hnb : SemanticMatcher.nonblank (clean_text text) = true).
  { unfold SemanticMatcher.nonblank. rewrite Hstrip.
    destruct (clean_text text); [congruence | reflexivity]. }
  rewrite Hnb. cbn [map]. now rewrite Hstrip.
Qed.

Lemma cleaned_resume_is_one_chunk_witness :
  SemanticMatcher._chunk_text_to_paragraphs (fun _ => Ok [])
    (clean_text sample_raw_text)
  = ["Summary Python developer. Skills"].
Proof.
  apply (@cleaned_resume_is_one_chunk (fun _ => Ok []) sample_raw_text).
  reflexivity.
Defined.

End CleanText.

Section SectionParse.

Import PyRe StrFacts ResumeParser.
Open Scope string_scope.

Lemma find_aux_ge (sub s : string) (i j : nat) :
  find_aux sub i s = Some j -> (i <= j)%nat.
Proof.
  revert i. induction s as [|c s IH]; intros i H; cbn [find_aux] in H.
  - destruct (starts_with sub ""); [injection H as <-; lia | discriminate].
  - destruct (starts_with sub (String c s)); [injection H as <-; lia|].
    apply IH in H. lia.
Qed.

(** The index [find] returns is a position of the string where the text
    that follows starts with [sub]. *)
Lemma find_aux_spec (sub s : string) (i j : nat) :
  find_aux sub i s = Some j ->
  exists k, j = (i + k)%nat /\ (k <= String.length s)%nat
            /\ starts_with sub (drop k s) = true.
Proof.
  revert i. induction s as [|c s IH]; intros i H; cbn [find_aux] in H.
  - destruct (starts_with sub "") eqn:E; [|discriminate].
    injection H as <-. exists 0%nat. repeat split; [lia | cbn; lia | exact E].
  - destruct (starts_with sub (String c s)) eqn:E.
    + injection H as <-. exists 0%nat. repeat split; [lia | cbn; lia | exact E].
    + destruct (IH _ H) as (k & -> & Hk & Hs). exists (S k).
      repeat split; [lia | cbn; lia | exact Hs].
Qed.

Lemma starts_with_split (sub s : string) :
  starts_with sub s = true -> exists rest, s = sub ++ rest.
Proof.
  revert s. induction sub as [|a sub IH]; intros s H.
  - now exists s.
  - destruct s as [|b s]; [discriminate|]. cbn [starts_with] in H.
    apply andb_true_iff in H as [Hab Hs]. apply Ascii.eqb_eq in Hab. subst b.
    destruct (IH s Hs) as [rest ->]. now exists rest.
Qed.

Lemma drop_S (k : nat) (s : string) : drop (S k) s = drop 1 (drop k s).
Proof.
  revert s. induction k as [|k IH]; intro s.
  - destruct s; reflexivity.
  - destruct s as [|c s]; [reflexivity|].
    change (drop (S (S k)) (String c s)) with (drop (S k) s).
    change (drop (S k) (String c s)) with (drop k s). apply IH.
Qed.

Lemma drop_length (k : nat) (s : string) :
  (k <= String.length s)%nat ->
  String.length s = (k + String.length (drop k s))%nat.
Proof.
  revert s. induction k as [|k IH]; intros s H; [reflexivity|].
  destruct s as [|c s]; [cbn in H; lia|]. cbn [String.length drop] in *.
  rewrite (IH s) at 1 by lia. reflexivity.
Qed.

Lemma string_length_app (a b : string) :
  String.length (a ++ b) = (String.length a + String.length b)%nat.
Proof. induction a as [|c a IH]; cbn; [reflexivity | now rewrite IH]. Qed.

Lemma lower_lstrip (s : string) : lower (lstrip s) = lstrip (lower s).
Proof.
  induction s as [|c s IH]; [reflexivity|]. cbn [lstrip lower].
  rewrite isspace_lower_char. destruct (isspace c); [exact IH | reflexivity].
Qed.

Lemma lower_rstrip (s : string) : lower (rstrip s) = rstrip (lower s).
Proof.
  induction s as [|c s IH]; [reflexivity|]. cbn [rstrip lower].
  rewrite <- IH, isspace_lower_char.
  destruct (rstrip s); [destruct (isspace c)|]; reflexivity.
Qed.

Lemma lower_strip (s : string) : lower (strip s) = strip (lower s).
Proof. unfold strip. now rewrite lower_rstrip, lower_lstrip. Qed.

Lemma find_none_contains (sub s : string) (i : nat) :
  find_aux sub i s = None <-> contains sub s = false.
Proof.
  revert i. induction s as [|c s IH]; intro i.
  - cbn [find_aux]. rewrite contains_unfold.
    destruct (starts_with sub ""); cbn; split; congruence.
  - cbn [find_aux]. rewrite (contains_unfold sub (String c s)).
    destruct (starts_with sub (String c s)); cbn [orb].
    + split; discriminate.
    + apply IH.
Qed.

(** After the words "work experience" the next header starts five
    characters further, at "experience". *)
Lemma section_end_work_experience (lower_text rest : string) (idx : nat) :
  (idx <= String.length lower_text)%nat ->
  drop idx lower_text = "work experience" ++ rest ->
  section_end lower_text "work experience" idx = (5 + idx)%nat.
Proof.
  intros Hidx Hd.
  assert (Hlen : (15 + idx <= String.length lower_text)%nat).
  { rewrite (@drop_length idx lower_text Hidx), Hd, string_length_app. cbn. lia. }
  assert (Hd1 : drop (S idx) lower_text = "ork experience" ++ rest).
  { rewrite drop_S, Hd. reflexivity. }
  assert (Hother : forall h2,
            find_aux h2 (5 + idx) ("experience" ++ rest) = None
            \/ exists pos, find_aux h2 (5 + idx) ("experience" ++ rest) = Some pos
                           /\ (5 + idx <= pos)%nat).
  { intro h2. destruct (find_aux h2 (5 + idx) ("experience" ++ rest)) as [pos|] eqn:E;
      [right | now left].
    exists pos. split; [reflexivity|]. exact (@find_aux_ge _ _ _ _ E). }
  unfold section_end, headers, find_from. rewrite Nat.add_1_r, Hd1.
  cbn [fold_left].
  change (String.eqb "education" "work experience") with false.
  change (String.eqb "experience" "work experience") with false.
  change (String.eqb "work experience" "work experience") with true.
  change (String.eqb "skills" "work experience") with false.
  change (String.eqb "projects" "work experience") with false.
  change (String.eqb "summary" "work experience") with false.
  change (String.eqb "certifications" "work experience") with false.
  change (String.eqb "publications" "work experience") with false.
  cbv iota.
  change (find_aux "education" (S idx) ("ork experience" ++ rest))
    with (find_aux "education" (5 + idx) ("experience" ++ rest)).
  change (find_aux "experience" (S idx) ("ork experience" ++ rest))
    with (Some (5 + idx)%nat).
  change (find_aux "skills" (S idx) ("ork experience" ++ rest))
    with (find_aux "skills" (5 + idx) ("experience" ++ rest)).
  change (find_aux "projects" (S idx) ("ork experience" ++ rest))
    with (find_aux "projects" (5 + idx) ("experience" ++ rest)).
  change (find_aux "summary" (S idx) ("ork experience" ++ rest))
    with (find_aux "summary" (5 + idx) ("experience" ++ rest)).
  change (find_aux "certifications" (S idx) ("ork experience" ++ rest))
    with (find_aux "certifications" (5 + idx) ("experience" ++ rest)).
  change (find_aux "publications" (S idx) ("ork experience" ++ rest))
    with (find_aux "publications" (5 + idx) ("experience" ++ rest)).
  destruct (Hother "education") as [-> | (p1 & -> & H1)];
    destruct (Hother "skills") as [-> | (p2 & -> & H2)];
    destruct (Hother "projects") as [-> | (p3 & -> & H3)];
    destruct (Hother "summary") as [-> | (p4 & -> & H4)];
    destruct (Hother "certifications") as [-> | (p5 & -> & H5)];
    destruct (Hother "publications") as [-> | (p6 & -> & H6)];
    lia.
Qed.

(** X29.  Texts of code points below 256, whose lowered form has the
    same length, so that a position found in the lowered text is the same
    position in the text.  [simple_section_parse] never returns an empty
    dictionary.  Its
    entries are either the single entry [full_text] with the whole text,
    when no header occurs in the lowered text, or entries keyed by headers
    that do occur, each value stripped.  Whenever the words "work
    experience" occur, the entry of that header holds only the four
    letters of "work": the section is cut where the header "experience"
    starts, five characters further. *)
Theorem section_parse_facts (text : string) :
  simple_section_parse text <> []
  /\ (forall h v,
        In (h, v) (simple_section_parse text) ->
        (h = "full_text" /\ v = text
         /\ forall h', In h' headers -> contains h' (lower text) = false)
        \/ (In h headers /\ strip v = v
            /\ contains h (lower text) = true))
  /\ (forall idx,
        find "work experience" (lower text) = Some idx ->
        In ("work experience", strip (slice text idx (5 + idx)))
          (simple_section_parse text)
        /\ lower (strip (slice text idx (5 + idx))) = "work").
Proof.
  unfold simple_section_parse. cbv zeta.
  set (L := lower text).
  set (f := fun h => match find h L with
                     | Some idx => [(h, strip (slice text idx (section_end L h idx)))]
                     | None => []
                     end).
  assert (Hin : forall h v, In (h, v) (flat_map f headers) ->
            In h headers /\ strip v = v /\ contains h L = true).
  { intros h v H. apply in_flat_map in H as (h0 & Hh0 & H). unfold f in H.
    destruct (find h0 L) as [idx|] eqn:E; [|destruct H].
    destruct H as [H|[]]. injection H as <- <-.
    split; [exact Hh0|]. split; [apply strip_idempotent|].
    destruct (contains h0 L) eqn:Ec; [reflexivity|].
    apply (proj2 (find_none_contains h0 L 0)) in Ec. unfold find in E. congruence. }
  assert (Hfound : forall h idx, In h headers -> find h L = Some idx ->
            In (h, strip (slice text idx (section_end L h idx)))
               (flat_map f headers)).
  { intros h idx Hh Hf. apply in_flat_map. exists h. split; [exact Hh|].
    unfold f. rewrite Hf. now left. }
  remember (flat_map f headers) as sections eqn:Esec.
  split; [|split].
  - destruct sections; discriminate.
  - intros h v H. destruct sections as [|x xs].
    + destruct H as [H|[]]. injection H as <- <-. left.
      split; [reflexivity|]. split; [reflexivity|]. intros h' Hh'.
      apply (proj1 (find_none_contains h' L 0)).
      destruct (find_aux h' 0 L) as [idx|] eqn:Ef; [|reflexivity].
      destruct (Hfound h' idx Hh' Ef).
    + right. apply Hin. exact H.
  - intros idx Hf.
    destruct (@find_aux_spec _ _ _ _ Hf) as (k & Hk & Hlen & Hs).
    cbn [Nat.add] in Hk. subst k.
    destruct (@starts_with_split _ _ Hs) as [rest Hrest].
    pose proof (@section_end_work_experience L rest idx Hlen Hrest) as Hend.
    split.
    + assert (Hx : In ("work experience", strip (slice text idx (5 + idx))) sections).
      { rewrite <- Hend. apply Hfound; [|exact Hf].
        unfold headers; cbn [In]; tauto. }
      destruct sections; [destruct Hx | exact Hx].
    + unfold slice. rewrite lower_strip, lower_take, lower_drop.
      fold L. rewrite Hrest.
      replace (5 + idx - idx)%nat with 5%nat by lia. reflexivity.
Qed.

Lemma section_parse_facts_witness :
  In ("work experience", "Work")
    (simple_section_parse "Work Experience: Acme 2019-2023. Skills: Python").
Proof.
  apply (proj2 (proj2 (section_parse_facts
           "Work Experience: Acme 2019-2023. Skills: Python")) 0%nat).
  reflexivity.
Defined.

End SectionParse.

(* ================================================================== *)
(** * Further properties: a skill list compared with itself *)
(* ================================================================== *)

Section SelfCompare.

Import SkillComparator ComparatorInvariants.
Open Scope Q_scope.

Lemma idx_mem_seq (k i : nat) : idx_mem k (seq 0 i) = true <-> (k < i)%nat.
Proof. rewrite idx_mem_In, in_seq. lia. Qed.

(** The scan passes over marked positions. *)
Lemma lexical_scan_skip (r : string) (idx : set nat) (pre rest : list string) :
  forall n best_j best_sim,
    (forall k, (n <= k < n + List.length pre)%nat -> idx_mem k idx = true) ->
    lexical_scan r idx (enumerate_from n (pre ++ rest)) best_j best_sim
    = lexical_scan r idx (enumerate_from (n + List.length pre) rest) best_j best_sim.
Proof.
  induction pre as [|x pre IH]; intros n best_j best_sim H.
  - cbn [app List.length]. now rewrite Nat.add_0_r.
  - cbn [app enumerate_from lexical_scan List.length].
    rewrite (H n) by (cbn [List.length]; lia).
    rewrite IH.
    + f_equal. f_equal. lia.
    + intros k Hk. apply H. cbn [List.length]. lia.
Qed.

Lemma lexical_step_self (p rest : list string) (s : string) (matched : list Match) :
  lexical_step (map _normalize (p ++ s :: rest))
    (matched, seq 0 (List.length p)) s (_normalize s)
  = (matched ++ [exact_match s], seq 0 (S (List.length p))).
Proof.
  unfold lexical_step, enumerate. rewrite map_app. cbn [map].
  rewrite lexical_scan_skip.
  - cbn [enumerate_from lexical_scan Nat.add].
    rewrite length_map.
    assert (Hfree : idx_mem (List.length p) (seq 0 (List.length p)) = false).
    { apply idx_mem_not_In. rewrite in_seq. lia. }
    rewrite Hfree, String.eqb_refl.
    change (Qgtb 1 (6 # 10)) with true. cbv iota.
    rewrite idx_add_fresh by (rewrite in_seq; lia).
    rewrite seq_S. reflexivity.
  - intros k Hk. rewrite length_map in Hk. apply idx_mem_seq. lia.
Qed.

Lemma lexical_pass_self (rest : list string) :
  forall (p : list string) (matched : list Match),
    lexical_pass rest (map _normalize (p ++ rest))
      (matched, seq 0 (List.length p))
    = (matched ++ map exact_match rest,
       seq 0 (List.length p + List.length rest)).
Proof.
  induction rest as [|s rest IH]; intros p matched.
  - cbn. now rewrite app_nil_r, Nat.add_0_r.
  - unfold lexical_pass. cbn [fold_left].
    rewrite lexical_step_self.
    change (fold_left _ rest ?st)
      with (lexical_pass rest (map _normalize (p ++ s :: rest)) st).
    replace (p ++ s :: rest) with ((p ++ [s]) ++ rest)
      by (rewrite <- app_assoc; reflexivity).
    replace (S (List.length p)) with (List.length (p ++ [s]))
      by (rewrite length_app; cbn; lia).
    rewrite IH. rewrite <- app_assoc. cbn [map app List.length].
    f_equal. f_equal. rewrite length_app. cbn. lia.
Qed.

Lemma filter_none {A : Type} (f : A -> bool) (l : list A) :
  (forall x, In x l -> f x = false) -> filter f l = [].
Proof.
  induction l as [|x l IH]; intro H; [reflexivity|]. cbn [filter].
  rewrite (H x (or_introl eq_refl)). apply IH. intros y Hy. apply H. now right.
Qed.

Lemma unmatched_jd_all_marked (js : list string) :
  unmatched_jd js (seq 0 (List.length js)) = [].
Proof.
  unfold unmatched_jd. rewrite filter_none; [reflexivity|].
  intros [j x] Hin. unfold is_free. cbn [fst].
  apply enumerate_from_In in Hin as [_ Hnth].
  assert (Hlt : (j - 0 < List.length js)%nat).
  { apply nth_error_Some. congruence. }
  rewrite (proj2 (idx_mem_seq j (List.length js))) by lia. reflexivity.
Qed.

Lemma unmatched_resume_all_matched (rs : list string) :
  unmatched_resume rs (map exact_match rs) = [].
Proof.
  unfold unmatched_resume. apply filter_none. intros r Hr.
  apply not_true_iff_false. intro H. rewrite forallb_forall in H.
  specialize (H (exact_match r) (in_map exact_match rs r Hr)).
  cbn [exact_match resume_skill] in H. rewrite String.eqb_refl in H. discriminate.
Qed.

Lemma final_state_self (skills : list string) (embed_fn : option EmbedFn) (thr : R) :
  final_state skills skills embed_fn thr
  = (map exact_match skills, seq 0 (List.length skills)).
Proof.
  unfold final_state. cbv zeta.
  pose proof (lexical_pass_self skills [] []) as H.
  cbn [app List.length Nat.add] in H.
  match goal with
  | |- semantic_pass _ _ _ _ ?st = _ =>
      replace st with (map exact_match skills, seq 0 (List.length skills))
        by (symmetry; exact H)
  end.
  unfold semantic_pass. destruct embed_fn as [f|]; [|reflexivity].
  cbn [fst snd].
  now rewrite unmatched_resume_all_matched, unmatched_jd_all_marked.
Qed.

Lemma sum_constant (c : Q) (l : list string) (acc : Q) :
  fold_left Qplus (map (fun _ => c) l) acc
  == acc + inject_Z (Z.of_nat (List.length l)) * c.
Proof.
  revert acc. induction l as [|x l IH]; intro acc.
  - cbn. ring.
  - cbn [map fold_left List.length]. rewrite IH, Nat2Z.inj_succ.
    unfold Z.succ. rewrite inject_Z_plus. ring.
Qed.

(** X30.  A non-empty skill list compared with itself is matched
    completely, whatever it holds (duplicates, skills that normalise to
    the same or to the empty string), whatever the embedding function and
    the threshold: every skill is paired, in order, with its own
    normalised form at similarity 1, nothing is missing or extra, the
    match percentage is 100 and the skill fit index is 1. *)
Theorem compare_skills_with_itself (skills : list string)
  (embed_fn : option EmbedFn) (thr : R) :
  skills <> [] ->
  let out := compare_skills skills skills embed_fn thr in
  match_percentage out == 100
  /\ skill_fit_index out == 1
  /\ missing_skills out = []
  /\ extra_resume_skills out = []
  /\ map resume_skill (matched_skills out) = skills
  /\ map jd_skill (matched_skills out) = map (fun s => Some (_normalize s)) skills
  /\ Forall (fun m => similarity m == 1) (matched_skills out).
Proof.
  intros Hne out. subst out. unfold compare_skills.
  rewrite final_state_self, unmatched_jd_all_marked.
  cbn [List.length map]. rewrite Nat.sub_0_r.
  set (n := List.length skills).
  assert (Hn : (1 <= n)%nat) by (subst n; destruct skills; [congruence | cbn; lia]).
  assert (Hmax : Nat.max 1 n = n) by lia. rewrite Hmax.
  assert (Hnq : ~ inject_Z (Z.of_nat n) == 0).
  { change 0 with (inject_Z 0). rewrite inject_Z_injective. lia. }
  assert (Hpct : inject_Z (Z.of_nat n) / inject_Z (Z.of_nat n) == 1)
    by (field; exact Hnq).
  assert (Hres : map resume_skill (map exact_match skills) = skills).
  { rewrite map_map. cbn [exact_match resume_skill]. apply map_id. }
  cbn [match_percentage skill_fit_index missing_skills extra_resume_skills
       matched_skills].
  split; [|split; [|split; [|split; [|split; [|split]]]]].
  - rewrite (py_round_compat (q' := 100) 2) by (rewrite Hpct; reflexivity).
    vm_compute. reflexivity.
  - assert (Havg : match map exact_match skills with
                   | [] => 0
                   | _ :: _ =>
                       fold_left Qplus (map similarity (map exact_match skills)) 0
                       / inject_Z (Z.of_nat (List.length (map exact_match skills)))
                   end == 1).
    { destruct (map exact_match skills) as [|m ms] eqn:Em.
      - apply map_eq_nil in Em. congruence.
      - rewrite <- Em. rewrite length_map, map_map.
        cbn [exact_match similarity]. fold n. rewrite sum_constant. fold n.
        assert (Hone : py_round 1 3 == 1) by (vm_compute; reflexivity).
        rewrite Hone. field. exact Hnq. }
    rewrite (py_round_compat (q' := 1) 4).
    + vm_compute. reflexivity.
    + rewrite Havg, Hpct. reflexivity.
  - reflexivity.
  - rewrite Hres. apply filter_none. intros r Hr.
    apply negb_false_iff. now apply str_mem_In.
  - exact Hres.
  - rewrite map_map. reflexivity.
  - apply Forall_forall. intros m Hm. apply in_map_iff in Hm as (s & <- & _).
    cbn [exact_match similarity]. vm_compute. reflexivity.
Qed.

Lemma compare_skills_with_itself_witness :
  match_percentage
    (compare_skills ["Python"; "python"; "!!"]%string
       ["Python"; "python"; "!!"]%string None (75 / 100)%R) == 100.
Proof.
  apply (@compare_skills_with_itself ["Python"; "python"; "!!"]%string None
           (75 / 100)%R).
  discriminate.
Defined.

End SelfCompare.

(* ================================================================== *)
(** * The two score formulas, and the score the engine stores *)
(* ================================================================== *)

Section ScoringStage.

Import Orchestration ScoringAgent.
Open Scope string_scope.

(** On well-formed payloads the [try] block of [ScoringAgent.score] is
    the call of [ats_scorer.score_application] on the values read. *)
Lemma score_try_reads (render : AtsScorer.Explanation -> string)
  (other : Json -> Json -> Json -> Json -> Json -> Json -> result Json)
  (embed_fn resume_data jd_data matcher : Json)
  (resume_text jd_text : string) (semantic_score skill_fit_index : Q)
  (jd_keywords : option (list string)) :
  payloads_read resume_data jd_data matcher resume_text jd_text
    semantic_score skill_fit_index jd_keywords ->
  score_try render other (Ok embed_fn) resume_data jd_data matcher
  = (app <- AtsSignals.score_application resume_text jd_text semantic_score
              skill_fit_index jd_keywords None ;;
     Ok (json_of_application render app)).
Proof.
  intros (Hrt & Hjt & Hsem & Hsfi & kw & Hkw & Hkws).
  unfold score_try, score_body.
  unfold read_nested in Hsem, Hsfi.
  destruct (get matcher "semantic" (JDict [])) as [semantic|]; [|discriminate].
  cbn [bind] in Hsem |- *. rewrite Hsem. cbn [bind].
  destruct (get matcher "skill_comparator" (JDict [])) as [comparator|];
    [|discriminate].
  cbn [bind] in Hsfi |- *. rewrite Hsfi. cbn [bind].
  rewrite Hkw. cbn [bind].
  unfold read_jd_text in Hjt.
  destruct (get jd_data "requirements" (JDict [])) as [requirements|];
    [|discriminate].
  cbn [bind] in Hjt |- *.
  destruct (get requirements "raw_text" JNull) as [raw_text|]; [|discriminate].
  cbn [bind] in Hjt |- *. rewrite Hjt. cbn [bind].
  rewrite Hrt. cbn [bind].
  unfold score_application_call. rewrite Hkws. reflexivity.
Qed.


(** What [score_application] returns holds the canonical score of
    [fuse_components]: the weighted raw value of the six clamped signals,
    divided by the sum of the positive weights, clamped and rounded as a
    percentage. *)
Lemma score_application_canonical (resume_text jd_text : string)
  (semantic_score skill_fit_index : Q) (jd_keywords : option (list string))
  (app : AtsSignals.Application) :
  AtsSignals.score_application resume_text jd_text semantic_score
    skill_fit_index jd_keywords None = Ok app ->
  exists s3 s4 s5 s6 raw,
    AtsScorer.fuse_components semantic_score skill_fit_index s3 s4 s5 s6 None
    = Ok (AtsSignals.ats app)
    /\ AtsScorer.raw_score_of AtsScorer.default_weights
         (AtsScorer._clamp01 semantic_score) (AtsScorer._clamp01 skill_fit_index)
         (AtsScorer._clamp01 s3) (AtsScorer._clamp01 s4) (AtsScorer._clamp01 s5)
         (AtsScorer._clamp01 s6) = Ok raw
    /\ AtsScorer.final_score_norm (AtsSignals.ats app)
       = AtsScorer._clamp01 (raw / AtsScorer.weight_norm AtsScorer.default_weights)
    /\ AtsScorer.final_score (AtsSignals.ats app)
       = py_round (AtsScorer.final_score_norm (AtsSignals.ats app) * 100) 2.
Proof.
  unfold AtsSignals.score_application. intro H.
  destruct (AtsSignals.compute_experience_relevance resume_text jd_text)
    as [exp_rel|]; [|discriminate].
  cbn [bind] in H. cbv zeta in H.
  set (kd := AtsSignals.compute_keyword_density resume_text jd_text jd_keywords) in *.
  set (av := AtsSignals.compute_action_verb_ratio resume_text) in *.
  set (fmt_pen := AtsSignals.compute_formatting_penalty resume_text) in *.
  destruct (fuse_default_shape semantic_score skill_fit_index kd av exp_rel fmt_pen)
    as (f & Hf & Hn & Hs).
  rewrite Hf in H. cbn [bind] in H. injection H as <-.
  cbn [AtsSignals.ats].
  exists kd, av, exp_rel, fmt_pen. eexists.
  split; [exact Hf|].
  split; [apply raw_score_default; apply clamp01_range|].
  split; [exact Hn | exact Hs].
Qed.

End ScoringStage.

Section TwoFormulasClaim.

Import AtsScorer.

(** C8 (amended).  The two formulas live in two functions.
    [fuse_components] returns the weighted-linear score only: under the
    default weights its normalised score is the raw weighted value divided by
    0.95 and clamped, and its final score that value as a rounded
    percentage.  The logistic transform is [AnalyticsEngine.ats_score]'s: it
    is applied to that function's own raw value, built from four signals, and
    lies strictly between 0 and 100.  In a run whose stages work on
    well-formed payloads, the scoring stage being [ScoringAgent.score] over
    [score_application], the record holds under "ats" the dictionary
    [score_application] returned, whose final score is the canonical one of
    [fuse_components]; that record, before the path of the file is added to
    its [meta], is what [write_json] is given.  When [score_application]
    raises instead, the record holds the fallback of [ScoringAgent.score],
    whose final score is 0. *)
Theorem canonical_and_display_scores_are_separate :
  (forall s1 s2 s3 s4 s5 s6 : Q,
      exists r raw,
        fuse_components s1 s2 s3 s4 s5 s6 None = Ok r
        /\ raw_score_of default_weights (_clamp01 s1) (_clamp01 s2) (_clamp01 s3)
             (_clamp01 s4) (_clamp01 s5) (_clamp01 s6) = Ok raw
        /\ final_score_norm r = _clamp01 (raw / weight_norm default_weights)
        /\ final_score r = py_round (final_score_norm r * 100) 2
        /\ (weight_norm default_weights == 95 # 100)%Q)
  /\ (forall (structure_score action_verbs_score : string -> R)
        (resume_text jd_text : string) (semantic_score keyword_overlap : R),
        let raw :=
          (semantic_score / 100 * (35 / 100) + keyword_overlap / 100 * (30 / 100)
           + structure_score resume_text / 100 * (20 / 100)
           + action_verbs_score resume_text / 100 * (15 / 100))%R in
        AnalyticsEngine.score
          (AnalyticsEngine.ats_score structure_score action_verbs_score
             resume_text jd_text semantic_score keyword_overlap None)
        = Np.py_round_R (AnalyticsEngine.sigmoid raw) 2
        /\ (0 < AnalyticsEngine.sigmoid raw < 100)%R)
  /\ (forall (render : Explanation -> string)
        (other : Orchestration.Json -> Orchestration.Json -> Orchestration.Json ->
                 Orchestration.Json -> Orchestration.Json -> Orchestration.Json ->
                 result Orchestration.Json)
        (embed_fn : Orchestration.Json)
        (tools : Orchestration.Tools) results_dir resume_path jd_text
        target_role save_result started_at elapsed_s
        resume_data jd_data matcher
        (resume_text jd_raw_text : string) (semantic_score skill_fit_index : Q)
        (jd_keywords : option (list string)) (app : AtsSignals.Application),
        Orchestration.scoring_tools tools
        = ScoringAgent.score_try render other (Ok embed_fn) ->
        Orchestration.resume_tools tools resume_path = Ok resume_data ->
        Orchestration.JDAnalyzerAgent_process tools jd_text = Ok jd_data ->
        Orchestration.MatcherAgent_match tools resume_data jd_text = Ok matcher ->
        ScoringAgent.payloads_read resume_data jd_data matcher resume_text
          jd_raw_text semantic_score skill_fit_index jd_keywords ->
        AtsSignals.score_application resume_text jd_raw_text semantic_score
          skill_fit_index jd_keywords None = Ok app ->
        let written :=
          Orchestration.run_pipeline (Orchestration.default_agents tools)
            resume_path jd_text target_role started_at elapsed_s in
        let record :=
          Orchestration.run tools (Orchestration.default_agents tools)
            results_dir resume_path jd_text target_role save_result
            started_at elapsed_s in
        let path :=
          (results_dir ++ "/" ++ "resumate_result_"
           ++ SkillComparator.nat_to_string started_at ++ ".json")%string in
        Orchestration.dict_lookup written "ats"
        = Some (ScoringAgent.json_of_application render app)
        /\ Orchestration.dict_lookup record "ats"
           = Some (ScoringAgent.json_of_application render app)
        /\ record
           = (if save_result
              then match Orchestration.write_json tools path written with
                   | Ok _ =>
                       Orchestration.meta_set written "result_path"
                         (Orchestration.JStr path)
                   | Raise _ => written
                   end
              else written)
        /\ (exists payload fused,
              ScoringAgent.json_of_application render app
              = Orchestration.JDict payload
              /\ Orchestration.dict_lookup payload "ats"
                 = Some (Orchestration.JDict fused)
              /\ Orchestration.dict_lookup fused "final_score"
                 = Some (Orchestration.JNum (final_score (AtsSignals.ats app)))
              /\ Orchestration.dict_lookup fused "final_score_norm"
                 = Some (Orchestration.JNum (final_score_norm (AtsSignals.ats app))))
        /\ (exists s3 s4 s5 s6 raw,
              fuse_components semantic_score skill_fit_index s3 s4 s5 s6 None
              = Ok (AtsSignals.ats app)
              /\ raw_score_of default_weights (_clamp01 semantic_score)
                   (_clamp01 skill_fit_index) (_clamp01 s3) (_clamp01 s4)
                   (_clamp01 s5) (_clamp01 s6) = Ok raw
              /\ final_score_norm (AtsSignals.ats app)
                 = _clamp01 (raw / weight_norm default_weights)
              /\ final_score (AtsSignals.ats app)
                 = py_round (final_score_norm (AtsSignals.ats app) * 100) 2))
  /\ (forall (render : Explanation -> string)
        (other : Orchestration.Json -> Orchestration.Json -> Orchestration.Json ->
                 Orchestration.Json -> Orchestration.Json -> Orchestration.Json ->
                 result Orchestration.Json)
        (embed_fn : Orchestration.Json)
        (tools : Orchestration.Tools) results_dir resume_path jd_text
        target_role save_result started_at elapsed_s
        resume_data jd_data matcher
        (resume_text jd_raw_text : string) (semantic_score skill_fit_index : Q)
        (jd_keywords : option (list string)) (e : exn),
        Orchestration.scoring_tools tools
        = ScoringAgent.score_try render other (Ok embed_fn) ->
        Orchestration.resume_tools tools resume_path = Ok resume_data ->
        Orchestration.JDAnalyzerAgent_process tools jd_text = Ok jd_data ->
        Orchestration.MatcherAgent_match tools resume_data jd_text = Ok matcher ->
        ScoringAgent.payloads_read resume_data jd_data matcher resume_text
          jd_raw_text semantic_score skill_fit_index jd_keywords ->
        AtsSignals.score_application resume_text jd_raw_text semantic_score
          skill_fit_index jd_keywords None = Raise e ->
        exists msg,
          Orchestration.dict_lookup
            (Orchestration.run tools (Orchestration.default_agents tools)
               results_dir resume_path jd_text target_role save_result
               started_at elapsed_s) "ats"
          = Some (ScoringAgent.degraded_score msg)).
Proof.
  split; [|split; [|split]].
  - intros s1 s2 s3 s4 s5 s6.
    destruct (fuse_default_shape s1 s2 s3 s4 s5 s6) as (r & Hr & Hn & Hs).
    exists r. eexists. split; [exact Hr|].
    split; [apply raw_score_default; apply clamp01_range|].
    split; [exact Hn|]. split; [exact Hs|]. exact weight_norm_default.
  - intros structure_score action_verbs_score resume_text jd_text
      semantic_score keyword_overlap raw.
    split; [reflexivity | apply sigmoid_range].
  - intros render other embed_fn tools results_dir resume_path jd_text
      target_role save_result started_at elapsed_s resume_data jd_data matcher
      resume_text jd_raw_text semantic_score skill_fit_index jd_keywords app
      Htools Hr Hj Hm Hread Happ written record path.
    assert (Hscore : Orchestration.scoring_tools tools resume_data jd_data matcher
                     = Ok (ScoringAgent.json_of_application render app)).
    { rewrite Htools, (score_try_reads render other embed_fn Hread), Happ.
      reflexivity. }
    assert (Hwritten : written
              = [("meta"%string,
                  Orchestration.JDict
                    [("started_at"%string, Orchestration.JInt started_at);
                     ("target_role"%string, Orchestration.opt_json target_role);
                     ("elapsed_s"%string, Orchestration.JNum elapsed_s)]);
                 ("resume"%string, resume_data);
                 ("jd"%string, jd_data);
                 ("matcher"%string, matcher);
                 ("optimized_resume"%string,
                  match Orchestration.optimizer_agent_optimize
                          (Orchestration.default_agents tools) resume_data jd_data with
                  | Ok optimized => optimized
                  | Raise _ => Orchestration.JNull
                  end);
                 ("ats"%string, ScoringAgent.json_of_application render app);
                 ("status"%string, Orchestration.JStr "success")]).
    { subst written. apply pipeline_success.
      - cbn. unfold Orchestration.ResumeAgent_process. now rewrite Hr.
      - exact Hj.
      - exact Hm.
      - cbn. unfold Orchestration.ScoringAgent_score. now rewrite Hscore. }
    assert (Hats : Orchestration.dict_lookup written "ats"
                   = Some (ScoringAgent.json_of_application render app))
      by (rewrite Hwritten; reflexivity).
    split; [exact Hats|]. split.
    + subst record. rewrite run_lookup by discriminate. exact Hats.
    + split; [subst record written path; unfold Orchestration.run; reflexivity|].
      split.
      * do 2 eexists. split; [reflexivity|]. split; [reflexivity|].
        split; reflexivity.
      * exact (score_application_canonical _ _ _ _ _ Happ).
  - intros render other embed_fn tools results_dir resume_path jd_text
      target_role save_result started_at elapsed_s resume_data jd_data matcher
      resume_text jd_raw_text semantic_score skill_fit_index jd_keywords e
      Htools Hr Hj Hm Hread Happ.
    assert (Hscore : Orchestration.scoring_tools tools resume_data jd_data matcher
                     = Raise e).
    { rewrite Htools, (score_try_reads render other embed_fn Hread), Happ.
      reflexivity. }
    exists (str_of_exn e). rewrite run_lookup by discriminate.
    rewrite (@pipeline_success (Orchestration.default_agents tools)
               resume_path jd_text target_role started_at elapsed_s
               resume_data jd_data matcher
               (ScoringAgent.degraded_score (str_of_exn e))).
    + reflexivity.
    + cbn. unfold Orchestration.ResumeAgent_process. now rewrite Hr.
    + exact Hj.
    + exact Hm.
    + cbn. unfold Orchestration.ScoringAgent_score. now rewrite Hscore.
Qed.

Lemma canonical_and_display_scores_are_separate_witness :
  match AtsSignals.score_application "Led the team. 3 years of Python on AWS."
          "Python developer, 5+ years" (7 # 10) (1 # 2)
          (Some ["Python"%string; "Docker"%string]) None with
  | Ok app =>
      Orchestration.dict_lookup
        (Orchestration.run ScoringAgent.tools_scoring
           (Orchestration.default_agents ScoringAgent.tools_scoring)
           "data/results" (Orchestration.Path "cv.pdf") "JD" None true 42 (1 # 2))
        "ats"
      = Some (ScoringAgent.json_of_application expl_label app)
      /\ (final_score (AtsSignals.ats app) == 587 # 10)%Q
  | Raise _ => False
  end.
Proof.
  destruct canonical_and_display_scores_are_separate as (_ & _ & Hats & _).
  destruct (AtsSignals.score_application "Led the team. 3 years of Python on AWS."
              "Python developer, 5+ years" (7 # 10) (1 # 2)
              (Some ["Python"%string; "Docker"%string]) None) as [app|e] eqn:E.
  - split; [|vm_compute in E; injection E as <-; reflexivity].
    refine (proj1 (proj2 (Hats expl_label (fun _ _ _ _ _ _ => Raise TypeError)
              Orchestration.JNull ScoringAgent.tools_scoring "data/results"%string
              (Orchestration.Path "cv.pdf") "JD"%string None true 42%nat (1 # 2)
              _ _ _ "Led the team. 3 years of Python on AWS."%string
              "Python developer, 5+ years"%string (7 # 10) (1 # 2)
              (Some ["Python"%string; "Docker"%string]) app
              eq_refl eq_refl eq_refl eq_refl _ E))).
    repeat split; try reflexivity. eexists. split; reflexivity.
  - vm_compute in E. discriminate.
Defined.

End TwoFormulasClaim.
